(* ===== verification/_CoqProject ===== *)
-Q . S2P
Prelude.v
CMem.v
Sha256.v
Hashmap.v
Pgvector.v
Node.v
Codec.v
NodeCodec.v
Heap.v
Ring.v
Insert.v
Delete.v
LeafSpec.v
Merkle.v
Store.v
Vo.v
HmCodec.v
RangeQuery.v
Reconstruct.v
ReconstructSpec.v
ReconstructRoot.v
QuerySpec.v
RangeSpec.v
Pipeline.v
Numbering.v
StoreSpec.v
IndexAm.v
Scan.v
Wire.v
Threads.v
Client.v
System.v
Refresh.v
SearchTree.v
Grow.v
CStr.v
Ledger.v
LedgerSpec.v
Session.v
InsertTuple.v
Dump.v
Select.v
ThreadPool.v
