(* ===== verification/Prelude.v ===== *)
(** * Blockchain PG: a verification of the Merkle B+-tree

    Blockchain PG is PostgreSQL 8.4 with an index whose answers can be checked.
    The index is a B+-tree in memory whose nodes carry hashes (src/src/backend/mbt,
    src/src/include/mbt).  An insertion into the table goes to the tree; after 998
    insertions each further one hashes the tree, numbers its nodes and stores it,
    and the root hash goes to the client.  A query for a range of keys returns the
    rows together with a verification object: the hashes beside the two paths to
    the ends of the range, the strings of the range, and maps with the numbers of
    every node's children.  The client (src/src/interfaces/libpq) rebuilds the
    root hash from them and compares it with the one it knows.  Every INSERT into
    such a table is also recorded in a table of the history, whose rows are chained
    by hashes (src/src/backend/tcop).

    ** The model

    The code is C; its functions are translated to Rocq functions of the same
    name.  A result [None] is undefined behaviour: an access outside an array or a
    block, a NULL or freed pointer, a failed assertion, a string without end.  A
    theorem that an operation gives [Some] therefore says that it is defined.  An
    [int] product that overflows is [None], too.  Two habits of the code are outside
    its objects on every platform: it pushes a pointer of 8 bytes into vectors of
    larger elements, and it writes behind blocks.  What then happens depends on what
    is there: the class [Platform] (CMem) has the number of bytes that can be read
    behind a local variable ([past_local]) and behind a block ([past_block]), and
    how much of a page [pwrite] writes; the argument [usable] has the bytes of a
    block that can be used.  Theorems name what they need of them, and some say what
    happens without it.  The scan, where raising an error, undefined behaviour and
    running out of fuel must be told apart, has the type [outcome] (Scan).
    Machine integers are [Z] with the wrap-around written out ([u32], [s32], [u64]),
    buffers are lists of bytes, structs are records, arrays are lists accessed with
    [aget] and [aset].  The functions on the tree run in a state and error monad
    over the memory of Heap.v: the tree, the nodes by location, the cells of the
    item pointers, the pages of the file.

    - Prelude: scope, monad notation, arrays, counted loops with their rules,
      tactics and hint databases.  CMem: byte buffers and the functions of
      <string.h>.
    - Sha256: sha256.c, with the specification of FIPS 180-4.
    - Hashmap: hashmap.c, refined to finite maps.
    - Pgvector: pgvector.c at the level of bytes, refined to lists.
    - Node: the structs of mbtree.h and the binary search.  Codec, NodeCodec: the
      pages of nodes.  Heap: memory, monad and allocation.  Ring: the lists of the
      levels.
    - Insert, Delete: bplus_tree_insert, bplus_tree_delete, bplus_tree_search,
      bplus_tree_get and bplus_tree_put with all they call.  LeafSpec: what the
      leaf operations do to the entries.
    - Merkle: hashcompute (vibuilder.c) against the interface [HashFn], with
      [sha256_pg] as an instance.
    - Store: set_node_id and bplus_tree_store.  Numbering and StoreSpec: what they
      compute.
    - Vo, HmCodec: verification objects and maps of child numbers with their
      serialised forms.
    - RangeQuery: bplus_tree_get_range_disk_vo.  QuerySpec, RangeSpec: the
      invariant [indexed] of a tree that can be queried, and what the query
      returns.
    - Reconstruct: reconstruct_root of the server.  ReconstructSpec,
      ReconstructRoot: its result level by level.  Pipeline: from the query to the
      root hash.
    - IndexAm: mbtbuild, mbtinsert and mbtgettuple with their global variables
      (src/src/backend/access/mbtree/mbtree.c) and AuthRangeQuery (testtree.h).
    - Scan: AuthIndexNext (nodeIndexscan.c), auth_index_getnext (indexam.c),
      ExecScan (execScan.c), the loop and the end of ExecutePlan (execMain.c) and
      printVO (printtup.c).
    - Wire: the messages U, C and L in pqParseInput3 (fe-protocol3.c).
    - Threads: the two threads of rr_leaf_node (clientmbtree.c), which share a hash
      map (clienthashmap.c) without a lock, one access at a time.
    - Client: reconstruct_root of the client (clientmbtree.c) and the verdict at the
      end of a message U.
    - System, Refresh: the components together.
    - SearchTree: bplus_tree_put against a finite map on the abstract search tree.
      Grow: the first entry and the split of the root leaf.
    - CStr: strtok, strstr, atoi and sprintf.  Ledger: the recording of statements
      (parsestring and what was added to exec_simple_query and PostgresMain in
      postgres.c, the tag of an INSERT in pquery.c).  LedgerSpec: what each of its
      loops computes.  Session: sequences of statements.  The bytes the allocator
      has behind a block ([usable]) and parser and executor ([run]) are arguments.
    - InsertTuple: getTupleValue and ExecInsertIndexTuples (execUtils.c), which
      bring a row to the access method.
    - Dump: bplus_tree_dump with its stack.
    - Select: an authenticated SELECT from parse analysis (analyze.c, parse_expr.c)
      over the choice of the index (relcache.c, plancat.c, pathnode.c,
      createplan.c) to the scan.
    - ThreadPool: threadpool.c of libpq as a transition system.

    ** What is proved

    - End to end (System.honest_answer): on an index of more than one leaf, for a
      range that does not reach the last key, the executor returns the rows that are
      kept, and what arrives at the client decodes to maps and an object that fit
      the range; the check in libpq of this honest answer is undefined, because its
      blocks are too small.  Refresh.mbtinsert_refreshes: the insertion that
      refreshes the index, the first or a later one, leaves the state this theorem
      starts from.
    - Query and reconstruction (Pipeline, ReconstructRoot, IndexAm): the query
      returns the entries of the range and an object that fits it, and where it is
      undefined; every object that fits a range over several leaves leads the
      server's reconstruct_root to the Merkle hash; what has no effect when the
      range lies in one leaf.
    - The Merkle tree (Merkle): hashcompute fills every hash with that of the
      abstract tree, and equal root hashes mean equal strings or a collision.
    - Numbering and storing (Numbering, StoreSpec): numbers, maps and pages are
      those the position of a node in its level determines.
    - The tree (Ring, LeafSpec, Node): the lists stay rings; entries stay sorted; what
      the code does to the strings and item pointers in a split, an insertion and
      a deletion, and to the non-leaves in a lookup.
    - The libraries (Sha256, Hashmap, Pgvector): SHA-256 is that of FIPS 180-4 for
      any chunks, the map refines finite maps, the vector refines lists, with
      their behaviour when memory runs out.
    - Round trips (NodeCodec, Vo, HmCodec, Wire): pages, objects, maps and messages
      bring back what was written.
    - The executor and the client (Scan, Select, Wire, Threads, Client): a SELECT
      over an index of the tree ends with every row of its range returned; which
      index and which range it scans, when the object is not sent, and which
      statements are not answered; the threads of the client agree under every order
      of their accesses when they use different buckets, and can lose a hash when
      they do not; where the client leaves its blocks or ignores part of the answer.
    - Insertion (SearchTree, Grow, InsertTuple): a row reaches the tree with its key
      and its text; bplus_tree_put implements a finite map as long as nodes are
      neither split nor merged, and from the initialisation of the tree up to the
      split of its first leaf behind the middle.
    - The history (Session): which row a statement leaves; the hashes of a session
      form a chain that determines the values of the executed statements, or there
      is a collision; when a row is missing, and where the blocks are too small.
    - Dump: the loop over the stack prints the preorder and ends.
    - The pool (ThreadPool): tasks are run once and in order, no wake-up is lost,
      and the destruction ends.

    Several theorems state behaviour that the code cannot have been meant to have;
    they are stated as the code behaves.

    ** Fuel and bounds

    Loops over the slots of a node have [loop_fuel] = 120 rounds, more than two
    indices of at most 50; walks between root and leaves have [depth_fuel] = 12,
    more than the 10 levels the tree has heads for; walks along a level have one
    round per node in memory and one more, since they pass every node once; the
    scan of a range has 51 rounds per node, more than the 50 entries of a leaf.
    The theorems above prove that these suffice where they say that a result is
    reached.  The executor's loop takes its fuel as an argument, which must exceed
    the number of rows.  A loop over strtok has one round per byte of the string and
    one more; the joins of the client's threads have three steps per pair of the
    map and eight more for each round of a thread; exec_simple_query has 3, since a recorded statement is executed by one
    call more; the dump has a number of rounds computed from the tree.  A message
    to be hashed has fewer than 2^29 characters, so that its length in bits fits the
    32-bit counter.

    ** Not modelled

    - The copies of the hash map, the vector and SHA-256 in libpq, which repeat the
      text of the server, and that of hashcompute, which libpq does not call.
    - The entry points of the access method besides building, inserting and
      fetching: their bodies are comments or unchanged PostgreSQL code.
    - PostgreSQL itself: the buffer manager and the function manager are arguments
      of the scan, the unchanged parts of parse analysis are arguments of Select;
      grammar, joins, sorting and the other clauses are left out.
    - Failures of [malloc] where the code does not test its result, and orders of
      memory accesses of the client's threads that no interleaving of their
      accesses gives.
    - Target lists with functions that return sets, and junk filters, in the scan.

    ** Plan

    The remaining splits and the merges on the abstract search tree, so that the
    hypothesis of mbtinsert_refreshes on the result of bplus_tree_put becomes a
    theorem; the statement CREATE AUTHTABLE, which is modelled (create_history) without a theorem. *)

From stdpp Require Export base tactics numbers list gmap option sorting.
From Stdlib Require Export ZArith Lia ZifyNat.

Declare Scope cmodel_scope.
Delimit Scope cmodel_scope with cm.
#[global] Open Scope cmodel_scope.
#[global] Open Scope Z_scope.

(** Hint databases of the development: [cdef] for side conditions about array
    and buffer lengths, [clen] for rewriting lengths. *)
Create HintDb cdef discriminated.
Create Rewrite HintDb clen.

(** ** Lengths as integers *)

(** C indices are signed integers, so lengths are measured in [Z]. *)
Definition zlen {A} (l : list A) : Z := Z.of_nat (length l).

Lemma zlen_nonneg {A} (l : list A) : 0 <= zlen l.
Proof. unfold zlen; lia. Qed.

Lemma zlen_nil {A} : zlen (@nil A) = 0.
Proof. reflexivity. Qed.

Lemma zlen_cons {A} (x : A) l : zlen (x :: l) = 1 + zlen l.
Proof. unfold zlen; simpl; lia. Qed.

Lemma zlen_app {A} (l k : list A) : zlen (l ++ k) = zlen l + zlen k.
Proof. unfold zlen; rewrite length_app; lia. Qed.

Lemma zlen_replicate {A} n (x : A) : zlen (replicate n x) = Z.of_nat n.
Proof. unfold zlen; rewrite length_replicate; lia. Qed.

Lemma zlen_insert {A} (l : list A) i x : zlen (<[i:=x]> l) = zlen l.
Proof. unfold zlen; rewrite length_insert; lia. Qed.

Lemma zlen_fmap {A B} (f : A -> B) l : zlen (f <$> l) = zlen l.
Proof. unfold zlen; rewrite length_fmap; lia. Qed.

Lemma zlen_take {A} n (l : list A) : zlen (take n l) = Z.min (Z.of_nat n) (zlen l).
Proof. unfold zlen; rewrite length_take; lia. Qed.

Lemma zlen_drop {A} n (l : list A) : zlen (drop n l) = Z.max 0 (zlen l - Z.of_nat n).
Proof. unfold zlen; rewrite length_drop; lia. Qed.

Lemma zlen_delete_le {A} i (l : list A) : zlen (delete i l) <= zlen l.
Proof. pose proof (sublist_length _ _ (sublist_delete l i)). unfold zlen. lia. Qed.

#[export] Hint Rewrite @length_cons @length_app @length_replicate @length_insert @length_fmap
  @length_take @length_drop : clen.

(** [dlia] is [lia] on goals with quotients and remainders. *)
Ltac dlia := zify; Z.to_euclidean_division_equations; lia.

(** [len] normalises lengths and closes linear side conditions. *)
Ltac len := unfold zlen in *; autorewrite with clen in *; simpl length in *; lia.

#[export] Hint Extern 5 (_ <= _) => len : cdef.
#[export] Hint Extern 5 (_ < _) => len : cdef.
#[export] Hint Extern 5 (length _ = _) => len : cdef.

(** ** Machine integers *)

(** Unsigned and signed wrap-around of an integer at a width. *)
Definition wrapu (w : Z) (z : Z) : Z := z mod 2 ^ w.
Definition wraps (w : Z) (z : Z) : Z := (z + 2 ^ (w - 1)) mod 2 ^ w - 2 ^ (w - 1).

Abbreviation u8 := (wrapu 8).
Abbreviation u16 := (wrapu 16).
Abbreviation u32 := (wrapu 32).
Abbreviation u64 := (wrapu 64).
Abbreviation s32 := (wraps 32).
Abbreviation s64 := (wraps 64).

Definition in_u (w z : Z) : Prop := 0 <= z < 2 ^ w.
Definition in_s (w z : Z) : Prop := - 2 ^ (w - 1) <= z < 2 ^ (w - 1).

#[export] Instance in_u_dec w z : Decision (in_u w z).
Proof. unfold in_u; apply _. Defined.
#[export] Instance in_s_dec w z : Decision (in_s w z).
Proof. unfold in_s; apply _. Defined.

(** A byte of memory, as the value of an [unsigned char]. *)
Abbreviation byteb := (in_u 8).

Lemma wrapu_range w z : 0 <= w -> in_u w (wrapu w z).
Proof. intros; unfold in_u, wrapu; apply Z.mod_pos_bound; lia. Qed.

Lemma wrapu_small w z : in_u w z -> wrapu w z = z.
Proof. unfold in_u, wrapu; intros; apply Z.mod_small; lia. Qed.

Lemma wraps_range w z : 0 < w -> in_s w (wraps w z).
Proof.
  intros Hw; unfold in_s, wraps.
  pose proof (Z.mod_pos_bound (z + 2 ^ (w - 1)) (2 ^ w) ltac:(lia)).
  assert (2 ^ w = 2 * 2 ^ (w - 1)) by (rewrite <- Z.pow_succ_r by lia; f_equal; lia).
  lia.
Qed.

Lemma wraps_small w z : 0 < w -> in_s w z -> wraps w z = z.
Proof.
  intros Hw [? ?]; unfold wraps.
  assert (2 ^ w = 2 * 2 ^ (w - 1)) by (rewrite <- Z.pow_succ_r by lia; f_equal; lia).
  rewrite Z.mod_small; lia.
Qed.

Lemma wraps_wrapu w z : 0 < w -> wraps w (wrapu w z) = wraps w z.
Proof. intros; unfold wraps, wrapu. by rewrite Zplus_mod_idemp_l. Qed.

(** ** The error monad of the model

    A C operation that would leave the defined behaviour of the language
    (an access outside an array, a dereference of NULL, a failed [assert])
    has the result [None]. *)
Definition cassert (b : bool) : option unit := if b then Some tt else None.

Notation "'do' x <- e1 ; e2" := (mbind (fun x => e2) e1)
  (at level 100, x binder, e1 at next level, right associativity) : cmodel_scope.
Notation "'do' ' p <- e1 ; e2" := (mbind (fun x => match x with p => e2 end) e1)
  (at level 100, p pattern, e1 at next level, right associativity) : cmodel_scope.
Notation "'check' b ; e" := (mbind (fun _ : unit => e) (cassert b))
  (at level 100, b at next level, right associativity) : cmodel_scope.

Lemma cassert_true b : cassert b = Some tt <-> b = true.
Proof. destruct b; simpl; split; congruence. Qed.

(** Case analysis of a hypothesis [m = Some _] built from binds and asserts. *)
Ltac inv_some :=
  repeat match goal with
  | H : None = Some _ |- _ => discriminate H
  | H : Some _ = None |- _ => discriminate H
  | H : Some _ = Some _ |- _ => injection H as H; subst
  | H : cassert _ = Some ?u |- _ => destruct u; apply cassert_true in H
  | H : mbind _ ?m = Some _ |- _ =>
      let E := fresh "E" in destruct m eqn:E; simpl in H; [|discriminate H]
  end.

(** Closes a decidable goal on closed terms by evaluation. *)
Ltac eval_dec := apply (bool_decide_unpack _); vm_compute; exact I.

(** ** Arrays *)

Definition aget {A} (l : list A) (i : Z) : option A :=
  if 0 <=? i then l !! Z.to_nat i else None.

Definition aset {A} (l : list A) (i : Z) (x : A) : option (list A) :=
  if (0 <=? i) && (i <? zlen l) then Some (<[Z.to_nat i := x]> l) else None.

Lemma aget_Some {A} (l : list A) i x :
  aget l i = Some x <-> 0 <= i /\ l !! Z.to_nat i = Some x.
Proof. unfold aget. destruct (Z.leb_spec 0 i); [tauto|]. split; [done|lia]. Qed.

Lemma aget_is_Some {A} (l : list A) i : 0 <= i < zlen l -> is_Some (aget l i).
Proof.
  intros. unfold aget. destruct (Z.leb_spec 0 i); [|lia].
  apply lookup_lt_is_Some. len.
Qed.

Lemma aget_lt {A} (l : list A) i x : aget l i = Some x -> 0 <= i < zlen l.
Proof. intros [? ?%lookup_lt_Some]%aget_Some. len. Qed.

Lemma aget_nat {A} (l : list A) (n : nat) : aget l (Z.of_nat n) = l !! n.
Proof. unfold aget. destruct (Z.leb_spec 0 (Z.of_nat n)); [f_equal; lia|lia]. Qed.

Lemma aset_Some {A} (l : list A) i x :
  0 <= i < zlen l -> aset l i x = Some (<[Z.to_nat i := x]> l).
Proof.
  intros. unfold aset. destruct (Z.leb_spec 0 i), (Z.ltb_spec i (zlen l)); simpl; done || lia.
Qed.

Lemma aset_inv {A} (l l' : list A) i x :
  aset l i x = Some l' -> 0 <= i < zlen l /\ l' = <[Z.to_nat i := x]> l.
Proof.
  unfold aset. destruct (Z.leb_spec 0 i), (Z.ltb_spec i (zlen l)); simpl; naive_solver lia.
Qed.

(** ** Loops *)

(** [for_n n i body s]: the [n] iterations of a counted loop from index [i] on. *)
Fixpoint for_n {S} (n : nat) (i : Z) (body : Z -> S -> option S) (s : S) : option S :=
  match n with
  | O => Some s
  | Datatypes.S n' => do s' <- body i s; for_n n' (i + 1) body s'
  end.

(** [for (i = lo; i < hi; i++) body]. *)
Definition for_range {S} (lo hi : Z) (body : Z -> S -> option S) (s : S) : option S :=
  for_n (Z.to_nat (hi - lo)) lo body s.

(** The rule for counted loops, total correctness: an invariant indexed by the
    loop counter that every iteration establishes for the next index. *)
Lemma for_n_rule {S} (P : Z -> S -> Prop) n lo body s :
  P lo s ->
  (forall i s, lo <= i < lo + Z.of_nat n -> P i s ->
     exists s', body i s = Some s' /\ P (i + 1) s') ->
  exists s', for_n n lo body s = Some s' /\ P (lo + Z.of_nat n) s'.
Proof.
  revert lo s. induction n as [|n IH]; intros lo s H0 Hstep.
  - exists s. by rewrite Z.add_0_r.
  - destruct (Hstep lo s) as (s1 & E1 & H1); [lia|done|].
    destruct (IH (lo + 1) s1) as (s2 & E2 & H2); [done| |].
    { intros i s3 ?. apply Hstep. lia. }
    exists s2. simpl. rewrite E1. simpl.
    replace (lo + Z.of_nat (Datatypes.S n)) with (lo + 1 + Z.of_nat n) by lia. done.
Qed.

Lemma for_range_rule {S} (P : Z -> S -> Prop) lo hi body s :
  lo <= hi -> P lo s ->
  (forall i s, lo <= i < hi -> P i s -> exists s', body i s = Some s' /\ P (i + 1) s') ->
  exists s', for_range lo hi body s = Some s' /\ P hi s'.
Proof.
  intros Hle H0 Hstep. unfold for_range.
  destruct (for_n_rule P (Z.to_nat (hi - lo)) lo body s) as (s' & E & H); [done| |].
  - intros i s1 ?. apply Hstep. lia.
  - exists s'. replace hi with (lo + Z.of_nat (Z.to_nat (hi - lo))) at 2 by lia. done.
Qed.

(** The rule for a loop that is known to end: the invariant holds behind it. *)
Lemma for_n_inv {S} (P : Z -> S -> Prop) n body s' : forall lo s,
  for_n n lo body s = Some s' -> P lo s ->
  (forall i s1 s2, lo <= i < lo + Z.of_nat n -> P i s1 -> body i s1 = Some s2 -> P (i + 1) s2) ->
  P (lo + Z.of_nat n) s'.
Proof.
  induction n as [|n IH]; intros lo s E H0 Hstep; simpl in E.
  - injection E as ->. by rewrite Z.add_0_r.
  - destruct (body lo s) as [s1|] eqn:E1; [|discriminate E]. simpl in E.
    replace (lo + Z.of_nat (Datatypes.S n)) with ((lo + 1) + Z.of_nat n) by lia.
    apply (IH (lo + 1) s1 E).
    + apply (Hstep lo s); [lia|done|done].
    + intros i a b Hi. apply Hstep. lia.
Qed.

Lemma for_range_inv {S} (P : Z -> S -> Prop) lo hi body s s' :
  for_range lo hi body s = Some s' -> lo <= hi -> P lo s ->
  (forall i s1 s2, lo <= i < hi -> P i s1 -> body i s1 = Some s2 -> P (i + 1) s2) -> P hi s'.
Proof.
  intros E Hle H0 Hstep. replace hi with (lo + Z.of_nat (Z.to_nat (hi - lo))) by lia.
  apply (for_n_inv P _ body s' lo s E H0). intros i a b Hi. apply Hstep. lia.
Qed.

Lemma for_range_empty {S} lo hi (body : Z -> S -> option S) s :
  hi <= lo -> for_range lo hi body s = Some s.
Proof. intros. unfold for_range. by replace (Z.to_nat (hi - lo)) with O by lia. Qed.

(** [yields o Q]: the operation is defined and its result satisfies [Q]. *)
Definition yields {A} (o : option A) (Q : A -> Prop) : Prop := exists x, o = Some x /\ Q x.

Lemma yields_ret {A} (x : A) (Q : A -> Prop) : Q x -> yields (Some x) Q.
Proof. intros. by exists x. Qed.

Lemma yields_bind {A B} (o : option A) (f : A -> option B) (Q : B -> Prop) :
  yields o (fun x => yields (f x) Q) -> yields (mbind f o) Q.
Proof. intros (x & -> & y & E & HQ). exists y. done. Qed.

Lemma yields_wand {A} (o : option A) (P Q : A -> Prop) :
  yields o P -> (forall x, P x -> Q x) -> yields o Q.
Proof. intros (x & -> & HP) HPQ. exists x. auto. Qed.

Lemma yields_eq {A} (o : option A) x (Q : A -> Prop) : o = Some x -> Q x -> yields o Q.
Proof. intros -> HQ. by exists x. Qed.

Lemma yields_aget {A} (l : list A) i x (Q : A -> Prop) :
  0 <= i -> l !! Z.to_nat i = Some x -> Q x -> yields (aget l i) Q.
Proof. intros Hi Hx HQ. exists x. split; [|done]. by apply aget_Some. Qed.

Lemma yields_aset {A} (l : list A) i x (Q : list A -> Prop) :
  0 <= i < zlen l -> Q (<[Z.to_nat i := x]> l) -> yields (aset l i x) Q.
Proof. intros Hi HQ. eexists. split; [by apply aset_Some|done]. Qed.

Lemma yields_for {S} (P : Z -> S -> Prop) lo hi body s (Q : S -> Prop) :
  lo <= hi -> P lo s ->
  (forall i s, lo <= i < hi -> P i s -> yields (body i s) (P (i + 1))) ->
  (forall s, P hi s -> Q s) -> yields (for_range lo hi body s) Q.
Proof.
  intros Hle H0 Hstep HQ. destruct (for_range_rule P lo hi body s Hle H0 Hstep) as (s' & E & H').
  exists s'. auto.
Qed.

(** A loop one of whose rounds cannot succeed does not succeed. *)
Lemma for_n_fail {S} (body : Z -> S -> option S) k n : forall i s,
  (k < n)%nat -> (forall s', body (i + Z.of_nat k) s' = None) -> for_n n i body s = None.
Proof.
  revert n. induction k as [|k IH]; intros [|n] i s Hk Hb; try lia; simpl.
  - rewrite Z.add_0_r in Hb. by rewrite Hb.
  - destruct (body i s) as [s'|]; [|done]. simpl. apply IH; [lia|].
    intros s''. replace (i + 1 + Z.of_nat k) with (i + Z.of_nat (Datatypes.S k)) by lia. apply Hb.
Qed.

Lemma for_range_fail {S} lo hi k (body : Z -> S -> option S) s :
  lo <= k < hi -> (forall s', body k s' = None) -> for_range lo hi body s = None.
Proof.
  intros Hk Hb. unfold for_range. apply (for_n_fail body (Z.to_nat (k - lo))); [lia|].
  intros s'. replace (lo + Z.of_nat (Z.to_nat (k - lo))) with k by lia. apply Hb.
Qed.

(** ** Prefixes of arrays *)

(** Writing the slot behind a prefix that matches extends the match. *)
Lemma Forall2_take_insert {A B} (P : A -> B -> Prop) (xs : list A) (ys : list B) i x y :
  Forall2 P (take i xs) (take i ys) -> (i < length xs)%nat -> ys !! i = Some y -> P x y ->
  Forall2 P (take (S i) (<[i := x]> xs)) (take (S i) ys).
Proof.
  intros Hp Hi Hy Hxy.
  rewrite (take_S_r _ _ x) by by apply list_lookup_insert_eq.
  rewrite (take_S_r ys _ y) by done. rewrite take_insert_ge by lia.
  apply Forall2_app; [done|by repeat constructor].
Qed.

(** A slot of a prefix that matches. *)
Lemma Forall2_take_lookup {A B} (P : A -> B -> Prop) (xs : list A) (ys : list B) n i y :
  Forall2 P (take n xs) ys -> ys !! i = Some y -> exists x, xs !! i = Some x /\ P x y.
Proof.
  intros Hp Hy. destruct (Forall2_lookup_r _ _ _ _ _ Hp Hy) as (x & Hx & HP).
  apply lookup_take_Some in Hx as [Hx _]. by exists x.
Qed.

Lemma concat_take_S {A} (xs : list (list A)) i x :
  xs !! i = Some x -> concat (take (S i) xs) = concat (take i xs) ++ x.
Proof. intros Hx. rewrite (take_S_r _ _ x) by done. rewrite concat_app. simpl. by rewrite app_nil_r. Qed.

Lemma concat_length {A} (xs : list (list A)) n :
  Forall (fun x => length x = n) xs -> length (concat xs) = (n * length xs)%nat.
Proof. induction 1 as [|x xs Hx _ IH]; simpl; [lia|]. rewrite length_app, IH. lia. Qed.

Lemma take_insert_snoc {A} (l k : list A) i x :
  (i < length l)%nat -> take i l = k -> take (S i) (<[i:=x]> l) = k ++ [x].
Proof.
  intros Hi <-. rewrite (take_S_r _ _ x).
  - by rewrite take_insert_ge by lia.
  - by apply list_lookup_insert_eq.
Qed.

(** ** Concatenations *)

(** The elements of the parts of a concatenation without duplicates. *)
Lemma concat_map_elem {A B} (f : A -> list B) x xs y : x ∈ xs -> y ∈ f x -> y ∈ concat (map f xs).
Proof.
  intros Hx Hy. apply list_elem_of_In, in_concat. exists (f x).
  split; [apply in_map|]; by apply list_elem_of_In.
Qed.

Lemma concat_map_disjoint {A B} (f : A -> list B) xs i j x x' y :
  NoDup (concat (map f xs)) -> xs !! i = Some x -> xs !! j = Some x' -> y ∈ f x -> y ∈ f x' -> i = j.
Proof.
  revert i j. induction xs as [|x0 xs IH]; intros [|i] [|j] Hnd Hi Hj Hy Hy'; try done; simpl in *;
    apply NoDup_app in Hnd as (_ & Hd & Hnd).
  - simplify_eq. destruct (Hd y Hy). eapply concat_map_elem; [by eapply list_elem_of_lookup_2|done].
  - simplify_eq. destruct (Hd y Hy'). eapply concat_map_elem; [by eapply list_elem_of_lookup_2|done].
  - f_equal. by apply (IH i j).
Qed.

Lemma concat_map_NoDup {A B} (f : A -> list B) xs i x : NoDup (concat (map f xs)) -> xs !! i = Some x -> NoDup (f x).
Proof.
  revert i. induction xs as [|x0 xs IH]; intros [|i] Hnd Hi; try done; simpl in *;
    apply NoDup_app in Hnd as (H1 & _ & H2); [by simplify_eq|by apply (IH i)].
Qed.

(** ** Inserting into a list *)

Definition insert_at {A} (i : nat) (x : A) (l : list A) : list A := take i l ++ x :: drop i l.

Lemma insert_at_length {A} i (x : A) l : length (insert_at i x l) = S (length l).
Proof. unfold insert_at. rewrite length_app. cbn [length]. rewrite length_take, length_drop. lia. Qed.

#[export] Hint Rewrite @insert_at_length : clen.

Lemma insert_at_fmap {A B} (f : A -> B) i x l : f <$> insert_at i x l = insert_at i (f x) (f <$> l).
Proof. unfold insert_at. rewrite fmap_app, fmap_cons, fmap_take, fmap_drop. done. Qed.

Lemma insert_at_take {A} i n (x : A) l :
  (i <= n)%nat -> take i l ++ x :: drop i (take n l) = insert_at i x (take n l).
Proof. intros. unfold insert_at. by rewrite take_take, Nat.min_l. Qed.
