(* ===== verification/CMem.v ===== *)
(** * Byte buffers and the C library functions on them

    The parts of <string.h> the code calls ([memcpy], [memset], [strlen],
    [strcpy], [strncpy], [strcat]) on buffers of bytes, and the little-endian
    representation of the integers it copies in and out of buffers through
    pointers.  A buffer is the list of the bytes of one object; a read or write
    outside of it, and a string operation on a buffer with no terminator, are
    outside the defined behaviour of C and give [None]. *)

From S2P Require Import Prelude.

(** ** Reading and writing a buffer *)

Definition read_bytes (buf : list Z) (pos n : Z) : option (list Z) :=
  if (0 <=? pos) && (0 <=? n) && (pos + n <=? zlen buf)
  then Some (take (Z.to_nat n) (drop (Z.to_nat pos) buf)) else None.

(** [memcpy(buf + pos, bs, sizeof bs)]. *)
Definition write_bytes (buf : list Z) (pos : Z) (bs : list Z) : option (list Z) :=
  if (0 <=? pos) && (pos + zlen bs <=? zlen buf)
  then Some (take (Z.to_nat pos) buf ++ bs ++ drop (Z.to_nat pos + length bs) buf) else None.

Definition memset (buf : list Z) (pos c n : Z) : option (list Z) :=
  if 0 <=? n then write_bytes buf pos (replicate (Z.to_nat n) c) else None.

Lemma read_bytes_Some buf pos n :
  0 <= pos -> 0 <= n -> pos + n <= zlen buf ->
  read_bytes buf pos n = Some (take (Z.to_nat n) (drop (Z.to_nat pos) buf)).
Proof.
  intros. unfold read_bytes.
  destruct (Z.leb_spec 0 pos), (Z.leb_spec 0 n), (Z.leb_spec (pos + n) (zlen buf));
    simpl; done || lia.
Qed.

Lemma write_bytes_Some buf pos bs :
  0 <= pos -> pos + zlen bs <= zlen buf ->
  write_bytes buf pos bs
  = Some (take (Z.to_nat pos) buf ++ bs ++ drop (Z.to_nat pos + length bs) buf).
Proof.
  intros. unfold write_bytes.
  destruct (Z.leb_spec 0 pos), (Z.leb_spec (pos + zlen bs) (zlen buf)); simpl; done || lia.
Qed.

Lemma write_bytes_inv buf pos bs buf' :
  write_bytes buf pos bs = Some buf' ->
  0 <= pos /\ pos + zlen bs <= zlen buf /\
  buf' = take (Z.to_nat pos) buf ++ bs ++ drop (Z.to_nat pos + length bs) buf.
Proof.
  unfold write_bytes.
  destruct (Z.leb_spec 0 pos), (Z.leb_spec (pos + zlen bs) (zlen buf)); simpl; naive_solver lia.
Qed.

Lemma write_bytes_zlen buf pos bs buf' :
  write_bytes buf pos bs = Some buf' -> zlen buf' = zlen buf.
Proof. intros (? & ? & ->)%write_bytes_inv. len. Qed.

(** Writing right behind a known prefix extends the prefix. *)
Lemma write_bytes_prefix pre rest bs :
  zlen bs <= zlen rest ->
  write_bytes (pre ++ rest) (zlen pre) bs = Some (pre ++ bs ++ drop (length bs) rest).
Proof.
  intros. rewrite write_bytes_Some by len.
  unfold zlen. rewrite Nat2Z.id. f_equal.
  rewrite take_app_length. f_equal. f_equal.
  rewrite drop_app_add. done.
Qed.

(** Reading right behind a known prefix. *)
Lemma read_bytes_prefix pre bs rest n :
  n = zlen bs -> read_bytes (pre ++ bs ++ rest) (zlen pre) n = Some bs.
Proof.
  intros ->. rewrite read_bytes_Some by len.
  unfold zlen. rewrite !Nat2Z.id, drop_app_length, take_app_length. done.
Qed.

(** Both at the start of a buffer. *)
Lemma read_bytes_head bs rest n : n = zlen bs -> read_bytes (bs ++ rest) 0 n = Some bs.
Proof. apply (read_bytes_prefix []). Qed.

Lemma read_bytes_all bs n : n = zlen bs -> read_bytes bs 0 n = Some bs.
Proof. intros. rewrite <- (app_nil_r bs) at 1. by apply read_bytes_head. Qed.

Lemma write_bytes_head buf bs :
  zlen bs <= zlen buf -> write_bytes buf 0 bs = Some (bs ++ drop (length bs) buf).
Proof. apply (write_bytes_prefix []). Qed.

(** ** What C leaves open *)

(** Where the code leaves an object or ignores an error, what happens depends on the
    platform: how many bytes can be read behind a local variable and behind a block of
    [malloc], and how many bytes [pwrite] writes at an offset.  The C standard
    guarantees no byte behind an object; [strict] is that reading. *)
Class Platform := {
  past_local : Z;
  past_block : Z;
  pwritten : Z -> nat
}.

Definition strict : Platform := {| past_local := 0; past_block := 0; pwritten _ := 4096%nat |}.

(** A process that can read on behind its objects, to evaluate properties on. *)
Definition demo_platform : Platform := {| past_local := 64; past_block := 64; pwritten _ := 4096%nat |}.

(** [vector_push_back(v, &p)] copies [element_size] bytes from the address of a
    pointer variable, which has 8. *)
Definition push_variable `{Platform} (element_size : Z) : option unit :=
  cassert (element_size <=? 8 + past_local).

(** [vector_push_back(v, &data[i])] copies them from entry [i] of a block of [n]
    pointers. *)
Definition push_entry `{Platform} (element_size n i : Z) : option unit :=
  cassert (8 * i + element_size <=? 8 * n + past_block).

(** A product of two [int]. *)
Definition int_mul (a b : Z) : option Z := if bool_decide (in_s 32 (a * b)) then Some (a * b) else None.

Lemma int_mul_Some a b : in_s 32 (a * b) -> int_mul a b = Some (a * b).
Proof. intros. unfold int_mul. by rewrite bool_decide_eq_true_2. Qed.

(** A loop [for(i = 0; i < n; i++)] with an [int] counter against a [size_t]: the
    counter reaches [n] only when [n] is an [int]. *)
Definition int_range {S} (n : Z) (f : Z -> S -> option S) (s : S) : option S :=
  check n <? 2 ^ 31; for_range 0 n f s.

Lemma int_range_eq {S} n (f : Z -> S -> option S) s : n < 2 ^ 31 -> int_range n f s = for_range 0 n f s.
Proof. intros Hn. unfold int_range. by rewrite (proj2 (Z.ltb_lt _ _) Hn). Qed.

(** ** Little-endian integers *)

Fixpoint le_split (n : nat) (z : Z) : list Z :=
  match n with
  | O => []
  | S n' => z mod 256 :: le_split n' (z / 256)
  end.

Fixpoint le_combine (bs : list Z) : Z :=
  match bs with
  | [] => 0
  | b :: bs' => b + 256 * le_combine bs'
  end.

Lemma le_split_length n z : length (le_split n z) = n.
Proof. revert z. induction n as [|n IH]; intros z; simpl; [done|]. by rewrite IH. Qed.

Lemma le_split_zlen n z : zlen (le_split n z) = Z.of_nat n.
Proof. unfold zlen. by rewrite le_split_length. Qed.

#[export] Hint Rewrite le_split_length : clen.

Lemma le_split_bytes n z : Forall byteb (le_split n z).
Proof.
  revert z. induction n as [|n IH]; intros z; simpl; constructor; auto.
  unfold in_u. apply Z.mod_pos_bound. lia.
Qed.

Lemma le_combine_split n z : le_combine (le_split n z) = wrapu (8 * Z.of_nat n) z.
Proof.
  revert z. induction n as [|n IH]; intros z.
  - unfold wrapu. simpl. by rewrite Z.mod_1_r.
  - cbn [le_split le_combine]. rewrite IH. unfold wrapu.
    replace (8 * Z.of_nat (S n)) with (8 + 8 * Z.of_nat n) by lia.
    rewrite Z.pow_add_r by lia. change (2 ^ 8) with 256.
    rewrite Z.rem_mul_r; lia.
Qed.

#[global] Arguments le_split : simpl never.
#[global] Arguments le_combine : simpl never.

(** The bytes of a [uint16], [int], [int64_t], [size_t] object. *)
Definition put16 (z : Z) : list Z := le_split 2 z.
Definition put32 (z : Z) : list Z := le_split 4 z.
Definition put64 (z : Z) : list Z := le_split 8 z.
#[global] Arguments put16 _ : simpl never.
#[global] Arguments put32 _ : simpl never.
#[global] Arguments put64 _ : simpl never.

(** The value read through a pointer of that type. *)
Definition get_u16 (buf : list Z) (pos : Z) : option Z := le_combine <$> read_bytes buf pos 2.
Definition get_s32 (buf : list Z) (pos : Z) : option Z :=
  (fun bs => s32 (le_combine bs)) <$> read_bytes buf pos 4.
Definition get_s64 (buf : list Z) (pos : Z) : option Z :=
  (fun bs => s64 (le_combine bs)) <$> read_bytes buf pos 8.
Definition get_u64 (buf : list Z) (pos : Z) : option Z := le_combine <$> read_bytes buf pos 8.

Lemma put16_length z : length (put16 z) = 2%nat.
Proof. done. Qed.
Lemma put32_length z : length (put32 z) = 4%nat.
Proof. done. Qed.
Lemma put64_length z : length (put64 z) = 8%nat.
Proof. done. Qed.
#[export] Hint Rewrite put16_length put32_length put64_length : clen.

(** Reading back, behind a known prefix, an integer that was copied there. *)
Lemma get_u16_put pre z rest :
  in_u 16 z -> get_u16 (pre ++ put16 z ++ rest) (zlen pre) = Some z.
Proof.
  intros. unfold get_u16. rewrite read_bytes_prefix by done. simpl.
  unfold put16. rewrite le_combine_split, wrapu_small; done.
Qed.

Lemma get_s32_put pre z rest :
  in_s 32 z -> get_s32 (pre ++ put32 z ++ rest) (zlen pre) = Some z.
Proof.
  intros. unfold get_s32. rewrite read_bytes_prefix by done. simpl.
  unfold put32. rewrite le_combine_split. change (8 * Z.of_nat 4) with 32.
  rewrite wraps_wrapu, wraps_small by lia || done. done.
Qed.

Lemma get_s64_put pre z rest :
  in_s 64 z -> get_s64 (pre ++ put64 z ++ rest) (zlen pre) = Some z.
Proof.
  intros. unfold get_s64. rewrite read_bytes_prefix by done. simpl.
  unfold put64. rewrite le_combine_split. change (8 * Z.of_nat 8) with 64.
  rewrite wraps_wrapu, wraps_small by lia || done. done.
Qed.

Lemma get_u64_put pre z rest :
  in_u 64 z -> get_u64 (pre ++ put64 z ++ rest) (zlen pre) = Some z.
Proof.
  intros. unfold get_u64. rewrite read_bytes_prefix by done. simpl.
  unfold put64. rewrite le_combine_split, wrapu_small; done.
Qed.

(** ** Strings *)

(** The characters of the string at the start of a buffer: the bytes before the
    first NUL, [None] when the buffer has none. *)
Fixpoint cstr (buf : list Z) : option (list Z) :=
  match buf with
  | [] => None
  | c :: buf' => if c =? 0 then Some [] else do s <- cstr buf'; Some (c :: s)
  end.

Definition strlen (buf : list Z) : option Z := zlen <$> cstr buf.

Definition strcpy (dst src : list Z) : option (list Z) :=
  do s <- cstr src; write_bytes dst 0 (s ++ [0]).

Definition strcat (dst src : list Z) : option (list Z) :=
  do d <- cstr dst; do s <- cstr src; write_bytes dst (zlen d) (s ++ [0]).

(** The [n] bytes [strncpy] writes: the string cut at [n], padded with NULs. *)
Fixpoint strncpy_bytes (src : list Z) (n : nat) {struct n} : option (list Z) :=
  match n with
  | O => Some []
  | S n' =>
      match src with
      | [] => None
      | c :: src' => if c =? 0 then Some (replicate n 0)
                     else do s <- strncpy_bytes src' n'; Some (c :: s)
      end
  end.

Definition strncpy (dst src : list Z) (n : nat) : option (list Z) :=
  do s <- strncpy_bytes src n; write_bytes dst 0 s.

(** A character of a string is not NUL. *)
Definition chars (s : list Z) : Prop := Forall (fun c => c <> 0) s.

#[export] Instance chars_dec s : Decision (chars s).
Proof. unfold chars; apply _. Defined.

Lemma cstr_chars buf s : cstr buf = Some s -> chars s.
Proof.
  revert s. induction buf as [|c buf IH]; intros s; simpl; [done|].
  destruct (Z.eqb_spec c 0).
  - intros. inv_some. constructor.
  - intros. inv_some. constructor; [done|]. by apply IH.
Qed.

Lemma cstr_app s rest : chars s -> cstr (s ++ 0 :: rest) = Some s.
Proof.
  induction 1 as [|c s Hc Hs IH]; simpl; [done|].
  destruct (Z.eqb_spec c 0); [done|]. by rewrite IH.
Qed.

Lemma cstr_inv buf s : cstr buf = Some s -> exists rest, buf = s ++ 0 :: rest.
Proof.
  revert s. induction buf as [|c buf IH]; intros s; simpl; [done|].
  destruct (Z.eqb_spec c 0).
  - intros. inv_some. exists buf. simpl. done.
  - intros. inv_some. destruct (IH _ eq_refl) as [rest ->]. by exists rest.
Qed.

Lemma cstr_fits buf s : cstr buf = Some s -> zlen s < zlen buf.
Proof. intros [rest ->]%cstr_inv. len. Qed.

Lemma strlen_cstr buf s : cstr buf = Some s -> strlen buf = Some (zlen s).
Proof. intros H. unfold strlen. by rewrite H. Qed.

(** [strcpy] succeeds when the string and its terminator fit. *)
Lemma strcpy_Some dst src s :
  cstr src = Some s -> zlen s < zlen dst ->
  strcpy dst src = Some (s ++ 0 :: drop (S (length s)) dst).
Proof.
  intros Hs ?. unfold strcpy. rewrite Hs. simpl.
  rewrite write_bytes_Some by len. simpl. f_equal.
  rewrite <- app_assoc. simpl. do 2 f_equal. rewrite length_app. simpl. f_equal. lia.
Qed.

Lemma strcpy_cstr dst src s :
  cstr src = Some s -> zlen s < zlen dst ->
  exists dst', strcpy dst src = Some dst' /\ cstr dst' = Some s /\ zlen dst' = zlen dst.
Proof.
  intros Hs Hl. rewrite (strcpy_Some _ _ _ Hs Hl). eexists; split; [done|]. split.
  - apply cstr_app. by eapply cstr_chars.
  - len.
Qed.

Lemma strcat_cstr dst src d s :
  cstr dst = Some d -> cstr src = Some s -> zlen d + zlen s < zlen dst ->
  exists dst', strcat dst src = Some dst' /\ cstr dst' = Some (d ++ s) /\ zlen dst' = zlen dst.
Proof.
  intros Hd Hs Hl. unfold strcat. rewrite Hd, Hs. simpl.
  pose proof (cstr_chars _ _ Hd). pose proof (cstr_chars _ _ Hs).
  destruct (cstr_inv _ _ Hd) as [rest ->].
  rewrite write_bytes_prefix by len.
  eexists; split; [done|]. split.
  - rewrite app_assoc. rewrite app_assoc. rewrite <- (app_assoc (d ++ s)). simpl.
    apply cstr_app. by apply Forall_app.
  - len.
Qed.

Lemma strncpy_bytes_full s rest n :
  chars s -> length s = n -> strncpy_bytes (s ++ rest) n = Some s.
Proof.
  intros Hs <-. induction Hs as [|c s Hc Hs IH]; simpl; [done|].
  destruct (Z.eqb_spec c 0); [done|]. by rewrite IH.
Qed.

Lemma strncpy_bytes_pad s rest n :
  chars s -> (length s <= n)%nat ->
  strncpy_bytes (s ++ 0 :: rest) n = Some (s ++ replicate (n - length s) 0).
Proof.
  intros Hs. revert n. induction Hs as [|c s Hc Hs IH]; intros n Hn; simpl.
  - destruct n; simpl; [done|]. done.
  - destruct n as [|n]; simpl in Hn; [lia|]. simpl.
    destruct (Z.eqb_spec c 0); [done|]. rewrite IH by lia. done.
Qed.
