(* ===== verification/Sha256.v ===== *)
(** * SHA-256 (src/src/backend/mbt/sha256.c, src/src/include/mbt/sha256.h)

    The streaming context [SHA256] with [init], [update], [transform] and
    [final], the entry point [sha256_pg] that hashes a C string and writes the
    first half of the digest in hexadecimal, and [sha256].  The specification
    [Fips] is the one-shot function of FIPS 180-4; the theorems show that the
    streaming code computes it for messages whose length in bits fits in 32
    bits, whatever way the message is cut into [update] calls. *)

From S2P Require Import Prelude CMem.

(** ** The code *)

Definition SHA224_256_BLOCK_SIZE : Z := 64.
Definition DIGEST_SIZE : Z := 32.

Record SHA256 := mkSHA256 {
  m_tot_len : Z;
  m_len : Z;
  m_block : list Z;
  m_h : list Z
}.

Definition sha256_k : list Z :=
  [0x428a2f98; 0x71374491; 0xb5c0fbcf; 0xe9b5dba5]
  ++ [0x3956c25b; 0x59f111f1; 0x923f82a4; 0xab1c5ed5]
  ++ [0xd807aa98; 0x12835b01; 0x243185be; 0x550c7dc3]
  ++ [0x72be5d74; 0x80deb1fe; 0x9bdc06a7; 0xc19bf174]
  ++ [0xe49b69c1; 0xefbe4786; 0x0fc19dc6; 0x240ca1cc]
  ++ [0x2de92c6f; 0x4a7484aa; 0x5cb0a9dc; 0x76f988da]
  ++ [0x983e5152; 0xa831c66d; 0xb00327c8; 0xbf597fc7]
  ++ [0xc6e00bf3; 0xd5a79147; 0x06ca6351; 0x14292967]
  ++ [0x27b70a85; 0x2e1b2138; 0x4d2c6dfc; 0x53380d13]
  ++ [0x650a7354; 0x766a0abb; 0x81c2c92e; 0x92722c85]
  ++ [0xa2bfe8a1; 0xa81a664b; 0xc24b8b70; 0xc76c51a3]
  ++ [0xd192e819; 0xd6990624; 0xf40e3585; 0x106aa070]
  ++ [0x19a4c116; 0x1e376c08; 0x2748774c; 0x34b0bcb5]
  ++ [0x391c0cb3; 0x4ed8aa4a; 0x5b9cca4f; 0x682e6ff3]
  ++ [0x748f82ee; 0x78a5636f; 0x84c87814; 0x8cc70208]
  ++ [0x90befffa; 0xa4506ceb; 0xbef9a3f7; 0xc67178f2].

(** The macros of sha256.h, on [uint32] operands. *)
Definition SHA2_SHFR (x n : Z) : Z := Z.shiftr x n.
Definition SHA2_ROTR (x n : Z) : Z := Z.lor (Z.shiftr x n) (u32 (Z.shiftl x (32 - n))).
Definition SHA2_CH (x y z : Z) : Z := Z.lxor (Z.land x y) (Z.land (u32 (Z.lnot x)) z).
Definition SHA2_MAJ (x y z : Z) : Z := Z.lxor (Z.lxor (Z.land x y) (Z.land x z)) (Z.land y z).
Definition SHA256_F1 (x : Z) : Z := Z.lxor (Z.lxor (SHA2_ROTR x 2) (SHA2_ROTR x 13)) (SHA2_ROTR x 22).
Definition SHA256_F2 (x : Z) : Z := Z.lxor (Z.lxor (SHA2_ROTR x 6) (SHA2_ROTR x 11)) (SHA2_ROTR x 25).
Definition SHA256_F3 (x : Z) : Z := Z.lxor (Z.lxor (SHA2_ROTR x 7) (SHA2_ROTR x 18)) (SHA2_SHFR x 3).
Definition SHA256_F4 (x : Z) : Z := Z.lxor (Z.lxor (SHA2_ROTR x 17) (SHA2_ROTR x 19)) (SHA2_SHFR x 10).

(** The four bytes [SHA2_UNPACK32] stores at [str]. *)
Definition SHA2_UNPACK32 (x : Z) : list Z :=
  [u8 (Z.shiftr x 24); u8 (Z.shiftr x 16); u8 (Z.shiftr x 8); u8 x].

(** The word [SHA2_PACK32] reads at [str]. *)
Definition SHA2_PACK32 (str : list Z) : option Z :=
  do b3 <- aget str 3; do b2 <- aget str 2; do b1 <- aget str 1; do b0 <- aget str 0;
  Some (Z.lor (Z.lor (Z.lor b3 (Z.shiftl b2 8)) (Z.shiftl b1 16)) (Z.shiftl b0 24)).

(** The context as [init] leaves it: [m_block] keeps what was in memory. *)
Definition init (sha256 : SHA256) : SHA256 :=
  mkSHA256 0 0 (m_block sha256)
    [0x6a09e667; 0xbb67ae85; 0x3c6ef372; 0xa54ff53a; 0x510e527f; 0x9b05688c; 0x1f83d9ab; 0x5be0cd19].

(** One round of the main loop of [transform]: the working variables [wv]. *)
Definition transform_round (w : list Z) (j : Z) (wv : list Z) : option (list Z) :=
  match wv with
  | [wv0; wv1; wv2; wv3; wv4; wv5; wv6; wv7] =>
      do k <- aget sha256_k j; do wj <- aget w j;
      let t1 := u32 (wv7 + SHA256_F2 wv4 + SHA2_CH wv4 wv5 wv6 + k + wj) in
      let t2 := u32 (SHA256_F1 wv0 + SHA2_MAJ wv0 wv1 wv2) in
      Some [u32 (t1 + t2); wv0; wv1; wv2; u32 (wv3 + t1); wv4; wv5; wv6]
  | _ => None
  end.

(** One iteration of the outer loop of [transform]. *)
Definition transform_block (h : list Z) (sub_block : list Z) : option (list Z) :=
  do w <- for_range 0 16 (fun j w =>
            do str <- read_bytes sub_block (Z.shiftl j 2) 4;
            do x <- SHA2_PACK32 str; aset w j x)
          (replicate 64 0);
  do w <- for_range 16 64 (fun j w =>
            do a <- aget w (j - 2); do b <- aget w (j - 7);
            do c <- aget w (j - 15); do d <- aget w (j - 16);
            aset w j (u32 (SHA256_F4 a + b + SHA256_F3 c + d))) w;
  do wv <- for_range 0 64 (transform_round w) h;
  for_range 0 8 (fun j h => do hj <- aget h j; do wvj <- aget wv j; aset h j (u32 (hj + wvj))) h.

Definition transform (sha256 : SHA256) (message : list Z) (block_nb : Z) : option SHA256 :=
  do h <- for_range 0 (s32 block_nb) (fun i h =>
            do sub_block <- read_bytes message (Z.shiftl i 6) 64;
            transform_block h sub_block) (m_h sha256);
  Some (mkSHA256 (m_tot_len sha256) (m_len sha256) (m_block sha256) h).

Definition update (sha256 : SHA256) (message : list Z) (len : Z) : option SHA256 :=
  let tmp_len := u32 (SHA224_256_BLOCK_SIZE - m_len sha256) in
  let rem_len := if len <? tmp_len then len else tmp_len in
  do chunk <- read_bytes message 0 rem_len;
  do block <- write_bytes (m_block sha256) (m_len sha256) chunk;
  if u32 (m_len sha256 + len) <? SHA224_256_BLOCK_SIZE
  then Some (mkSHA256 (m_tot_len sha256) (u32 (m_len sha256 + len)) block (m_h sha256))
  else
    let new_len := u32 (len - rem_len) in
    let block_nb := new_len / SHA224_256_BLOCK_SIZE in
    let shifted_message := drop (Z.to_nat rem_len) message in
    do s1 <- transform (mkSHA256 (m_tot_len sha256) (m_len sha256) block (m_h sha256)) block 1;
    do s2 <- transform s1 shifted_message block_nb;
    let rem_len := new_len mod SHA224_256_BLOCK_SIZE in
    do tail <- read_bytes shifted_message (Z.shiftl block_nb 6) rem_len;
    do block' <- write_bytes (m_block s2) 0 tail;
    Some (mkSHA256 (u32 (m_tot_len s2 + Z.shiftl (block_nb + 1) 6)) rem_len block' (m_h s2)).

Definition final (sha256 : SHA256) : option (SHA256 * list Z) :=
  let block_nb :=
    1 + Z.b2z (SHA224_256_BLOCK_SIZE - 9 <? m_len sha256 mod SHA224_256_BLOCK_SIZE) in
  let len_b := u32 (Z.shiftl (u32 (m_tot_len sha256 + m_len sha256)) 3) in
  let pm_len := Z.shiftl block_nb 6 in
  do b1 <- memset (m_block sha256) (m_len sha256) 0 (pm_len - m_len sha256);
  do b2 <- aset b1 (m_len sha256) 0x80;
  do b3 <- write_bytes b2 (pm_len - 4) (SHA2_UNPACK32 len_b);
  do s <- transform (mkSHA256 (m_tot_len sha256) (m_len sha256) b3 (m_h sha256)) b3 block_nb;
  do digest <- for_range 0 8 (fun i digest =>
                 do x <- aget (m_h s) i;
                 write_bytes digest (Z.shiftl i 2) (SHA2_UNPACK32 x))
               (replicate 32 0);
  Some (s, digest).

(** The two characters [sprintf(.., "%02x", b)] writes before its NUL. *)
Definition hexdigit (d : Z) : Z := if d <? 10 then 48 + d else 87 + d.
Definition sprintf_02x (b : Z) : list Z := [hexdigit (b / 16); hexdigit (b mod 16)].

(** The loop that prints half of the digest into [buf]. *)
Definition print_digest (digest : list Z) (buf : list Z) : option (list Z) :=
  for_range 0 (DIGEST_SIZE / 2) (fun i buf =>
    do b <- aget digest i; write_bytes buf (i * 2) (sprintf_02x b ++ [0])) buf.

(** [sha256_pg(input, output)]: [ctx0] and [buf0] are the contents of the
    freshly allocated context and of the local array. *)
Definition sha256_pg (ctx0 : SHA256) (buf0 : list Z) (input output : list Z) : option (list Z) :=
  let ctx := init ctx0 in
  do len <- strlen input;
  do ctx <- update ctx input (u32 len);
  do '(_, digest) <- final ctx;
  do buf <- aset buf0 (2 * DIGEST_SIZE) 0;
  do buf <- print_digest digest buf;
  strcpy output buf.

(** [sha256(input)] computes the same buffer and returns the address of its
    local array: the result is the array's content at the time of the return. *)
Definition sha256 (ctx0 : SHA256) (buf0 : list Z) (input : list Z) : option (list Z) :=
  let ctx := init ctx0 in
  do len <- strlen input;
  do ctx <- update ctx input (u32 len);
  do '(_, digest) <- final ctx;
  do buf <- aset buf0 (2 * DIGEST_SIZE) 0;
  print_digest digest buf.

(** ** The specification: FIPS 180-4 *)

Module Fips.

Definition add (x y : Z) : Z := (x + y) mod 2 ^ 32.

Definition ROTR (n x : Z) : Z := Z.lor (Z.shiftr x n) (Z.shiftl x (32 - n) mod 2 ^ 32).
Definition SHR (n x : Z) : Z := Z.shiftr x n.
Definition Ch (x y z : Z) : Z := Z.lxor (Z.land x y) (Z.land (Z.lnot x mod 2 ^ 32) z).
Definition Maj (x y z : Z) : Z := Z.lxor (Z.lxor (Z.land x y) (Z.land x z)) (Z.land y z).
Definition Sigma0 (x : Z) : Z := Z.lxor (Z.lxor (ROTR 2 x) (ROTR 13 x)) (ROTR 22 x).
Definition Sigma1 (x : Z) : Z := Z.lxor (Z.lxor (ROTR 6 x) (ROTR 11 x)) (ROTR 25 x).
Definition sigma0 (x : Z) : Z := Z.lxor (Z.lxor (ROTR 7 x) (ROTR 18 x)) (SHR 3 x).
Definition sigma1 (x : Z) : Z := Z.lxor (Z.lxor (ROTR 17 x) (ROTR 19 x)) (SHR 10 x).

(** The constants are defined, not listed: K has the first 32 bits of the
    fractional parts of the cube roots of the first 64 primes, H(0) those of the
    square roots of the first 8. *)
Definition isprime (n : Z) : bool :=
  forallb (fun d => negb (n mod Z.of_nat d =? 0)) (seq 2 (Z.to_nat n - 2)).
Definition primes : list Z := List.filter isprime (Z.of_nat <$> seq 2 310).

(** The greatest [r < 2 ^ bits] with [r ^ 3 <= n], bit by bit. *)
Fixpoint icbrt_from (bits : nat) (n r : Z) : Z :=
  match bits with
  | O => r
  | S b => let r' := r + 2 ^ Z.of_nat b in icbrt_from b n (if r' ^ 3 <=? n then r' else r)
  end.

Definition K : list Z := (fun p => icbrt_from 36 (p * 2 ^ 96) 0 mod 2 ^ 32) <$> take 64 primes.
Definition H0 : list Z := (fun p => Z.sqrt (p * 2 ^ 64) mod 2 ^ 32) <$> take 8 primes.

(** Big-endian words. *)
Definition be_word (bs : list Z) : Z := fold_left (fun acc b => acc * 256 + b) bs 0.
Definition be_bytes (n : nat) (z : Z) : list Z := reverse (le_split n z).

Fixpoint words (n : nat) (bs : list Z) : list Z :=
  match n with
  | O => []
  | S n' => be_word (take 4 bs) :: words n' (drop 4 bs)
  end.

(** The message schedule: sixteen words of the block, then 48 computed ones. *)
Definition next_word (ws : list Z) : Z :=
  let t := length ws in
  add (add (add (sigma1 (nth (t - 2) ws 0)) (nth (t - 7) ws 0))
           (sigma0 (nth (t - 15) ws 0))) (nth (t - 16) ws 0).
Definition schedule_upto (n : nat) (block : list Z) : list Z :=
  Nat.iter n (fun ws => ws ++ [next_word ws]) (words 16 block).
Definition schedule : list Z -> list Z := schedule_upto 48.

Record vars := mkvars { va : Z; vb : Z; vc : Z; vd : Z; ve : Z; vf : Z; vg : Z; vh : Z }.

Definition round (v : vars) (kw : Z * Z) : vars :=
  let T1 := add (add (add (add (vh v) (Sigma1 (ve v))) (Ch (ve v) (vf v) (vg v))) kw.1) kw.2 in
  let T2 := add (Sigma0 (va v)) (Maj (va v) (vb v) (vc v)) in
  mkvars (add T1 T2) (va v) (vb v) (vc v) (add (vd v) T1) (ve v) (vf v) (vg v).

Definition to_list (v : vars) : list Z := [va v; vb v; vc v; vd v; ve v; vf v; vg v; vh v].
Definition of_list (h : list Z) : vars :=
  mkvars (nth 0 h 0) (nth 1 h 0) (nth 2 h 0) (nth 3 h 0)
         (nth 4 h 0) (nth 5 h 0) (nth 6 h 0) (nth 7 h 0).

Definition compress (h block : list Z) : list Z :=
  zip_with add h (to_list (fold_left round (zip K (schedule block)) (of_list h))).

(** The hash value after the first [n] blocks of a sequence of bytes. *)
Fixpoint hash_blocks (n : nat) (h bs : list Z) : list Z :=
  match n with
  | O => h
  | S n' => hash_blocks n' (compress h (take 64 bs)) (drop 64 bs)
  end.

Definition pad (msg : list Z) : list Z :=
  msg ++ 0x80 :: replicate (Z.to_nat ((55 - zlen msg) mod 64)) 0 ++ be_bytes 8 (8 * zlen msg).

Definition hash (msg : list Z) : list Z :=
  hash_blocks (length (pad msg) / 64) H0 (pad msg).

Definition digest (msg : list Z) : list Z := mjoin (be_bytes 4 <$> hash msg).

End Fips.

(** ** The block function *)

(** The table of the code is the one of the standard, and so is the initial
    hash value. *)
Lemma sha256_k_fips : sha256_k = Fips.K.
Proof. vm_compute. reflexivity. Qed.

Lemma init_fips ctx : m_h (init ctx) = Fips.H0.
Proof. vm_compute. reflexivity. Qed.

Lemma land_shiftl_low a b n : 0 <= n -> in_u n a -> Z.land a (Z.shiftl b n) = 0.
Proof.
  intros Hn [Ha0 Ha]. apply Z.bits_inj'. intros i Hi. rewrite Z.land_spec, Z.bits_0.
  destruct (Z.ltb_spec i n).
  - rewrite Z.shiftl_spec_low by lia. apply andb_false_r.
  - rewrite Z.testbit_odd, Z.shiftr_div_pow2, Z.div_small; [done| |lia].
    split; [lia|]. eapply Z.lt_le_trans; [exact Ha|]. apply Z.pow_le_mono_r; lia.
Qed.

Lemma lor_shiftl_add a b n :
  0 <= n -> in_u n a -> Z.lor a (Z.shiftl b n) = a + b * 2 ^ n.
Proof.
  intros Hn Ha. rewrite <- Z.shiftl_mul_pow2 by lia.
  pose proof (land_shiftl_low a b n Hn Ha).
  by rewrite Z.add_nocarry_lxor, Z.lxor_lor.
Qed.

Lemma pack32_be_word str :
  length str = 4%nat -> Forall byteb str -> SHA2_PACK32 str = Some (Fips.be_word str).
Proof.
  intros Hl Hb. destruct str as [|b0 [|b1 [|b2 [|b3 [|]]]]]; try done.
  repeat match goal with H : Forall _ (_ :: _) |- _ => apply Forall_cons in H as [? ?] end.
  unfold SHA2_PACK32, aget. simpl. f_equal. unfold Fips.be_word. simpl.
  unfold in_u in *.
  rewrite (lor_shiftl_add b3), (lor_shiftl_add _ b1), (lor_shiftl_add _ b0); unfold in_u; lia.
Qed.

Lemma words_length n bs : length (Fips.words n bs) = n.
Proof. revert bs; induction n; intros; simpl; auto. Qed.

Lemma words_snoc n bs :
  Fips.words (S n) bs = Fips.words n bs ++ [Fips.be_word (take 4 (drop (4 * n) bs))].
Proof.
  revert bs. induction n as [|n IH]; intros bs.
  - simpl. done.
  - change (Fips.words (S (S n)) bs)
      with (Fips.be_word (take 4 bs) :: Fips.words (S n) (drop 4 bs)).
    rewrite IH. cbn [Fips.words app]. rewrite drop_drop. by replace (4 + 4 * n)%nat with (4 * S n)%nat by lia.
Qed.

Lemma schedule_upto_S n b :
  Fips.schedule_upto (S n) b
  = Fips.schedule_upto n b ++ [Fips.next_word (Fips.schedule_upto n b)].
Proof. reflexivity. Qed.

Lemma schedule_upto_length n b : length (Fips.schedule_upto n b) = (16 + n)%nat.
Proof.
  induction n as [|n IH]; [apply words_length|].
  rewrite schedule_upto_S, length_app, IH. simpl. lia.
Qed.

(** Extending a known prefix of an array by one element. *)
(** The first loop of a block reads the sixteen words of the message. *)
Lemma block_words blk :
  length blk = 64%nat -> Forall byteb blk ->
  exists w, for_range 0 16 (fun j w =>
      do str <- read_bytes blk (Z.shiftl j 2) 4;
      do x <- SHA2_PACK32 str; aset w j x) (replicate 64 0) = Some w /\
    length w = 64%nat /\ take 16 w = Fips.words 16 blk.
Proof.
  intros Hl Hb.
  destruct (for_range_rule
    (fun j w => length w = 64%nat /\ take (Z.to_nat j) w = Fips.words (Z.to_nat j) blk)
    0 16 (fun j w => do str <- read_bytes blk (Z.shiftl j 2) 4;
                     do x <- SHA2_PACK32 str; aset w j x) (replicate 64 0))
    as (w & E & Hw & Ht); [lia| split; [by rewrite length_replicate|done] | |].
  - intros j w Hj [Hw Ht]. rewrite Z.shiftl_mul_pow2 by lia. change (2 ^ 2) with 4.
    rewrite read_bytes_Some by len. simpl.
    rewrite pack32_be_word; [| len | by apply Forall_take, Forall_drop].
    simpl. rewrite aset_Some by len. eexists; split; [done|]. split; [len|].
    replace (Z.to_nat (j + 1)) with (S (Z.to_nat j)) by lia.
    rewrite words_snoc. erewrite take_insert_snoc; [| len | exact Ht].
    by replace (Z.to_nat (j * 4)) with (4 * Z.to_nat j)%nat by lia.
  - exists w. done.
Qed.

Lemma fips_add4 a b c d :
  Fips.add (Fips.add (Fips.add a b) c) d = u32 (a + b + c + d).
Proof.
  unfold Fips.add, wrapu.
  by rewrite (Zplus_mod_idemp_l (a + b)), (Zplus_mod_idemp_l (a + b + c)).
Qed.

Lemma fips_add5 a b c d e :
  Fips.add (Fips.add (Fips.add (Fips.add a b) c) d) e = u32 (a + b + c + d + e).
Proof. rewrite (fips_add4 a b c d). unfold Fips.add, wrapu. by rewrite Zplus_mod_idemp_l. Qed.

Lemma next_word_code w ws j :
  take (Z.to_nat j) w = ws -> length ws = Z.to_nat j -> 16 <= j < zlen w ->
  (do a <- aget w (j - 2); do b <- aget w (j - 7);
   do c <- aget w (j - 15); do d <- aget w (j - 16);
   aset w j (u32 (SHA256_F4 a + b + SHA256_F3 c + d)))
  = Some (<[Z.to_nat j := Fips.next_word ws]> w).
Proof.
  intros Ht Hl Hj.
  assert (forall k, 0 < k <= 16 -> aget w (j - k) = Some (nth (length ws - Z.to_nat k) ws 0)) as Hg.
  { intros k Hk. apply aget_Some. split; [lia|].
    replace (length ws - Z.to_nat k)%nat with (Z.to_nat (j - k)) by lia.
    rewrite <- (lookup_take_lt w (Z.to_nat j)) by lia. rewrite Ht.
    destruct (lookup_lt_is_Some_2 ws (Z.to_nat (j - k))) as [x Hx]; [lia|].
    rewrite Hx. f_equal. symmetry. by apply nth_lookup_Some. }
  rewrite !Hg by lia. simpl. rewrite aset_Some by lia. do 2 f_equal.
  unfold Fips.next_word. rewrite fips_add4.
  change (Z.to_nat 2) with 2%nat. change (Z.to_nat 7) with 7%nat.
  change (Z.to_nat 15) with 15%nat. change (Z.to_nat 16) with 16%nat.
  reflexivity.
Qed.

(** The second loop computes the message schedule. *)
Lemma block_schedule blk w :
  length w = 64%nat -> take 16 w = Fips.words 16 blk ->
  for_range 16 64 (fun j w =>
    do a <- aget w (j - 2); do b <- aget w (j - 7);
    do c <- aget w (j - 15); do d <- aget w (j - 16);
    aset w j (u32 (SHA256_F4 a + b + SHA256_F3 c + d))) w = Some (Fips.schedule blk).
Proof.
  intros Hl Ht.
  destruct (for_range_rule (fun j w => length w = 64%nat /\
      take (Z.to_nat j) w = Fips.schedule_upto (Z.to_nat j - 16) blk) 16 64
    (fun j w =>
      do a <- aget w (j - 2); do b <- aget w (j - 7);
      do c <- aget w (j - 15); do d <- aget w (j - 16);
      aset w j (u32 (SHA256_F4 a + b + SHA256_F3 c + d))) w)
    as (w' & E & Hw & Hs); [lia|done| |].
  - intros j w1 Hj [Hw Hs]. eexists. split.
    { apply (next_word_code w1 (Fips.schedule_upto (Z.to_nat j - 16) blk) j); [done| |len].
      rewrite schedule_upto_length. lia. }
    split; [len|].
    replace (Z.to_nat (j + 1)) with (S (Z.to_nat j)) by lia.
    replace (S (Z.to_nat j) - 16)%nat with (S (Z.to_nat j - 16)) by lia.
    rewrite schedule_upto_S. apply take_insert_snoc; [len|done].
  - rewrite E. f_equal. rewrite take_ge in Hs by lia. exact Hs.
Qed.

Lemma transform_round_fips w j v k x :
  aget Fips.K j = Some k -> aget w j = Some x ->
  transform_round w j (Fips.to_list v) = Some (Fips.to_list (Fips.round v (k, x))).
Proof.
  intros Hk Hx. unfold transform_round, Fips.to_list.
  rewrite sha256_k_fips, Hk, Hx. cbn [mbind option_bind].
  unfold Fips.round. rewrite (fips_add5 (Fips.vh v)). reflexivity.
Qed.

Lemma fips_K_length : length Fips.K = 64%nat.
Proof. vm_compute. reflexivity. Qed.

Lemma of_to_list h : length h = 8%nat -> Fips.to_list (Fips.of_list h) = h.
Proof. intros. do 9 (destruct h as [|? h]; try done). Qed.

(** The third loop is the 64 rounds. *)
Lemma block_rounds w h :
  length w = 64%nat -> length h = 8%nat ->
  for_range 0 64 (transform_round w) h
  = Some (Fips.to_list (fold_left Fips.round (zip Fips.K w) (Fips.of_list h))).
Proof.
  intros Hw Hh.
  destruct (for_range_rule (fun j wv => wv = Fips.to_list
      (fold_left Fips.round (take (Z.to_nat j) (zip Fips.K w)) (Fips.of_list h)))
    0 64 (transform_round w) h) as (wv & E & ->); [lia| | |].
  - simpl. by rewrite of_to_list.
  - intros j wv Hj ->.
    destruct (aget_is_Some Fips.K j) as [k Hk]; [unfold zlen; rewrite fips_K_length; lia|].
    destruct (aget_is_Some w j) as [x Hx]; [len|].
    rewrite (transform_round_fips _ _ _ k x) by done.
    eexists; split; [done|].
    replace (Z.to_nat (j + 1)) with (S (Z.to_nat j)) by lia.
    rewrite (take_S_r _ _ (k, x)), fold_left_app; [done|].
    apply lookup_zip_with_Some. exists k, x.
    apply aget_Some in Hk as [? ?], Hx as [? ?]. done.
  - rewrite E. rewrite take_ge; [done|].
    rewrite length_zip_with, fips_K_length, Hw. done.
Qed.

(** The last loop adds the result to the hash value, word by word. *)
Lemma block_add h wv :
  length h = 8%nat -> length wv = 8%nat ->
  for_range 0 8 (fun j h => do hj <- aget h j; do wvj <- aget wv j; aset h j (u32 (hj + wvj))) h
  = Some (zip_with Fips.add h wv).
Proof.
  intros Hh Hv.
  do 9 (destruct h as [|? h]; try done). do 9 (destruct wv as [|? wv]; try done).
Qed.

Lemma to_list_length v : length (Fips.to_list v) = 8%nat.
Proof. done. Qed.

(** [transform] on one block is the compression function of the standard. *)
Lemma transform_block_compress h blk :
  length h = 8%nat -> length blk = 64%nat -> Forall byteb blk ->
  transform_block h blk = Some (Fips.compress h blk).
Proof.
  intros Hh Hb Hr. unfold transform_block.
  destruct (block_words blk Hb Hr) as (w & -> & Hw & Ht). cbn [mbind option_bind].
  rewrite (block_schedule blk w Hw Ht). cbn [mbind option_bind].
  rewrite block_rounds; [| apply schedule_upto_length | done]. cbn [mbind option_bind].
  by rewrite block_add.
Qed.

Lemma compress_length h blk : length h = 8%nat -> length (Fips.compress h blk) = 8%nat.
Proof. intros Hh. unfold Fips.compress. by rewrite length_zip_with, Hh. Qed.

Lemma hash_blocks_length n h bs : length h = 8%nat -> length (Fips.hash_blocks n h bs) = 8%nat.
Proof. revert h bs. induction n; intros; simpl; auto using compress_length. Qed.

Lemma hash_blocks_snoc n h bs :
  Fips.hash_blocks (S n) h bs
  = Fips.compress (Fips.hash_blocks n h bs) (take 64 (drop (64 * n) bs)).
Proof.
  revert h bs. induction n as [|n IH]; intros h bs; [done|].
  change (Fips.hash_blocks (S (S n)) h bs)
    with (Fips.hash_blocks (S n) (Fips.compress h (take 64 bs)) (drop 64 bs)).
  rewrite IH. cbn [Fips.hash_blocks]. rewrite drop_drop.
  by replace (64 + 64 * n)%nat with (64 * S n)%nat by lia.
Qed.

(** [transform] on consecutive blocks. *)
Lemma transform_blocks s msg n :
  length (m_h s) = 8%nat -> Forall byteb (take (64 * n) msg) -> Z.of_nat (64 * n) <= zlen msg ->
  Z.of_nat n < 2 ^ 31 ->
  transform s msg (Z.of_nat n)
  = Some (mkSHA256 (m_tot_len s) (m_len s) (m_block s) (Fips.hash_blocks n (m_h s) msg)).
Proof.
  intros Hh Hb Hl Hn. unfold transform.
  rewrite wraps_small by (unfold in_s; lia).
  destruct (for_range_rule (fun i h => h = Fips.hash_blocks (Z.to_nat i) (m_h s) msg) 0 (Z.of_nat n)
    (fun i h => do sub_block <- read_bytes msg (Z.shiftl i 6) 64; transform_block h sub_block)
    (m_h s)) as (h & -> & ->); [lia|done| |].
  - intros i h Hi ->. rewrite Z.shiftl_mul_pow2 by lia. change (2 ^ 6) with 64.
    rewrite read_bytes_Some by lia. cbn [mbind option_bind].
    eexists. split.
    { apply transform_block_compress; [by apply hash_blocks_length|len|].
      apply Forall_lookup. intros j x [Hx ?]%lookup_take_Some. rewrite lookup_drop in Hx.
      eapply (Forall_lookup_1 _ _ (Z.to_nat (i * 64) + j)); [exact Hb|]. by rewrite lookup_take_lt by lia. }
    replace (Z.to_nat (i + 1)) with (S (Z.to_nat i)) by lia. rewrite hash_blocks_snoc.
    by replace (Z.to_nat (i * 64)) with (64 * Z.to_nat i)%nat by lia.
  - cbn [mbind option_bind]. by rewrite Nat2Z.id.
Qed.

(** ** The streaming interface *)

(** A context object: the block buffer has its declared size and holds bytes. *)
Definition ctx_ok (s : SHA256) : Prop :=
  length (m_block s) = 128%nat /\ Forall byteb (m_block s).

#[export] Instance ctx_ok_dec s : Decision (ctx_ok s).
Proof. unfold ctx_ok; apply _. Defined.

(** The context after the bytes [msg]: the whole blocks are hashed, the rest is
    in the buffer. *)
Record absorbed (s : SHA256) (msg : list Z) : Prop := {
  abs_ok : ctx_ok s;
  abs_tot : m_tot_len s = 64 * (zlen msg / 64);
  abs_len : m_len s = zlen msg mod 64;
  abs_h : m_h s = Fips.hash_blocks (length msg / 64) Fips.H0 msg;
  abs_block : take (Z.to_nat (m_len s)) (m_block s) = drop (64 * (length msg / 64)) msg
}.

Lemma hash_blocks_add a b h bs :
  Fips.hash_blocks (a + b) h bs
  = Fips.hash_blocks b (Fips.hash_blocks a h bs) (drop (64 * a) bs).
Proof.
  revert h bs. induction a as [|a IH]; intros h bs; [done|].
  cbn [Nat.add Fips.hash_blocks]. rewrite IH, drop_drop.
  by replace (64 + 64 * a)%nat with (64 * S a)%nat by lia.
Qed.

Lemma hash_blocks_app n h bs k :
  (64 * n <= length bs)%nat -> Fips.hash_blocks n h (bs ++ k) = Fips.hash_blocks n h bs.
Proof.
  revert h bs. induction n as [|n IH]; intros h bs Hn; [done|].
  cbn [Fips.hash_blocks]. rewrite take_app_le, drop_app_le by lia.
  rewrite IH; [done|]. rewrite length_drop. lia.
Qed.

Lemma fips_H0_length : length Fips.H0 = 8%nat.
Proof. vm_compute. reflexivity. Qed.

Lemma absorbed_h_length s msg : absorbed s msg -> length (m_h s) = 8%nat.
Proof. intros []. rewrite abs_h0. by apply hash_blocks_length, fips_H0_length. Qed.

Lemma init_absorbed ctx : ctx_ok ctx -> absorbed (init ctx) [].
Proof. intros. split; [done|done|done|apply init_fips|done]. Qed.

Lemma write_bytes_byteb buf pos bs buf' :
  write_bytes buf pos bs = Some buf' -> Forall byteb buf -> Forall byteb bs -> Forall byteb buf'.
Proof.
  intros (_ & _ & ->)%write_bytes_inv ? ?.
  apply Forall_app; split; [by apply Forall_take|].
  apply Forall_app; split; [done|by apply Forall_drop].
Qed.

Lemma div_mod_64 (n : nat) : exists q r, n = (64 * q + r)%nat /\ (r < 64)%nat.
Proof. exists (n / 64)%nat, (n mod 64)%nat. dlia. Qed.

Lemma div64 q r : (r < 64)%nat -> ((64 * q + r) / 64 = q)%nat.
Proof. intros. dlia. Qed.

(** [update] with a short chunk only fills the buffer. *)
Lemma update_short s msg chunk rest :
  absorbed s msg -> Forall byteb chunk -> m_len s + zlen chunk < 64 ->
  exists s', update s (chunk ++ rest) (zlen chunk) = Some s' /\ absorbed s' (msg ++ chunk).
Proof.
  intros Ha Hb Hs. destruct Ha as [[Hbl Hbb] Ht Hl Hh Hk].
  destruct (div_mod_64 (length msg)) as (q & r & Hq & Hr).
  rewrite Hq, div64 in Hh, Hk by done.
  assert (m_len s = Z.of_nat r) as Hm by (rewrite Hl; unfold zlen; dlia).
  rewrite Hm in *. rewrite Nat2Z.id in Hk. unfold update. rewrite Hm.
  rewrite (wrapu_small 32 (SHA224_256_BLOCK_SIZE - Z.of_nat r)) by (unfold in_u, SHA224_256_BLOCK_SIZE; lia).
  rewrite (wrapu_small 32 (Z.of_nat r + zlen chunk)) by (unfold in_u, zlen in *; lia).
  unfold SHA224_256_BLOCK_SIZE.
  destruct (Z.ltb_spec (zlen chunk) (64 - Z.of_nat r)); [|lia].
  rewrite (read_bytes_prefix [] chunk rest) by done. cbn [mbind option_bind].
  rewrite write_bytes_Some by len. cbn [mbind option_bind].
  destruct (Z.ltb_spec (Z.of_nat r + zlen chunk) 64); [|lia].
  eexists; split; [done|].
  assert (length (msg ++ chunk) = (64 * q + (r + length chunk)))%nat as Hlen by len.
  split; cbn [m_tot_len m_len m_block m_h]; rewrite ?Nat2Z.id.
  - split; cbn [m_block]; [len|]. apply Forall_app; split; [by apply Forall_take|].
    apply Forall_app; split; [done|by apply Forall_drop].
  - rewrite Ht. unfold zlen in *. dlia.
  - unfold zlen in *. dlia.
  - rewrite Hlen, div64 by len. rewrite hash_blocks_app by lia. done.
  - rewrite Hlen, div64 by len. rewrite drop_app_le by lia. rewrite <- Hk.
    replace (Z.to_nat (Z.of_nat r + zlen chunk)) with (r + length chunk)%nat by len.
    rewrite app_assoc, take_app_le by len. apply take_ge. len.
Qed.

(** The blocks of a message and a chunk behind it, when the message ends within a
    block: the block the chunk completes, then those of the rest of the chunk. *)
Lemma hash_blocks_over q r b t h msg chunk behind rest :
  length msg = (64 * q + r)%nat -> (r < 64)%nat -> (64 <= r + length chunk)%nat -> (length chunk - (64 - r) = 64 * b + t)%nat ->
  Fips.hash_blocks b (Fips.hash_blocks 1 h (drop (64 * q) msg ++ take (64 - r) chunk ++ behind)) (drop (64 - r) chunk ++ rest) =
  Fips.hash_blocks b (Fips.hash_blocks 1 h (drop (64 * q) (msg ++ chunk))) (drop (64 * (q + 1)) (msg ++ chunk)).
Proof.
  intros Hq Hr Hc Hbt. rewrite (drop_app_le msg) by lia.
  replace (64 * (q + 1))%nat with (length msg + (64 - r))%nat by lia. rewrite drop_app_add.
  rewrite (hash_blocks_app b) by len. rewrite app_assoc, (hash_blocks_app 1) by len.
  rewrite <- (take_drop (64 - r) chunk) at 3. rewrite (app_assoc _ (take _ chunk)).
  by rewrite (hash_blocks_app 1 _ (drop _ msg ++ _)) by len.
Qed.

(** [update] with a chunk that completes a block. *)
Lemma update_long s msg chunk rest :
  absorbed s msg -> Forall byteb chunk -> 64 <= m_len s + zlen chunk ->
  zlen msg + zlen chunk < 2 ^ 32 ->
  exists s', update s (chunk ++ rest) (zlen chunk) = Some s' /\ absorbed s' (msg ++ chunk).
Proof.
  intros Ha Hb Hs Hbig. pose proof (absorbed_h_length _ _ Ha) as Hhl.
  destruct Ha as [[Hbl Hbb] Ht Hl Hh Hk].
  destruct (div_mod_64 (length msg)) as (q & r & Hq & Hr).
  rewrite Hq, div64 in Hh, Hk by done.
  assert (m_len s = Z.of_nat r) as Hm by (rewrite Hl; unfold zlen; dlia).
  destruct (div_mod_64 (length chunk - (64 - r))) as (b & t & Hbt & Htl).
  rewrite Hm, ?Nat2Z.id in *. unfold update. rewrite Hm.
  rewrite (wrapu_small 32 (SHA224_256_BLOCK_SIZE - Z.of_nat r))
    by (unfold in_u, SHA224_256_BLOCK_SIZE; lia).
  rewrite (wrapu_small 32 (Z.of_nat r + zlen chunk)) by (unfold in_u, zlen in *; lia).
  unfold SHA224_256_BLOCK_SIZE.
  destruct (Z.ltb_spec (zlen chunk) (64 - Z.of_nat r)); [unfold zlen in *; lia|].
  destruct (Z.ltb_spec (Z.of_nat r + zlen chunk) 64); [lia|].
  rewrite (wrapu_small 32 (zlen chunk - _)) by (unfold in_u, zlen in *; lia).
  replace (Z.to_nat (64 - Z.of_nat r)) with (64 - r)%nat by lia.
  replace (zlen chunk - (64 - Z.of_nat r)) with (Z.of_nat (64 * b + t)) by len.
  replace (Z.of_nat (64 * b + t) / 64) with (Z.of_nat b) by dlia.
  replace (Z.of_nat (64 * b + t) mod 64) with (Z.of_nat t) by dlia.
  (* the first block *)
  rewrite (read_bytes_Some _ 0) by len. cbn [mbind option_bind]. rewrite drop_0.
  replace (Z.to_nat (64 - Z.of_nat r)) with (64 - r)%nat by lia.
  rewrite take_app_le by len.
  rewrite write_bytes_Some by len. cbn [mbind option_bind]. rewrite Nat2Z.id.
  replace (r + length (take (64 - r) chunk))%nat with 64%nat by len.
  rewrite (transform_blocks _ _ 1); cbn [m_h m_tot_len m_len m_block mbind option_bind];
    [|done| |len|lia].
  2: { apply Forall_take, Forall_app; split; [by apply Forall_take|].
       apply Forall_app; split; [by apply Forall_take|by apply Forall_drop]. }
  (* the whole blocks of the chunk *)
  rewrite drop_app_le by len.
  rewrite transform_blocks; cbn [m_h m_tot_len m_len m_block mbind option_bind];
    [| by apply hash_blocks_length
     | rewrite take_app_le by len; by apply Forall_take, Forall_drop
     | len | len].
  rewrite !Z.shiftl_mul_pow2 by lia. change (2 ^ 6) with 64.
  rewrite read_bytes_Some by len. cbn [mbind option_bind].
  rewrite Nat2Z.id. replace (Z.to_nat (Z.of_nat b * 64)) with (64 * b)%nat by lia.
  rewrite write_bytes_Some by len. cbn [mbind option_bind].
  eexists; split; [done|].
  assert (length (msg ++ chunk) = (64 * (q + 1 + b) + t))%nat as Hlen by len.
  split; cbn [m_tot_len m_len m_block m_h]; rewrite ?Nat2Z.id.
  - split; cbn [m_block]; [len|]. simpl. apply Forall_app; split.
    + rewrite drop_app_le, take_app_le by len. by apply Forall_take, Forall_drop, Forall_drop.
    + apply Forall_drop, Forall_app; split; [by apply Forall_take|].
      apply Forall_app; split; [by apply Forall_take|by apply Forall_drop].
  - rewrite Ht, wrapu_small by (unfold in_u, zlen in *; dlia).
    unfold zlen in *. dlia.
  - unfold zlen in *. dlia.
  - rewrite Hlen, div64 by lia. rewrite !hash_blocks_add, (hash_blocks_app q), <- Hh, Hk by lia.
    by apply (hash_blocks_over q r b t); [| |len|].
  - rewrite Hlen, div64 by lia. change (Z.to_nat 0) with O. rewrite take_0. cbn [app].
    replace (64 * (q + 1 + b))%nat with (length msg + ((64 - r) + 64 * b))%nat by lia.
    rewrite drop_app_add, (drop_app_le (drop _ chunk) rest), drop_drop by len.
    rewrite (take_app_le (drop _ chunk) rest) by len.
    rewrite take_app_le, take_take by len. rewrite Nat.min_id. apply take_ge. len.
Qed.

(** [update] absorbs its chunk, wherever the block boundaries fall; [rest] is
    the memory behind the message. *)
Lemma update_absorbed s msg chunk rest :
  absorbed s msg -> Forall byteb chunk -> zlen msg + zlen chunk < 2 ^ 32 ->
  exists s', update s (chunk ++ rest) (zlen chunk) = Some s' /\ absorbed s' (msg ++ chunk).
Proof.
  intros Ha Hb Hl. destruct (Z.ltb_spec (m_len s + zlen chunk) 64).
  - by apply update_short.
  - by apply update_long.
Qed.

Lemma unpack32_be x : SHA2_UNPACK32 x = Fips.be_bytes 4 x.
Proof.
  unfold SHA2_UNPACK32, Fips.be_bytes, wrapu.
  rewrite !Z.shiftr_div_pow2 by lia. cbv [le_split reverse rev_append].
  rewrite !Z.div_div by lia. done.
Qed.

Lemma be_bytes_length n z : length (Fips.be_bytes n z) = n.
Proof. unfold Fips.be_bytes. by rewrite length_reverse, le_split_length. Qed.

#[export] Hint Rewrite be_bytes_length : clen.

Lemma be_bytes_8_small z : in_u 32 z -> Fips.be_bytes 8 z = replicate 4 0 ++ Fips.be_bytes 4 z.
Proof.
  intros [H0 H1]. unfold Fips.be_bytes. cbv [le_split reverse rev_append].
  rewrite !Z.div_div by lia.
  assert (forall d, 2 ^ 32 <= d -> z / d = 0) as Hz by (intros; apply Z.div_small; lia).
  rewrite (Hz (256 * (256 * (256 * 256)))), (Hz (256 * (256 * (256 * (256 * 256))))),
    (Hz (256 * (256 * (256 * (256 * (256 * 256)))))),
    (Hz (256 * (256 * (256 * (256 * (256 * (256 * 256))))))) by lia. done.
Qed.

(** The output loop of [final] writes the words of the hash value. *)
Lemma final_digest h :
  length h = 8%nat ->
  for_range 0 8 (fun i digest =>
    do x <- aget h i; write_bytes digest (Z.shiftl i 2) (SHA2_UNPACK32 x)) (replicate 32 0)
  = Some (mjoin (Fips.be_bytes 4 <$> h)).
Proof.
  intros Hh.
  destruct (for_range_rule (fun i d => d = mjoin (Fips.be_bytes 4 <$> take (Z.to_nat i) h)
      ++ replicate (32 - 4 * Z.to_nat i) 0) 0 8
    (fun i digest => do x <- aget h i; write_bytes digest (Z.shiftl i 2) (SHA2_UNPACK32 x))
    (replicate 32 0)) as (d & -> & ->); [lia|done| |].
  - intros i d Hi ->. destruct (aget_is_Some h i) as [x Hx]; [len|]. rewrite Hx.
    cbn [mbind option_bind]. apply aget_Some in Hx as [_ Hx].
    assert (zlen (mjoin (Fips.be_bytes 4 <$> take (Z.to_nat i) h)) = Z.shiftl i 2) as <-.
    { rewrite Z.shiftl_mul_pow2 by lia.
      unfold zlen. rewrite length_join, (sum_list_fmap_same 4).
      - len.
      - apply Forall_forall. intros ? (? & -> & ?)%list_elem_of_fmap. apply be_bytes_length. }
    rewrite unpack32_be, write_bytes_prefix by len. eexists; split; [done|].
    replace (Z.to_nat (i + 1)) with (S (Z.to_nat i)) by lia.
    rewrite (take_S_r _ _ x Hx), fmap_app, join_app, <- app_assoc. f_equal. cbn [fmap list_fmap mjoin list_join app].
    rewrite app_nil_r. f_equal. rewrite be_bytes_length, drop_replicate. f_equal. lia.
  - rewrite app_nil_r, take_ge by len. done.
Qed.

Lemma insert_here {A} (l : list A) x y k : <[length l := x]> (l ++ y :: k) = l ++ x :: k.
Proof. rewrite insert_app_r_alt by lia. by rewrite Nat.sub_diag. Qed.

(** What [final] leaves in the buffer: the unprocessed bytes [t], the 0x80
    byte, zeros and the length, filling [pm] bytes. *)
Lemma final_block blk t pm x :
  take (length t) blk = t -> zlen t + 5 <= pm -> pm <= zlen blk ->
  (do b1 <- memset blk (zlen t) 0 (pm - zlen t);
   do b2 <- aset b1 (zlen t) 0x80;
   write_bytes b2 (pm - 4) (SHA2_UNPACK32 x))
  = Some ((t ++ 0x80 :: replicate (Z.to_nat pm - length t - 5) 0 ++ Fips.be_bytes 4 x)
          ++ drop (Z.to_nat pm) blk).
Proof.
  intros Ht H1 H2. unfold memset.
  destruct (Z.leb_spec 0 (pm - zlen t)); [|unfold zlen in *; lia].
  rewrite write_bytes_Some by len. cbn [mbind option_bind].
  replace (Z.to_nat (zlen t)) with (length t) by len. rewrite Ht, length_replicate.
  replace (length t + Z.to_nat (pm - zlen t))%nat with (Z.to_nat pm) by len.
  replace (Z.to_nat (pm - zlen t)) with (1 + (Z.to_nat pm - length t - 5) + 4)%nat by len.
  rewrite aset_Some by len. cbn [mbind option_bind].
  replace (Z.to_nat (zlen t)) with (length t) by len.
  rewrite (replicate_add _ 4), (replicate_add 1). cbn [replicate app].
  rewrite insert_here. set (zs := replicate (Z.to_nat pm - length t - 5) 0).
  assert (zlen (t ++ 0x80 :: zs) = pm - 4) as <- by (unfold zs; len).
  replace (t ++ 0x80 :: (zs ++ [0; 0; 0; 0]) ++ drop (Z.to_nat pm) blk)
    with ((t ++ 0x80 :: zs) ++ [0; 0; 0; 0] ++ drop (Z.to_nat pm) blk)
    by (by rewrite <- !app_assoc).
  rewrite write_bytes_prefix by len. rewrite unpack32_be, be_bytes_length.
  cbn [app drop]. by rewrite <- !app_assoc, <- !app_comm_cons, <- !app_assoc.
Qed.

Lemma pad_split msg q r :
  length msg = (64 * q + r)%nat -> (r < 64)%nat -> 8 * zlen msg < 2 ^ 32 ->
  exists nb, (nb = 1 + Nat.b2n (55 <? r))%nat /\
    (length (Fips.pad msg) / 64 = q + nb)%nat /\
    drop (64 * q) (Fips.pad msg)
    = drop (64 * q) msg ++ 0x80 :: replicate (64 * nb - r - 5) 0 ++ Fips.be_bytes 4 (8 * zlen msg).
Proof.
  intros Hq Hr Hl. eexists; split; [done|].
  set (nb := (1 + Nat.b2n (55 <? r)%nat)%nat).
  assert (Z.to_nat ((55 - zlen msg) mod 64) = 64 * nb - r - 9)%nat as Hk.
  { unfold nb, zlen. destruct (Nat.ltb_spec 55 r); simpl Nat.b2n; dlia. }
  assert (r + 9 <= 64 * nb)%nat as Hnb by (unfold nb; destruct (Nat.ltb_spec 55 r); simpl; lia).
  unfold Fips.pad. rewrite Hk. split.
  - rewrite !length_app. cbn [length]. rewrite !length_app, length_replicate, be_bytes_length.
    replace (length msg + S (64 * nb - r - 9 + 8))%nat with (64 * (q + nb) + 0)%nat by lia.
    apply div64. lia.
  - rewrite drop_app_le by lia. do 2 f_equal.
    rewrite be_bytes_8_small by (unfold in_u, zlen in *; lia).
    rewrite app_assoc, <- replicate_add. do 2 f_equal. lia.
Qed.

(** [final] pads as the standard does and returns the digest. *)
Lemma final_absorbed s msg :
  absorbed s msg -> Forall byteb msg -> 8 * zlen msg < 2 ^ 32 ->
  exists s', final s = Some (s', Fips.digest msg).
Proof.
  intros Ha Hm Hl. pose proof (absorbed_h_length _ _ Ha) as Hhl.
  destruct Ha as [[Hbl Hbb] Ht Hlen Hh Hk].
  destruct (div_mod_64 (length msg)) as (q & r & Hq & Hr).
  destruct (pad_split msg q r Hq Hr Hl) as (nb & Hnb & Hpl & Hpd).
  set (t := drop (64 * q) msg) in *.
  assert (length t = r) as Htl by (unfold t; len).
  rewrite Hq, div64 in Hh, Hk by done. fold t in Hk.
  assert (m_len s = zlen t) as Hml by (rewrite Hlen; unfold zlen; rewrite Htl; dlia).
  assert (1 + Z.b2z (SHA224_256_BLOCK_SIZE - 9 <? zlen t mod SHA224_256_BLOCK_SIZE) = Z.of_nat nb)
    as Hb.
  { unfold SHA224_256_BLOCK_SIZE, zlen. rewrite Z.mod_small by lia.
    destruct (Nat.ltb_spec 55 r), (Z.ltb_spec (64 - 9) (Z.of_nat (length t))); simpl in *; lia. }
  assert (r + 9 <= 64 * nb <= 128)%nat as Hfit
    by (destruct (Nat.ltb_spec 55 r); simpl in Hnb; lia).
  unfold final. rewrite Hml, Hb, Ht.
  replace (64 * (zlen msg / 64) + zlen t) with (zlen msg) by (unfold zlen; dlia).
  rewrite (wrapu_small 32 (zlen msg)) by (unfold in_u, zlen in *; lia).
  rewrite !Z.shiftl_mul_pow2 by lia. change (2 ^ 6) with 64. change (2 ^ 3) with 8.
  rewrite wrapu_small by (unfold in_u, zlen in *; lia). rewrite (Z.mul_comm _ 8).
  rewrite Hml in Hk. replace (Z.to_nat (zlen t)) with (length t) in Hk by len.
  pose proof (final_block (m_block s) t (Z.of_nat nb * 64) (8 * zlen msg) Hk
    ltac:(len) ltac:(len)) as Hfb.
  destruct (memset (m_block s) (zlen t) 0 (Z.of_nat nb * 64 - zlen t)) as [b1|]; [|done].
  cbn [mbind option_bind] in *. destruct (aset b1 (zlen t) 128) as [b2|]; [|done].
  cbn [mbind option_bind] in *. rewrite Hfb. cbn [mbind option_bind].
  replace (Z.to_nat (Z.of_nat nb * 64)) with (64 * nb)%nat in * by lia.
  rewrite Htl in *. rewrite <- Hpd.
  assert (Forall byteb (drop (64 * q) (Fips.pad msg) ++ drop (64 * nb) (m_block s))) as Hby.
  { apply Forall_app; split; [|by apply Forall_drop]. apply Forall_drop.
    unfold Fips.pad. apply Forall_app; split; [done|]. constructor; [done|].
    apply Forall_app; split; [apply Forall_replicate; done|].
    apply Forall_reverse, le_split_bytes. }
  assert (length (drop (64 * q) (Fips.pad msg)) = 64 * nb)%nat as Hdl.
  { rewrite Hpd, length_app. cbn [length]. rewrite length_app, length_replicate, be_bytes_length. lia. }
  rewrite transform_blocks; cbn [m_h m_tot_len m_len m_block mbind option_bind];
    [|done|by apply Forall_take|len|lia].
  rewrite hash_blocks_app by lia. rewrite Hh. rewrite <- (hash_blocks_app q _ msg
    (0x80 :: replicate (Z.to_nat ((55 - zlen msg) mod 64)) 0 ++ Fips.be_bytes 8 (8 * zlen msg)))
    by lia.
  change (msg ++ _) with (Fips.pad msg). rewrite <- hash_blocks_add, <- Hpl.
  rewrite final_digest by (apply hash_blocks_length, fips_H0_length).
  cbn [mbind option_bind]. eauto.
Qed.

(** ** The results *)

(** Consecutive calls of [update] on the pieces of a message. *)
Fixpoint updates (s : SHA256) (chunks : list (list Z)) : option SHA256 :=
  match chunks with
  | [] => Some s
  | c :: cs => do s' <- update s c (zlen c); updates s' cs
  end.

Lemma updates_absorbed chunks s msg :
  absorbed s msg -> Forall (Forall byteb) chunks -> zlen msg + zlen (mjoin chunks) < 2 ^ 32 ->
  exists s', updates s chunks = Some s' /\ absorbed s' (msg ++ mjoin chunks).
Proof.
  revert s msg. induction chunks as [|c cs IH]; intros s msg Ha Hb Hl.
  - exists s. simpl. by rewrite app_nil_r.
  - apply Forall_cons in Hb as [Hc Hcs]. change (mjoin (c :: cs)) with (c ++ mjoin cs) in *. rewrite zlen_app in Hl.
    destruct (update_absorbed s msg c []) as (s1 & E1 & H1); [done|done| |].
    { pose proof (zlen_nonneg (mjoin cs)). lia. }
    rewrite app_nil_r in E1.
    destruct (IH s1 (msg ++ c)) as (s2 & E2 & H2); [done|done|rewrite zlen_app; lia|].
    exists s2. cbn [updates]. rewrite E1. simpl. by rewrite app_assoc.
Qed.

(** C18. The streaming hash is SHA-256: however a message of fewer than 2^29
    bytes is cut into [update] calls, [init], the [update]s and [final] return
    the FIPS 180-4 digest of the concatenation, from any initial contents of
    the context. *)
Theorem sha256_stream_fips ctx chunks :
  ctx_ok ctx -> Forall (Forall byteb) chunks -> 8 * zlen (mjoin chunks) < 2 ^ 32 ->
  exists s, (do s1 <- updates (init ctx) chunks; final s1)
            = Some (s, Fips.digest (mjoin chunks)).
Proof.
  intros Hc Hb Hl.
  destruct (updates_absorbed chunks (init ctx) []) as (s1 & -> & H1);
    [by apply init_absorbed|done|rewrite zlen_nil; pose proof (zlen_nonneg (mjoin chunks)); lia|].
  simpl. apply final_absorbed; [done| |done].
  rewrite Forall_forall. intros x (i & Hx)%list_elem_of_lookup.
  apply join_lookup_Some in Hx as (j & l & i' & Hj & Hi & _).
  rewrite !Forall_lookup in Hb. eapply Forall_lookup_1; [by eapply Hb|done].
Qed.

Lemma sha256_stream_fips_witness :
  exists s, (do s1 <- updates (init (mkSHA256 7 9 (replicate 128 255) [])) [[97]; []; [98; 99]];
             final s1) = Some (s, Fips.digest [97; 98; 99]).
Proof.
  apply (sha256_stream_fips (mkSHA256 7 9 (replicate 128 255) []) [[97]; []; [98; 99]]).
  - apply (bool_decide_unpack _). vm_compute. exact I.
  - apply (bool_decide_unpack _). vm_compute. exact I.
  - reflexivity.
Defined.

(** The hexadecimal text of a sequence of bytes. *)
Definition hexstr (bs : list Z) : list Z := mjoin (sprintf_02x <$> bs).

Lemma hexstr_app a b : hexstr (a ++ b) = hexstr a ++ hexstr b.
Proof. unfold hexstr. by rewrite fmap_app, join_app. Qed.

Lemma hexstr_length bs : length (hexstr bs) = (2 * length bs)%nat.
Proof.
  induction bs as [|b bs IH]; [done|].
  change (hexstr (b :: bs)) with (sprintf_02x b ++ hexstr bs). rewrite length_app, IH. simpl. lia.
Qed.

#[export] Hint Rewrite hexstr_length : clen.

Lemma hexdigit_range d : 0 <= d < 16 -> 48 <= hexdigit d < 58 \/ 97 <= hexdigit d < 103.
Proof. intros. unfold hexdigit. destruct (Z.ltb_spec d 10); lia. Qed.

Lemma hexstr_chars bs : Forall byteb bs -> chars (hexstr bs).
Proof.
  induction 1 as [|b bs [Hb0 Hb] _ IH]; [constructor|].
  change (hexstr (b :: bs)) with (sprintf_02x b ++ hexstr bs).
  apply Forall_app; split; [|done]. unfold sprintf_02x.
  pose proof (hexdigit_range (b / 16) ltac:(dlia)).
  pose proof (hexdigit_range (b mod 16) ltac:(dlia)). repeat constructor; lia.
Qed.

Lemma print_digest_hex d buf :
  length d = 32%nat -> length buf = 65%nat ->
  exists rest, print_digest d buf = Some (hexstr (take 16 d) ++ 0 :: rest) /\
               length rest = 32%nat.
Proof.
  intros Hd Hb. unfold print_digest, DIGEST_SIZE. change (32 / 2) with 16.
  destruct (for_range_rule (fun i buf => exists rest,
      buf = hexstr (take (Z.to_nat i) d) ++ rest /\ length buf = 65%nat /\
      (0 < i -> exists rest', rest = 0 :: rest'))
    0 16 (fun i buf => do b <- aget d i; write_bytes buf (i * 2) (sprintf_02x b ++ [0])) buf)
    as (buf' & -> & rest & -> & Hl & Hz); [lia|exists buf; naive_solver lia| |].
  - intros i b1 Hi (rest & -> & Hl & _).
    destruct (aget_is_Some d i) as [x Hx]; [len|]. rewrite Hx. cbn [mbind option_bind].
    apply aget_Some in Hx as [_ Hx].
    replace (i * 2) with (zlen (hexstr (take (Z.to_nat i) d))) by len.
    assert (length rest = 65 - 2 * Z.to_nat i)%nat by len.
    rewrite write_bytes_prefix by len. eexists; split; [done|].
    replace (Z.to_nat (i + 1)) with (S (Z.to_nat i)) by lia.
    rewrite (take_S_r _ _ x Hx), hexstr_app.
    exists (0 :: drop 3 rest). split; [|split; [len|eauto]].
    rewrite <- !app_assoc. reflexivity.
  - change (Z.to_nat 16) with 16%nat in *. destruct Hz as [rest' ->]; [lia|].
    exists rest'. split; [done|]. len.
Qed.

Lemma digest_length msg : length (Fips.digest msg) = 32%nat.
Proof.
  unfold Fips.digest. rewrite length_join, (sum_list_fmap_same 4).
  - rewrite length_fmap. unfold Fips.hash. by rewrite hash_blocks_length by apply fips_H0_length.
  - apply Forall_forall. intros ? (? & -> & ?)%list_elem_of_fmap. apply be_bytes_length.
Qed.

Lemma digest_bytes msg : Forall byteb (Fips.digest msg).
Proof.
  unfold Fips.digest. apply Forall_forall. intros x (i & Hx)%list_elem_of_lookup.
  apply join_lookup_Some in Hx as (j & l & i' & Hj & Hi & _).
  apply list_lookup_fmap_Some in Hj as (z & -> & _).
  eapply Forall_lookup_1; [apply Forall_reverse, le_split_bytes|exact Hi].
Qed.

(** The text [sha256_pg] produces for a string: the first 16 bytes of its
    SHA-256 digest, in hexadecimal. *)
Definition H256 (msg : list Z) : list Z := hexstr (take 16 (Fips.digest msg)).

Lemma H256_length msg : length (H256 msg) = 32%nat.
Proof. unfold H256. rewrite hexstr_length, length_take, digest_length. done. Qed.

Lemma H256_chars msg : chars (H256 msg).
Proof. apply hexstr_chars, Forall_take, digest_bytes. Qed.

#[export] Hint Rewrite H256_length : clen.

(** What [sha256_pg] leaves in its output buffer. *)
Lemma sha256_pg_value ctx0 buf0 input output msg :
  ctx_ok ctx0 -> length buf0 = 65%nat -> Forall byteb msg -> cstr input = Some msg ->
  8 * zlen msg < 2 ^ 32 -> 33 <= zlen output ->
  sha256_pg ctx0 buf0 input output = Some (H256 msg ++ 0 :: drop 33 output).
Proof.
  intros Hc Hb Hi Hs Hl Ho. unfold sha256_pg. rewrite (strlen_cstr _ _ Hs).
  destruct (cstr_inv _ _ Hs) as [rest ->]. cbn [mbind option_bind].
  rewrite wrapu_small by (unfold in_u, zlen in *; lia).
  destruct (update_absorbed (init ctx0) [] msg (0 :: rest)) as (s1 & -> & H1);
    [by apply init_absorbed|done|rewrite zlen_nil; unfold zlen in *; lia|].
  cbn [mbind option_bind].
  destruct (final_absorbed s1 msg H1) as (s2 & ->);
    [done|done|].
  cbn [mbind option_bind]. rewrite aset_Some by (unfold zlen, DIGEST_SIZE; lia).
  cbn [mbind option_bind].
  destruct (print_digest_hex (Fips.digest msg) (<[Z.to_nat (2 * DIGEST_SIZE):=0]> buf0))
    as (rest' & -> & _); [apply digest_length|by rewrite length_insert|].
  cbn [mbind option_bind]. fold (H256 msg).
  rewrite (strcpy_Some _ _ (H256 msg)); [by rewrite H256_length| |len].
  apply cstr_app, H256_chars.
Qed.

(** C17. [sha256_pg] on a C string of fewer than 2^29 characters overwrites the
    start of its output buffer (of at least 33 bytes) with the first half of the
    FIPS digest of the string as 32 lower-case hexadecimal characters and a
    NUL, and leaves the rest of the buffer alone. *)
Theorem sha256_pg_fips ctx0 buf0 input output msg :
  ctx_ok ctx0 -> length buf0 = 65%nat -> Forall byteb msg -> cstr input = Some msg ->
  8 * zlen msg < 2 ^ 32 -> 33 <= zlen output ->
  sha256_pg ctx0 buf0 input output = Some (H256 msg ++ 0 :: drop 33 output) /\
  length (H256 msg) = 32%nat /\ chars (H256 msg).
Proof.
  intros. split; [by apply sha256_pg_value|]. split; [apply H256_length|apply H256_chars].
Qed.

Lemma sha256_pg_fips_witness :
  sha256_pg (mkSHA256 0 0 (replicate 128 0) []) (replicate 65 0) [97; 98; 99; 0] (replicate 40 7)
  = Some (H256 [97; 98; 99] ++ 0 :: drop 33 (replicate 40 7)).
Proof.
  apply (sha256_pg_fips (mkSHA256 0 0 (replicate 128 0) []) (replicate 65 0) [97; 98; 99; 0]
    (replicate 40 7) [97; 98; 99]); try reflexivity; try (vm_compute; discriminate).
  - apply (bool_decide_unpack _). vm_compute. exact I.
  - apply (bool_decide_unpack _). vm_compute. exact I.
Defined.
