(* ===== verification/Hashmap.v ===== *)
(** * The hash map (src/src/backend/mbt/hashmap.c, src/src/include/mbt/hashmap.h)

    Separate chaining over an array of buckets; the same text is compiled into
    the client as src/src/interfaces/libpq/clienthashmap.c.  A chain of [Pair]s
    is owned by its bucket, so it is the list of its pairs in order, and the
    [Pair **] that [get_pair_ptr] returns is a position: the bucket and the
    index in its chain, one past the last pair when the key is absent.  A value
    is a [void *]: [None] is NULL.  Allocation may fail: the operations that
    allocate take the outcome of their [malloc] calls as an argument.

    The abstract specification is a finite map from keys to values; every
    operation is shown to implement the map operation of its name. *)

From S2P Require Import Prelude.

Record Pair (V : Type) := mkPair { pkey : Z; pvalue : option V }.
Arguments mkPair {V} _ _.
Arguments pkey {V} _.
Arguments pvalue {V} _.

Record Hashmap (V : Type) := mkHashmap {
  num_buckets : Z;
  buckets : list (list (Pair V));
  hash : Z -> Z;
  hcompare : Z -> Z -> bool;
  size : Z
}.
Arguments mkHashmap {V} _ _ _ _ _.
Arguments num_buckets {V} _.
Arguments buckets {V} _.
Arguments hash {V} _ _.
Arguments hcompare {V} _ _ _.
Arguments size {V} _.

Definition NUM_BUCKETS : Z := 16.

(** [hash = key % 10000000], eight times over; the remainder is signed and is
    converted to [size_t]. *)
Definition myhash (key : Z) : Z :=
  match for_range 0 8 (fun _ _ => Some (u64 (Z.rem key 10000000))) 0 with
  | Some h => h
  | None => 0
  end.

Definition compare (key1 key2 : Z) : bool := s64 (key1 - key2) =? 0.

Section Operations.
Context {V : Type}.
Implicit Types (m : Hashmap V) (key : Z).

(** [init_buckets]: every bucket is set to NULL. *)
Definition init_buckets (m : Hashmap V) : Hashmap V :=
  mkHashmap (num_buckets m) (replicate (Z.to_nat (num_buckets m)) []) (hash m) (hcompare m) (size m).

(** [alloc_map], [alloc_buckets]: whether the two [malloc] calls succeed. *)
Definition hashmap_new (alloc_map alloc_buckets : bool) (num_buckets : Z)
    (hash : Z -> Z) (compare : Z -> Z -> bool) : option (Hashmap V) :=
  if negb alloc_map then None
  else if negb alloc_buckets then None
  else Some (init_buckets (mkHashmap num_buckets [] hash compare 0)).

(** The index of the bucket of a key; [% 0] is undefined. *)
Definition get_bucket (m : Hashmap V) (key : Z) : option Z :=
  if num_buckets m =? 0 then None else Some (hash m key mod num_buckets m).

Fixpoint chain_find (cmp : Z -> Z -> bool) (c : list (Pair V)) (key : Z) : nat :=
  match c with
  | [] => O
  | p :: c' => if cmp (pkey p) key then O else S (chain_find cmp c' key)
  end.

Definition get_pair_ptr (m : Hashmap V) (key : Z) : option (Z * nat) :=
  do b <- get_bucket m key;
  do c <- aget (buckets m) b;
  Some (b, chain_find (hcompare m) c key).

(** [*pair_ptr], NULL past the end of the chain. *)
Definition deref (m : Hashmap V) (ptr : Z * nat) : option (option (Pair V)) :=
  do c <- aget (buckets m) ptr.1; Some (c !! ptr.2).

(** [pair_new]: NULL when its [malloc] fails. *)
Definition pair_new (alloc : bool) (key : Z) (value : option V) : option (Pair V) :=
  if alloc then Some (mkPair key value) else None.

Definition set_chain (m : Hashmap V) (b : Z) (c : list (Pair V)) : option (Hashmap V) :=
  do bs <- aset (buckets m) b c;
  Some (mkHashmap (num_buckets m) bs (hash m) (hcompare m) (size m)).

(** [hashmap_set]: the new map and the [int] it returns. *)
Definition hashmap_set (alloc : bool) (m : Hashmap V) (key : Z) (value : option V)
  : option (Hashmap V * Z) :=
  do ptr <- get_pair_ptr m key;
  do c <- aget (buckets m) ptr.1;
  do p <- deref m ptr;
  match p with
  | None =>
      let new := pair_new alloc key value in
      do m' <- set_chain m ptr.1 (c ++ option_list new);
      Some (mkHashmap (num_buckets m') (buckets m') (hash m') (hcompare m') (s32 (size m' + 1)),
            if new is Some _ then 1 else 0)
  | Some p =>
      do m' <- set_chain m ptr.1 (<[ptr.2 := mkPair (pkey p) value]> c);
      Some (m', 1)
  end.

Definition hashmap_get (m : Hashmap V) (key : Z) : option (option V) :=
  do ptr <- get_pair_ptr m key;
  do p <- deref m ptr;
  Some (match p with Some p => pvalue p | None => None end).

Definition hashmap_delete (m : Hashmap V) (key : Z) : option (Hashmap V * option V) :=
  do ptr <- get_pair_ptr m key;
  do c <- aget (buckets m) ptr.1;
  do p <- deref m ptr;
  match p with
  | Some p =>
      do m' <- set_chain m ptr.1 (delete ptr.2 c);
      Some (m', pvalue p)
  | None => Some (m, None)
  end.

(** The blocks [free_buckets] releases, in the order of the calls to [free]:
    bucket by bucket, along each chain. *)
Definition free_buckets (m : Hashmap V) : option (list (Pair V)) :=
  for_range 0 (num_buckets m) (fun i freed =>
    do c <- aget (buckets m) i; Some (freed ++ c)) [].

(** The blocks of memory a hash map owns. *)
Inductive block := BPair (p : Pair V) | BBuckets | BMap.

(** [hashmap_free]: the chains, then the array of buckets, then the map. *)
Definition hashmap_free (m : Hashmap V) : option (list block) :=
  do freed <- free_buckets m; Some ((BPair <$> freed) ++ [BBuckets; BMap]).

End Operations.

(** ** The interface to the key functions *)

(** What the map needs from the two function pointers it is created with. *)
Class KeyFns (hash : Z -> Z) (cmp : Z -> Z -> bool) : Prop := {
  cmp_eq k1 k2 : in_s 64 k1 -> in_s 64 k2 -> cmp k1 k2 = bool_decide (k1 = k2);
  hash_nonneg k : 0 <= hash k
}.

Lemma myhash_value key : myhash key = u64 (Z.rem key 10000000).
Proof. reflexivity. Qed.

Lemma compare_eq k1 k2 : in_s 64 k1 -> in_s 64 k2 -> compare k1 k2 = bool_decide (k1 = k2).
Proof.
  unfold in_s, compare, wraps. intros H1 H2.
  destruct (Z.eqb_spec ((k1 - k2 + 2 ^ (64 - 1)) mod 2 ^ 64 - 2 ^ (64 - 1)) 0);
    case_bool_decide; try done; exfalso; [|subst; rewrite Z.sub_diag in *; done].
  assert ((k1 - k2 + 2 ^ (64 - 1)) mod 2 ^ 64 = 2 ^ 63) as Hm by lia.
  pose proof (Z.div_mod (k1 - k2 + 2 ^ (64 - 1)) (2 ^ 64) ltac:(lia)). lia.
Qed.

#[export] Instance myhash_compare_fns : KeyFns myhash compare.
Proof. split; [apply compare_eq|]. intros k. apply wrapu_range. lia. Qed.

(** ** Chains *)

Section Chains.
Context {V : Type} (cmp : Z -> Z -> bool).
Hypothesis Hcmp : forall k1 k2, in_s 64 k1 -> in_s 64 k2 -> cmp k1 k2 = bool_decide (k1 = k2).
Implicit Types (c : list (Pair V)) (k : Z).

(** The value of a key in a chain: the first pair with the key. *)
Fixpoint chain_get c k : option (option V) :=
  match c with
  | [] => None
  | p :: c' => if decide (pkey p = k) then Some (pvalue p) else chain_get c' k
  end.

Definition keys_in_range c : Prop := Forall (fun p => in_s 64 (pkey p)) c.

Lemma chain_find_get c k :
  keys_in_range c -> in_s 64 k ->
  match c !! chain_find cmp c k with
  | Some p => pkey p = k /\ chain_get c k = Some (pvalue p)
  | None => chain_get c k = None
  end.
Proof.
  intros Hc Hk. induction Hc as [|p c Hp Hc IH]; simpl; [done|].
  rewrite Hcmp by done. case_bool_decide; simpl; case_decide; try done; congruence.
Qed.

Lemma chain_get_in c k : is_Some (chain_get c k) <-> k ∈ (pkey <$> c).
Proof.
  induction c as [|p c IH]; simpl; [by rewrite elem_of_nil; split; [intros []|]|].
  rewrite elem_of_cons. case_decide as Hp; [split; eauto|].
  rewrite IH. split; [by right|]. by intros [->|].
Qed.

Lemma chain_get_snoc c k v k' :
  chain_get c k = None ->
  chain_get (c ++ [mkPair k v]) k' = if decide (k = k') then Some v else chain_get c k'.
Proof.
  intros Hn. induction c as [|p c IH]; simpl in *; [by case_decide|].
  repeat case_decide; subst; try done; by rewrite IH, ?decide_True, ?decide_False by done.
Qed.

Lemma chain_get_update c k v k' :
  keys_in_range c -> in_s 64 k -> is_Some (chain_get c k) ->
  chain_get (<[chain_find cmp c k := mkPair k v]> c) k'
  = if decide (k = k') then Some v else chain_get c k'.
Proof.
  intros Hc Hk Hs. induction Hc as [|p c Hp Hc IH]; simpl in *; [by destruct Hs|].
  rewrite Hcmp by done. case_bool_decide; simpl.
  - subst. by repeat case_decide.
  - rewrite decide_False in Hs by done. specialize (IH Hs). rewrite IH.
    repeat case_decide; congruence.
Qed.

Lemma chain_get_delete c k k' :
  keys_in_range c -> in_s 64 k -> NoDup (pkey <$> c) -> is_Some (chain_get c k) ->
  chain_get (delete (chain_find cmp c k) c) k'
  = if decide (k = k') then None else chain_get c k'.
Proof.
  intros Hc Hk Hnd Hs. induction Hc as [|p c Hp Hc IH]; simpl in *; [by destruct Hs|].
  apply NoDup_cons in Hnd as [Hni Hnd]. rewrite Hcmp by done. case_bool_decide; simpl.
  - subst. repeat case_decide; try done. subst.
    destruct (chain_get c (pkey p)) eqn:E; [|done].
    exfalso. apply Hni, chain_get_in. by rewrite E.
  - rewrite decide_False in Hs by done. rewrite IH by done. repeat case_decide; congruence.
Qed.

End Chains.

(** ** Refinement of finite maps *)

Section Refinement.
Context {V : Type}.
Implicit Types (m : Hashmap V) (M : gmap Z (option V)).

(** The chain of a bucket holds keys of that bucket only, each once. *)
Definition chain_ok m (b : Z) (c : list (Pair V)) : Prop :=
  NoDup (pkey <$> c) /\
  Forall (fun p => in_s 64 (pkey p) /\ hash m (pkey p) mod num_buckets m = b) c.

(** [hm_rep m M]: the hash map [m] represents the finite map [M]. *)
Record hm_rep m M : Prop := {
  rep_fns : KeyFns (hash m) (hcompare m);
  rep_pos : 0 < num_buckets m;
  rep_len : zlen (buckets m) = num_buckets m;
  rep_chain b c : aget (buckets m) b = Some c -> chain_ok m b c;
  rep_get k c : in_s 64 k -> aget (buckets m) (hash m k mod num_buckets m) = Some c ->
                chain_get c k = M !! k;
  rep_dom k : is_Some (M !! k) -> in_s 64 k
}.

Lemma rep_bucket m M k :
  hm_rep m M -> exists c, get_bucket m k = Some (hash m k mod num_buckets m) /\
    aget (buckets m) (hash m k mod num_buckets m) = Some c.
Proof.
  intros []. unfold get_bucket. destruct (Z.eqb_spec (num_buckets m) 0); [lia|].
  destruct (aget_is_Some (buckets m) (hash m k mod num_buckets m)) as [c Hc]; [|eauto].
  rewrite rep_len0. apply Z.mod_pos_bound. lia.
Qed.

(** Where [get_pair_ptr] points: to the pair of the key, or past the chain. *)
Lemma rep_ptr m M k :
  hm_rep m M -> in_s 64 k ->
  let b := hash m k mod num_buckets m in
  exists c, aget (buckets m) b = Some c /\ keys_in_range c /\ chain_get c k = M !! k /\
    get_pair_ptr m k = Some (b, chain_find (hcompare m) c k) /\
    match c !! chain_find (hcompare m) c k with
    | Some p => pkey p = k /\ M !! k = Some (pvalue p)
    | None => M !! k = None
    end.
Proof.
  intros Hr Hk b. destruct (rep_bucket m M k Hr) as (c & Hb & Hc).
  destruct Hr as [Hf Hp Hl Hch Hg Hd]. exists c.
  assert (keys_in_range c) as Hkr.
  { destruct (Hch _ _ Hc) as [_ Hfa]. eapply Forall_impl; [exact Hfa|]. naive_solver. }
  assert (chain_get c k = M !! k) as Hcg by by apply Hg.
  unfold get_pair_ptr. rewrite Hb. simpl. rewrite Hc. simpl. repeat split; try done.
  pose proof (chain_find_get (hcompare m) cmp_eq c k Hkr Hk) as Hfind.
  destruct (c !! chain_find (hcompare m) c k); by rewrite <- Hcg.
Qed.

(** Replacing the chain of a key by one that differs in that key only. *)
Lemma rep_change m M M' k o c c' m' :
  hm_rep m M -> in_s 64 k ->
  aget (buckets m) (hash m k mod num_buckets m) = Some c ->
  set_chain m (hash m k mod num_buckets m) c' = Some m' ->
  chain_ok m (hash m k mod num_buckets m) c' ->
  (forall k', chain_get c' k' = if decide (k = k') then o else chain_get c k') ->
  (forall k', M' !! k' = if decide (k = k') then o else M !! k') ->
  hm_rep m' M'.
Proof.
  intros [Hf Hp Hl Hch Hg Hd] Hk Hb Hs Hok Hc' HM'.
  set (b := hash m k mod num_buckets m) in *.
  unfold set_chain in Hs. inv_some. apply aset_inv in E as [Hlt ->].
  assert (forall b' x, aget (<[Z.to_nat b := c']> (buckets m)) b' = Some x ->
    (b' = b /\ x = c') \/ (b' <> b /\ aget (buckets m) b' = Some x)) as Hget.
  { intros b' x [Hb' Hx]%aget_Some. destruct (decide (b' = b)) as [->|Hne].
    - left. rewrite list_lookup_insert_eq in Hx by (unfold zlen in *; lia). by simplify_eq.
    - right. rewrite list_lookup_insert_ne in Hx by lia. split; [done|]. by apply aget_Some. }
  split; cbn [hash hcompare num_buckets buckets]; try done.
  - by rewrite zlen_insert.
  - intros b' x [[-> ->]|[_ Hx]]%Hget; [done|]. by apply Hch.
  - intros k' x Hk' [[Hbk ->]|[Hbk Hx]]%Hget; rewrite HM'.
    + rewrite Hc'. case_decide; [done|]. apply Hg; [done|]. by rewrite Hbk.
    + rewrite decide_False by (intros ->; done). by apply Hg.
  - intros k'. rewrite HM'. case_decide; [by subst|apply Hd].
Qed.

Lemma hm_rep_size m M n :
  hm_rep m M ->
  hm_rep (mkHashmap (num_buckets m) (buckets m) (hash m) (hcompare m) n) M.
Proof. by intros []. Qed.

(** [hashmap_get] is the lookup of the map; an absent key gives NULL. *)
Lemma hashmap_get_rep m M k :
  hm_rep m M -> in_s 64 k -> hashmap_get m k = Some (mjoin (M !! k)).
Proof.
  intros Hr Hk. destruct (rep_ptr m M k Hr Hk) as (c & Hc & _ & _ & Hp & Hm).
  unfold hashmap_get, deref. rewrite Hp. cbn [mbind option_bind fst snd]. rewrite Hc.
  cbn [mbind option_bind]. destruct (c !! _) as [p|].
  - destruct Hm as [_ ->]. done.
  - by rewrite Hm.
Qed.

Lemma chain_ok_app m b c k v :
  chain_ok m b c -> in_s 64 k -> hash m k mod num_buckets m = b -> chain_get c k = None ->
  chain_ok m b (c ++ [mkPair k v]).
Proof.
  intros [Hnd Hfa] Hk Hb Hn. split.
  - rewrite fmap_app. apply NoDup_app. split; [done|]. split; [|apply NoDup_singleton].
    intros x Hx%chain_get_in ->%list_elem_of_singleton. simpl in Hx. rewrite Hn in Hx.
    by destruct Hx.
  - apply Forall_app; split; [done|]. by apply Forall_singleton.
Qed.

Lemma set_chain_Some m b c' :
  0 <= b < zlen (buckets m) -> exists m', set_chain m b c' = Some m' /\ size m' = size m.
Proof. intros. unfold set_chain. rewrite aset_Some by done. simpl. eauto. Qed.

(** [hashmap_set] with enough memory inserts, overwriting the old value; only a
    new key counts in [size]. *)
Lemma hashmap_set_rep m M k v :
  hm_rep m M -> in_s 64 k ->
  exists m', hashmap_set true m k v = Some (m', 1) /\ hm_rep m' (<[k:=v]> M) /\
    size m' = if M !! k is Some _ then size m else s32 (size m + 1).
Proof.
  intros Hr Hk. destruct (rep_ptr m M k Hr Hk) as (c & Hc & Hkr & Hcg & Hp & Hm).
  pose proof (aget_lt _ _ _ Hc) as Hlt. pose proof (rep_chain _ _ Hr _ _ Hc) as [Hnd Hfa].
  unfold hashmap_set, deref. rewrite Hp. cbn [mbind option_bind fst snd]. rewrite Hc.
  cbn [mbind option_bind]. destruct (c !! _) as [p|] eqn:Ep.
  - destruct Hm as [Hpk Hm]. rewrite Hm, Hpk.
    destruct (set_chain_Some m _ (<[chain_find (hcompare m) c k:=mkPair k v]> c) Hlt)
      as (m' & E & Hsz).
    rewrite E. simpl. exists m'. split; [done|]. split; [|done].
    eapply (rep_change m M _ k (Some v) c); [done|done|done|exact E| | |].
    + split; [|by apply Forall_insert].
      rewrite list_fmap_insert, list_insert_id; [done|].
      rewrite list_lookup_fmap, Ep. simpl. by rewrite Hpk.
    + intros k'. apply chain_get_update; [apply Hr|done|done|by rewrite Hcg, Hm].
    + intros k'. rewrite lookup_insert. by case_decide.
  - rewrite Hm. destruct (set_chain_Some m _ (c ++ [mkPair k v]) Hlt) as (m' & E & Hsz).
    simpl. rewrite E. simpl. eexists. split; [done|]. split; [|by rewrite Hsz].
    apply hm_rep_size.
    eapply (rep_change m M _ k (Some v) c); [done|done|done|exact E| | |].
    + apply chain_ok_app; [done|done|done|by rewrite Hcg].
    + intros k'. apply chain_get_snoc. by rewrite Hcg.
    + intros k'. rewrite lookup_insert. by case_decide.
Qed.

(** [hashmap_delete] removes the key and returns its value, NULL when there was
    none; it never changes [size]. *)
Lemma hashmap_delete_rep m M k :
  hm_rep m M -> in_s 64 k ->
  exists m', hashmap_delete m k = Some (m', mjoin (M !! k)) /\ hm_rep m' (delete k M) /\
    size m' = size m.
Proof.
  intros Hr Hk. destruct (rep_ptr m M k Hr Hk) as (c & Hc & Hkr & Hcg & Hp & Hm).
  pose proof (aget_lt _ _ _ Hc) as Hlt. pose proof (rep_chain _ _ Hr _ _ Hc) as [Hnd Hfa].
  unfold hashmap_delete, deref. rewrite Hp. cbn [mbind option_bind fst snd]. rewrite Hc.
  cbn [mbind option_bind]. destruct (c !! _) as [p|] eqn:Ep.
  - destruct Hm as [Hpk Hm]. rewrite Hm.
    destruct (set_chain_Some m _ (delete (chain_find (hcompare m) c k) c) Hlt) as (m' & E & Hsz).
    rewrite E. simpl. exists m'. split; [done|]. split; [|done].
    eapply (rep_change m M _ k None c); [done|done|done|exact E| | |].
    + split; [|by apply Forall_delete].
      eapply sublist_NoDup; [exact Hnd|]. apply fmap_sublist, sublist_delete.
    + intros k'. apply chain_get_delete; [apply Hr|done|done|done|by rewrite Hcg, Hm].
    + intros k'. rewrite lookup_delete. by case_decide.
  - rewrite Hm. exists m. split; [done|]. split; [|done]. by rewrite delete_id.
Qed.

(** When the allocation of a new pair fails, the map is unchanged and the result
    is 0, but [size] has been incremented. *)
Lemma hashmap_set_oom m M k v :
  hm_rep m M -> in_s 64 k -> M !! k = None ->
  exists m', hashmap_set false m k v = Some (m', 0) /\ hm_rep m' M /\
    size m' = s32 (size m + 1).
Proof.
  intros Hr Hk HM. destruct (rep_ptr m M k Hr Hk) as (c & Hc & Hkr & Hcg & Hp & Hm).
  pose proof (aget_lt _ _ _ Hc) as Hlt.
  unfold hashmap_set, deref. rewrite Hp. cbn [mbind option_bind fst snd]. rewrite Hc.
  cbn [mbind option_bind]. destruct (c !! _) as [p|]; [naive_solver|]. simpl.
  rewrite app_nil_r. destruct (set_chain_Some m _ c Hlt) as (m' & E & Hsz). rewrite E.
  simpl. eexists. split; [done|]. split; [|by rewrite Hsz]. apply hm_rep_size.
  eapply (rep_change m M _ k None c); [done|done|done|exact E| | |].
  - by apply (rep_chain _ _ Hr).
  - intros k'. case_decide; [subst; by rewrite Hcg|done].
  - intros k'. by case_decide; [subst|].
Qed.

Lemma hashmap_new_rep n h cmp m :
  KeyFns h cmp -> 0 < n -> hashmap_new true true n h cmp = Some m -> hm_rep m ∅ /\ size m = 0.
Proof.
  intros Hf Hn Hm. unfold hashmap_new in Hm. simpl in Hm. inv_some. split; [|done].
  split; cbn [init_buckets hash hcompare num_buckets buckets]; try done.
  - rewrite zlen_replicate. lia.
  - intros b c [_ [-> _]%lookup_replicate]%aget_Some. split; constructor.
  - intros k c _ [_ [-> _]%lookup_replicate]%aget_Some. by rewrite lookup_empty.
  - intros k. rewrite lookup_empty. by intros [].
Qed.

(** ** Runs *)

(** A client's call; the outcome of the allocation of [hashmap_set] included. *)
Inductive op :=
  | OpSet (alloc : bool) (key : Z) (value : option V)
  | OpGet (key : Z)
  | OpDelete (key : Z).

Definition op_key (o : op) : Z :=
  match o with OpSet _ k _ | OpGet k | OpDelete k => k end.

(** What a call returns: the [int] of [hashmap_set] or a [void *]. *)
Inductive res := RInt (n : Z) | RPtr (v : option V).

Definition hm_step m (o : op) : option (Hashmap V * res) :=
  match o with
  | OpSet alloc k v => do ' (m', n) <- hashmap_set alloc m k v; Some (m', RInt n)
  | OpGet k => do v <- hashmap_get m k; Some (m, RPtr v)
  | OpDelete k => do ' (m', v) <- hashmap_delete m k; Some (m', RPtr v)
  end.

(** The same call on the finite map: a set that has to allocate and cannot
    leaves the map as it is and returns 0. *)
Definition map_step M (o : op) : gmap Z (option V) * res :=
  match o with
  | OpSet alloc k v =>
      if alloc || bool_decide (is_Some (M !! k)) then (<[k:=v]> M, RInt 1) else (M, RInt 0)
  | OpGet k => (M, RPtr (mjoin (M !! k)))
  | OpDelete k => (delete k M, RPtr (mjoin (M !! k)))
  end.

Fixpoint hm_run m (os : list op) : option (Hashmap V * list res) :=
  match os with
  | [] => Some (m, [])
  | o :: os =>
      do ' (m', r) <- hm_step m o;
      do ' (m'', rs) <- hm_run m' os;
      Some (m'', r :: rs)
  end.

Fixpoint map_run M (os : list op) : gmap Z (option V) * list res :=
  match os with
  | [] => (M, [])
  | o :: os => let '(M', r) := map_step M o in
               let '(M'', rs) := map_run M' os in (M'', r :: rs)
  end.

(** [hashmap_set] of a present key never allocates. *)
Lemma hashmap_set_present m M k v alloc :
  hm_rep m M -> in_s 64 k -> is_Some (M !! k) ->
  hashmap_set alloc m k v = hashmap_set true m k v.
Proof.
  intros Hr Hk HM. destruct (rep_ptr m M k Hr Hk) as (c & Hc & _ & _ & Hp & Hm).
  unfold hashmap_set, deref. rewrite Hp. cbn [mbind option_bind fst snd]. rewrite Hc.
  cbn [mbind option_bind]. destruct (c !! _); [done|]. rewrite Hm in HM. by destruct HM.
Qed.

Lemma hm_step_rep m M o :
  hm_rep m M -> in_s 64 (op_key o) ->
  exists m', hm_step m o = Some (m', (map_step M o).2) /\ hm_rep m' (map_step M o).1.
Proof.
  intros Hr Hk. destruct o as [alloc k v|k|k]; simpl in *.
  - destruct alloc; simpl.
    { destruct (hashmap_set_rep m M k v Hr Hk) as (m' & -> & ? & _). simpl. eauto. }
    case_bool_decide as HM; simpl.
    + rewrite (hashmap_set_present m M) by done.
      destruct (hashmap_set_rep m M k v Hr Hk) as (m' & -> & ? & _). simpl. eauto.
    + apply eq_None_not_Some in HM.
      destruct (hashmap_set_oom m M k v Hr Hk HM) as (m' & -> & ? & _). simpl. eauto.
  - rewrite (hashmap_get_rep m M k Hr Hk). simpl. eauto.
  - destruct (hashmap_delete_rep m M k Hr Hk) as (m' & -> & ? & _). simpl. eauto.
Qed.

Lemma hm_run_rep os : forall m M,
  hm_rep m M -> Forall (fun o => in_s 64 (op_key o)) os ->
  exists m', hm_run m os = Some (m', (map_run M os).2) /\ hm_rep m' (map_run M os).1.
Proof.
  induction os as [|o os IH]; intros m M Hr Hos; simpl; [eauto|].
  apply Forall_cons in Hos as [Ho Hos].
  destruct (hm_step_rep m M o Hr Ho) as (m' & -> & Hr').
  destruct (map_step M o) as [M' r]. cbn [mbind option_bind fst snd] in *.
  destruct (IH m' M' Hr' Hos) as (m'' & -> & Hr'').
  destruct (map_run M' os) as [M'' rs]. simpl in *. eauto.
Qed.

(** ** Release *)

Lemma join_snoc {A} (ls : list (list A)) l : mjoin (ls ++ [l]) = mjoin ls ++ l.
Proof.
  induction ls as [|l' ls IH]; simpl; [by rewrite app_nil_r|]. by rewrite IH, (assoc_L (++)).
Qed.

(** The number of calls that found no pair for their key and added one. *)
Fixpoint insertions M (os : list op) : Z :=
  match os with
  | [] => 0
  | o :: os =>
      (match o with OpSet _ k _ => if M !! k is Some _ then 0 else 1 | _ => 0 end)
      + insertions (map_step M o).1 os
  end.

Lemma s32_add a b : s32 (s32 a + b) = s32 (a + b).
Proof.
  unfold wraps. f_equal.
  replace ((a + 2 ^ (32 - 1)) mod 2 ^ 32 - 2 ^ (32 - 1) + b + 2 ^ (32 - 1))
    with ((a + 2 ^ (32 - 1)) mod 2 ^ 32 + b) by lia.
  rewrite Z.add_mod_idemp_l by lia. f_equal. lia.
Qed.

Lemma s32_idem a : s32 (s32 a) = s32 a.
Proof. pose proof (s32_add a 0) as H. by rewrite !Z.add_0_r in H. Qed.

Lemma hm_step_size m M o m' r :
  hm_rep m M -> in_s 64 (op_key o) -> size m = s32 (size m) ->
  hm_step m o = Some (m', r) ->
  size m' = s32 (size m +
    match o with OpSet _ k _ => if M !! k is Some _ then 0 else 1 | _ => 0 end).
Proof.
  intros Hr Hk Hs He. destruct o as [alloc k v|k|k]; simpl in *.
  - destruct (M !! k) as [w|] eqn:HM.
    + rewrite (hashmap_set_present m M) in He by (done || by rewrite HM).
      destruct (hashmap_set_rep m M k v Hr Hk) as (m1 & E & _ & Hsz). rewrite E in He.
      simpl in He. inv_some. by rewrite Hsz, HM, Z.add_0_r.
    + destruct alloc.
      * destruct (hashmap_set_rep m M k v Hr Hk) as (m1 & E & _ & Hsz). rewrite E in He.
        simpl in He. inv_some. by rewrite Hsz, HM.
      * destruct (hashmap_set_oom m M k v Hr Hk HM) as (m1 & E & _ & Hsz). rewrite E in He.
        simpl in He. by inv_some.
  - inv_some. by rewrite Z.add_0_r.
  - destruct (hashmap_delete_rep m M k Hr Hk) as (m1 & E & _ & Hsz). rewrite E in He.
    simpl in He. inv_some. by rewrite Hsz, Z.add_0_r.
Qed.

Lemma hm_run_size os : forall m M m' rs,
  hm_rep m M -> Forall (fun o => in_s 64 (op_key o)) os -> size m = s32 (size m) ->
  hm_run m os = Some (m', rs) -> size m' = s32 (size m + insertions M os).
Proof.
  induction os as [|o os IH]; intros m M m' rs Hr Hos Hs He; simpl in *.
  { inv_some. by rewrite Z.add_0_r. }
  apply Forall_cons in Hos as [Ho Hos].
  destruct (hm_step_rep m M o Hr Ho) as (m1 & E & Hr'). rewrite E in He. simpl in He.
  pose proof (hm_step_size _ _ _ _ _ Hr Ho Hs E) as Hs1.
  destruct (hm_run m1 os) as [[m2 rs2]|] eqn:E2; simpl in He; inv_some.
  rewrite (IH _ _ _ _ Hr' Hos ltac:(by rewrite Hs1, s32_idem) E2).
  rewrite Hs1, s32_add. f_equal. lia.
Qed.

Lemma free_buckets_all m :
  zlen (buckets m) = num_buckets m -> free_buckets m = Some (mjoin (buckets m)).
Proof.
  intros Hl. unfold free_buckets.
  destruct (for_range_rule (fun i freed => freed = mjoin (take (Z.to_nat i) (buckets m)))
    0 (num_buckets m) (fun i freed => do c <- aget (buckets m) i; Some (freed ++ c)) [])
    as (s & -> & ->).
  - rewrite <- Hl. len.
  - done.
  - intros i freed Hi ->. destruct (aget_is_Some (buckets m) i) as [c Hc]; [lia|].
    rewrite Hc. simpl. eexists. split; [done|].
    apply aget_Some in Hc as [? Hc]. replace (Z.to_nat (i + 1)) with (S (Z.to_nat i)) by lia.
    by rewrite (take_S_r _ _ _ Hc), join_snoc.
  - rewrite take_ge; [done|]. unfold zlen in Hl. lia.
Qed.

Lemma chain_get_list (c : list (Pair V)) k v :
  NoDup (pkey <$> c) -> (mkPair k v ∈ c <-> chain_get c k = Some v).
Proof.
  induction c as [|[k' v'] c IH]; simpl; [by rewrite elem_of_nil|].
  intros [Hn Hnd]%NoDup_cons. rewrite elem_of_cons, IH by done.
  case_decide; subst; simpl.
  - split; [intros [[= ->]|Hc]; [done|]|intros [= ->]; by left].
    destruct Hn. apply chain_get_in. by rewrite Hc.
  - split; [by intros [[= ]|]|by right].
Qed.

(** The chains of different buckets share no pair. *)
Lemma pairs_nodup m (bs : list (list (Pair V))) b0 :
  (forall b c, bs !! b = Some c -> chain_ok m (b0 + Z.of_nat b) c) -> NoDup (mjoin bs).
Proof.
  revert b0. induction bs as [|c bs IH]; intros b0 Hok; [constructor|].
  change (mjoin (c :: bs)) with (c ++ mjoin bs). apply NoDup_app. split; [|split].
  - destruct (Hok O c eq_refl) as [Hnd _]. by apply NoDup_fmap_1 in Hnd.
  - intros p Hp (c' & Hpc & [b Hb]%list_elem_of_lookup)%list_elem_of_join.
    destruct (Hok O c eq_refl) as [_ Hf]. destruct (Hok (S b) c' Hb) as [_ Hf'].
    rewrite Forall_forall in Hf, Hf'. destruct (Hf p Hp) as [_ Hh].
    destruct (Hf' p Hpc) as [_ Hh']. lia.
  - apply (IH (b0 + 1)). intros b c' Hb. replace (b0 + 1 + Z.of_nat b) with (b0 + Z.of_nat (S b)) by lia.
    by apply Hok.
Qed.

Lemma pairs_map m M k v :
  hm_rep m M -> (mkPair k v ∈ mjoin (buckets m) <-> M !! k = Some v).
Proof.
  intros Hr. rewrite list_elem_of_join. split.
  - intros (c & Hin & [b Hb]%list_elem_of_lookup).
    assert (aget (buckets m) (Z.of_nat b) = Some c) as Ha by by rewrite aget_nat.
    destruct (rep_chain _ _ Hr _ _ Ha) as [Hnd Hf]. rewrite Forall_forall in Hf.
    destruct (Hf _ Hin) as [Hk Hh]. simpl in *. rewrite <- Hh in Ha.
    rewrite <- (rep_get _ _ Hr k c Hk Ha). by apply chain_get_list.
  - intros HM. assert (in_s 64 k) as Hk by by apply (rep_dom _ _ Hr); rewrite HM.
    destruct (rep_bucket m M k Hr) as (c & _ & Hc). exists c. split.
    + apply chain_get_list; [by apply (rep_chain _ _ Hr) in Hc as []|].
      by rewrite (rep_get _ _ Hr k c Hk Hc).
    + apply aget_Some in Hc as [_ Hc]. by eapply list_elem_of_lookup_2.
Qed.

End Refinement.

(** ** The properties of the component *)

(** C19. The hash map is a finite map: whatever calls to [hashmap_set],
    [hashmap_get] and [hashmap_delete] a client makes on a new map of at least
    one bucket, failing allocations included, no call goes wrong and every call
    returns what the same call on a finite map returns. *)
Theorem hashmap_refines_map {V : Type} (n : Z) (m : Hashmap V) (os : list op) :
  0 < n -> hashmap_new true true n myhash compare = Some m ->
  Forall (fun o => in_s 64 (op_key o)) os ->
  exists m', hm_run m os = Some (m', (map_run ∅ os).2) /\ hm_rep m' (map_run ∅ os).1.
Proof.
  intros Hn Hm Hos. destruct (hashmap_new_rep n _ _ m _ Hn Hm) as [Hr _].
  by apply hm_run_rep.
Qed.

Definition demo_ops : list (@op Z) :=
  [OpSet true 5 (Some 50); OpSet true 21 (Some 60); OpGet 5; OpDelete 5; OpGet 5;
   OpSet false 37 (Some 1); OpSet true 5 (Some 70); OpSet false 21 None; OpGet 5].

Definition demo_new : Hashmap Z := init_buckets (mkHashmap NUM_BUCKETS [] myhash compare 0).

Lemma hashmap_refines_map_witness :
  exists m m', hashmap_new true true NUM_BUCKETS myhash compare = Some m /\
    hm_run m demo_ops
    = Some (m', [RInt 1; RInt 1; RPtr (Some 50); RPtr (Some 50); RPtr None; RInt 0;
                 RInt 1; RInt 1; RPtr (Some 70)]).
Proof.
  destruct (hashmap_refines_map NUM_BUCKETS _ demo_ops eq_refl eq_refl) as (m' & E & _).
  - apply (bool_decide_unpack _). vm_compute. exact I.
  - eexists _, m'. split; [reflexivity|]. rewrite E. reflexivity.
Defined.

(** The [size] field after any run on a new map: it counts the calls that
    found no pair for their key, failed allocations included, wrapped to an
    [int]; a deletion never lowers it, so it is not the number of entries. *)
Theorem hashmap_size_counts_insertions {V : Type} (n : Z) (m m' : Hashmap V)
    (os : list op) (rs : list res) :
  0 < n -> hashmap_new true true n myhash compare = Some m ->
  Forall (fun o => in_s 64 (op_key o)) os -> hm_run m os = Some (m', rs) ->
  size m' = s32 (insertions ∅ os).
Proof.
  intros Hn Hm Hos He. destruct (hashmap_new_rep n _ _ m _ Hn Hm) as [Hr Hz].
  rewrite (hm_run_size os m ∅ m' rs), Hz; by rewrite ?Hz.
Qed.

Lemma hashmap_size_counts_insertions_witness :
  exists m', fst <$> hm_run demo_new demo_ops = Some m' /\ size m' = 4 /\
    zlen (map_to_list (map_run ∅ demo_ops).1) = 2.
Proof.
  assert (match hm_run demo_new demo_ops with Some _ => true | None => false end = true) as H
    by (vm_compute; reflexivity).
  destruct (hm_run demo_new demo_ops) as [[m' rs]|] eqn:E; [clear H|discriminate H].
  exists m'. split; [reflexivity|]. split; [|vm_compute; reflexivity].
  rewrite (hashmap_size_counts_insertions NUM_BUCKETS demo_new m' demo_ops rs eq_refl eq_refl
    ltac:(apply (bool_decide_unpack _); vm_compute; exact I) E).
  vm_compute. reflexivity.
Defined.

(** [hashmap_free] releases the pairs of the map, each exactly once, then
    the array of buckets and the map itself. *)
Theorem hashmap_free_complete {V : Type} (m : Hashmap V) (M : gmap Z (option V)) :
  hm_rep m M ->
  exists freed, hashmap_free m = Some ((BPair <$> freed) ++ [BBuckets; BMap]) /\
    NoDup freed /\ forall k v, mkPair k v ∈ freed <-> M !! k = Some v.
Proof.
  intros Hr. exists (mjoin (buckets m)). unfold hashmap_free.
  rewrite free_buckets_all by apply Hr. split; [done|]. split.
  - apply (pairs_nodup m _ 0). intros b c Hb. apply (rep_chain _ _ Hr). by rewrite Z.add_0_l, aget_nat.
  - intros. by apply pairs_map.
Qed.

Lemma hashmap_free_complete_witness :
  exists m : Hashmap Z, hashmap_new true true NUM_BUCKETS myhash compare = Some m /\
    exists freed, hashmap_free m = Some ((BPair <$> freed) ++ [BBuckets; BMap]) /\ NoDup freed.
Proof.
  eexists. split; [reflexivity|].
  destruct (hashmap_free_complete (V:=Z) _ ∅
    (proj1 (hashmap_new_rep NUM_BUCKETS _ _ _ myhash_compare_fns eq_refl eq_refl)))
    as (freed & E & Hnd & _).
  exists freed. split; [exact E|exact Hnd].
Defined.
