(* ===== verification/Pgvector.v ===== *)
(** * The vector (src/src/backend/mbt/pgvector.c, src/src/include/mbt/pgvector.h)

    A growable array of elements of [element_size] bytes; the same text is
    compiled into the client as src/src/interfaces/libpq/clientpgvector.c.  The
    block [data] points to is the list of its bytes, [None] is NULL; the vector
    owns it.  The vectors passed by address are not NULL and distinct, an
    element pointer may be NULL.  [size_t] arithmetic wraps at 64 bits.  Whether
    [assert] is compiled in is a parameter: with [ndebug = false] a failing
    assertion ends the program, with [ndebug = true] the guards behind it
    decide.  [malloc] takes an outcome: [None] for NULL, otherwise the contents
    the fresh block happens to have.

    The abstract specification is a list of elements, each the list of its
    bytes. *)

From S2P Require Import Prelude CMem.

Definition VECTOR_MINIMUM_CAPACITY : Z := 2.
Definition VECTOR_GROWTH_FACTOR : Z := 2.
(** [(1 / 4)], an integer division. *)
Definition VECTOR_SHRINK_THRESHOLD : Z := 1 / 4.
Definition VECTOR_ERROR : Z := -1.
Definition VECTOR_SUCCESS : Z := 0.

Record pgvector := mkVector {
  vsize : Z;
  capacity : Z;
  element_size : Z;
  data : option (list Z)
}.

Definition VECTOR_INITIALIZER : pgvector := mkVector 0 0 0 None.

(** [pointer]: the distance from the start of [data], [None] for NULL. *)
Record Iterator := mkIterator { pointer : option Z; it_element_size : Z }.

(** The outcome of a call to [malloc]. *)
Definition outcome := option (nat -> Z).

Definition malloc (o : outcome) (n : Z) : option (list Z) :=
  (fun g => g <$> seq 0 (Z.to_nat n)) <$> o.

Definition with_size (v : pgvector) (n : Z) : pgvector :=
  mkVector n (capacity v) (element_size v) (data v).
Definition with_data (v : pgvector) (d : option (list Z)) : pgvector :=
  mkVector (vsize v) (capacity v) (element_size v) d.

(** [memmove(data + dst, data + src, n)]. *)
Definition memmove (d : list Z) (dst src n : Z) : option (list Z) :=
  do bs <- read_bytes d src n; write_bytes d dst bs.

Section Vector.
Variable ndebug : bool.
Implicit Types (vector : pgvector) (element : option (list Z)) (index : Z).

(** ** Information *)

Definition vector_is_initialized vector : bool :=
  match data vector with Some _ => true | None => false end.

Definition vector_byte_size vector : Z := u64 (vsize vector * element_size vector).

Definition vector_free_space vector : Z := u64 (capacity vector - vsize vector).

Definition vector_is_empty vector : bool := vsize vector =? 0.

(** ** Private operations *)

Definition _vector_should_grow vector : option bool :=
  check ndebug || (vsize vector <=? capacity vector);
  Some (vsize vector =? capacity vector).

Definition _vector_should_shrink vector : option bool :=
  check ndebug || (vsize vector <=? capacity vector);
  Some (vsize vector =? u64 (capacity vector * VECTOR_SHRINK_THRESHOLD)).

Definition _vector_free_bytes vector : Z :=
  u64 (vector_free_space vector * element_size vector).

(** The distance from [data] to an element. *)
Definition _vector_offset vector index : Z := u64 (index * element_size vector).
Definition _vector_const_offset vector index : Z := u64 (index * element_size vector).

(** [memcpy(data + offset, element, element_size)]. *)
Definition store_element vector (offset : Z) element : option pgvector :=
  do e <- element;
  do bs <- read_bytes e 0 (element_size vector);
  do d <- data vector;
  do d' <- write_bytes d offset bs;
  Some (with_data vector (Some d')).

Definition _vector_assign vector index element : option pgvector :=
  store_element vector (_vector_offset vector index) element.

Definition _vector_move_right vector index : option (pgvector * Z) :=
  check ndebug || (vsize vector <? capacity vector);
  let offset := _vector_offset vector index in
  let elements_in_bytes := u64 (u64 (vsize vector - index) * element_size vector) in
  do d <- data vector;
  do d' <- memmove d (offset + element_size vector) offset elements_in_bytes;
  Some (with_data vector (Some d'), VECTOR_SUCCESS).

Definition _vector_move_left vector index : option pgvector :=
  let offset := _vector_offset vector index in
  let right_elements_in_bytes := u64 (u64 (vsize vector - index - 1) * element_size vector) in
  do d <- data vector;
  do d' <- memmove d offset (offset + element_size vector) right_elements_in_bytes;
  Some (with_data vector (Some d')).

(** The part of [_vector_reallocate] behind the test of the minimum: the block
    is allocated over the only pointer to the old one, which a failure loses. *)
Definition reallocate_to (o : outcome) vector (new_capacity : Z) : option (pgvector * Z) :=
  let new_capacity_in_bytes := u64 (new_capacity * element_size vector) in
  let old := data vector in
  match malloc o new_capacity_in_bytes with
  | None => Some (with_data vector None, VECTOR_ERROR)
  | Some d =>
      do olds <- old;
      do bs <- read_bytes olds 0 (vector_byte_size vector);
      do d' <- write_bytes d 0 bs;
      Some (mkVector (vsize vector) new_capacity (element_size vector) (Some d'), VECTOR_SUCCESS)
  end.

Definition _vector_reallocate (o : outcome) vector (new_capacity : Z) : option (pgvector * Z) :=
  if new_capacity <? VECTOR_MINIMUM_CAPACITY then
    if VECTOR_MINIMUM_CAPACITY <? capacity vector then
      reallocate_to o vector VECTOR_MINIMUM_CAPACITY
    else Some (vector, VECTOR_SUCCESS)
  else reallocate_to o vector new_capacity.

Definition _vector_adjust_capacity (o : outcome) vector : option (pgvector * Z) :=
  _vector_reallocate o vector (Z.max 1 (u64 (vsize vector * VECTOR_GROWTH_FACTOR))).

Definition _vector_swap (first second : Z) : Z * Z := (second, first).

(** ** Construction *)

Definition vector_setup (o : outcome) (cap esize : Z) : pgvector * Z :=
  let capacity := Z.max VECTOR_MINIMUM_CAPACITY cap in
  let d := malloc o (u64 (capacity * esize)) in
  (mkVector 0 capacity esize d, if d is Some _ then VECTOR_SUCCESS else VECTOR_ERROR).

Definition vector_copy (o : outcome) (destination source : pgvector) : option (pgvector * Z) :=
  check ndebug || vector_is_initialized source;
  check ndebug || negb (vector_is_initialized destination);
  if vector_is_initialized destination then Some (destination, VECTOR_ERROR)
  else if negb (vector_is_initialized source) then Some (destination, VECTOR_ERROR)
  else
    let cap := u64 (vsize source * 2) in
    match malloc o (u64 (cap * element_size source)) with
    | None => Some (mkVector (vsize source) cap (element_size source) None, VECTOR_ERROR)
    | Some d =>
        do sd <- data source;
        do bs <- read_bytes sd 0 (vector_byte_size source);
        do d' <- write_bytes d 0 bs;
        Some (mkVector (vsize source) cap (element_size source) (Some d'), VECTOR_SUCCESS)
    end.

Definition vector_destroy vector : pgvector * Z := (with_data vector None, VECTOR_SUCCESS).

Definition vector_copy_assign (o : outcome) (destination source : pgvector)
  : option (pgvector * Z) :=
  check ndebug || vector_is_initialized source;
  check ndebug || vector_is_initialized destination;
  if negb (vector_is_initialized destination) then Some (destination, VECTOR_ERROR)
  else if negb (vector_is_initialized source) then Some (destination, VECTOR_ERROR)
  else vector_copy o (vector_destroy destination).1 source.

(** [destination], [source] and the result. *)
Definition vector_move (destination source : pgvector) : pgvector * pgvector * Z :=
  (source, with_data source None, VECTOR_SUCCESS).

Definition vector_swap (destination source : pgvector) : option (pgvector * pgvector * Z) :=
  check ndebug || vector_is_initialized source;
  check ndebug || vector_is_initialized destination;
  if negb (vector_is_initialized destination) then Some (destination, source, VECTOR_ERROR)
  else if negb (vector_is_initialized source) then Some (destination, source, VECTOR_ERROR)
  else
    let '(ds, ss) := _vector_swap (vsize destination) (vsize source) in
    let '(dc, sc) := _vector_swap (capacity destination) (capacity source) in
    let '(de, se) := _vector_swap (element_size destination) (element_size source) in
    Some (mkVector ds dc de (data source), mkVector ss sc se (data destination), VECTOR_SUCCESS).

Definition vector_move_assign (destination source : pgvector)
  : option (pgvector * pgvector * Z) :=
  do ' (d, s, _) <- vector_swap destination source;
  let '(s', r) := vector_destroy s in
  Some (d, s', r).

(** ** Insertion *)

(** [if (_vector_should_grow(vector)) if (_vector_adjust_capacity(vector) == VECTOR_ERROR)]:
    the vector and whether the caller goes on. *)
Definition grow (o : outcome) vector : option (pgvector * bool) :=
  do g <- _vector_should_grow vector;
  if g : bool then
    do ' (v, r) <- _vector_adjust_capacity o vector;
    Some (v, negb (r =? VECTOR_ERROR))
  else Some (vector, true).

Definition vector_push_back (o : outcome) vector element : option (pgvector * Z) :=
  check ndebug || (if element is Some _ then true else false);
  do ' (v, ok) <- grow o vector;
  if negb ok then Some (v, VECTOR_ERROR)
  else
    do v' <- _vector_assign v (vsize v) element;
    Some (with_size v' (u64 (vsize v' + 1)), VECTOR_SUCCESS).

Definition vector_insert (o : outcome) vector index element : option (pgvector * Z) :=
  check ndebug || (if element is Some _ then true else false);
  check ndebug || (index <=? vsize vector);
  if element is None then Some (vector, VECTOR_ERROR)
  else if element_size vector =? 0 then Some (vector, VECTOR_ERROR)
  else if vsize vector <? index then Some (vector, VECTOR_ERROR)
  else
    do ' (v, ok) <- grow o vector;
    if negb ok then Some (v, VECTOR_ERROR)
    else
      do ' (v1, r) <- _vector_move_right v index;
      if r =? VECTOR_ERROR then Some (v1, VECTOR_ERROR)
      else
        do v2 <- store_element v1 (_vector_offset v1 index) element;
        Some (with_size v2 (u64 (vsize v2 + 1)), VECTOR_SUCCESS).

Definition vector_push_front (o : outcome) vector element : option (pgvector * Z) :=
  vector_insert o vector 0 element.

Definition vector_assign vector index element : option (pgvector * Z) :=
  check ndebug || (if element is Some _ then true else false);
  check ndebug || (index <? vsize vector);
  if element is None then Some (vector, VECTOR_ERROR)
  else if element_size vector =? 0 then Some (vector, VECTOR_ERROR)
  else if vsize vector <=? index then Some (vector, VECTOR_ERROR)
  else do v <- _vector_assign vector index element; Some (v, VECTOR_SUCCESS).

(** ** Deletion *)

Definition vector_pop_back (o : outcome) vector : option (pgvector * Z) :=
  check ndebug || (0 <? vsize vector);
  if element_size vector =? 0 then Some (vector, VECTOR_ERROR)
  else
    let v := with_size vector (u64 (vsize vector - 1)) in
    do shrink <- _vector_should_shrink v;
    if shrink : bool then
      do ' (v', _) <- _vector_adjust_capacity o v; Some (v', VECTOR_SUCCESS)
    else Some (v, VECTOR_SUCCESS).

Definition vector_erase (o : outcome) vector index : option (pgvector * Z) :=
  check ndebug || (index <? vsize vector);
  if element_size vector =? 0 then Some (vector, VECTOR_ERROR)
  else if vsize vector <=? index then Some (vector, VECTOR_ERROR)
  else
    do v <- _vector_move_left vector index;
    let v1 := with_size v (u64 (vsize v - 1)) in
    if vsize v1 =? capacity v1 / 4 then
      do ' (v', _) <- _vector_adjust_capacity o v1; Some (v', VECTOR_SUCCESS)
    else Some (v1, VECTOR_SUCCESS).

Definition vector_pop_front (o : outcome) vector : option (pgvector * Z) :=
  vector_erase o vector 0.

(** ** Memory management *)

Definition vector_resize (o : outcome) vector (new_size : Z) : option (pgvector * Z) :=
  let finish (vr : pgvector * Z) :=
    if vr.2 =? -1 then Some (vr.1, VECTOR_ERROR)
    else Some (with_size vr.1 new_size, VECTOR_SUCCESS) in
  if new_size <=? u64 (capacity vector * VECTOR_SHRINK_THRESHOLD) then
    do vr <- _vector_reallocate o (with_size vector new_size) (u64 (new_size * VECTOR_GROWTH_FACTOR));
    finish vr
  else if capacity vector <? new_size then
    do vr <- _vector_reallocate o vector (u64 (new_size * VECTOR_GROWTH_FACTOR));
    finish vr
  else Some (with_size vector new_size, VECTOR_SUCCESS).

Definition vector_clear (o : outcome) vector : option (pgvector * Z) := vector_resize o vector 0.

Definition vector_reserve (o : outcome) vector (minimum_capacity : Z) : option (pgvector * Z) :=
  if capacity vector <? minimum_capacity then
    do ' (v, r) <- _vector_reallocate o vector minimum_capacity;
    if r =? VECTOR_ERROR then Some (v, VECTOR_ERROR) else Some (v, VECTOR_SUCCESS)
  else Some (vector, VECTOR_SUCCESS).

Definition vector_shrink_to_fit (o : outcome) vector : option (pgvector * Z) :=
  _vector_reallocate o vector (vsize vector).

(** ** Lookup *)

(** The pointer returned, as a distance from [data]; NULL is [Some None]. *)
Definition vector_get vector index : option (option Z) :=
  check ndebug || (index <? vsize vector);
  if element_size vector =? 0 then Some None
  else if vsize vector <=? index then Some None
  else Some (Some (_vector_offset vector index)).

Definition vector_const_get vector index : option (option Z) :=
  check ndebug || (index <? vsize vector);
  if element_size vector =? 0 then Some None
  else if vsize vector <=? index then Some None
  else Some (Some (_vector_const_offset vector index)).

Definition vector_front vector : option (option Z) := vector_get vector 0.
Definition vector_back vector : option (option Z) := vector_get vector (u64 (vsize vector - 1)).

(** The element a pointer into the block designates. *)
Definition load_element vector (ptr : option Z) : option (list Z) :=
  do off <- ptr; do d <- data vector; read_bytes d off (element_size vector).

(** [VECTOR_GET_AS(type, vector, index)] with [sizeof(type) = element_size]. *)
Definition VECTOR_GET_AS vector index : option (list Z) :=
  do ptr <- vector_get vector index; load_element vector ptr.

(** ** Iterators *)

Definition vector_iterator vector index : option Iterator :=
  check ndebug || (index <=? vsize vector);
  if vsize vector <? index then Some (mkIterator None 0)
  else if element_size vector =? 0 then Some (mkIterator None 0)
  else Some (mkIterator (Some (_vector_offset vector index)) (element_size vector)).

Definition vector_begin vector : option Iterator := vector_iterator vector 0.
Definition vector_end vector : option Iterator := vector_iterator vector (vsize vector).

Definition iterator_get (it : Iterator) : option Z := pointer it.

Definition iterator_increment (it : Iterator) : option Iterator :=
  do p <- pointer it; Some (mkIterator (Some (p + it_element_size it)) (it_element_size it)).
Definition iterator_decrement (it : Iterator) : option Iterator :=
  do p <- pointer it; Some (mkIterator (Some (p - it_element_size it)) (it_element_size it)).

Definition iterator_next (it : Iterator) : option (Iterator * option Z) :=
  let current := pointer it in do it' <- iterator_increment it; Some (it', current).
Definition iterator_previous (it : Iterator) : option (Iterator * option Z) :=
  let current := pointer it in do it' <- iterator_decrement it; Some (it', current).

Definition iterator_equals (first second : Iterator) : option bool :=
  check ndebug || (it_element_size first =? it_element_size second);
  Some (bool_decide (pointer first = pointer second)).

Definition iterator_is_before (first second : Iterator) : option bool :=
  check ndebug || (it_element_size first =? it_element_size second);
  do p <- pointer first; do q <- pointer second; Some (p <? q).

Definition iterator_is_after (first second : Iterator) : option bool :=
  check ndebug || (it_element_size first =? it_element_size second);
  do p <- pointer first; do q <- pointer second; Some (q <? p).

End Vector.

(** ** Blocks of elements *)

Section Elements.
Variable sz : Z.
Implicit Types (es : list (list Z)).

Definition sized es : Prop := Forall (fun e => zlen e = sz) es.

Lemma mjoin_app es1 es2 : mjoin (es1 ++ es2) = mjoin es1 ++ mjoin es2.
Proof. induction es1; simpl; [done|]. by rewrite IHes1, (assoc_L (++)). Qed.

Lemma sized_zlen es : sized es -> zlen (mjoin es) = zlen es * sz.
Proof.
  induction 1 as [|e es He Hes IH]; [done|].
  change (mjoin (e :: es)) with (e ++ mjoin es). rewrite zlen_app, zlen_cons, IH, He. lia.
Qed.

(** Where an element of a block starts. *)
Lemma sized_lookup es i e :
  sized es -> es !! i = Some e ->
  mjoin es = mjoin (take i es) ++ e ++ mjoin (drop (S i) es) /\
  zlen (mjoin (take i es)) = Z.of_nat i * sz.
Proof.
  intros Hs He. split.
  - rewrite <- (take_drop_middle es i e He) at 1. by rewrite mjoin_app.
  - rewrite sized_zlen by (by apply Forall_take).
    apply lookup_lt_Some in He. f_equal. len.
Qed.

End Elements.

#[export] Hint Resolve Forall_take Forall_drop : cdef.

(** ** Moves within a block *)

Section Moves.
Implicit Types (a b x r bs : list Z).

Lemma memmove_right a b r k :
  0 <= k <= zlen r ->
  memmove (a ++ b ++ r) (zlen a + k) (zlen a) (zlen b)
  = Some (a ++ take (Z.to_nat k) (b ++ r) ++ b ++ drop (Z.to_nat k) r).
Proof.
  intros Hk. unfold memmove. rewrite read_bytes_prefix by done. cbn [mbind option_bind].
  rewrite write_bytes_Some by len.
  replace (Z.to_nat (zlen a + k)) with (length a + Z.to_nat k)%nat by len.
  rewrite take_app_add, <- (assoc_L (++)). do 4 f_equal.
  rewrite <- Nat.add_assoc, drop_app_add, Nat.add_comm, drop_app_add. done.
Qed.

Lemma memmove_left a x b r :
  memmove (a ++ x ++ b ++ r) (zlen a) (zlen a + zlen x) (zlen b)
  = Some (a ++ b ++ drop (length b) (x ++ b ++ r)).
Proof.
  unfold memmove. rewrite <- zlen_app.
  replace (a ++ x ++ b ++ r) with ((a ++ x) ++ b ++ r) by by rewrite <- (assoc_L (++)).
  rewrite read_bytes_prefix by done. cbn [mbind option_bind].
  rewrite <- (assoc_L (++)), write_bytes_prefix by len. done.
Qed.

Lemma write_slot a x r e :
  zlen e = zlen x -> write_bytes (a ++ x ++ r) (zlen a) e = Some (a ++ e ++ r).
Proof.
  intros He. rewrite write_bytes_prefix by len. do 3 f_equal.
  rewrite drop_app_length' by len. done.
Qed.

End Moves.

(** ** Refinement of lists *)

Section Refinement.
Context {ndebug : bool}.
Implicit Types (v : pgvector) (es : list (list Z)) (e : list Z).

Definition limit : Z := 2 ^ 64.

(** [vec_rep v es]: the vector holds the elements [es]. *)
Record vec_rep v es : Prop := {
  vr_pos : 0 < element_size v;
  vr_size : vsize v = zlen es;
  vr_min : VECTOR_MINIMUM_CAPACITY <= capacity v;
  vr_cap : zlen es <= capacity v;
  vr_lim : capacity v * element_size v < limit;
  vr_sized : sized (element_size v) es;
  vr_data : exists rest, data v = Some (mjoin es ++ rest) /\
    zlen (mjoin es ++ rest) = capacity v * element_size v
}.

Lemma u64_small z : 0 <= z < limit -> u64 z = z.
Proof. apply wrapu_small. Qed.

Lemma rep_offset v es i :
  vec_rep v es -> 0 <= i <= capacity v -> _vector_offset v i = i * element_size v.
Proof. intros [] Hi. unfold _vector_offset. apply u64_small. nia. Qed.

Lemma rep_byte_size v es : vec_rep v es -> vector_byte_size v = zlen (mjoin es).
Proof.
  intros []. unfold vector_byte_size. rewrite vr_size0, u64_small.
  - by rewrite (sized_zlen (element_size v)).
  - pose proof (zlen_nonneg es). nia.
Qed.

(** Moving the elements to a block of another capacity. *)
Lemma reallocate_to_rep v es g n :
  vec_rep v es -> VECTOR_MINIMUM_CAPACITY <= n -> zlen es <= n -> n * element_size v < limit ->
  exists v', reallocate_to (Some g) v n = Some (v', VECTOR_SUCCESS) /\ vec_rep v' es /\
    capacity v' = n /\ element_size v' = element_size v.
Proof.
  intros Hr Hmin Hn Hlim. pose proof (rep_byte_size _ _ Hr) as Hb.
  destruct Hr as [Hp Hs Hm Hc Hl Hsz (rest & Hd & Hlen)]. unfold VECTOR_MINIMUM_CAPACITY in *.
  unfold reallocate_to. rewrite u64_small by nia. cbn [malloc fmap option_fmap option_map].
  rewrite Hb, Hd. cbn [mbind option_bind].
  rewrite read_bytes_head by done. cbn [mbind option_bind]. pose proof (sized_zlen _ _ Hsz) as Hz.
  assert (zlen (mjoin es) <= n * element_size v) by (rewrite Hz; nia).
  set (blk := g <$> seq 0 (Z.to_nat (n * element_size v))).
  assert (zlen blk = n * element_size v) as Hblk
    by (unfold blk; rewrite zlen_fmap; unfold zlen; rewrite length_seq; nia).
  rewrite write_bytes_head by lia. simpl. eexists. split; [done|].
  split; [|done]. split; cbn; try done.
  exists (drop (length (mjoin es)) blk). split; [done|]. len.
Qed.

Lemma reallocate_rep v es g n :
  vec_rep v es -> zlen es <= n -> n * element_size v < limit ->
  exists v', _vector_reallocate (Some g) v n = Some (v', VECTOR_SUCCESS) /\ vec_rep v' es /\
    n <= capacity v' /\ element_size v' = element_size v.
Proof.
  intros Hr Hn Hlim. unfold _vector_reallocate. pose proof (vr_min _ _ Hr) as Hmin.
  pose proof (vr_pos _ _ Hr). pose proof (vr_lim _ _ Hr).
  unfold VECTOR_MINIMUM_CAPACITY in *. destruct (Z.ltb_spec n 2).
  - destruct (Z.ltb_spec 2 (capacity v)); [|exists v; split_and!; auto; lia].
    destruct (reallocate_to_rep v es g 2 Hr) as (v' & -> & ? & Hc & ?);
      [done|lia|nia|]. exists v'. split_and!; auto; lia.
  - destruct (reallocate_to_rep v es g n Hr) as (v' & -> & ? & Hc & ?); [done..|].
    exists v'. split_and!; auto; lia.
Qed.

Lemma adjust_rep v es g :
  vec_rep v es -> 2 * zlen es * element_size v < limit -> element_size v < limit ->
  exists v', _vector_adjust_capacity (Some g) v = Some (v', VECTOR_SUCCESS) /\ vec_rep v' es /\
    2 * zlen es <= capacity v' /\ element_size v' = element_size v.
Proof.
  intros Hr Hlim Hlim1. unfold _vector_adjust_capacity, VECTOR_GROWTH_FACTOR.
  pose proof (vr_pos _ _ Hr). pose proof (zlen_nonneg es).
  rewrite (vr_size _ _ Hr), u64_small by nia.
  destruct (reallocate_rep v es g (Z.max 1 (zlen es * 2)) Hr) as (v' & -> & ? & ? & ?);
    [lia|nia|]. exists v'. split_and!; auto; lia.
Qed.

Lemma grow_rep v es g :
  vec_rep v es -> 2 * zlen es * element_size v < limit ->
  exists v', grow ndebug (Some g) v = Some (v', true) /\ vec_rep v' es /\
    zlen es < capacity v' /\ element_size v' = element_size v.
Proof.
  intros Hr Hlim. unfold grow, _vector_should_grow. pose proof (vr_cap _ _ Hr).
  pose proof (vr_min _ _ Hr) as Hmin. unfold VECTOR_MINIMUM_CAPACITY in Hmin.
  pose proof (vr_lim _ _ Hr). pose proof (vr_pos _ _ Hr).
  rewrite (vr_size _ _ Hr), (proj2 (Z.leb_le _ _)), orb_true_r by lia. simpl.
  destruct (Z.eqb_spec (zlen es) (capacity v)).
  - destruct (adjust_rep v es g Hr) as (v' & -> & ? & ? & ?); [lia|nia|].
    simpl. exists v'. split_and!; auto; lia.
  - exists v. split_and!; auto; lia.
Qed.

(** Replacing what lies behind the first elements of the block. *)
Lemma rep_relist v es es' rest :
  vec_rep v es -> sized (element_size v) es' -> zlen es' <= capacity v ->
  zlen (mjoin es' ++ rest) = capacity v * element_size v ->
  vec_rep (mkVector (zlen es') (capacity v) (element_size v) (Some (mjoin es' ++ rest))) es'.
Proof. intros [] Hs Hc Hl. split; cbn; eauto. Qed.

Lemma rep_succ v es : vec_rep v es -> zlen es < capacity v -> u64 (zlen es + 1) = zlen es + 1.
Proof.
  intros [] ?. apply u64_small. pose proof (zlen_nonneg es). unfold VECTOR_MINIMUM_CAPACITY in *. nia.
Qed.

(** [vector_push_back] appends. *)
Lemma push_back_rep v es g e :
  vec_rep v es -> zlen e = element_size v -> 2 * zlen es * element_size v < limit ->
  exists v', vector_push_back ndebug (Some g) v (Some e) = Some (v', VECTOR_SUCCESS) /\
    vec_rep v' (es ++ [e]) /\ element_size v' = element_size v.
Proof.
  intros Hr He Hlim. unfold vector_push_back. rewrite orb_true_r. simpl.
  destruct (grow_rep v es g Hr Hlim) as (v1 & -> & Hr1 & Hc1 & He1). simpl.
  unfold _vector_assign, store_element. rewrite He1 in *. cbn [mbind option_bind].
  rewrite read_bytes_all by done. cbn [mbind option_bind].
  rewrite (rep_offset v1 es) by (done || rewrite (vr_size _ _ Hr1); len).
  pose proof Hr1 as [Hp1 Hs1 Hm1 _ Hl1 Hsz1 (rest & Hd & Hlen)].
  pose proof (sized_zlen _ _ Hsz1) as Hz. rewrite Hd, Hs1, <- Hz. cbn [mbind option_bind].
  rewrite zlen_app in Hlen. rewrite write_bytes_prefix by nia.
  cbn [mbind option_bind]. eexists. split; [done|]. split; [|done].
  unfold with_size, with_data. cbn. rewrite Hs1, (rep_succ v1 es) by done.
  replace (zlen es + 1) with (zlen (es ++ [e])) by len.
  replace (mjoin es ++ e ++ drop (length e) rest)
    with (mjoin (es ++ [e]) ++ drop (length e) rest)
    by by rewrite mjoin_app, <- (assoc_L (++)); simpl; rewrite app_nil_r.
  apply (rep_relist v1 es); [done|apply Forall_app; split; [done|by apply Forall_singleton; rewrite He1]|len|].
  rewrite mjoin_app. simpl. rewrite app_nil_r, !zlen_app, zlen_drop. 
  assert (zlen e <= zlen rest) by nia. unfold zlen in *. lia.
Qed.

(** [vector_push_back(v, &p)] for a pointer [p] in front of bytes that can be read: when
    they reach as far as an element does, the element starts with the pointer; when
    they do not, the call reads what cannot be read. *)
Lemma pushed_pointer v es g p behind :
  vec_rep v es -> zlen p = 8 -> 8 <= element_size v -> 2 * zlen es * element_size v < limit ->
  if element_size v <=? 8 + zlen behind
  then exists v', vector_push_back ndebug (Some g) v (Some (p ++ behind)) = Some (v', VECTOR_SUCCESS) /\
         vec_rep v' (es ++ [p ++ take (Z.to_nat (element_size v - 8)) behind])
  else vector_push_back ndebug (Some g) v (Some (p ++ behind)) = None.
Proof.
  intros Hr Hp He Hlim. pose proof (zlen_nonneg behind). destruct (grow_rep v es g Hr Hlim) as (v1 & E1 & Hr1 & Hc1 & He1).
  destruct (Z.leb_spec (element_size v) (8 + zlen behind)).
  - set (e := p ++ take (Z.to_nat (element_size v - 8)) behind).
    assert (zlen e = element_size v) as Hze by (unfold e; rewrite zlen_app, zlen_take; lia).
    destruct (push_back_rep v es g e Hr Hze Hlim) as (v' & E & Hr' & _). exists v'. split; [|exact Hr'].
    rewrite <- E. unfold vector_push_back. rewrite !orb_true_r. cbn [cassert mbind option_bind]. rewrite E1. cbn [mbind option_bind negb].
    unfold _vector_assign, store_element. rewrite He1. cbn [mbind option_bind].
    assert (read_bytes (p ++ behind) 0 (element_size v) = read_bytes e 0 (element_size v)) as ->; [|done].
    rewrite (read_bytes_all e) by done. rewrite read_bytes_Some by (rewrite ?zlen_app; lia). f_equal. rewrite drop_0. unfold e.
    rewrite take_app_ge by (unfold zlen in Hp; lia). do 2 f_equal. unfold zlen in Hp. lia.
  - unfold vector_push_back. rewrite orb_true_r. cbn [cassert mbind option_bind]. rewrite E1. cbn [mbind option_bind negb].
    unfold _vector_assign, store_element, read_bytes. rewrite He1. cbn [mbind option_bind].
    replace (0 + element_size v <=? zlen (p ++ behind)) with false; [by rewrite andb_false_r|].
    symmetry. apply Z.leb_gt. rewrite zlen_app. lia.
Qed.

(** The block of a vector, cut at an element. *)
Lemma rep_cut v es i :
  vec_rep v es -> 0 <= i <= zlen es ->
  let es1 := take (Z.to_nat i) es in let es2 := drop (Z.to_nat i) es in
  exists rest, data v = Some (mjoin es1 ++ mjoin es2 ++ rest) /\
    zlen (mjoin es1) = i * element_size v /\ _vector_offset v i = i * element_size v /\
    zlen (mjoin es2) = (zlen es - i) * element_size v /\
    zlen rest = (capacity v - zlen es) * element_size v.
Proof.
  intros Hr Hi es1 es2. rewrite (rep_offset v es) by (done || pose proof (vr_cap _ _ Hr); lia).
  destruct Hr as [Hp Hs Hm Hc Hl Hsz (rest & Hd & Hlen)]. exists rest.
  assert (mjoin es = mjoin es1 ++ mjoin es2) as Hj
    by (rewrite <- mjoin_app; unfold es1, es2; by rewrite take_drop).
  rewrite Hj, <- (assoc_L (++)) in Hd. rewrite zlen_app, (sized_zlen (element_size v)) in Hlen by done.
  rewrite !(sized_zlen (element_size v)) by (done || by apply Forall_take || by apply Forall_drop).
  split; [done|]. unfold es1, es2. rewrite zlen_take, zlen_drop. split_and!; [f_equal; lia|done|f_equal; lia|lia].
Qed.

Lemma move_right_rep v es i :
  vec_rep v es -> 0 <= i <= zlen es -> zlen es < capacity v ->
  exists x rest, _vector_move_right ndebug v i
    = Some (with_data v (Some (mjoin (take (Z.to_nat i) es) ++ x ++ mjoin (drop (Z.to_nat i) es) ++ rest)),
            VECTOR_SUCCESS) /\
    zlen x = element_size v /\ zlen rest = (capacity v - zlen es - 1) * element_size v.
Proof.
  intros Hr Hi Hlt. destruct (rep_cut v es i Hr Hi) as (rest & Hd & H1 & Ho & H2 & Hrest).
  pose proof (vr_pos _ _ Hr). pose proof (vr_lim _ _ Hr).
  unfold _vector_move_right. rewrite (vr_size _ _ Hr), (proj2 (Z.ltb_lt _ _)), orb_true_r by lia.
  cbn [cassert mbind option_bind]. rewrite Hd, Ho, (u64_small (zlen es - i)), u64_small, <- H1, <- H2 by nia.
  cbn [mbind option_bind]. rewrite memmove_right by nia. cbn [mbind option_bind].
  eexists _, _. split; [done|]. rewrite zlen_take, zlen_drop, zlen_app. split; nia.
Qed.

(** [vector_insert] puts the element before the given index. *)
Lemma insert_rep v es g i e :
  vec_rep v es -> zlen e = element_size v -> 0 <= i <= zlen es ->
  2 * zlen es * element_size v < limit ->
  exists v', vector_insert ndebug (Some g) v i (Some e) = Some (v', VECTOR_SUCCESS) /\
    vec_rep v' (take (Z.to_nat i) es ++ e :: drop (Z.to_nat i) es) /\
    element_size v' = element_size v.
Proof.
  intros Hr He Hi Hlim. unfold vector_insert.
  pose proof (vr_pos _ _ Hr). rewrite (vr_size _ _ Hr), (proj2 (Z.leb_le _ _)), !orb_true_r by lia.
  cbn [cassert mbind option_bind]. rewrite (proj2 (Z.eqb_neq _ _)), (proj2 (Z.ltb_ge _ _)) by lia.
  destruct (grow_rep v es g Hr Hlim) as (v1 & -> & Hr1 & Hc1 & He1). simpl.
  destruct (move_right_rep v1 es i Hr1 Hi Hc1) as (x & rest & -> & Hx & Hrest).
  destruct (rep_cut v1 es i Hr1 Hi) as (_ & _ & H1 & Ho & H2 & _).
  cbn [mbind option_bind Z.eqb VECTOR_SUCCESS VECTOR_ERROR]. unfold store_element.
  cbn [mbind option_bind data with_data element_size]. change (_vector_offset (with_data v1 _) i) with (_vector_offset v1 i).
  rewrite read_bytes_all by lia. cbn [mbind option_bind]. rewrite Ho, <- H1, write_slot by lia.
  cbn [mbind option_bind]. eexists. split; [done|]. split; [|done].
  unfold with_size, with_data. cbn. rewrite (vr_size _ _ Hr1), (rep_succ v1 es) by done.
  set (es' := take (Z.to_nat i) es ++ e :: drop (Z.to_nat i) es).
  replace (zlen es + 1) with (zlen es') by (unfold es'; len).
  replace (mjoin (take (Z.to_nat i) es) ++ e ++ mjoin (drop (Z.to_nat i) es) ++ rest)
    with (mjoin es' ++ rest)
    by (unfold es'; rewrite mjoin_app; simpl; by rewrite <- !(assoc_L (++))).
  assert (sized (element_size v1) es') as Hs'.
  { pose proof (vr_sized _ _ Hr1). apply Forall_app. split; [by apply Forall_take|].
    constructor; [lia|by apply Forall_drop]. }
  assert (zlen es' = zlen es + 1) as Hl' by (unfold es'; len).
  apply (rep_relist v1 es); [done|done|lia|].
  rewrite zlen_app, (sized_zlen _ _ Hs'), Hl'. nia.
Qed.

(** [vector_assign] replaces an element. *)
Lemma assign_rep v es i e :
  vec_rep v es -> zlen e = element_size v -> 0 <= i < zlen es ->
  exists v', vector_assign ndebug v i (Some e) = Some (v', VECTOR_SUCCESS) /\
    vec_rep v' (<[Z.to_nat i := e]> es) /\ element_size v' = element_size v.
Proof.
  intros Hr He Hi. unfold vector_assign.
  pose proof (vr_pos _ _ Hr). rewrite (vr_size _ _ Hr), (proj2 (Z.ltb_lt _ _)), !orb_true_r by lia.
  cbn [cassert mbind option_bind]. rewrite (proj2 (Z.eqb_neq _ _)), (proj2 (Z.leb_gt _ _)) by lia.
  destruct (rep_cut v es i Hr) as (rest & Hd & H1 & Ho & H2 & Hrest); [lia|].
  destruct (lookup_lt_is_Some_2 es (Z.to_nat i)) as [y Hy]; [unfold zlen in *; lia|].
  assert (zlen y = element_size v) as Hly by apply (Forall_lookup_1 _ _ _ _ (vr_sized _ _ Hr) Hy).
  rewrite (drop_S _ _ _ Hy) in Hd. change (mjoin (y :: ?l)) with (y ++ mjoin l) in Hd.
  rewrite <- (assoc_L (++) y) in Hd.
  unfold _vector_assign, store_element.
  cbn [mbind option_bind]. rewrite read_bytes_all, Hd, Ho, <- H1 by done. cbn [mbind option_bind].
  rewrite write_slot by lia. cbn [mbind option_bind]. eexists. split; [done|]. split; [|done].
  unfold with_data. rewrite insert_take_drop by (unfold zlen in *; lia).
  set (es' := take (Z.to_nat i) es ++ e :: drop (S (Z.to_nat i)) es).
  replace (mjoin (take (Z.to_nat i) es) ++ e ++ mjoin (drop (S (Z.to_nat i)) es) ++ rest)
    with (mjoin es' ++ rest)
    by (unfold es'; rewrite mjoin_app; simpl; by rewrite <- !(assoc_L (++))).
  assert (zlen es' = zlen es) as Hl' by (unfold es'; len).
  rewrite (vr_size _ _ Hr), <- Hl'.
  assert (sized (element_size v) es') as Hs'.
  { pose proof (vr_sized _ _ Hr). apply Forall_app. split; [by apply Forall_take|].
    constructor; [lia|by apply Forall_drop]. }
  apply (rep_relist v es); [done|done|rewrite Hl'; apply Hr|].
  rewrite zlen_app, (sized_zlen _ _ Hs'), Hl'. nia.
Qed.

Lemma rep_pred v es : vec_rep v es -> 0 < zlen es -> u64 (zlen es - 1) = zlen es - 1.
Proof. intros [] ?. apply u64_small. unfold VECTOR_MINIMUM_CAPACITY in *. nia. Qed.

(** A vector whose [size] is set to a shorter length keeps that prefix. *)
Lemma rep_shorter v es n :
  vec_rep v es -> 0 <= n <= zlen es -> vec_rep (with_size v n) (take (Z.to_nat n) es).
Proof.
  intros Hr Hn. destruct (rep_cut v es n Hr Hn) as (rest & Hd & H1 & _ & H2 & Hrest).
  pose proof Hr as [Hp Hs Hm Hc Hl Hsz _].
  split; cbn; try done.
  - rewrite zlen_take. lia.
  - rewrite zlen_take. lia.
  - by apply Forall_take.
  - exists (mjoin (drop (Z.to_nat n) es) ++ rest). split; [done|].
    rewrite !zlen_app, H1, H2, Hrest. lia.
Qed.

(** [vector_pop_back] removes the last element. *)
Lemma pop_back_rep v es g :
  vec_rep v es -> 0 < zlen es ->
  exists v', vector_pop_back ndebug (Some g) v = Some (v', VECTOR_SUCCESS) /\
    vec_rep v' (take (Z.to_nat (zlen es - 1)) es) /\ element_size v' = element_size v.
Proof.
  intros Hr Hn. unfold vector_pop_back. pose proof (vr_pos _ _ Hr). pose proof (vr_cap _ _ Hr).
  rewrite (vr_size _ _ Hr), (proj2 (Z.ltb_lt _ _)), orb_true_r by lia.
  cbn [cassert mbind option_bind]. rewrite (proj2 (Z.eqb_neq _ _)), (rep_pred v es) by (done || lia).
  assert (vec_rep (with_size v (zlen es - 1)) (take (Z.to_nat (zlen es - 1)) es)) as Hr'
    by (apply rep_shorter; [done|lia]).
  unfold _vector_should_shrink. cbn [vsize with_size capacity].
  rewrite (proj2 (Z.leb_le _ _)), orb_true_r by lia. cbn [cassert mbind option_bind].
  change VECTOR_SHRINK_THRESHOLD with 0. rewrite Z.mul_0_r. change (u64 0) with 0.
  destruct (Z.eqb_spec (zlen es - 1) 0) as [He|]; [|eauto].
  destruct (adjust_rep _ _ g Hr') as (v' & -> & ? & ? & ?); cbn [element_size with_size].
  - rewrite He. done.
  - pose proof (vr_lim _ _ Hr). pose proof (vr_min _ _ Hr). unfold VECTOR_MINIMUM_CAPACITY in *. nia.
  - simpl. eauto.
Qed.

Lemma move_left_rep v es i :
  vec_rep v es -> 0 <= i < zlen es ->
  exists rest, _vector_move_left v i
    = Some (with_data v (Some (mjoin (delete (Z.to_nat i) es) ++ rest))) /\
    zlen rest = (capacity v - zlen es + 1) * element_size v.
Proof.
  intros Hr Hi. destruct (rep_cut v es i Hr) as (rest & Hd & H1 & Ho & H2 & Hrest); [lia|].
  destruct (lookup_lt_is_Some_2 es (Z.to_nat i)) as [y Hy]; [unfold zlen in *; lia|].
  assert (zlen y = element_size v) as Hly by apply (Forall_lookup_1 _ _ _ _ (vr_sized _ _ Hr) Hy).
  rewrite (drop_S _ _ _ Hy) in Hd, H2. change (mjoin (y :: ?l)) with (y ++ mjoin l) in Hd, H2.
  rewrite <- (assoc_L (++) y) in Hd. rewrite zlen_app in H2.
  pose proof (vr_pos _ _ Hr). pose proof (vr_lim _ _ Hr). pose proof (vr_cap _ _ Hr).
  set (b := mjoin (drop (S (Z.to_nat i)) es)) in *.
  assert (u64 (u64 (zlen es - i - 1) * element_size v) = zlen b) as Hb
    by (rewrite (u64_small (zlen es - i - 1)), u64_small; nia).
  unfold _vector_move_left. rewrite (vr_size _ _ Hr), Hb, Hd, Ho, <- H1, <- Hly.
  cbn [mbind option_bind]. rewrite memmove_left. cbn [mbind option_bind].
  rewrite delete_take_drop, mjoin_app. exists (drop (length b) (y ++ b ++ rest)).
  split; [by rewrite <- (assoc_L (++))|].
  rewrite zlen_drop, !zlen_app. unfold zlen in *. lia.
Qed.

(** [vector_erase] removes the element at the index. *)
Lemma erase_rep v es g i :
  vec_rep v es -> 0 <= i < zlen es ->
  exists v', vector_erase ndebug (Some g) v i = Some (v', VECTOR_SUCCESS) /\
    vec_rep v' (delete (Z.to_nat i) es) /\ element_size v' = element_size v.
Proof.
  intros Hr Hi. unfold vector_erase. pose proof (vr_pos _ _ Hr). pose proof (vr_cap _ _ Hr) as Hcap.
  rewrite (vr_size _ _ Hr), (proj2 (Z.ltb_lt _ _)), orb_true_r by lia.
  cbn [cassert mbind option_bind]. rewrite (proj2 (Z.eqb_neq _ _)), (proj2 (Z.leb_gt _ _)) by lia.
  destruct (move_left_rep v es i Hr Hi) as (rest & -> & Hrest). cbn [mbind option_bind].
  cbn [vsize with_data with_size capacity element_size data]. rewrite (vr_size _ _ Hr), (rep_pred v es) by (done || lia).
  set (es' := delete (Z.to_nat i) es) in *.
  assert (zlen es' = zlen es - 1) as Hl'.
  { unfold es', zlen in *. rewrite length_delete; [lia|]. apply lookup_lt_is_Some_2. lia. }
  assert (sized (element_size v) es') as Hs' by (apply Forall_delete; apply Hr).
  rewrite <- Hl'. set (v1 := with_size _ _).
  assert (vec_rep v1 es') as Hr1.
  { apply (rep_relist v es); [done|done|lia|]. rewrite zlen_app, (sized_zlen _ _ Hs'), Hl'. nia. }
  destruct (Z.eqb_spec (zlen es') (capacity v / 4)) as [Hq|]; [|eauto].
  pose proof (vr_lim _ _ Hr). pose proof (vr_min _ _ Hr) as Hmin. unfold VECTOR_MINIMUM_CAPACITY in Hmin.
  destruct (adjust_rep v1 es' g Hr1) as (v' & -> & ? & ? & ?); cbn [element_size v1 with_size with_data].
  - pose proof (Z.mul_div_le (capacity v) 4). nia.
  - nia.
  - simpl. eauto.
Qed.

(** [vector_resize] to a smaller size keeps the first elements. *)
Lemma resize_shorter_rep v es g n :
  vec_rep v es -> 0 <= n <= zlen es ->
  exists v', vector_resize (Some g) v n = Some (v', VECTOR_SUCCESS) /\
    vec_rep v' (take (Z.to_nat n) es) /\ element_size v' = element_size v.
Proof.
  intros Hr Hn. unfold vector_resize. change VECTOR_SHRINK_THRESHOLD with 0.
  rewrite Z.mul_0_r. change (u64 0) with 0. pose proof (rep_shorter v es n Hr Hn) as Hr'.
  pose proof (vr_cap _ _ Hr). destruct (Z.leb_spec n 0) as [Hz|].
  - assert (n = 0) as -> by lia. change (u64 (0 * VECTOR_GROWTH_FACTOR)) with 0.
    destruct (reallocate_rep _ _ g 0 Hr') as (v' & -> & Hr2 & _ & ?); [done|done|].
    cbn [mbind option_bind snd fst Z.eqb VECTOR_SUCCESS]. eexists. split; [done|]. split; [|done].
    by apply (rep_shorter v' _ 0) in Hr2; [|done].
  - rewrite (proj2 (Z.ltb_ge _ _)) by lia. eauto.
Qed.

(** [vector_reserve] keeps the elements and reaches the capacity. *)
Lemma reserve_rep v es g n :
  vec_rep v es -> n * element_size v < limit ->
  exists v', vector_reserve (Some g) v n = Some (v', VECTOR_SUCCESS) /\
    vec_rep v' es /\ n <= capacity v' /\ element_size v' = element_size v.
Proof.
  intros Hr Hn. unfold vector_reserve. pose proof (vr_cap _ _ Hr).
  destruct (Z.ltb_spec (capacity v) n); [|exists v; split_and!; auto; lia].
  destruct (reallocate_rep v es g n Hr) as (v' & -> & ? & ? & ?); [lia|done|].
  simpl. eauto.
Qed.

(** [vector_shrink_to_fit] keeps the elements. *)
Lemma shrink_rep v es g :
  vec_rep v es ->
  exists v', vector_shrink_to_fit (Some g) v = Some (v', VECTOR_SUCCESS) /\
    vec_rep v' es /\ element_size v' = element_size v.
Proof.
  intros Hr. unfold vector_shrink_to_fit. rewrite (vr_size _ _ Hr).
  pose proof (vr_cap _ _ Hr). pose proof (vr_lim _ _ Hr). pose proof (vr_pos _ _ Hr).
  destruct (reallocate_rep v es g (zlen es) Hr) as (v' & -> & ? & ? & ?); [lia|nia|]. eauto.
Qed.

(** [vector_get] points to the element of the list. *)
Lemma get_rep v es i :
  vec_rep v es -> 0 <= i < zlen es -> VECTOR_GET_AS ndebug v i = es !! Z.to_nat i.
Proof.
  intros Hr Hi. unfold VECTOR_GET_AS, vector_get. pose proof (vr_pos _ _ Hr).
  rewrite (vr_size _ _ Hr), (proj2 (Z.ltb_lt _ _)), orb_true_r by lia.
  cbn [cassert mbind option_bind]. rewrite (proj2 (Z.eqb_neq _ _)), (proj2 (Z.leb_gt _ _)) by lia.
  destruct (rep_cut v es i Hr) as (rest & Hd & H1 & Ho & H2 & Hrest); [lia|].
  destruct (lookup_lt_is_Some_2 es (Z.to_nat i)) as [y Hy]; [unfold zlen in *; lia|].
  assert (zlen y = element_size v) as Hly by apply (Forall_lookup_1 _ _ _ _ (vr_sized _ _ Hr) Hy).
  rewrite (drop_S _ _ _ Hy) in Hd. change (mjoin (y :: ?l)) with (y ++ mjoin l) in Hd.
  rewrite <- (assoc_L (++) y) in Hd. cbn [mbind option_bind]. unfold load_element.
  cbn [mbind option_bind]. rewrite Hd, Ho, <- H1, Hy. cbn [mbind option_bind].
  by rewrite read_bytes_prefix.
Qed.

(** ** Runs *)

Inductive vop :=
  | VPushBack (e : list Z)
  | VPushFront (e : list Z)
  | VInsert (i : Z) (e : list Z)
  | VAssign (i : Z) (e : list Z)
  | VPopBack
  | VPopFront
  | VErase (i : Z)
  | VTruncate (n : Z)
  | VClear
  | VReserve (n : Z)
  | VShrink.

(** One call; [g] is what a fresh block would contain. *)
Definition vec_step (g : nat -> Z) v (o : vop) : option (pgvector * Z) :=
  match o with
  | VPushBack e => vector_push_back ndebug (Some g) v (Some e)
  | VPushFront e => vector_push_front ndebug (Some g) v (Some e)
  | VInsert i e => vector_insert ndebug (Some g) v i (Some e)
  | VAssign i e => vector_assign ndebug v i (Some e)
  | VPopBack => vector_pop_back ndebug (Some g) v
  | VPopFront => vector_pop_front ndebug (Some g) v
  | VErase i => vector_erase ndebug (Some g) v i
  | VTruncate n => vector_resize (Some g) v n
  | VClear => vector_clear (Some g) v
  | VReserve n => vector_reserve (Some g) v n
  | VShrink => vector_shrink_to_fit (Some g) v
  end.

(** The list operation; [None] when an index is out of range. *)
Definition list_step es (o : vop) : option (list (list Z)) :=
  let insert i e := check (0 <=? i) && (i <=? zlen es);
                    Some (take (Z.to_nat i) es ++ e :: drop (Z.to_nat i) es) in
  let erase i := check (0 <=? i) && (i <? zlen es); Some (delete (Z.to_nat i) es) in
  match o with
  | VPushBack e => Some (es ++ [e])
  | VPushFront e => insert 0 e
  | VInsert i e => insert i e
  | VAssign i e => aset es i e
  | VPopBack => check 0 <? zlen es; Some (take (Z.to_nat (zlen es - 1)) es)
  | VPopFront => erase 0
  | VErase i => erase i
  | VTruncate n => check (0 <=? n) && (n <=? zlen es); Some (take (Z.to_nat n) es)
  | VClear => Some []
  | VReserve _ | VShrink => Some es
  end.

(** Elements have the size of the vector's, reserved blocks fit in memory. *)
Definition op_fits (sz : Z) (o : vop) : Prop :=
  match o with
  | VPushBack e | VPushFront e | VInsert _ e | VAssign _ e => zlen e = sz
  | VReserve n => n * sz < limit
  | _ => True
  end.

#[global] Instance op_fits_dec sz o : Decision (op_fits sz o).
Proof. destruct o; simpl; apply _. Defined.

Lemma vec_step_rep v es es' g o :
  vec_rep v es -> op_fits (element_size v) o -> 2 * zlen es * element_size v < limit ->
  list_step es o = Some es' ->
  exists v', vec_step g v o = Some (v', VECTOR_SUCCESS) /\ vec_rep v' es' /\
    element_size v' = element_size v /\ zlen es' <= zlen es + 1.
Proof.
  intros Hr Hf Hlim Hs.
  assert (forall v' : option (pgvector * Z), (exists v'', v' = Some (v'', VECTOR_SUCCESS) /\ vec_rep v'' es' /\
    element_size v'' = element_size v) -> zlen es' <= zlen es + 1 ->
    exists v'', v' = Some (v'', VECTOR_SUCCESS) /\ vec_rep v'' es' /\
    element_size v'' = element_size v /\ zlen es' <= zlen es + 1) as Hgo
    by (intros ? (v'' & ? & ? & ?) ?; eauto 6).
  pose proof (zlen_nonneg es).
  destruct o; simpl in *; inv_some;
    repeat match goal with H : _ && _ = true |- _ => apply andb_true_iff in H as [?%Z.leb_le ?] end;
    repeat match goal with
    | H : (_ <? _) = true |- _ => apply Z.ltb_lt in H
    | H : (_ <=? _) = true |- _ => apply Z.leb_le in H end; apply Hgo.
  - by apply push_back_rep.
  - len.
  - apply (insert_rep v es g 0); done || lia.
  - len.
  - apply insert_rep; done || lia.
  - len.
  - apply aset_inv in Hs as [? ->]. by apply assign_rep.
  - apply aset_inv in Hs as [? ->]. len.
  - by apply pop_back_rep.
  - len.
  - apply (erase_rep v es g 0); done || lia.
  - pose proof (zlen_delete_le (Z.to_nat 0) es). lia.
  - by apply erase_rep.
  - pose proof (zlen_delete_le (Z.to_nat i) es). lia.
  - by apply resize_shorter_rep.
  - len.
  - apply (resize_shorter_rep v es g 0); done || lia.
  - len.
  - destruct (reserve_rep v es' g n Hr Hf) as (v' & ? & ? & _ & ?). eauto.
  - lia.
  - by apply shrink_rep.
  - lia.
Qed.

Fixpoint vec_run v (os : list ((nat -> Z) * vop)) : option pgvector :=
  match os with
  | [] => Some v
  | (g, o) :: os =>
      do ' (v', r) <- vec_step g v o; check r =? VECTOR_SUCCESS; vec_run v' os
  end.

Fixpoint list_run es (os : list ((nat -> Z) * vop)) : option (list (list Z)) :=
  match os with
  | [] => Some es
  | (_, o) :: os => do es' <- list_step es o; list_run es' os
  end.

Lemma vec_run_rep os : forall v es es',
  vec_rep v es -> Forall (fun o => op_fits (element_size v) o.2) os ->
  2 * (zlen es + zlen os) * element_size v < limit ->
  list_run es os = Some es' ->
  exists v', vec_run v os = Some v' /\ vec_rep v' es' /\ element_size v' = element_size v.
Proof.
  induction os as [|[g o] os IH]; intros v es es' Hr Hf Hlim Hs; simpl in *; inv_some; [eauto|].
  apply Forall_cons in Hf as [Ho Hf]. rewrite zlen_cons in Hlim. simpl in Ho.
  pose proof (vr_pos _ _ Hr). pose proof (zlen_nonneg os).
  destruct (vec_step_rep v es l g o Hr Ho) as (v1 & -> & Hr1 & He1 & Hl1); [nia|done|].
  simpl. destruct (IH v1 l es') as (v2 & ? & ? & ?); rewrite ?He1; try done; [nia|].
  exists v2. split_and!; try done. congruence.
Qed.

Lemma setup_rep g cap sz :
  0 < sz -> Z.max VECTOR_MINIMUM_CAPACITY cap * sz < limit ->
  (vector_setup (Some g) cap sz).2 = VECTOR_SUCCESS /\
  vec_rep (vector_setup (Some g) cap sz).1 [].
Proof.
  intros Hsz Hl. unfold vector_setup, malloc. simpl. split; [done|].
  unfold VECTOR_MINIMUM_CAPACITY in *.
  split; cbn; try done; unfold VECTOR_MINIMUM_CAPACITY; try lia.
  - rewrite zlen_nil. lia.
  - constructor.
  - eexists. split; [done|]. rewrite zlen_fmap, u64_small by nia. unfold zlen.
    rewrite length_seq. nia.
Qed.

(** ** Walking with an iterator *)

(** [while (!iterator_equals(it, end)) visit(iterator_next(it))]: the elements
    in the order of the visits; [None] when [n] rounds are not enough. *)
Fixpoint walk (n : nat) v (it e : Iterator) : option (list (list Z)) :=
  do stop <- iterator_equals ndebug it e;
  if stop : bool then Some [] else
  match n with
  | O => None
  | S n' =>
      do ' (it', p) <- iterator_next it;
      do x <- load_element v p;
      do xs <- walk n' v it' e;
      Some (x :: xs)
  end.

Lemma walk_from v es n : forall i,
  vec_rep v es -> zlen es = Z.of_nat (i + n) ->
  walk n v (mkIterator (Some (Z.of_nat i * element_size v)) (element_size v))
    (mkIterator (Some (zlen es * element_size v)) (element_size v)) = Some (drop i es).
Proof.
  induction n as [|n IH]; intros i Hr Hl; pose proof (vr_pos _ _ Hr);
    unfold walk, iterator_equals; fold walk; cbn [it_element_size pointer];
    rewrite Z.eqb_refl, orb_true_r; cbn [cassert mbind option_bind].
  - rewrite bool_decide_true by (do 2 f_equal; lia). rewrite drop_ge by (unfold zlen in *; lia). done.
  - rewrite bool_decide_false by (intros [= ?]; nia). cbn [iterator_next iterator_increment pointer mbind option_bind].
    assert (load_element v (Some (Z.of_nat i * element_size v)) = es !! i) as Hld.
    { pose proof (get_rep v es (Z.of_nat i) Hr ltac:(lia)) as Hg. rewrite Nat2Z.id in Hg.
      rewrite <- Hg. unfold VECTOR_GET_AS, vector_get.
      rewrite (vr_size _ _ Hr), (proj2 (Z.ltb_lt _ _)), orb_true_r by lia.
      cbn [cassert mbind option_bind]. rewrite (proj2 (Z.eqb_neq _ _)), (proj2 (Z.leb_gt _ _)) by lia.
      by rewrite (rep_offset v es) by (done || pose proof (vr_cap _ _ Hr); lia). }
    destruct (lookup_lt_is_Some_2 es i) as [x Hx]; [unfold zlen in *; lia|].
    rewrite Hld, Hx. cbn [mbind option_bind it_element_size].
    replace (Z.of_nat i * element_size v + element_size v) with (Z.of_nat (S i) * element_size v) by lia.
    rewrite IH by (done || lia). cbn [mbind option_bind]. by rewrite (drop_S _ _ _ Hx).
Qed.

End Refinement.

(** ** The properties of the component *)

(** C20. The vector is a list: any sequence of calls with indices in range on a
    vector set up by [vector_setup], whatever fresh blocks contain and whether
    or not assertions are compiled in, goes right at every call, ends in a
    vector that holds the list the same list operations give, and [vector_get]
    points to its elements. *)
Theorem vector_refines_list (ndebug : bool) (g0 : nat -> Z) (cap sz : Z)
    (os : list ((nat -> Z) * vop)) (es : list (list Z)) :
  0 < sz -> Z.max VECTOR_MINIMUM_CAPACITY cap * sz < limit ->
  Forall (fun o => op_fits sz o.2) os -> 2 * zlen os * sz < limit ->
  list_run [] os = Some es ->
  exists v, vec_run (ndebug:=ndebug) (vector_setup (Some g0) cap sz).1 os = Some v /\
    vec_rep v es /\
    forall i, 0 <= i < zlen es -> VECTOR_GET_AS ndebug v i = es !! Z.to_nat i.
Proof.
  intros Hsz Hcap Hf Hlim Hrun. destruct (setup_rep g0 cap sz Hsz Hcap) as [_ Hr].
  destruct (vec_run_rep (ndebug:=ndebug) os _ [] es Hr) as (v & ? & Hv & _); try done.
  exists v. split_and!; try done. intros. by apply get_rep.
Qed.

Definition demo_vops : list ((nat -> Z) * vop) :=
  (fun o => (Z.of_nat, o)) <$>
  [VPushBack [1; 1]; VPushBack [2; 2]; VPushFront [3; 3]; VInsert 1 [4; 4]; VAssign 0 [5; 5];
   VPushBack [6; 6]; VErase 2; VPopFront; VPopBack; VReserve 9; VShrink].

Lemma vector_refines_list_witness :
  list_run [] demo_vops = Some [[4; 4]; [2; 2]] /\
  exists v, vec_run (ndebug:=false) (vector_setup (Some (fun _ => 255)) 3 2).1 demo_vops = Some v /\
    VECTOR_GET_AS false v 1 = Some [2; 2].
Proof.
  split; [reflexivity|].
  destruct (vector_refines_list false (fun _ => 255) 3 2 demo_vops [[4; 4]; [2; 2]])
    as (v & Hv & _ & Hg);
    [reflexivity|reflexivity| |reflexivity|reflexivity|].
  - apply (bool_decide_unpack _). vm_compute. exact I.
  - exists v. split; [exact Hv|]. apply (Hg 1). split; [discriminate|reflexivity].
Defined.

(** A walk with [iterator_next] from [vector_begin] to [vector_end] ends
    after as many steps as there are elements and visits them in order. *)
Theorem vector_walk (ndebug : bool) (v : pgvector) (es : list (list Z)) :
  vec_rep v es ->
  exists b e, vector_begin ndebug v = Some b /\ vector_end ndebug v = Some e /\
    walk (ndebug:=ndebug) (length es) v b e = Some es.
Proof.
  intros Hr. unfold vector_begin, vector_end, vector_iterator.
  pose proof (vr_pos _ _ Hr). pose proof (vr_cap _ _ Hr). pose proof (zlen_nonneg es).
  rewrite (vr_size _ _ Hr), !(proj2 (Z.leb_le _ _)), orb_true_r by lia. cbn [cassert mbind option_bind].
  rewrite (proj2 (Z.eqb_neq _ _)), !(proj2 (Z.ltb_ge _ _)) by lia. eexists _, _. split; [done|].
  split; [done|]. rewrite !(rep_offset v es) by (done || lia).
  apply (walk_from v es (length es) 0 Hr). done.
Qed.

Lemma vector_walk_witness :
  exists v b e, vec_run (ndebug:=false) (vector_setup (Some Z.of_nat) 3 2).1
      [(Z.of_nat, VPushBack [1; 1]); (Z.of_nat, VPushBack [2; 2])] = Some v /\
    vector_begin false v = Some b /\ vector_end false v = Some e /\
    walk (ndebug:=false) 2 v b e = Some [[1; 1]; [2; 2]].
Proof.
  destruct (vec_run_rep (ndebug:=false) [(Z.of_nat, VPushBack [1; 1]); (Z.of_nat, VPushBack [2; 2])]
    (vector_setup (Some Z.of_nat) 3 2).1 [] [[1; 1]; [2; 2]]) as (v & Hv & Hr & _).
  - apply (setup_rep Z.of_nat 3 2); reflexivity.
  - apply (bool_decide_unpack _). vm_compute. exact I.
  - reflexivity.
  - reflexivity.
  - destruct (vector_walk false v [[1; 1]; [2; 2]] Hr) as (b & e & Hb & He & Hw).
    exists v, b, e. repeat split; assumption.
Defined.

(** When a full vector cannot grow, [vector_push_back] reports the error,
    but the vector has lost its block: [_vector_reallocate] overwrites the only
    pointer to it, and the elements are gone. *)
Theorem vector_push_back_oom (ndebug : bool) (v : pgvector) (es : list (list Z)) (e : list Z) :
  vec_rep v es -> zlen es = capacity v -> 2 * zlen es < limit ->
  vector_push_back ndebug None v (Some e) = Some (with_data v None, VECTOR_ERROR).
Proof.
  intros Hr Hfull Hlim. unfold vector_push_back, grow, _vector_should_grow, _vector_adjust_capacity.
  pose proof (vr_min _ _ Hr) as Hmin. unfold VECTOR_MINIMUM_CAPACITY in Hmin.
  rewrite (vr_size _ _ Hr), Hfull, Z.leb_refl, !orb_true_r, Z.eqb_refl. cbn [cassert mbind option_bind].
  unfold _vector_reallocate, VECTOR_GROWTH_FACTOR, VECTOR_MINIMUM_CAPACITY.
  rewrite u64_small, (proj2 (Z.ltb_ge _ _)) by lia. done.
Qed.

Lemma vector_push_back_oom_witness :
  exists v, vec_run (ndebug:=false) (vector_setup (Some Z.of_nat) 2 1).1
      [(Z.of_nat, VPushBack [7]); (Z.of_nat, VPushBack [8])] = Some v /\
    VECTOR_GET_AS false v 0 = Some [7] /\
    exists v', vector_push_back false None v (Some [9]) = Some (v', VECTOR_ERROR) /\
      vsize v' = 2 /\ data v' = None.
Proof.
  eexists. split; [reflexivity|]. split; [reflexivity|]. eexists. split.
  - apply (vector_push_back_oom false _ [[7]; [8]]); [|reflexivity|reflexivity].
    split; try reflexivity; try discriminate.
    + repeat constructor.
    + exists []. split; reflexivity.
  - split; reflexivity.
Defined.

(** [vector_erase] ignores the result of the reallocation: when shrinking
    fails for want of memory it still reports success, with the block lost and
    [size] counting elements that are gone. *)
Theorem vector_erase_oom (ndebug : bool) (v : pgvector) (es : list (list Z)) (i : Z) :
  vec_rep v es -> 0 <= i < zlen es -> zlen es - 1 = capacity v / 4 ->
  2 < capacity v -> 2 * capacity v < limit ->
  exists v', vector_erase ndebug None v i = Some (v', VECTOR_SUCCESS) /\
    data v' = None /\ vsize v' = zlen es - 1.
Proof.
  intros Hr Hi Hq Hc Hlim. unfold vector_erase. pose proof (vr_pos _ _ Hr). pose proof (vr_cap _ _ Hr).
  rewrite (vr_size _ _ Hr), (proj2 (Z.ltb_lt _ _)), orb_true_r by lia.
  cbn [cassert mbind option_bind]. rewrite (proj2 (Z.eqb_neq _ _)), (proj2 (Z.leb_gt _ _)) by lia.
  destruct (move_left_rep v es i Hr Hi) as (rest & -> & Hrest). cbn [mbind option_bind].
  cbn [vsize with_data with_size capacity element_size data].
  rewrite (vr_size _ _ Hr), (rep_pred v es), Hq, Z.eqb_refl by (done || lia).
  unfold _vector_adjust_capacity, _vector_reallocate, VECTOR_MINIMUM_CAPACITY.
  cbn [vsize with_data with_size capacity element_size data]. rewrite (proj2 (Z.ltb_lt 2 _)) by lia.
  destruct (_ <? 2); eexists; split; try done.
Qed.

Lemma vector_erase_oom_witness :
  exists v, vec_run (ndebug:=false) (vector_setup (Some Z.of_nat) 4 1).1
      [(Z.of_nat, VPushBack [7]); (Z.of_nat, VPushBack [8])] = Some v /\
    exists v', vector_erase false None v 0 = Some (v', VECTOR_SUCCESS) /\
      data v' = None /\ vsize v' = 1.
Proof.
  eexists. split; [reflexivity|].
  apply (vector_erase_oom false _ [[7]; [8]] 0);
    [|split; [discriminate|reflexivity]|reflexivity|reflexivity|reflexivity].
  split; try reflexivity; try discriminate.
  - repeat constructor.
  - exists [2; 3]. split; reflexivity.
Defined.

(** The copy of an empty vector is a trap: [vector_copy] gives it capacity
    0, which the growth of [vector_push_back] cannot leave (a reallocation to 1
    is below the minimum and does nothing), so the first push writes outside
    the block. *)
Theorem vector_copy_empty_push (ndebug : bool) (v : pgvector) (g g' : nat -> Z) (e : list Z) :
  vec_rep v [] ->
  exists w, vector_copy ndebug (Some g) VECTOR_INITIALIZER v = Some (w, VECTOR_SUCCESS) /\
    capacity w = 0 /\ vector_push_back ndebug (Some g') w (Some e) = None.
Proof.
  intros [Hp Hs Hm Hc Hl Hsz (rest & Hd & Hlen)]. unfold vector_copy, vector_is_initialized.
  rewrite Hd, !orb_true_r. cbn [cassert mbind option_bind data VECTOR_INITIALIZER negb].
  replace (vector_byte_size v) with 0 by (unfold vector_byte_size; rewrite Hs; done).
  replace (vsize v) with 0 by (rewrite Hs; done).
  change (u64 (u64 (0 * 2) * element_size v)) with 0. rewrite (read_bytes_head [] rest) by done.
  eexists. split; [done|]. split; [done|].
  assert (forall w, vsize w = 0 -> capacity w = 0 -> grow ndebug (Some g') w = Some (w, true)) as Hg.
  { intros [? ? ? ?] ? ?; simpl in *; subst. by destruct ndebug. }
  unfold vector_push_back, _vector_assign, store_element. rewrite orb_true_r, Hg by done. cbn.
  destruct (read_bytes e 0 (element_size v)) as [bs|] eqn:E; [|done]. cbn.
  unfold read_bytes in E. destruct (_ && _) eqn:Eb in E; [|done].
  apply andb_true_iff in Eb as [_ Eb%Z.leb_le]. injection E as <-.
  unfold write_bytes. rewrite (proj2 (Z.leb_gt (_ + _) _)); [by rewrite andb_false_r|].
  rewrite zlen_take, zlen_drop. change (_vector_offset _ 0) with 0. unfold zlen. simpl. len.
Qed.

Lemma vector_copy_empty_push_witness :
  exists w, vector_copy false (Some Z.of_nat) VECTOR_INITIALIZER (vector_setup (Some Z.of_nat) 4 1).1
      = Some (w, VECTOR_SUCCESS) /\ capacity w = 0 /\
    vector_push_back false (Some Z.of_nat) w (Some [7]) = None.
Proof.
  apply (vector_copy_empty_push false). apply (setup_rep Z.of_nat 4 1); reflexivity.
Defined.

(** The guards behind the assertions: for an index out of range every
    indexed operation ends the program when assertions are compiled in, and
    otherwise reports the error and leaves the vector as it is. *)
Theorem vector_range_guards (ndebug : bool) (o : outcome) (v : pgvector) (i : Z) (e : list Z) :
  vsize v <= i ->
  let fails := if ndebug then Some (v, VECTOR_ERROR) else None in
  (vsize v < i -> vector_insert ndebug o v i (Some e) = fails) /\
  vector_assign ndebug v i (Some e) = fails /\
  vector_erase ndebug o v i = fails /\
  vector_get ndebug v i = (if ndebug then Some None else None).
Proof.
  intros Hi fails. unfold fails, vector_insert, vector_assign, vector_erase, vector_get.
  rewrite (proj2 (Z.ltb_ge i _)), (proj2 (Z.leb_le _ i)) by lia.
  split_and!; [intros Hlt; rewrite (proj2 (Z.ltb_lt _ i)), (proj2 (Z.leb_gt i _)) by lia|..];
    destruct ndebug; cbn; by destruct (element_size v =? 0).
Qed.

Lemma vector_range_guards_witness :
  vector_insert true None (mkVector 1 2 1 (Some [0; 0])) 2 (Some [7])
    = Some (mkVector 1 2 1 (Some [0; 0]), VECTOR_ERROR) /\
  vector_get false (mkVector 1 2 1 (Some [0; 0])) 2 = None.
Proof.
  split.
  - destruct (vector_range_guards true None (mkVector 1 2 1 (Some [0; 0])) 2 [7]) as [H _];
      [discriminate|]. apply H. reflexivity.
  - destruct (vector_range_guards false None (mkVector 1 2 1 (Some [0; 0])) 2 [7]) as (_ & _ & _ & H);
      [discriminate|]. exact H.
Defined.
