(* ===== verification/Node.v ===== *)
(** * Nodes of the Merkle B+-tree (src/src/include/mbt/mbtree.h and the node
    functions of src/src/backend/mbt/mbtree.c)

    The three node structs share their first fields, which [bplus_node] holds;
    its [count] is the [children] of a non-leaf and the [entries] of a leaf.  A
    node is addressed by a location; the pointers [parent] and [sub_ptr] are
    locations or NULL.  The links of a level form a ring through the head
    [tree->list[level]], so a link points to a head or into a node.  A [tid]
    points to a cell of its own, shared when two slots hold the same pointer.
    Character arrays are the lists of their bytes, the terminating NUL included.

    The keys of a node are searched with [key_binary_search]; its specification
    is the rank of the key among the keys of the node. *)

From S2P Require Import Prelude CMem.

Definition BPLUS_MIN_ORDER : Z := 3.
Definition BPLUS_MAX_ORDER : Z := 50.
Definition BPLUS_MAX_ENTRIES : Z := 50.
Definition BPLUS_MAX_LEVEL : Z := 10.
Definition PAGESIZE : Z := 4096.
Definition DATA_SIZE : Z := 32.

Definition BPLUS_TREE_LEAF : Z := 0.
Definition BPLUS_TREE_NON_LEAF : Z := 1.

(** Locations of nodes and of the cells of item pointers. *)
Abbreviation loc := nat.
Abbreviation tidloc := nat.

(** [ItemPointerData]: block number in two halves and offset, [uint16] each. *)
Record ItemPointerData := mkTid { bi_hi : Z; bi_lo : Z; ip_posid : Z }.

#[export] Instance tid_eq_dec : EqDecision ItemPointerData.
Proof. solve_decision. Defined.

(** The target of a link: the head of a level or the link of a node. *)
Inductive linkref := LHead (level : Z) | LNode (l : loc).

#[export] Instance linkref_eq_dec : EqDecision linkref.
Proof. solve_decision. Defined.

Record node_list_head := mkLink { prev : linkref; next : linkref }.

Record bplus_node := mkNode {
  type : Z;
  parent_key_idx : Z;
  parent : option loc;
  link : node_list_head;
  count : Z;
  tids : list (option tidloc)
}.

Record bplus_non_leaf := mkNonLeaf {
  nl_node : bplus_node;
  nl_key : list Z;
  sub_ptr : list (option loc);
  nl_childhash : list (list Z);
  nl_node_hash : list Z;
  chindrenoffset : list Z;
  nl_node_id : Z;
  nl_parent_id : Z
}.

Record bplus_leaf := mkLeaf {
  lf_node : bplus_node;
  lf_key : list Z;
  lf_data : list (list Z);
  lf_childhash : list (list Z);
  lf_node_hash : list Z;
  lf_node_id : Z;
  lf_parent_id : Z
}.

Definition children (n : bplus_non_leaf) : Z := count (nl_node n).
Definition entries (n : bplus_leaf) : Z := count (lf_node n).

(** A block of memory holds the struct it was allocated as. *)
Inductive node := NonLeaf (n : bplus_non_leaf) | Leaf (n : bplus_leaf).

Definition node_hdr (n : node) : bplus_node :=
  match n with NonLeaf n => nl_node n | Leaf n => lf_node n end.

Definition is_leaf (n : bplus_node) : bool := type n =? BPLUS_TREE_LEAF.

(** ** Assignments to fields *)

Definition set_type (t : Z) (n : bplus_node) : bplus_node :=
  mkNode t (parent_key_idx n) (parent n) (link n) (count n) (tids n).
Definition set_parent_key_idx (i : Z) (n : bplus_node) : bplus_node :=
  mkNode (type n) i (parent n) (link n) (count n) (tids n).
Definition set_parent (p : option loc) (n : bplus_node) : bplus_node :=
  mkNode (type n) (parent_key_idx n) p (link n) (count n) (tids n).
Definition set_link (k : node_list_head) (n : bplus_node) : bplus_node :=
  mkNode (type n) (parent_key_idx n) (parent n) k (count n) (tids n).
Definition set_count (c : Z) (n : bplus_node) : bplus_node :=
  mkNode (type n) (parent_key_idx n) (parent n) (link n) c (tids n).
Definition set_tids (ts : list (option tidloc)) (n : bplus_node) : bplus_node :=
  mkNode (type n) (parent_key_idx n) (parent n) (link n) (count n) ts.

Definition on_nl_node (f : bplus_node -> bplus_node) (n : bplus_non_leaf) : bplus_non_leaf :=
  mkNonLeaf (f (nl_node n)) (nl_key n) (sub_ptr n) (nl_childhash n) (nl_node_hash n)
    (chindrenoffset n) (nl_node_id n) (nl_parent_id n).
Definition set_nl_key (ks : list Z) (n : bplus_non_leaf) : bplus_non_leaf :=
  mkNonLeaf (nl_node n) ks (sub_ptr n) (nl_childhash n) (nl_node_hash n)
    (chindrenoffset n) (nl_node_id n) (nl_parent_id n).
Definition set_sub_ptr (ps : list (option loc)) (n : bplus_non_leaf) : bplus_non_leaf :=
  mkNonLeaf (nl_node n) (nl_key n) ps (nl_childhash n) (nl_node_hash n)
    (chindrenoffset n) (nl_node_id n) (nl_parent_id n).
Definition set_nl_childhash (hs : list (list Z)) (n : bplus_non_leaf) : bplus_non_leaf :=
  mkNonLeaf (nl_node n) (nl_key n) (sub_ptr n) hs (nl_node_hash n)
    (chindrenoffset n) (nl_node_id n) (nl_parent_id n).
Definition set_nl_node_hash (h : list Z) (n : bplus_non_leaf) : bplus_non_leaf :=
  mkNonLeaf (nl_node n) (nl_key n) (sub_ptr n) (nl_childhash n) h
    (chindrenoffset n) (nl_node_id n) (nl_parent_id n).
Definition set_chindrenoffset (os : list Z) (n : bplus_non_leaf) : bplus_non_leaf :=
  mkNonLeaf (nl_node n) (nl_key n) (sub_ptr n) (nl_childhash n) (nl_node_hash n)
    os (nl_node_id n) (nl_parent_id n).
Definition set_nl_ids (id pid : Z) (n : bplus_non_leaf) : bplus_non_leaf :=
  mkNonLeaf (nl_node n) (nl_key n) (sub_ptr n) (nl_childhash n) (nl_node_hash n)
    (chindrenoffset n) id pid.

Definition on_lf_node (f : bplus_node -> bplus_node) (n : bplus_leaf) : bplus_leaf :=
  mkLeaf (f (lf_node n)) (lf_key n) (lf_data n) (lf_childhash n) (lf_node_hash n)
    (lf_node_id n) (lf_parent_id n).
Definition set_lf_key (ks : list Z) (n : bplus_leaf) : bplus_leaf :=
  mkLeaf (lf_node n) ks (lf_data n) (lf_childhash n) (lf_node_hash n)
    (lf_node_id n) (lf_parent_id n).
Definition set_lf_data (ds : list (list Z)) (n : bplus_leaf) : bplus_leaf :=
  mkLeaf (lf_node n) (lf_key n) ds (lf_childhash n) (lf_node_hash n)
    (lf_node_id n) (lf_parent_id n).
Definition set_lf_childhash (hs : list (list Z)) (n : bplus_leaf) : bplus_leaf :=
  mkLeaf (lf_node n) (lf_key n) (lf_data n) hs (lf_node_hash n)
    (lf_node_id n) (lf_parent_id n).
Definition set_lf_node_hash (h : list Z) (n : bplus_leaf) : bplus_leaf :=
  mkLeaf (lf_node n) (lf_key n) (lf_data n) (lf_childhash n) h
    (lf_node_id n) (lf_parent_id n).
Definition set_lf_ids (id pid : Z) (n : bplus_leaf) : bplus_leaf :=
  mkLeaf (lf_node n) (lf_key n) (lf_data n) (lf_childhash n) (lf_node_hash n) id pid.

(** ** Initialisation *)

Definition bplus_non_leaf_reset (n : bplus_non_leaf) : bplus_non_leaf :=
  set_nl_childhash (replicate (Z.to_nat BPLUS_MAX_ORDER) (replicate 33 0)) n.

(** The children pointers, the hashes and the links are left as they are. *)
Definition bplus_non_leaf_init (n : bplus_non_leaf) : bplus_non_leaf :=
  mkNonLeaf (mkNode (-1) 0 None (link (nl_node n)) 0 (replicate (Z.to_nat BPLUS_MAX_ENTRIES) None))
    (replicate (Z.to_nat (BPLUS_MAX_ORDER - 1)) 0) (sub_ptr n) (nl_childhash n) (nl_node_hash n)
    (replicate (Z.to_nat BPLUS_MAX_ORDER) 0) (-1) (-1).

Definition bplus_leaf_init (n : bplus_leaf) : bplus_leaf :=
  mkLeaf (mkNode (-1) 0 None (link (lf_node n)) (count (lf_node n)) (tids (lf_node n)))
    (lf_key n) (lf_data n) (lf_childhash n) (lf_node_hash n) (-1) (-1).

(** ** Sizes of the arrays of a struct *)

Record non_leaf_wf (n : bplus_non_leaf) : Prop := {
  nlw_tids : zlen (tids (nl_node n)) = BPLUS_MAX_ENTRIES;
  nlw_key : zlen (nl_key n) = BPLUS_MAX_ORDER - 1;
  nlw_sub : zlen (sub_ptr n) = BPLUS_MAX_ORDER;
  nlw_childhash : zlen (nl_childhash n) = BPLUS_MAX_ORDER;
  nlw_hashes : Forall (fun h => zlen h = 33) (nl_childhash n);
  nlw_node_hash : zlen (nl_node_hash n) = 33;
  nlw_off : zlen (chindrenoffset n) = BPLUS_MAX_ORDER
}.

Record leaf_wf (n : bplus_leaf) : Prop := {
  lfw_tids : zlen (tids (lf_node n)) = BPLUS_MAX_ENTRIES;
  lfw_key : zlen (lf_key n) = BPLUS_MAX_ENTRIES;
  lfw_data : zlen (lf_data n) = BPLUS_MAX_ENTRIES;
  lfw_datas : Forall (fun d => zlen d = 33) (lf_data n);
  lfw_childhash : zlen (lf_childhash n) = BPLUS_MAX_ENTRIES;
  lfw_hashes : Forall (fun h => zlen h = 33) (lf_childhash n);
  lfw_node_hash : zlen (lf_node_hash n) = 33
}.

(** ** The cells of item pointers *)

Record tidmem := mkTidMem { cells : gmap tidloc ItemPointerData; next_tid : tidloc }.

(** [malloc(sizeof(ItemPointerData))]; its result is used unchecked, so a NULL
    would be dereferenced at once: the allocation is taken to succeed. *)
Definition alloc_tid (tm : tidmem) (c : ItemPointerData) : tidmem * tidloc :=
  (mkTidMem (<[next_tid tm := c]> (cells tm)) (S (next_tid tm)), next_tid tm).

(** [*p] for a pointer that may be NULL. *)
Definition load_tid (tm : tidmem) (p : option tidloc) : option ItemPointerData :=
  do l <- p; cells tm !! l.

(** The three assignments that copy an item pointer through a pointer. *)
Definition store_tid (tm : tidmem) (p : option tidloc) (c : ItemPointerData) : option tidmem :=
  do l <- p;
  match cells tm !! l with
  | Some _ => Some (mkTidMem (<[l := c]> (cells tm)) (next_tid tm))
  | None => None
  end.

(** ** Searching the keys of a node *)

(** The loop of [key_binary_search]; [None] when [fuel] rounds are not enough
    or an index leaves the array. *)
Fixpoint kbs_loop (fuel : nat) (arr : list Z) (target low high : Z) : option (Z * Z) :=
  if low + 1 <? high then
    match fuel with
    | O => None
    | S fuel' =>
        let mid := low + Z.quot (high - low) 2 in
        do x <- aget arr mid;
        if x <? target then kbs_loop fuel' arr target mid high
        else kbs_loop fuel' arr target low mid
    end
  else Some (low, high).

Definition key_binary_search (arr : list Z) (len target : Z) : option Z :=
  do ' (_, high) <- kbs_loop (Z.to_nat (len + 1)) arr target (-1) len;
  if len <=? high then Some (- high - 1)
  else
    do x <- aget arr high;
    if negb (x =? target) then Some (- high - 1) else Some high.

(** The number of keys below the target. *)
Definition rank (ks : list Z) (target : Z) : Z :=
  zlen (List.filter (fun x => x <? target) ks).

Definition increasing (ks : list Z) : Prop := StronglySorted Z.lt ks.

Lemma increasing_lookup ks i j x y :
  increasing ks -> ks !! i = Some x -> ks !! j = Some y -> (i < j)%nat -> x < y.
Proof.
  intros Hs. revert i j. induction Hs as [|k ks Hs IH Hk]; intros [|i] [|j] Hx Hy Hij; try done; try lia.
  - simpl in *. simplify_eq. by apply (Forall_lookup_1 _ _ _ _ Hk Hy).
  - apply (IH i j); [done|done|lia].
Qed.

Lemma rank_range ks t : 0 <= rank ks t <= zlen ks.
Proof.
  unfold rank, zlen. induction ks as [|k ks IH]; simpl; [lia|]. destruct (k <? t); simpl; lia.
Qed.

Lemma filter_none (ks : list Z) t :
  Forall (fun x => t <= x) ks -> List.filter (fun x => x <? t) ks = [].
Proof. induction 1 as [|x l Hx ? IH]; simpl; [done|]. by rewrite (proj2 (Z.ltb_ge _ _)). Qed.

(** On sorted keys the rank separates the smaller keys from the others. *)
Lemma rank_split ks t i x :
  StronglySorted Z.le ks -> ks !! i = Some x -> (x < t <-> Z.of_nat i < rank ks t).
Proof.
  intros Hs. revert i. induction Hs as [|k ks Hs IH Hk]; intros i Hi; [done|].
  unfold rank in *. simpl. destruct (Z.ltb_spec k t) as [Hlt|Hge].
  - destruct i as [|i]; simpl in Hi; [simplify_eq; unfold zlen; simpl; lia|].
    rewrite zlen_cons. specialize (IH i Hi). lia.
  - rewrite filter_none; [|eapply Forall_impl; [exact Hk|simpl; lia]].
    change (zlen []) with 0. destruct i as [|i]; simpl in Hi; [simplify_eq; lia|].
    assert (k <= x) by (eapply Forall_lookup_1 in Hk; [|exact Hi]; done). lia.
Qed.

(** The loop closes in on the rank. *)
Lemma kbs_loop_rank fuel : forall arr n t low high,
  StronglySorted Z.le (take n arr) -> (n <= length arr)%nat ->
  -1 <= low < high -> high <= Z.of_nat n -> high - low <= Z.of_nat fuel + 1 ->
  low < rank (take n arr) t <= high ->
  kbs_loop fuel arr t low high
  = Some (rank (take n arr) t - 1, rank (take n arr) t).
Proof.
  induction fuel as [|fuel IH]; intros arr n t low high Hs Hn Hlo Hhi Hf Hr; simpl;
    (destruct (Z.ltb_spec (low + 1) high) as [Hc|Hc]; [|do 2 f_equal; lia]); [lia|].
  pose proof (Z.quot_div_nonneg (high - low) 2 ltac:(lia) ltac:(lia)) as Hq.
  set (mid := low + Z.quot (high - low) 2).
  assert (low < mid < high) as Hm by (unfold mid; rewrite Hq; dlia).
  destruct (lookup_lt_is_Some_2 arr (Z.to_nat mid)) as [x Hx]; [lia|].
  assert (aget arr mid = Some x) as Ha by (apply aget_Some; split; [lia|done]).
  rewrite Ha. cbn [mbind option_bind].
  assert (take n arr !! Z.to_nat mid = Some x) as Hx' by (rewrite lookup_take_lt; [done|lia]).
  pose proof (rank_split _ t _ _ Hs Hx') as Hsp. rewrite Z2Nat.id in Hsp by lia.
  destruct (Z.ltb_spec x t); apply IH; try done; try (unfold mid in *; rewrite Hq in *; dlia); lia.
Qed.

Lemma increasing_le ks : increasing ks -> StronglySorted Z.le ks.
Proof.
  induction 1 as [|k l Hs IH Hk]; constructor; [done|].
  eapply Forall_impl; [exact Hk|simpl; lia].
Qed.

(** [key_binary_search] on sorted keys: the first position of the target, or
    [-r - 1] for the rank [r] of a target that is not there. *)
Lemma key_binary_search_rank arr len t :
  StronglySorted Z.le (take (Z.to_nat len) arr) -> 0 <= len <= zlen arr ->
  let r := rank (take (Z.to_nat len) arr) t in
  key_binary_search arr len t
  = Some (if decide (take (Z.to_nat len) arr !! Z.to_nat r = Some t) then r else - r - 1).
Proof.
  intros Hs Hl r. unfold key_binary_search.
  pose proof (rank_range (take (Z.to_nat len) arr) t) as Hr.
  rewrite zlen_take in Hr. unfold zlen in *.
  rewrite (kbs_loop_rank _ arr (Z.to_nat len) t (-1) len) by (done || lia).
  cbn [mbind option_bind]. fold r in Hr |- *. destruct (Z.leb_spec len r) as [Hge|Hlt].
  - rewrite decide_False; [done|]. intros Hx%lookup_lt_Some. rewrite length_take in Hx. lia.
  - destruct (lookup_lt_is_Some_2 arr (Z.to_nat r)) as [x Hx]; [lia|].
    rewrite (proj2 (aget_Some arr r x)) by (split; [lia|done]). cbn [mbind option_bind].
    rewrite lookup_take_lt, Hx by lia. destruct (Z.eqb_spec x t) as [->|Hne]; simpl.
    + by rewrite decide_True.
    + rewrite decide_False by congruence. done.
Qed.

(** C31. [key_binary_search] terminates on a sorted array within its fuel and
    finds the key: it returns the index of a key that is present, and otherwise
    [-r - 1] where [r] is the number of smaller keys, the place to insert it. *)
Theorem key_binary_search_correct (arr : list Z) (len t : Z) :
  increasing (take (Z.to_nat len) arr) -> 0 <= len <= zlen arr ->
  (exists i, key_binary_search arr len t = Some i /\ 0 <= i < len /\ aget arr i = Some t) \/
  (exists r, key_binary_search arr len t = Some (- r - 1) /\ 0 <= r <= len /\
     ~ t ∈ take (Z.to_nat len) arr /\
     (forall i x, 0 <= i < len -> aget arr i = Some x -> (x < t <-> i < r))).
Proof.
  intros Hinc Hl. pose proof (increasing_le _ Hinc) as Hs.
  rewrite key_binary_search_rank by done. set (ks := take _ _) in *. set (r := rank ks t).
  pose proof (rank_range ks t) as Hr. fold r in Hr.
  assert (zlen ks = len) as Hlen by (unfold ks; rewrite zlen_take; unfold zlen in *; lia).
  case_decide as Hd.
  - left. exists r. split; [done|]. pose proof (lookup_lt_Some _ _ _ Hd). 
    split; [unfold zlen in *; lia|]. apply aget_Some. split; [lia|].
    unfold ks in Hd. rewrite lookup_take_lt in Hd by (unfold zlen in *; lia). done.
  - right. exists r. split; [done|]. split; [lia|]. split.
    + intros [i Hi]%list_elem_of_lookup. apply Hd.
      assert (Z.of_nat i = r) as <-; [|by rewrite Nat2Z.id].
      assert (~ Z.of_nat i < r) by (intros Hlt; apply (rank_split ks t i t Hs Hi) in Hlt; lia).
      destruct (decide (Z.of_nat i = r)); [done|]. exfalso.
      destruct (lookup_lt_is_Some_2 ks (Z.to_nat r)) as [x Hx]; [apply lookup_lt_Some in Hi; lia|].
      assert (~ x < t) by (intros Hlt; apply (rank_split ks t _ x Hs Hx) in Hlt; lia).
      assert (x < t); [|lia].
      apply (increasing_lookup ks (Z.to_nat r) i x t); [done|done|done|lia].
    + intros i x Hi [_ Hx]%aget_Some. rewrite (rank_split ks t (Z.to_nat i) x Hs).
      * by rewrite Z2Nat.id by lia.
      * unfold ks. rewrite lookup_take_lt by lia. done.
Qed.

Lemma key_binary_search_correct_witness :
  key_binary_search [3; 5; 9; 0] 3 9 = Some 2 /\ key_binary_search [3; 5; 9; 0] 3 6 = Some (-3) /\
  ((exists i, key_binary_search [3; 5; 9; 0] 3 6 = Some i /\ 0 <= i < 3 /\ aget [3; 5; 9; 0] i = Some 6) \/
   (exists r, key_binary_search [3; 5; 9; 0] 3 6 = Some (- r - 1) /\ 0 <= r <= 3 /\
     ~ 6 ∈ [3; 5; 9] /\
     (forall i x, 0 <= i < 3 -> aget [3; 5; 9; 0] i = Some x -> (x < 6 <-> i < r)))).
Proof.
  split; [reflexivity|]. split; [reflexivity|].
  apply (key_binary_search_correct [3; 5; 9; 0] 3 6).
  - repeat constructor.
  - split; discriminate.
Defined.
