(* ===== verification/Codec.v ===== *)
(** * Writing to and reading from a buffer at a position

    The serialisers of the repository copy values to [buffer + pos] and advance
    [pos]; the deserialisers read at [buffer + pos].  [emits] and [reads] say
    what such a step does behind any prefix, and compose along sequences and
    loops: a codec's round trip follows from one line per field. *)

From S2P Require Import Prelude CMem.

(** The state of a writer: the buffer and [pos]. *)
Definition out : Type := list Z * Z.

(** [memcpy(buffer + pos, bs, n); pos += n]. *)
Definition emit (bs : list Z) (st : out) : option out :=
  do b <- write_bytes st.1 st.2 bs; Some (b, st.2 + zlen bs).

(** [x = *(int64_t * )(buffer + pos); pos += 8] and the like. *)
Definition fetch_s64 (buffer : list Z) (pos : Z) : option (Z * Z) :=
  do x <- get_s64 buffer pos; Some (x, pos + 8).
Definition fetch_u64 (buffer : list Z) (pos : Z) : option (Z * Z) :=
  do x <- get_u64 buffer pos; Some (x, pos + 8).
Definition fetch_s32 (buffer : list Z) (pos : Z) : option (Z * Z) :=
  do x <- get_s32 buffer pos; Some (x, pos + 4).
Definition fetch_u16 (buffer : list Z) (pos : Z) : option (Z * Z) :=
  do x <- get_u16 buffer pos; Some (x, pos + 2).

(** [strncpy(dst, buffer + pos, n)]. *)
Definition strncpy_at (dst buffer : list Z) (pos : Z) (n : nat) : option (list Z) :=
  if 0 <=? pos then strncpy dst (drop (Z.to_nat pos) buffer) n else None.

(** [strncpy(dst, buffer + pos, n); pos += w]. *)
Definition fetch_str (dst : list Z) (n : nat) (w : Z) (buffer : list Z) (pos : Z)
  : option (list Z * Z) :=
  do s <- strncpy_at dst buffer pos n; Some (s, pos + w).

(** ** Writers *)

(** [emits f bs]: the step [f] writes [bs] behind what is written. *)
Definition emits (f : out -> option out) (bs : list Z) : Prop :=
  forall pre rest, zlen bs <= zlen rest ->
    f (pre ++ rest, zlen pre) = Some (pre ++ bs ++ drop (length bs) rest, zlen pre + zlen bs).

Lemma emits_emit bs : emits (emit bs) bs.
Proof. intros pre rest Hl. unfold emit. simpl. by rewrite write_bytes_prefix. Qed.

Lemma emits_nil f : (forall st, f st = Some st) -> emits f [].
Proof. intros Hf pre rest _. rewrite Hf. simpl. rewrite drop_0. do 2 f_equal. rewrite zlen_nil. lia. Qed.

Lemma emits_seq f g bs cs :
  emits f bs -> emits g cs -> emits (fun st => do st' <- f st; g st') (bs ++ cs).
Proof.
  intros Hf Hg pre rest Hl. rewrite zlen_app in Hl. pose proof (zlen_nonneg cs).
  rewrite Hf by lia. cbn [mbind option_bind]. rewrite <- zlen_app, (assoc_L (++)), Hg.
  - rewrite drop_drop, length_app, !zlen_app, <- !(assoc_L (++)). do 2 f_equal. lia.
  - rewrite zlen_drop. unfold zlen in *. lia.
Qed.

Lemma emits_for_n {A} (l : list A) (enc : A -> list Z) body : forall i,
  (forall j x, l !! j = Some x -> emits (body (i + Z.of_nat j)) (enc x)) ->
  emits (for_n (length l) i body) (mjoin (enc <$> l)).
Proof.
  induction l as [|x l IH]; intros i Hb; [by apply emits_nil|].
  change (mjoin (enc <$> x :: l)) with (enc x ++ mjoin (enc <$> l)).
  simpl. apply emits_seq.
  - rewrite <- (Z.add_0_r i). by apply (Hb O).
  - apply IH. intros j y Hy. replace (i + 1 + Z.of_nat j) with (i + Z.of_nat (S j)) by lia.
    by apply Hb.
Qed.

(** A loop over the first [n] slots of an array. *)
Lemma emits_for {A} (l : list A) (enc : A -> list Z) n body :
  0 <= n <= zlen l ->
  (forall i x, 0 <= i < n -> aget l i = Some x -> emits (body i) (enc x)) ->
  emits (for_range 0 n body) (mjoin (enc <$> take (Z.to_nat n) l)).
Proof.
  intros Hn Hb.
  assert (length (take (Z.to_nat n) l) = Z.to_nat n) as Hl by len.
  assert (emits (for_n (length (take (Z.to_nat n) l)) 0 body)
            (mjoin (enc <$> take (Z.to_nat n) l))) as He.
  { apply emits_for_n. intros j x Hj.
    pose proof (lookup_lt_Some _ _ _ Hj). rewrite lookup_take_lt in Hj by lia.
    apply Hb; [lia|]. by rewrite Z.add_0_l, aget_nat. }
  rewrite Hl in He. intros pre rest Hr. unfold for_range. rewrite Z.sub_0_r. by apply He.
Qed.

Lemma emits_ext f g bs : (forall st, f st = g st) -> emits f bs -> emits g bs.
Proof. intros Hfg Hf pre rest Hl. by rewrite <- Hfg, Hf. Qed.

(** What a writer leaves in a buffer it starts at the beginning of. *)
Lemma emits_run f bs buf :
  emits f bs -> zlen bs <= zlen buf ->
  f (buf, 0) = Some (bs ++ drop (length bs) buf, zlen bs).
Proof. intros Hf Hl. exact (Hf [] buf Hl). Qed.

(** Writing keeps the length of the buffer. *)
Lemma emits_zlen f bs buf buf' :
  emits f bs -> zlen bs <= zlen buf -> fst <$> f (buf, 0) = Some buf' -> zlen buf' = zlen buf.
Proof.
  intros Hf Hl E. rewrite (emits_run _ _ _ Hf Hl) in E. simpl in E. assert (buf' = bs ++ drop (length bs) buf) as -> by congruence.
  rewrite zlen_app, zlen_drop; unfold zlen in *; lia.
Qed.

(** ** Readers *)

(** [reads f bs x]: the step [f] reads [bs] as the value [x]. *)
Definition reads {A} (f : list Z -> Z -> option (A * Z)) (bs : list Z) (x : A) : Prop :=
  forall pre rest, f (pre ++ bs ++ rest) (zlen pre) = Some (x, zlen pre + zlen bs).

Lemma reads_s64 z : in_s 64 z -> reads fetch_s64 (put64 z) z.
Proof. intros Hz pre rest. unfold fetch_s64. by rewrite get_s64_put. Qed.

Lemma reads_u64 z : in_u 64 z -> reads fetch_u64 (put64 z) z.
Proof. intros Hz pre rest. unfold fetch_u64. by rewrite get_u64_put. Qed.

Lemma reads_s32 z : in_s 32 z -> reads fetch_s32 (put32 z) z.
Proof. intros Hz pre rest. unfold fetch_s32. by rewrite get_s32_put. Qed.

Lemma reads_u16 z : in_u 16 z -> reads fetch_u16 (put16 z) z.
Proof. intros Hz pre rest. unfold fetch_u16. by rewrite get_u16_put. Qed.

Lemma reads_ret {A} (x : A) : reads (fun _ pos => Some (x, pos)) [] x.
Proof. intros pre rest. by rewrite zlen_nil, Z.add_0_r. Qed.

Lemma reads_bind {A B} (f : list Z -> Z -> option (A * Z))
    (g : A -> list Z -> Z -> option (B * Z)) bs cs x y :
  reads f bs x -> reads (g x) cs y ->
  reads (fun buf pos => do ' (a, pos') <- f buf pos; g a buf pos') (bs ++ cs) y.
Proof.
  intros Hf Hg pre rest. rewrite <- (assoc_L (++)), Hf. cbn [mbind option_bind].
  rewrite <- zlen_app, (assoc_L (++)), Hg. rewrite !zlen_app. do 2 f_equal. lia.
Qed.

(** A loop that reads one item per round and keeps the state of the rounds. *)
Lemma reads_for_n {S A} (l : list A) (enc : A -> list Z) (st : nat -> S)
    (body : Z -> list Z -> S * Z -> option (S * Z)) : forall i,
  (forall j x, l !! j = Some x ->
     reads (fun buf pos => body (i + Z.of_nat j) buf (st j, pos)) (enc x) (st (Datatypes.S j))) ->
  reads (fun buf pos => for_n (length l) i (fun i => body i buf) (st O, pos))
    (mjoin (enc <$> l)) (st (length l)).
Proof.
  revert st. induction l as [|x l IH]; intros st i Hb; [apply reads_ret|].
  change (mjoin (enc <$> x :: l)) with (enc x ++ mjoin (enc <$> l)).
  intros pre rest. simpl. rewrite <- (assoc_L (++)).
  pose proof (Hb O x eq_refl pre (mjoin (enc <$> l) ++ rest)) as H0. rewrite Z.add_0_r in H0.
  rewrite H0. cbn [mbind option_bind]. rewrite <- zlen_app, (assoc_L (++)).
  rewrite (IH (fun j => st (Datatypes.S j)) (i + 1)).
  - rewrite !zlen_app. do 2 f_equal. lia.
  - intros j y Hy. replace (i + 1 + Z.of_nat j) with (i + Z.of_nat (Datatypes.S j)) by lia. by apply Hb.
Qed.

Lemma reads_for {S A} (l : list A) (enc : A -> list Z) (st : nat -> S) n
    (body : Z -> list Z -> S * Z -> option (S * Z)) s0 :
  n = zlen l -> s0 = st O ->
  (forall j x, l !! j = Some x ->
     reads (fun buf pos => body (Z.of_nat j) buf (st j, pos)) (enc x) (st (Datatypes.S j))) ->
  reads (fun buf pos => for_range 0 n (fun i => body i buf) (s0, pos))
    (mjoin (enc <$> l)) (st (length l)).
Proof.
  intros -> -> Hb. unfold for_range. rewrite Z.sub_0_r. unfold zlen. rewrite Nat2Z.id.
  apply reads_for_n. exact Hb.
Qed.

(** The states of a loop that overwrites an array from the front. *)
Definition overwritten {A} (old news : list A) (j : nat) : list A := take j news ++ drop j old.

Lemma overwritten_step {A} (old news : list A) j x :
  news !! j = Some x -> (length news <= length old)%nat ->
  aset (overwritten old news j) (Z.of_nat j) x = Some (overwritten old news (S j)).
Proof.
  intros Hx Hl. pose proof (lookup_lt_Some _ _ _ Hx). unfold overwritten.
  rewrite aset_Some by (rewrite zlen_app, zlen_take, zlen_drop; unfold zlen; lia).
  rewrite Nat2Z.id, insert_app_r_alt by (rewrite length_take; lia).
  rewrite length_take, Nat.min_l, Nat.sub_diag by lia.
  destruct (lookup_lt_is_Some_2 old j) as [y Hy]; [lia|].
  rewrite (drop_S _ _ _ Hy). simpl. by rewrite (take_S_r _ _ _ Hx), <- (assoc_L (++)).
Qed.

Lemma overwritten_lookup {A} (old news : list A) j :
  (length news <= length old)%nat -> (j < length news)%nat -> overwritten old news j !! j = old !! j.
Proof.
  intros. unfold overwritten. rewrite lookup_app_r by (rewrite length_take; lia).
  rewrite length_take, lookup_drop. f_equal. lia.
Qed.

Lemma overwritten_0 {A} (old news : list A) : overwritten old news 0 = old.
Proof. done. Qed.

Lemma overwritten_all {A} (old news : list A) :
  overwritten old news (length news) = news ++ drop (length news) old.
Proof. unfold overwritten. by rewrite take_ge. Qed.

(** An array of [int64_t] read slot by slot. *)
Definition read_s64s (n : Z) (arr : list Z) (buffer : list Z) (pos : Z) : option (list Z * Z) :=
  for_range 0 n (fun i st =>
    do ' (x, pos') <- fetch_s64 buffer st.2;
    do arr' <- aset st.1 i x;
    Some (arr', pos')) (arr, pos).

Lemma reads_s64s arr news :
  Forall (in_s 64) news -> (length news <= length arr)%nat ->
  reads (read_s64s (zlen news) arr) (mjoin (put64 <$> news)) (news ++ drop (length news) arr).
Proof.
  intros Hin Hl. rewrite <- overwritten_all. unfold read_s64s.
  apply (reads_for news put64 (overwritten arr news) _
    (fun i buf st => do ' (x, pos') <- fetch_s64 buf st.2; do arr' <- aset st.1 i x; Some (arr', pos')));
    [done|done|].
  intros j x Hx pre rest. cbn [fst snd]. rewrite (reads_s64 x) by by apply (Forall_lookup_1 _ _ _ _ Hin Hx).
  cbn [mbind option_bind]. by rewrite (overwritten_step _ _ _ _ Hx Hl).
Qed.

(** An array of character arrays, [strncpy] of [n] characters into each slot,
    where a slot takes [w] bytes of the buffer. *)
Definition read_strs (cnt : Z) (n : nat) (w : Z) (arr : list (list Z)) (buffer : list Z) (pos : Z)
  : option (list (list Z) * Z) :=
  for_range 0 cnt (fun i st =>
    do old <- aget st.1 i;
    do ' (s, pos') <- fetch_str old n w buffer st.2;
    do arr' <- aset st.1 i s;
    Some (arr', pos')) (arr, pos).

(** The slot behind [strncpy]: the string padded with NULs, the bytes behind
    the [n]th as they were. *)
Definition strncpied (s : list Z) (n : nat) (old : list Z) : list Z :=
  take n (s ++ replicate n 0) ++ drop n old.

Lemma strncpy_at_slot s bs n old pre rest :
  chars s -> (length s <= n)%nat -> bs = s ++ 0 :: drop (S (length s)) bs -> Z.of_nat n <= zlen old ->
  strncpy_at old (pre ++ bs ++ rest) (zlen pre) n = Some (strncpied s n old).
Proof.
  intros Hc Hs Hb Ho. unfold strncpy_at. rewrite (proj2 (Z.leb_le _ _)) by apply zlen_nonneg.
  unfold zlen. rewrite Nat2Z.id, drop_app_length. unfold strncpy.
  rewrite Hb, <- (assoc_L (++)). simpl. rewrite strncpy_bytes_pad by done. cbn [mbind option_bind].
  assert (length (s ++ replicate (n - length s) 0) = n) as Hl by (rewrite length_app, length_replicate; lia).
  rewrite write_bytes_head by (unfold zlen in *; lia). rewrite Hl. unfold strncpied. do 2 f_equal.
  rewrite take_app_ge by done. f_equal. rewrite take_replicate. f_equal. lia.
Qed.

(** A character array of [w] bytes that holds a string of at most [n] characters. *)
Definition holds (n : nat) (w : Z) (b s : list Z) : Prop :=
  cstr b = Some s /\ (length s <= n)%nat /\ zlen b = w.

Lemma reads_str n w old b s :
  holds n w b s -> Z.of_nat n <= zlen old -> reads (fetch_str old n w) b (strncpied s n old).
Proof.
  intros (Hc & Hl & Hw) Ho pre rest. unfold fetch_str. destruct (cstr_inv _ _ Hc) as [r Hr].
  rewrite (strncpy_at_slot s b n old pre rest); [by rewrite Hw|by eapply cstr_chars|done| |done].
  rewrite Hr at 1. do 2 f_equal. rewrite Hr, drop_app_ge by lia.
  replace (S (length s) - length s)%nat with 1%nat by lia. simpl. by rewrite drop_0.
Qed.

Lemma reads_strs n w arr bss ss :
  Forall2 (holds n w) bss ss -> (length ss <= length arr)%nat ->
  Forall (fun old => Z.of_nat n <= zlen old) arr ->
  reads (read_strs (zlen bss) n w arr) (mjoin bss)
    (zip_with (fun s old => strncpied s n old) ss arr ++ drop (length ss) arr).
Proof.
  intros Hh Hl Ho. set (news := zip_with _ ss arr).
  assert (length news = length ss) as Hn by (unfold news; rewrite length_zip_with; lia).
  rewrite <- Hn, <- overwritten_all. pose proof (Forall2_length _ _ _ Hh) as Hlb.
  rewrite Hn, <- Hlb. rewrite <- (list_fmap_id bss) at 2. unfold read_strs.
  apply (reads_for bss id (overwritten arr news) _ (fun i buf st =>
    do old <- aget st.1 i; do ' (s, pos') <- fetch_str old n w buf st.2;
    do arr' <- aset st.1 i s; Some (arr', pos'))); [done|done|].
  intros j b Hb pre rest. cbn [fst snd id].
  destruct (Forall2_lookup_l _ _ _ _ _ Hh Hb) as (s & Hs & Hbs).
  destruct (lookup_lt_is_Some_2 arr j) as [old Hold]; [apply lookup_lt_Some in Hs; lia|].
  pose proof (lookup_lt_Some _ _ _ Hs).
  rewrite aget_nat, overwritten_lookup, Hold by lia. cbn [mbind option_bind].
  rewrite (reads_str n w old b s Hbs) by by apply (Forall_lookup_1 _ _ _ _ Ho Hold).
  cbn [mbind option_bind]. rewrite (overwritten_step arr news j (strncpied s n old)); [done| |lia].
  unfold news. by rewrite lookup_zip_with, Hs, Hold.
Qed.

(** A slot that is read back holds the string, when the byte behind the copied
    ones ends it or the string is shorter. *)
Lemma strncpied_cstr s n old :
  chars s -> (length s <= n)%nat -> ((length s < n)%nat \/ old !! n = Some 0) ->
  cstr (strncpied s n old) = Some s.
Proof.
  intros Hc Hl Hz. unfold strncpied. rewrite take_app_ge, take_replicate, <- (assoc_L (++)) by done.
  replace ((n - length s) `min` n)%nat with (n - length s)%nat by lia.
  destruct (decide (length s = n)) as [He|Hne].
  - rewrite He, Nat.sub_diag. simpl. destruct Hz as [?|Hz]; [lia|].
    rewrite (drop_S _ _ _ Hz). by apply cstr_app.
  - replace (n - length s)%nat with (S (n - length s - 1)) by lia. by apply cstr_app.
Qed.

Lemma strncpied_zlen s n old :
  (length s <= n)%nat -> Z.of_nat n <= zlen old -> zlen (strncpied s n old) = zlen old.
Proof.
  intros. unfold strncpied. rewrite zlen_app, zlen_take, zlen_drop, zlen_app, zlen_replicate.
  unfold zlen in *. lia.
Qed.

(** ** Lists *)

(** A loop that reads [n] items and pushes them on a vector. *)
Definition read_list {A} (f : list Z -> Z -> option (A * Z)) (n : Z) (acc : list A)
    (buffer : list Z) (pos : Z) : option (list A * Z) :=
  for_range 0 n (fun _ st =>
    do ' (x, pos') <- f buffer st.2; Some (st.1 ++ [x], pos')) (acc, pos).

Lemma reads_list {A B} (f : list Z -> Z -> option (B * Z)) (enc : A -> list Z) (dec : A -> B) l acc :
  (forall x, x ∈ l -> reads f (enc x) (dec x)) ->
  reads (read_list f (zlen l) acc) (mjoin (enc <$> l)) (acc ++ (dec <$> l)).
Proof.
  intros Hf. unfold read_list.
  assert (acc ++ (dec <$> l) = (fun j => acc ++ (dec <$> take j l)) (length l)) as ->
    by by rewrite take_ge.
  apply (reads_for l enc (fun j => acc ++ (dec <$> take j l)) (zlen l) (fun _ buf st =>
    do ' (x, pos') <- f buf st.2; Some (st.1 ++ [x], pos')) acc); [done|by rewrite app_nil_r|].
  intros j x Hx pre rest. cbn [fst snd].
  rewrite (Hf x) by by eapply list_elem_of_lookup_2. cbn [mbind option_bind].
  by rewrite (take_S_r _ _ _ Hx), fmap_app, <- (assoc_L (++)).
Qed.

(** A writer that writes every element of a vector. *)
Lemma emits_list {A} (l : list A) (enc : A -> list Z) (f : A -> out -> option out) :
  (forall x, x ∈ l -> emits (f x) (enc x)) ->
  emits (for_range 0 (zlen l) (fun i st => do x <- aget l i; f x st)) (mjoin (enc <$> l)).
Proof.
  intros Hf. pose proof (emits_for l enc (zlen l) (fun i st => do x <- aget l i; f x st)) as He.
  rewrite (take_ge l) in He by (unfold zlen; lia).
  apply He; [split; [apply zlen_nonneg|lia]|]. intros i x Hi Hx pre rest Hl.
  rewrite Hx. cbn [mbind option_bind]. apply Hf; [|done].
  apply aget_Some in Hx as [_ Hx]. by eapply list_elem_of_lookup_2.
Qed.

Lemma reads_ext {A} (f g : list Z -> Z -> option (A * Z)) bs x :
  (forall buf pos, f buf pos = g buf pos) -> reads f bs x -> reads g bs x.
Proof. intros Hfg Hf pre rest. by rewrite <- Hfg. Qed.

Lemma reads_run {A} (f : list Z -> Z -> option (A * Z)) bs x rest :
  reads f bs x -> fst <$> f (bs ++ rest) 0 = Some x.
Proof. intros Hf. pose proof (Hf [] rest) as H. simpl in H. change (zlen []) with 0 in H. by rewrite H. Qed.

(** A loop whose rounds write what depends on the index. *)
Lemma emits_for_idx n (enc : nat -> list Z) body :
  (forall j, (j < n)%nat -> emits (body (Z.of_nat j)) (enc j)) ->
  emits (for_range 0 (Z.of_nat n) body) (mjoin (enc <$> seq 0 n)).
Proof.
  intros Hb. pose proof (emits_for_n (seq 0 n) enc body 0) as He. rewrite length_seq in He.
  intros pre rest Hl. unfold for_range. rewrite Z.sub_0_r, Nat2Z.id. apply He; [|done].
  intros j x Hx. pose proof (lookup_lt_Some _ _ _ Hx) as Hj. rewrite length_seq in Hj.
  rewrite lookup_seq_lt in Hx by done. simplify_eq. apply Hb. done.
Qed.
