(* ===== verification/NodeCodec.v ===== *)
(** * Nodes on pages (bplus_leaf_serialize, bplus_leaf_deserialize,
    bplus_non_leaf_serialize, bplus_non_leaf_deserialize and the two
    get_serialize_size functions of src/src/backend/mbt/mbtree.c)

    A node is written field by field into a page; the pointers [parent],
    [sub_ptr] and the links are not written, the item pointers of a leaf are
    written by value.  Reading back fills an existing struct: the strings are
    copied with [strncpy(..., 32)], which leaves the 33rd byte of a slot as it
    was. *)

From S2P Require Import Prelude CMem Codec Node.

(** ** The functions *)

(** The three halfwords of an item pointer. *)
Definition emit_tid (c : ItemPointerData) (st : out) : option out :=
  do st <- emit (put16 (bi_hi c)) st;
  do st <- emit (put16 (bi_lo c)) st;
  emit (put16 (ip_posid c)) st.

Definition leaf_writer (tm : tidmem) (leaf : bplus_leaf) (st : out) : option out :=
  do st <- emit (put64 (type (lf_node leaf))) st;
  do st <- emit (put64 (parent_key_idx (lf_node leaf))) st;
  do st <- emit (put64 (entries leaf)) st;
  do st <- for_range 0 (entries leaf) (fun i st =>
    do k <- aget (lf_key leaf) i; emit (put64 k) st) st;
  do st <- for_range 0 (entries leaf) (fun i st =>
    do d <- aget (lf_data leaf) i; emit d st) st;
  do st <- for_range 0 (entries leaf) (fun i st =>
    do h <- aget (lf_childhash leaf) i; emit h st) st;
  do st <- emit (lf_node_hash leaf) st;
  do st <- emit (put64 (lf_node_id leaf)) st;
  do st <- emit (put64 (lf_parent_id leaf)) st;
  for_range 0 (entries leaf) (fun i st =>
    do p <- aget (tids (lf_node leaf)) i;
    do c <- load_tid tm p;
    emit_tid c st) st.

Definition bplus_leaf_serialize (tm : tidmem) (leaf : bplus_leaf) (buffer : list Z)
  : option (list Z) :=
  fst <$> leaf_writer tm leaf (buffer, 0).

Definition non_leaf_writer (n : bplus_non_leaf) (st : out) : option out :=
  do st <- emit (put64 (type (nl_node n))) st;
  do st <- emit (put64 (parent_key_idx (nl_node n))) st;
  do st <- emit (put64 (children n)) st;
  do st <- for_range 0 (children n) (fun i st =>
    do k <- aget (nl_key n) i; emit (put64 k) st) st;
  do st <- for_range 0 (children n) (fun i st =>
    do h <- aget (nl_childhash n) i; emit h st) st;
  do st <- emit (nl_node_hash n) st;
  do st <- for_range 0 (children n) (fun i st =>
    do o <- aget (chindrenoffset n) i; emit (put64 o) st) st;
  do st <- emit (put64 (nl_node_id n)) st;
  emit (put64 (nl_parent_id n)) st.

Definition bplus_non_leaf_serialize (n : bplus_non_leaf) (buffer : list Z) : option (list Z) :=
  fst <$> non_leaf_writer n (buffer, 0).

(** The fresh item pointers of a leaf, one per entry. *)
Definition read_tids (n : Z) (ts : list (option tidloc)) (tm : tidmem) (buffer : list Z) (pos : Z)
  : option (list (option tidloc) * tidmem * Z) :=
  for_range 0 n (fun i st =>
    let '(ts, tm, pos) := st in
    do ' (hi, pos) <- fetch_u16 buffer pos;
    do ' (lo, pos) <- fetch_u16 buffer pos;
    do ' (pid, pos) <- fetch_u16 buffer pos;
    let '(tm, l) := alloc_tid tm (mkTid hi lo pid) in
    do ts <- aset ts i (Some l);
    Some (ts, tm, pos)) (ts, tm, pos).

Definition leaf_reader (leaf : bplus_leaf) (tm : tidmem) (buffer : list Z) (pos : Z)
  : option ((bplus_leaf * tidmem) * Z) :=
  do ' (ty, pos) <- fetch_s64 buffer pos;
  do ' (pki, pos) <- fetch_s64 buffer pos;
  do ' (cnt, pos) <- fetch_s64 buffer pos;
  do ' (key, pos) <- read_s64s cnt (lf_key leaf) buffer pos;
  do ' (data, pos) <- read_strs cnt (Z.to_nat DATA_SIZE) 33 (lf_data leaf) buffer pos;
  do ' (ch, pos) <- read_strs cnt 32 33 (lf_childhash leaf) buffer pos;
  do ' (nh, pos) <- fetch_str (lf_node_hash leaf) 32 33 buffer pos;
  do ' (id, pos) <- fetch_s64 buffer pos;
  do ' (pid, pos) <- fetch_s64 buffer pos;
  do ' (ts, tm', pos) <- read_tids cnt (tids (lf_node leaf)) tm buffer pos;
  Some ((mkLeaf (mkNode ty pki (parent (lf_node leaf)) (link (lf_node leaf)) cnt ts)
           key data ch nh id pid, tm'), pos).

Definition bplus_leaf_deserialize (leaf : bplus_leaf) (tm : tidmem) (buffer : list Z)
  : option (bplus_leaf * tidmem) :=
  fst <$> leaf_reader leaf tm buffer 0.

Definition non_leaf_reader (n : bplus_non_leaf) (buffer : list Z) (pos : Z)
  : option (bplus_non_leaf * Z) :=
  do ' (ty, pos) <- fetch_s64 buffer pos;
  do ' (pki, pos) <- fetch_s64 buffer pos;
  do ' (cnt, pos) <- fetch_s64 buffer pos;
  do ' (key, pos) <- read_s64s cnt (nl_key n) buffer pos;
  do ' (ch, pos) <- read_strs cnt 32 33 (nl_childhash n) buffer pos;
  do ' (nh, pos) <- fetch_str (nl_node_hash n) 32 33 buffer pos;
  do ' (offs, pos) <- read_s64s cnt (chindrenoffset n) buffer pos;
  do ' (id, pos) <- fetch_s64 buffer pos;
  do ' (pid, pos) <- fetch_s64 buffer pos;
  Some (mkNonLeaf (mkNode ty pki (parent (nl_node n)) (link (nl_node n)) cnt (tids (nl_node n)))
          key (sub_ptr n) ch nh offs id pid, pos).

Definition bplus_non_leaf_deserialize (n : bplus_non_leaf) (buffer : list Z)
  : option bplus_non_leaf :=
  fst <$> non_leaf_reader n buffer 0.

(** [for(i = 0; i < n; i++) pos += k]. *)
Definition add_loop (n k pos : Z) : Z :=
  match for_range 0 n (fun _ pos => Some (pos + k)) pos with Some p => p | None => pos end.

Definition bplus_leaf_get_serialize_size (leaf : bplus_leaf) : Z :=
  let pos := 0 + 8 + 8 + 8 in
  let pos := add_loop (entries leaf) 8 pos in
  let pos := add_loop (entries leaf) 33 pos in
  let pos := add_loop (entries leaf) 33 pos in
  pos + 33 + 8 + 8.

Definition bplus_non_leaf_get_serialize_size (n : bplus_non_leaf) : Z :=
  let pos := 0 + 8 + 8 + 8 in
  let pos := add_loop (children n - 1) 8 pos in
  let pos := add_loop (children n) 33 pos in
  let pos := pos + 33 in
  let pos := add_loop (children n) 8 pos in
  pos + 8 + 8.

(** ** What can be written *)

(** The values of a leaf that the page format can carry: at most as many
    entries as slots, strings that end within their slots, item pointers that
    point somewhere. *)
Definition tid_ok (c : ItemPointerData) : Prop :=
  in_u 16 (bi_hi c) /\ in_u 16 (bi_lo c) /\ in_u 16 (ip_posid c).

#[export] Instance tid_ok_dec c : Decision (tid_ok c).
Proof. unfold tid_ok. apply _. Defined.

(** [leaf_shows tm leaf ks ds hs nh cs]: the keys, strings, hashes and item
    pointers a leaf holds in its first [entries] slots. *)
Record leaf_shows (tm : tidmem) (leaf : bplus_leaf) (ks : list Z) (ds hs : list (list Z))
    (nh : list Z) (cs : list ItemPointerData) : Prop := {
  ls_ints : Forall (in_s 64) [type (lf_node leaf); parent_key_idx (lf_node leaf); entries leaf;
                              lf_node_id leaf; lf_parent_id leaf];
  ls_count : entries leaf = zlen ks;
  ls_keys : take (length ks) (lf_key leaf) = ks;
  ls_keyr : Forall (in_s 64) ks;
  ls_data : Forall2 (holds 32 33) (take (length ks) (lf_data leaf)) ds;
  ls_hash : Forall2 (holds 32 33) (take (length ks) (lf_childhash leaf)) hs;
  ls_nh : holds 32 33 (lf_node_hash leaf) nh;
  ls_tids : Forall2 (fun p c => load_tid tm p = Some c) (take (length ks) (tids (lf_node leaf))) cs;
  ls_tidr : Forall tid_ok cs
}.

Record non_leaf_shows (n : bplus_non_leaf) (ks : list Z) (hs : list (list Z)) (nh : list Z)
    (os : list Z) : Prop := {
  ns_ints : Forall (in_s 64) [type (nl_node n); parent_key_idx (nl_node n); children n;
                              nl_node_id n; nl_parent_id n];
  ns_count : children n = zlen ks;
  ns_keys : take (length ks) (nl_key n) = ks;
  ns_keyr : Forall (in_s 64) ks;
  ns_hash : Forall2 (holds 32 33) (take (length ks) (nl_childhash n)) hs;
  ns_nh : holds 32 33 (nl_node_hash n) nh;
  ns_offs : take (length ks) (chindrenoffset n) = os;
  ns_offr : Forall (in_s 64) os
}.

(** The bytes of an item pointer. *)
Definition tid_bytes (c : ItemPointerData) : list Z :=
  put16 (bi_hi c) ++ put16 (bi_lo c) ++ put16 (ip_posid c).

Definition leaf_bytes (leaf : bplus_leaf) (cs : list ItemPointerData) : list Z :=
  let n := Z.to_nat (entries leaf) in
  put64 (type (lf_node leaf)) ++ put64 (parent_key_idx (lf_node leaf)) ++ put64 (entries leaf) ++
  mjoin (put64 <$> take n (lf_key leaf)) ++ mjoin (id <$> take n (lf_data leaf)) ++
  mjoin (id <$> take n (lf_childhash leaf)) ++ lf_node_hash leaf ++
  put64 (lf_node_id leaf) ++ put64 (lf_parent_id leaf) ++ mjoin (tid_bytes <$> cs).

Definition non_leaf_bytes (n : bplus_non_leaf) : list Z :=
  let c := Z.to_nat (children n) in
  put64 (type (nl_node n)) ++ put64 (parent_key_idx (nl_node n)) ++ put64 (children n) ++
  mjoin (put64 <$> take c (nl_key n)) ++ mjoin (id <$> take c (nl_childhash n)) ++
  nl_node_hash n ++ mjoin (put64 <$> take c (chindrenoffset n)) ++
  put64 (nl_node_id n) ++ put64 (nl_parent_id n).

(** ** What is written *)

Lemma emits_aget {A} (l : list A) (enc : A -> list Z) (f : A -> out -> option out) i x :
  aget l i = Some x -> emits (f x) (enc x) -> emits (fun st => do y <- aget l i; f y st) (enc x).
Proof. intros Hx Hf pre rest Hl. rewrite Hx. by apply Hf. Qed.

Lemma emits_tid c : emits (emit_tid c) (tid_bytes c).
Proof. apply emits_seq; [apply emits_emit|]. apply emits_seq; apply emits_emit. Qed.

(** A loop that writes the first slots of an array. *)
Lemma emits_array {A} (l : list A) (enc : A -> list Z) n :
  0 <= n <= zlen l ->
  emits (for_range 0 n (fun i st => do x <- aget l i; emit (enc x) st))
    (mjoin (enc <$> take (Z.to_nat n) l)).
Proof.
  intros Hn. apply emits_for; [done|]. intros i x Hi Hx.
  apply (emits_aget l enc (fun y => emit (enc y))); [done|apply emits_emit].
Qed.

Lemma emits_tids tm ts cs n :
  0 <= n <= zlen ts -> Forall2 (fun p c => load_tid tm p = Some c) (take (Z.to_nat n) ts) cs ->
  emits (for_range 0 n (fun i st => do p <- aget ts i; do c <- load_tid tm p; emit_tid c st))
    (mjoin (tid_bytes <$> cs)).
Proof.
  intros Hn Hcs. set (enc := fun p => from_option tid_bytes [] (load_tid tm p)).
  assert (tid_bytes <$> cs = enc <$> take (Z.to_nat n) ts) as ->.
  { clear Hn. induction Hcs as [|p c ps cs Hp Hcs IH]; [done|].
    rewrite !fmap_cons, IH. unfold enc at 2. by rewrite Hp. }
  apply emits_for; [done|]. intros i p Hi Hp.
  assert (exists c, load_tid tm p = Some c) as [c Hc].
  { apply aget_Some in Hp as [_ Hp].
    destruct (Forall2_lookup_l _ _ _ (Z.to_nat i) p Hcs) as (c & _ & ?); [|eauto].
    rewrite lookup_take_lt by lia. done. }
  intros pre rest Hl. rewrite Hp. cbn [mbind option_bind]. unfold enc in Hl |- *.
  rewrite Hc in Hl |- *. simpl in *. by apply emits_tid.
Qed.

Lemma leaf_writer_emits tm leaf ks ds hs nh cs :
  leaf_wf leaf -> leaf_shows tm leaf ks ds hs nh cs -> zlen ks <= BPLUS_MAX_ENTRIES ->
  emits (leaf_writer tm leaf) (leaf_bytes leaf cs).
Proof.
  intros [] [] Hn. unfold BPLUS_MAX_ENTRIES in *. pose proof (zlen_nonneg ks).
  assert (Z.to_nat (entries leaf) = length ks) as Hk by (rewrite ls_count0; unfold zlen; lia).
  unfold leaf_writer, leaf_bytes.
  repeat (apply emits_seq; [first [apply emits_emit|apply emits_array; lia|
    apply (emits_array _ id); lia]|]).
  apply emits_tids; [lia|]. by rewrite Hk.
Qed.

Lemma non_leaf_writer_emits n ks hs nh os :
  non_leaf_wf n -> non_leaf_shows n ks hs nh os -> zlen ks < BPLUS_MAX_ORDER ->
  emits (non_leaf_writer n) (non_leaf_bytes n).
Proof.
  intros [] [] Hn. unfold BPLUS_MAX_ORDER in *. pose proof (zlen_nonneg ks).
  unfold non_leaf_writer, non_leaf_bytes.
  repeat (apply emits_seq; [first [apply emits_emit|apply emits_array; lia|
    apply (emits_array _ id); lia]|]).
  apply emits_emit.
Qed.

(** ** Sizes *)

Lemma join_zlen {A} (enc : A -> list Z) l w :
  Forall (fun x => zlen (enc x) = w) l -> zlen (mjoin (enc <$> l)) = zlen l * w.
Proof.
  induction 1 as [|x l Hx Hl IH]; [done|].
  change (mjoin (enc <$> x :: l)) with (enc x ++ mjoin (enc <$> l)).
  rewrite zlen_app, zlen_cons, IH, Hx. lia.
Qed.

Lemma join_put64_zlen l : zlen (mjoin (put64 <$> l)) = zlen l * 8.
Proof. apply join_zlen. by apply Forall_true. Qed.

Lemma put64_zlen z : zlen (put64 z) = 8.
Proof. done. Qed.

Lemma leaf_bytes_zlen leaf cs :
  leaf_wf leaf -> 0 <= entries leaf <= BPLUS_MAX_ENTRIES -> zlen cs = entries leaf ->
  zlen (leaf_bytes leaf cs) = 73 + 80 * entries leaf.
Proof.
  intros [Ht Hk Hd Hds Hh Hhs Hnh] He Hc. unfold BPLUS_MAX_ENTRIES in *. unfold leaf_bytes.
  rewrite !zlen_app, !put64_zlen, join_put64_zlen.
  rewrite !(join_zlen id _ 33) by (by apply Forall_take).
  rewrite (join_zlen tid_bytes _ 6) by by apply Forall_true.
  rewrite !zlen_take, Hnh. unfold zlen in *. lia.
Qed.

Lemma non_leaf_bytes_zlen n :
  non_leaf_wf n -> 0 <= children n < BPLUS_MAX_ORDER ->
  zlen (non_leaf_bytes n) = 73 + 49 * children n.
Proof.
  intros [Ht Hk Hs Hh Hhs Hnh Ho] He. unfold BPLUS_MAX_ORDER in *. unfold non_leaf_bytes.
  rewrite !zlen_app, !put64_zlen, !join_put64_zlen.
  rewrite !(join_zlen id _ 33) by (by apply Forall_take).
  rewrite !zlen_take, Hnh. unfold zlen in *. lia.
Qed.

(** ** Reading item pointers back *)

Fixpoint alloc_tids (tm : tidmem) (cs : list ItemPointerData) : tidmem :=
  match cs with [] => tm | c :: cs => alloc_tids (alloc_tid tm c).1 cs end.

Lemma alloc_tids_snoc tm cs c :
  alloc_tids tm (cs ++ [c]) = (alloc_tid (alloc_tids tm cs) c).1.
Proof. revert tm. induction cs as [|x cs IH]; intros tm; [done|]. apply IH. Qed.

Lemma alloc_tids_next tm cs : next_tid (alloc_tids tm cs) = (next_tid tm + length cs)%nat.
Proof. revert tm. induction cs as [|x cs IH]; intros tm; simpl; [lia|]. rewrite IH. simpl. lia. Qed.

Lemma alloc_tids_old tm cs l :
  (l < next_tid tm)%nat -> cells (alloc_tids tm cs) !! l = cells tm !! l.
Proof.
  revert tm. induction cs as [|x cs IH]; intros tm Hl; [done|]. simpl. rewrite IH by (simpl; lia).
  simpl. by rewrite lookup_insert_ne by lia.
Qed.

Lemma alloc_tids_new tm cs j c :
  cs !! j = Some c -> cells (alloc_tids tm cs) !! (next_tid tm + j)%nat = Some c.
Proof.
  revert tm j. induction cs as [|x cs IH]; intros tm [|j] Hj; [done|done| |]; simpl in *.
  - simplify_eq. rewrite Nat.add_0_r, alloc_tids_old by (simpl; lia). simpl. apply lookup_insert_eq.
  - specialize (IH (alloc_tid tm x).1 j Hj). simpl in IH. by rewrite Nat.add_succ_r.
Qed.

Lemma reads_tids tm ts cs :
  Forall tid_ok cs -> (length cs <= length ts)%nat ->
  reads (fun buf pos => read_tids (zlen cs) ts tm buf pos) (mjoin (tid_bytes <$> cs))
    ((Some <$> seq (next_tid tm) (length cs)) ++ drop (length cs) ts, alloc_tids tm cs).
Proof.
  intros Hok Hl. pose (news := Some <$> seq (next_tid tm) (length cs)).
  assert (length news = length cs) as Hn by (unfold news; rewrite length_fmap, length_seq; done).
  set (st := fun j => (overwritten ts news j, alloc_tids tm (take j cs))).
  assert (st (length cs) = (news ++ drop (length cs) ts, alloc_tids tm cs)) as Hst
    by (unfold st; rewrite <- Hn, overwritten_all, take_ge by lia; done).
  unfold news in Hst. rewrite <- Hst.
  unfold read_tids.
  apply (reads_for cs tid_bytes st (zlen cs) (fun i buf (s : list (option tidloc) * tidmem * Z) =>
    let '(ts, tm, pos) := s in
    do ' (hi, pos) <- fetch_u16 buf pos; do ' (lo, pos) <- fetch_u16 buf pos;
    do ' (pid, pos) <- fetch_u16 buf pos;
    let '(tm, l) := alloc_tid tm (mkTid hi lo pid) in
    do ts <- aset ts i (Some l); Some (ts, tm, pos)) (ts, tm)); [done|done|].
  intros j c Hc. pose proof (lookup_lt_Some _ _ _ Hc).
  destruct (Forall_lookup_1 _ _ _ _ Hok Hc) as (H1 & H2 & H3). unfold st, tid_bytes.
  cbv beta iota. eapply reads_bind; [by apply reads_u16|].
  eapply reads_bind; [by apply reads_u16|].
  rewrite <- (app_nil_r (put16 (ip_posid c))).
  eapply reads_bind; [by apply reads_u16|].
  intros pre rest. simpl. rewrite alloc_tids_next, length_take, Nat.min_l by lia.
  rewrite (overwritten_step ts news j (Some (next_tid tm + j)%nat)); [| |lia].
  - simpl. rewrite zlen_nil, Z.add_0_r. do 2 f_equal.
    rewrite (take_S_r _ _ _ Hc), alloc_tids_snoc. unfold alloc_tid. simpl.
    rewrite alloc_tids_next, length_take, Nat.min_l by lia. by destruct c.
  - unfold news. rewrite list_lookup_fmap, lookup_seq_lt by lia. done.
Qed.

(** ** Round trips *)

(** A struct that strings can be read back into: the 33rd byte of every slot is
    NUL, as in zeroed memory. *)
Definition nul_ended (b : list Z) : Prop := b !! 32%nat = Some 0.

Lemma holds_strncpied s old :
  chars s -> (length s <= 32)%nat -> zlen old = 33 -> nul_ended old ->
  holds 32 33 (strncpied s 32 old) s.
Proof.
  intros Hc Hl Ho Hn. split; [by apply strncpied_cstr; auto|]. split; [done|].
  rewrite strncpied_zlen; lia.
Qed.

(** The slots that [read_strs] fills hold the strings that were written. *)
Lemma read_back_strs bss ss arr :
  Forall2 (holds 32 33) bss ss -> (length ss <= length arr)%nat ->
  Forall (fun old => zlen old = 33) arr -> Forall nul_ended arr ->
  Forall2 (holds 32 33)
    (take (length ss) (zip_with (fun s old => strncpied s 32 old) ss arr ++ drop (length ss) arr)) ss.
Proof.
  intros Hh Hl Hw Hn. rewrite take_app_length' by (rewrite length_zip_with; lia).
  revert arr Hl Hw Hn. induction Hh as [|b s bss ss Hb Hh IH]; intros [|old arr] Hl Hw Hn;
    simpl in *; try lia; [constructor|constructor|].
  apply Forall_cons in Hw as [? ?]. apply Forall_cons in Hn as [? ?].
  constructor; [|apply IH; (done || lia)].
  destruct Hb as (Hc & ? & _). apply holds_strncpied; try done. by eapply cstr_chars.
Qed.

Lemma leaf_reader_reads tm tm0 leaf old ks ds hs nh cs :
  leaf_wf leaf -> leaf_wf old -> leaf_shows tm leaf ks ds hs nh cs ->
  zlen ks <= BPLUS_MAX_ENTRIES ->
  reads (leaf_reader old tm0) (leaf_bytes leaf cs)
    (mkLeaf (mkNode (type (lf_node leaf)) (parent_key_idx (lf_node leaf)) (parent (lf_node old))
               (link (lf_node old)) (zlen ks)
               ((Some <$> seq (next_tid tm0) (length cs)) ++ drop (length cs) (tids (lf_node old))))
       (ks ++ drop (length ks) (lf_key old))
       (zip_with (fun s o => strncpied s 32 o) ds (lf_data old) ++ drop (length ds) (lf_data old))
       (zip_with (fun s o => strncpied s 32 o) hs (lf_childhash old) ++ drop (length hs) (lf_childhash old))
       (strncpied nh 32 (lf_node_hash old)) (lf_node_id leaf) (lf_parent_id leaf),
     alloc_tids tm0 cs).
Proof.
  intros [] [Ht' Hk' Hd' Hds' Hh' Hhs' Hnh'] [Hi Hc Hks Hkr Hd Hh Hn Hts Htr] Hm.
  rewrite !Forall_cons in Hi. destruct Hi as (? & ? & ? & ? & ? & _).
  assert (Z.to_nat (entries leaf) = length ks) as HN by (rewrite Hc; unfold zlen; lia).
  unfold leaf_bytes. rewrite HN, Hks, Hc in *. unfold BPLUS_MAX_ENTRIES in *.
  assert (length ds = length ks) by (rewrite <- (Forall2_length _ _ _ Hd), length_take; unfold zlen in *; lia).
  assert (length hs = length ks) by (rewrite <- (Forall2_length _ _ _ Hh), length_take; unfold zlen in *; lia).
  assert (length cs = length ks) by (rewrite <- (Forall2_length _ _ _ Hts), length_take; unfold zlen in *; lia).
  assert (forall l : list (list Z), Forall (fun d => zlen d = 33) l -> Forall (fun o => 32 <= zlen o) l) as H33
    by (intros l Hl; eapply Forall_impl; [exact Hl|simpl; lia]).
  unfold leaf_reader. do 3 (eapply reads_bind; [by apply reads_s64|]).
  eapply reads_bind; [apply reads_s64s; [done|unfold zlen in *; lia]|].
  rewrite !list_fmap_id.
  assert (zlen ks = zlen (take (length ks) (lf_data leaf))) as E1 by (rewrite zlen_take; unfold zlen in *; lia).
  assert (zlen ks = zlen (take (length ks) (lf_childhash leaf))) as E2 by (rewrite zlen_take; unfold zlen in *; lia).
  assert (zlen ks = zlen cs) as E3 by (unfold zlen in *; lia).
  eapply reads_bind; [rewrite E1; apply (reads_strs 32 33 (lf_data old) _ ds); [done|unfold zlen in *; lia|by apply H33]|].
  eapply reads_bind; [rewrite E2; apply (reads_strs 32 33 (lf_childhash old) _ hs); [done|unfold zlen in *; lia|by apply H33]|].
  eapply reads_bind; [apply reads_str; [done|lia]|].
  do 2 (eapply reads_bind; [by apply reads_s64|]).
  rewrite <- (app_nil_r (mjoin (tid_bytes <$> cs))).
  intros pre rest. rewrite <- (assoc_L (++)), E3.
  rewrite (reads_tids tm0 (tids (lf_node old)) cs) by (done || unfold zlen in *; lia).
  cbn [mbind option_bind]. simpl. rewrite zlen_app, zlen_nil, Z.add_0_r. done.
Qed.

Lemma non_leaf_reader_reads n old ks hs nh os :
  non_leaf_wf n -> non_leaf_wf old -> non_leaf_shows n ks hs nh os ->
  zlen ks < BPLUS_MAX_ORDER ->
  reads (non_leaf_reader old) (non_leaf_bytes n)
    (mkNonLeaf (mkNode (type (nl_node n)) (parent_key_idx (nl_node n)) (parent (nl_node old))
                  (link (nl_node old)) (zlen ks) (tids (nl_node old)))
       (ks ++ drop (length ks) (nl_key old)) (sub_ptr old)
       (zip_with (fun s o => strncpied s 32 o) hs (nl_childhash old) ++ drop (length hs) (nl_childhash old))
       (strncpied nh 32 (nl_node_hash old))
       (os ++ drop (length os) (chindrenoffset old)) (nl_node_id n) (nl_parent_id n)).
Proof.
  intros [] [Ht' Hk' Hs' Hh' Hhs' Hnh' Ho'] [Hi Hc Hks Hkr Hh Hn Hos Hor] Hm.
  rewrite !Forall_cons in Hi. destruct Hi as (? & ? & ? & ? & ? & _).
  assert (Z.to_nat (children n) = length ks) as HN by (rewrite Hc; unfold zlen; lia).
  unfold non_leaf_bytes. rewrite HN, Hks, Hos, Hc in *. unfold BPLUS_MAX_ORDER in *.
  assert (length hs = length ks) by (rewrite <- (Forall2_length _ _ _ Hh), length_take; unfold zlen in *; lia).
  assert (length os = length ks) by (rewrite <- Hos, length_take; unfold zlen in *; lia).
  assert (forall l : list (list Z), Forall (fun d => zlen d = 33) l -> Forall (fun o => 32 <= zlen o) l) as H33
    by (intros l Hl; eapply Forall_impl; [exact Hl|simpl; lia]).
  unfold non_leaf_reader. do 3 (eapply reads_bind; [by apply reads_s64|]).
  eapply reads_bind; [apply reads_s64s; [done|unfold zlen in *; lia]|].
  rewrite !list_fmap_id.
  assert (zlen ks = zlen (take (length ks) (nl_childhash n))) as E2 by (rewrite zlen_take; unfold zlen in *; lia).
  assert (zlen ks = zlen os) as E3 by (unfold zlen in *; lia).
  eapply reads_bind; [rewrite E2; apply (reads_strs 32 33 (nl_childhash old) _ hs); [done|unfold zlen in *; lia|by apply H33]|].
  eapply reads_bind; [apply reads_str; [done|lia]|].
  eapply reads_bind; [rewrite E3; apply reads_s64s; [done|unfold zlen in *; lia]|].
  eapply reads_bind; [by apply reads_s64|].
  rewrite <- (app_nil_r (put64 (nl_parent_id n))).
  eapply reads_bind; [by apply reads_s64|]. apply reads_ret.
Qed.

(** The cells that reading a leaf allocates hold the item pointers. *)
Lemma alloc_tids_shown tm cs :
  Forall2 (fun p c => load_tid (alloc_tids tm cs) p = Some c) (Some <$> seq (next_tid tm) (length cs)) cs.
Proof.
  apply Forall2_same_length_lookup. split; [by rewrite length_fmap, length_seq|].
  intros i p c Hp Hc. rewrite list_lookup_fmap, lookup_seq_lt in Hp by by eapply lookup_lt_Some.
  simpl in Hp. simplify_eq. simpl. by apply alloc_tids_new.
Qed.

Lemma zip_take_33 ss arr :
  Forall (fun s : list Z => (length s <= 32)%nat) ss -> Forall (fun o => zlen o = 33) arr ->
  Forall (fun o => zlen o = 33) (zip_with (fun s o => strncpied s 32 o) ss arr ++ drop (length ss) arr).
Proof.
  intros Hs Ha. apply Forall_app. split; [|by apply Forall_drop].
  revert arr Ha. induction Hs as [|s ss Hs Hss IH]; intros [|o arr] Ha; simpl; try constructor.
  - apply Forall_cons in Ha as [? _]. rewrite strncpied_zlen; lia.
  - apply Forall_cons in Ha as [_ ?]. by apply IH.
Qed.

Lemma zip_overwritten_zlen {B} (ss : list (list Z)) (arr : list B) (f : list Z -> B -> B) :
  (length ss <= length arr)%nat -> zlen (zip_with f ss arr ++ drop (length ss) arr) = zlen arr.
Proof. intros. rewrite zlen_app, zlen_drop. unfold zlen. rewrite length_zip_with. lia. Qed.

Lemma holds_len bss ss : Forall2 (holds 32 33) bss ss -> Forall (fun s => (length s <= 32)%nat) ss.
Proof. induction 1 as [|b s ? ? (_ & ? & _)]; constructor; done. Qed.

(** A page with a leaf: reading it into any struct whose slots are NUL-ended
    gives a leaf that shows the same, with its item pointers in fresh cells. *)
Definition leaf_page (leaf : bplus_leaf) (ks : list Z) (ds hs : list (list Z)) (nh : list Z)
    (cs : list ItemPointerData) (page : list Z) : Prop :=
  zlen page = PAGESIZE /\
  forall tm0 old, leaf_wf old -> Forall nul_ended (lf_data old) -> Forall nul_ended (lf_childhash old) ->
    nul_ended (lf_node_hash old) ->
    exists leaf' tm', bplus_leaf_deserialize old tm0 page = Some (leaf', tm') /\
      leaf_wf leaf' /\ leaf_shows tm' leaf' ks ds hs nh cs /\
      type (lf_node leaf') = type (lf_node leaf) /\
      parent_key_idx (lf_node leaf') = parent_key_idx (lf_node leaf) /\
      lf_node_id leaf' = lf_node_id leaf /\ lf_parent_id leaf' = lf_parent_id leaf /\
      forall l, (l < next_tid tm0)%nat -> cells tm' !! l = cells tm0 !! l.

Lemma leaf_written tm leaf page ks ds hs nh cs :
  leaf_wf leaf -> leaf_shows tm leaf ks ds hs nh cs -> zlen ks <= BPLUS_MAX_ENTRIES -> zlen page = PAGESIZE ->
  exists page', bplus_leaf_serialize tm leaf page = Some page' /\ leaf_page leaf ks ds hs nh cs page'.
Proof.
  intros Hwf Hsh Hm Hp. pose proof Hwf as Hwf0. pose proof Hsh as Hsh0.
  pose proof (leaf_writer_emits _ _ _ _ _ _ _ Hwf Hsh Hm) as Hemit.
  destruct Hsh as [Hi Hc Hks Hkr Hd Hh Hn Hts Htr]. destruct Hwf.
  unfold BPLUS_MAX_ENTRIES, PAGESIZE in *.
  assert (length ds = length ks) as Ld by (rewrite <- (Forall2_length _ _ _ Hd), length_take; unfold zlen in *; lia).
  assert (length hs = length ks) as Lh by (rewrite <- (Forall2_length _ _ _ Hh), length_take; unfold zlen in *; lia).
  assert (length cs = length ks) as Lc by (rewrite <- (Forall2_length _ _ _ Hts), length_take; unfold zlen in *; lia).
  assert (zlen (leaf_bytes leaf cs) <= zlen page) as Hfit.
  { rewrite leaf_bytes_zlen, Hp; [rewrite Hc; lia|done|rewrite Hc; unfold BPLUS_MAX_ENTRIES; split; [apply zlen_nonneg|lia]|].
    rewrite Hc. unfold zlen. lia. }
  eexists. split.
  { unfold bplus_leaf_serialize. rewrite (emits_run _ _ _ Hemit Hfit). reflexivity. }
  unfold leaf_page, PAGESIZE. cbn [fst]. split; [rewrite zlen_app, zlen_drop; unfold zlen in *; lia|].
  intros tm0 old Hwf' Hnd Hnh Hnn. pose proof (leaf_reader_reads tm tm0 leaf old _ _ _ _ _ Hwf0 Hwf' Hsh0 Hm) as Hread.
  destruct Hwf' as [Ht' Hk' Hd' Hds' Hh' Hhs' Hnh']. unfold BPLUS_MAX_ENTRIES in *.
  eexists _, _. split; [by apply reads_run|].
  split; [|split; [|split_and!; try done; intros; by apply alloc_tids_old]].
  - split; cbn; rewrite ?zip_overwritten_zlen by (unfold zlen in *; lia); try done;
      try (apply zip_take_33; [by eapply holds_len|done]).
    + rewrite zlen_app, zlen_drop, zlen_fmap. unfold zlen in *. rewrite length_seq. unfold BPLUS_MAX_ENTRIES. lia.
    + rewrite zlen_app, zlen_drop. unfold zlen, BPLUS_MAX_ENTRIES in *. lia.
    + rewrite strncpied_zlen; [done|apply Hn|lia].
  - split; cbn; try done.
    + rewrite Hc in Hi. exact Hi.
    + by rewrite take_app_length.
    + rewrite <- Ld. eapply read_back_strs; [done|unfold zlen in *; lia|done|done].
    + rewrite <- Lh. eapply read_back_strs; [done|unfold zlen in *; lia|done|done].
    + destruct Hn as (Hcn & ? & _). apply holds_strncpied; try done. by eapply cstr_chars.
    + rewrite <- Lc, take_app_length' by (by rewrite length_fmap, length_seq). apply alloc_tids_shown.
Qed.

(** C26. A leaf survives its page: writing a leaf of at most 50 entries to a page
    stays within the page, and reading the page into any struct whose slots are
    NUL-ended gives a leaf with the same keys, strings, hashes and ids, whose
    item pointers are fresh cells with the same contents; no other cell is
    touched. *)
Theorem leaf_page_roundtrip (tm tm0 : tidmem) (leaf old : bplus_leaf) (page : list Z)
    (ks : list Z) (ds hs : list (list Z)) (nh : list Z) (cs : list ItemPointerData) :
  leaf_wf leaf -> leaf_shows tm leaf ks ds hs nh cs -> zlen ks <= BPLUS_MAX_ENTRIES ->
  zlen page = PAGESIZE -> leaf_wf old ->
  Forall nul_ended (lf_data old) -> Forall nul_ended (lf_childhash old) -> nul_ended (lf_node_hash old) ->
  exists page' leaf' tm',
    bplus_leaf_serialize tm leaf page = Some page' /\ zlen page' = PAGESIZE /\
    bplus_leaf_deserialize old tm0 page' = Some (leaf', tm') /\
    leaf_wf leaf' /\ leaf_shows tm' leaf' ks ds hs nh cs /\
    type (lf_node leaf') = type (lf_node leaf) /\
    parent_key_idx (lf_node leaf') = parent_key_idx (lf_node leaf) /\
    lf_node_id leaf' = lf_node_id leaf /\ lf_parent_id leaf' = lf_parent_id leaf /\
    forall l, (l < next_tid tm0)%nat -> cells tm' !! l = cells tm0 !! l.
Proof.
  intros Hwf Hsh Hm Hp Hwf' Hnd Hnh Hnn. destruct (leaf_written _ _ _ _ _ _ _ _ Hwf Hsh Hm Hp) as (page' & E & Hl & Hr).
  destruct (Hr tm0 old Hwf' Hnd Hnh Hnn) as (leaf' & tm' & Hrest). by exists page', leaf', tm'.
Qed.

Lemma non_leaf_page_size n : children n < BPLUS_MAX_ORDER -> 73 + 49 * children n <= PAGESIZE.
Proof. unfold BPLUS_MAX_ORDER, PAGESIZE. lia. Qed.

Definition non_leaf_page (n : bplus_non_leaf) (ks : list Z) (hs : list (list Z)) (nh os : list Z) (page : list Z) : Prop :=
  zlen page = PAGESIZE /\
  forall old, non_leaf_wf old -> Forall nul_ended (nl_childhash old) -> nul_ended (nl_node_hash old) ->
    exists n', bplus_non_leaf_deserialize old page = Some n' /\
      non_leaf_wf n' /\ non_leaf_shows n' ks hs nh os /\
      type (nl_node n') = type (nl_node n) /\
      parent_key_idx (nl_node n') = parent_key_idx (nl_node n) /\
      nl_node_id n' = nl_node_id n /\ nl_parent_id n' = nl_parent_id n /\
      sub_ptr n' = sub_ptr old.

Lemma non_leaf_written n page ks hs nh os :
  non_leaf_wf n -> non_leaf_shows n ks hs nh os -> zlen ks < BPLUS_MAX_ORDER -> zlen page = PAGESIZE ->
  exists page', bplus_non_leaf_serialize n page = Some page' /\ non_leaf_page n ks hs nh os page'.
Proof.
  intros Hwf Hsh Hm Hp. pose proof Hwf as Hwf0. pose proof Hsh as Hsh0.
  pose proof (non_leaf_writer_emits _ _ _ _ _ Hwf Hsh Hm) as Hemit.
  destruct Hsh as [Hi Hc Hks Hkr Hh Hn Hos Hor].
  assert (0 <= children n < BPLUS_MAX_ORDER) as Hcr by (rewrite Hc; split; [apply zlen_nonneg|done]).
  pose proof (non_leaf_bytes_zlen _ Hwf Hcr) as Hbytes. pose proof (non_leaf_page_size n (proj2 Hcr)).
  destruct Hwf. unfold BPLUS_MAX_ORDER in *.
  assert (length hs = length ks) as Lh by (rewrite <- (Forall2_length _ _ _ Hh), length_take; unfold zlen in *; lia).
  assert (length os = length ks) as Lo by (rewrite <- Hos, length_take; unfold zlen in *; lia).
  assert (zlen (non_leaf_bytes n) <= zlen page) as Hfit by lia.
  eexists. split.
  { unfold bplus_non_leaf_serialize. rewrite (emits_run _ _ _ Hemit Hfit). reflexivity. }
  unfold non_leaf_page. cbn [fst]. split; [rewrite zlen_app, zlen_drop; unfold zlen in *; lia|].
  intros old Hwf' Hnh Hnn. pose proof (non_leaf_reader_reads n old _ _ _ _ Hwf0 Hwf' Hsh0 Hm) as Hread.
  destruct Hwf' as [Ht' Hk' Hs' Hh' Hhs' Hnh' Ho']. unfold BPLUS_MAX_ORDER in *.
  eexists. split; [by apply reads_run|].
  split; [|split; [|split_and!; done]].
  - split; cbn; rewrite ?zip_overwritten_zlen by (unfold zlen in *; lia); try done;
      try (apply zip_take_33; [by eapply holds_len|done]).
    + rewrite zlen_app, zlen_drop. unfold zlen, BPLUS_MAX_ORDER in *. lia.
    + rewrite strncpied_zlen; [done|apply Hn|lia].
    + rewrite zlen_app, zlen_drop. unfold zlen, BPLUS_MAX_ORDER in *. lia.
  - split; cbn; try done.
    + rewrite Hc in Hi. exact Hi.
    + by rewrite take_app_length.
    + rewrite <- Lh. eapply read_back_strs; [done|unfold zlen in *; lia|done|done].
    + destruct Hn as (Hcn & ? & _). apply holds_strncpied; try done. by eapply cstr_chars.
    + by rewrite <- Lo, take_app_length.
Qed.

(** C27. A non-leaf with fewer than 50 children survives its page: its keys, the
    hashes of its children, their offsets and its ids are read back into any
    struct whose slots are NUL-ended. *)
Theorem non_leaf_page_roundtrip (n old : bplus_non_leaf) (page : list Z)
    (ks : list Z) (hs : list (list Z)) (nh os : list Z) :
  non_leaf_wf n -> non_leaf_shows n ks hs nh os -> zlen ks < BPLUS_MAX_ORDER ->
  zlen page = PAGESIZE -> non_leaf_wf old ->
  Forall nul_ended (nl_childhash old) -> nul_ended (nl_node_hash old) ->
  exists page' n',
    bplus_non_leaf_serialize n page = Some page' /\ zlen page' = PAGESIZE /\
    bplus_non_leaf_deserialize old page' = Some n' /\
    non_leaf_wf n' /\ non_leaf_shows n' ks hs nh os /\
    type (nl_node n') = type (nl_node n) /\
    parent_key_idx (nl_node n') = parent_key_idx (nl_node n) /\
    nl_node_id n' = nl_node_id n /\ nl_parent_id n' = nl_parent_id n /\
    sub_ptr n' = sub_ptr old.
Proof.
  intros Hwf Hsh Hm Hp Hwf' Hnh Hnn. destruct (non_leaf_written _ _ _ _ _ _ Hwf Hsh Hm Hp) as (page' & E & Hl & Hr).
  destruct (Hr old Hwf' Hnh Hnn) as (n' & Hrest). by exists page', n'.
Qed.

(** A non-leaf with the maximal 50 children cannot be written:
    [bplus_non_leaf_serialize] copies [children] keys although a node has one
    key less, and [key[49]] is outside the array. *)
Theorem non_leaf_serialize_full (n : bplus_non_leaf) (buffer : list Z) :
  non_leaf_wf n -> children n = BPLUS_MAX_ORDER -> bplus_non_leaf_serialize n buffer = None.
Proof.
  intros [] Hc. unfold bplus_non_leaf_serialize, non_leaf_writer, BPLUS_MAX_ORDER in *.
  destruct (emit _ _) as [st1|]; [|done]. cbn [mbind option_bind].
  destruct (emit _ st1) as [st2|]; [|done]. cbn [mbind option_bind].
  destruct (emit _ st2) as [st3|]; [|done]. cbn [mbind option_bind].
  rewrite Hc, (for_range_fail 0 50 49); [done|lia|].
  intros st. unfold aget. simpl. rewrite lookup_ge_None_2; [done|]. unfold zlen in *. lia.
Qed.

Lemma add_loop_value n k pos : 0 <= n -> add_loop n k pos = pos + n * k.
Proof.
  intros Hn. unfold add_loop.
  destruct (for_range_rule (fun i p => p = pos + i * k) 0 n (fun _ p => Some (p + k)) pos)
    as (p & -> & ->); [done|lia| |done].
  intros i p _ ->. eexists. split; [done|]. lia.
Qed.

(** The announced sizes are too small: [bplus_leaf_get_serialize_size]
    forgets the 6 bytes of every item pointer, and
    [bplus_non_leaf_get_serialize_size] counts one key less than is written. *)
Theorem serialize_sizes (tm : tidmem) (leaf : bplus_leaf) (n : bplus_non_leaf) (page : list Z)
    (ks : list Z) (ds hs : list (list Z)) (nh : list Z) (cs : list ItemPointerData)
    (ks' : list Z) (hs' : list (list Z)) (nh' os : list Z) :
  leaf_wf leaf -> leaf_shows tm leaf ks ds hs nh cs -> zlen ks <= BPLUS_MAX_ENTRIES ->
  non_leaf_wf n -> non_leaf_shows n ks' hs' nh' os -> 0 < zlen ks' < BPLUS_MAX_ORDER ->
  zlen page = PAGESIZE ->
  snd <$> leaf_writer tm leaf (page, 0)
    = Some (bplus_leaf_get_serialize_size leaf + 6 * entries leaf) /\
  snd <$> non_leaf_writer n (page, 0) = Some (bplus_non_leaf_get_serialize_size n + 8).
Proof.
  intros Hwf Hsh Hm Hwf' Hsh' Hm' Hp.
  assert (zlen cs = zlen ks) as Lc.
  { pose proof (Forall2_length _ _ _ (ls_tids _ _ _ _ _ _ _ Hsh)) as Hl.
    pose proof (lfw_tids _ Hwf). rewrite length_take in Hl. unfold zlen, BPLUS_MAX_ENTRIES in *. lia. }
  pose proof (ls_count _ _ _ _ _ _ _ Hsh) as Hc. pose proof (ns_count _ _ _ _ _ Hsh') as Hc'.
  pose proof (zlen_nonneg ks).
  pose proof (leaf_bytes_zlen leaf cs Hwf ltac:(lia) ltac:(lia)) as H1.
  pose proof (non_leaf_bytes_zlen n Hwf' ltac:(lia)) as H2.
  unfold PAGESIZE, BPLUS_MAX_ENTRIES, BPLUS_MAX_ORDER in *. split.
  - rewrite (emits_run _ _ _ (leaf_writer_emits _ _ _ _ _ _ _ Hwf Hsh Hm)) by lia. simpl. f_equal.
    unfold bplus_leaf_get_serialize_size. rewrite !add_loop_value by lia. lia.
  - rewrite (emits_run _ _ _ (non_leaf_writer_emits _ _ _ _ _ Hwf' Hsh' (proj2 Hm'))) by lia. simpl. f_equal.
    unfold bplus_non_leaf_get_serialize_size. rewrite !add_loop_value by lia. lia.
Qed.

(** ** A leaf and a non-leaf to evaluate the properties on *)

Definition zeros (n : nat) : list Z := replicate n 0.
Definition demo_str : list Z := [102; 105; 118; 101].
Definition demo_hash : list Z := replicate 32 97.

Definition demo_tm : tidmem := mkTidMem (<[0%nat := mkTid 0 7 3]> ∅) 1.

Definition blank_leaf : bplus_leaf :=
  mkLeaf (mkNode 0 (-1) None (mkLink (LHead 0) (LHead 0)) 0 (replicate 50 None))
    (zeros 50) (replicate 50 (zeros 33)) (replicate 50 (zeros 33)) (zeros 33) 0 0.

Definition demo_leaf : bplus_leaf :=
  mkLeaf (mkNode 0 (-1) None (mkLink (LHead 0) (LHead 0)) 1 (Some 0%nat :: replicate 49 None))
    (5 :: zeros 49) ((demo_str ++ zeros 29) :: replicate 49 (zeros 33))
    ((demo_hash ++ [0]) :: replicate 49 (zeros 33)) (demo_hash ++ [0]) 4 2.

Definition blank_non_leaf : bplus_non_leaf :=
  mkNonLeaf (mkNode 1 (-1) None (mkLink (LHead 1) (LHead 1)) 0 (replicate 50 None))
    (zeros 49) (replicate 50 None) (replicate 50 (zeros 33)) (zeros 33) (zeros 50) 0 0.

Definition demo_non_leaf (n : nat) : bplus_non_leaf :=
  mkNonLeaf (mkNode 1 (-1) None (mkLink (LHead 1) (LHead 1)) (Z.of_nat n) (replicate 50 None))
    (zeros 49) (replicate 50 None) (replicate 50 (demo_hash ++ [0])) (demo_hash ++ [0]) (zeros 50) 0 0.

Lemma demo_leaf_wf : leaf_wf demo_leaf.
Proof. split; reflexivity || eval_dec. Qed.
Lemma blank_leaf_wf : leaf_wf blank_leaf.
Proof. split; reflexivity || eval_dec. Qed.
Lemma blank_non_leaf_wf : non_leaf_wf blank_non_leaf.
Proof. split; reflexivity || eval_dec. Qed.
Lemma demo_non_leaf_wf n : non_leaf_wf (demo_non_leaf n).
Proof. split; reflexivity || eval_dec. Qed.

Lemma demo_leaf_shows : leaf_shows demo_tm demo_leaf [5] [demo_str] [demo_hash] demo_hash [mkTid 0 7 3].
Proof. split; reflexivity || eval_dec. Qed.

Lemma demo_non_leaf_shows :
  non_leaf_shows (demo_non_leaf 2) [0; 0] [demo_hash; demo_hash] demo_hash [0; 0].
Proof. split; reflexivity || eval_dec. Qed.

Lemma leaf_page_roundtrip_witness :
  exists page' leaf' tm', bplus_leaf_serialize demo_tm demo_leaf (zeros 4096) = Some page' /\
    bplus_leaf_deserialize blank_leaf (mkTidMem ∅ 5) page' = Some (leaf', tm') /\
    take 1 (lf_key leaf') = [5] /\ lf_node_id leaf' = 4.
Proof.
  destruct (leaf_page_roundtrip demo_tm (mkTidMem ∅ 5) demo_leaf blank_leaf (zeros 4096)
    [5] [demo_str] [demo_hash] demo_hash [mkTid 0 7 3])
    as (page' & leaf' & tm' & H1 & _ & H2 & _ & H3 & _ & _ & H4 & _).
  - exact demo_leaf_wf.
  - exact demo_leaf_shows.
  - discriminate.
  - reflexivity.
  - exact blank_leaf_wf.
  - eval_dec.
  - eval_dec.
  - reflexivity.
  - exists page', leaf', tm'. split; [exact H1|]. split; [exact H2|].
    split; [exact (ls_keys _ _ _ _ _ _ _ H3)|exact H4].
Defined.

Lemma non_leaf_page_roundtrip_witness :
  exists page' n', bplus_non_leaf_serialize (demo_non_leaf 2) (zeros 4096) = Some page' /\
    bplus_non_leaf_deserialize blank_non_leaf page' = Some n' /\ children n' = 2.
Proof.
  destruct (non_leaf_page_roundtrip (demo_non_leaf 2) blank_non_leaf (zeros 4096)
    [0; 0] [demo_hash; demo_hash] demo_hash [0; 0])
    as (page' & n' & H1 & _ & H2 & _ & H3 & _).
  - apply demo_non_leaf_wf.
  - exact demo_non_leaf_shows.
  - reflexivity.
  - reflexivity.
  - exact blank_non_leaf_wf.
  - eval_dec.
  - reflexivity.
  - exists page', n'. split; [exact H1|]. split; [exact H2|]. exact (ns_count _ _ _ _ _ H3).
Defined.

Lemma non_leaf_serialize_full_witness :
  bplus_non_leaf_serialize (demo_non_leaf 50) (zeros 4096) = None.
Proof. apply non_leaf_serialize_full; [apply demo_non_leaf_wf|reflexivity]. Defined.

Lemma serialize_sizes_witness :
  bplus_leaf_get_serialize_size demo_leaf = 147 /\
  snd <$> leaf_writer demo_tm demo_leaf (zeros 4096, 0) = Some 153 /\
  snd <$> non_leaf_writer (demo_non_leaf 2) (zeros 4096, 0) = Some 171.
Proof.
  split; [reflexivity|].
  apply (serialize_sizes demo_tm demo_leaf (demo_non_leaf 2) (zeros 4096) [5] [demo_str] [demo_hash]
    demo_hash [mkTid 0 7 3] [0; 0] [demo_hash; demo_hash] demo_hash [0; 0]).
  - exact demo_leaf_wf.
  - exact demo_leaf_shows.
  - discriminate.
  - apply demo_non_leaf_wf.
  - exact demo_non_leaf_shows.
  - split; reflexivity.
  - reflexivity.
Defined.
