(* ===== verification/Heap.v ===== *)
(** * The memory of the tree (src/src/include/mbt/mbtree.h, the allocation
    functions of src/src/backend/mbt/mbtree.c)

    The tree operations run in a state and error monad over the memory they
    share: the tree header, the nodes by location, and the cells of the item
    pointers.  [None] is undefined behaviour: NULL or a freed block is
    dereferenced, an index leaves its array, an assertion fails, or a loop
    exceeds its fuel.  A fresh block has arbitrary contents of the right shape
    ([Malloc]); a failed [malloc] of a node or an item pointer is dereferenced
    at once by the code, so allocations succeed.

    The file the pages are written to is [disk], by offset.

    The links of a level form a ring through the head of the level; Ring.v says
    which nodes a level holds, in order. *)

From S2P Require Import Prelude CMem Node.

Record bplus_tree := mkTree {
  order : Z;
  t_entries : Z;
  level : Z;
  root : option loc;
  tlist : list node_list_head;
  fd : Z;
  offset : Z
}.

Record mem := mkMem {
  tree : bplus_tree;
  nodes : gmap loc node;
  next_loc : loc;
  tmem : tidmem;
  disk : gmap Z (list Z)
}.

Definition set_tree (t : bplus_tree) (m : mem) : mem :=
  mkMem t (nodes m) (next_loc m) (tmem m) (disk m).
Definition set_nodes (ns : gmap loc node) (m : mem) : mem :=
  mkMem (tree m) ns (next_loc m) (tmem m) (disk m).
Definition set_tmem (t : tidmem) (m : mem) : mem :=
  mkMem (tree m) (nodes m) (next_loc m) t (disk m).

(** What a fresh block may contain; [fresh_bytes n] is one of [n] bytes.  The
    platform comes with it. *)
Class Malloc := {
  malloc_platform :: Platform;
  fresh_leaf : loc -> bplus_leaf;
  fresh_non_leaf : loc -> bplus_non_leaf;
  fresh_tid : tidloc -> ItemPointerData;
  fresh_bytes : nat -> list Z;
  fresh_leaf_wf l : leaf_wf (fresh_leaf l);
  fresh_non_leaf_wf l : non_leaf_wf (fresh_non_leaf l);
  fresh_bytes_length n : length (fresh_bytes n) = n
}.

(** The bytes of a block of [malloc(n)] that can be used, of which the C standard
    guarantees [n]; and such a block with [memset(.., 0, k)]. *)
Definition block `{Malloc} (usable : Z -> Z) (n : Z) : list Z := fresh_bytes (Z.to_nat (usable n)).
Definition zeroed `{Malloc} (usable : Z -> Z) (n k : Z) : option (list Z) := memset (block usable n) 0 0 k.

(** ** The monad *)

Definition M (A : Type) : Type := mem -> option (A * mem).

#[export] Instance M_ret : MRet M := fun A x m => Some (x, m).
#[export] Instance M_bind : MBind M := fun A B f e m =>
  match e m with Some (x, m') => f x m' | None => None end.

Definition ub {A} : M A := fun _ => None.
Definition lift {A} (o : option A) : M A := fun m => match o with Some x => Some (x, m) | None => None end.
Definition massert (b : bool) : M unit := lift (cassert b).
Definition get : M mem := fun m => Some (m, m).
Definition put (m : mem) : M unit := fun _ => Some (tt, m).

Definition on_tree (f : bplus_tree -> bplus_tree) : M unit := fun m =>
  Some (tt, set_tree (f (tree m)) m).
Definition get_tree : M bplus_tree := fun m => Some (tree m, m).
Definition get_tm : M tidmem := fun m => Some (tmem m, m).
Definition put_tm (t : tidmem) : M unit := fun m =>
  Some (tt, set_tmem t m).

Definition set_root (r : option loc) (t : bplus_tree) : bplus_tree :=
  mkTree (order t) (t_entries t) (level t) r (tlist t) (fd t) (offset t).
Definition set_level (l : Z) (t : bplus_tree) : bplus_tree :=
  mkTree (order t) (t_entries t) l (root t) (tlist t) (fd t) (offset t).
Definition set_tlist (hs : list node_list_head) (t : bplus_tree) : bplus_tree :=
  mkTree (order t) (t_entries t) (level t) (root t) hs (fd t) (offset t).
Definition set_offset (o : Z) (t : bplus_tree) : bplus_tree :=
  mkTree (order t) (t_entries t) (level t) (root t) (tlist t) (fd t) o.

(** ** Nodes *)

(** A pointer that is dereferenced is not NULL. *)
Definition deref (p : option loc) : M loc := lift p.

Definition load (l : loc) : M node := fun m =>
  match nodes m !! l with Some n => Some (n, m) | None => None end.

Definition store (l : loc) (n : node) : M unit := fun m =>
  match nodes m !! l with
  | Some _ => Some (tt, set_nodes (<[l := n]> (nodes m)) m)
  | None => None
  end.

Definition load_hdr (l : loc) : M bplus_node := do n <- load l; mret (node_hdr n).

(** The struct behind a pointer that was cast to its type. *)
Definition load_nl (l : loc) : M bplus_non_leaf :=
  do n <- load l; match n with NonLeaf n => mret n | Leaf _ => ub end.
Definition load_lf (l : loc) : M bplus_leaf :=
  do n <- load l; match n with Leaf n => mret n | NonLeaf _ => ub end.
Definition store_nl (l : loc) (n : bplus_non_leaf) : M unit := store l (NonLeaf n).
Definition store_lf (l : loc) (n : bplus_leaf) : M unit := store l (Leaf n).

Definition on_hdr (l : loc) (f : bplus_node -> bplus_node) : M unit :=
  do n <- load l;
  store l (match n with
           | NonLeaf n => NonLeaf (on_nl_node f n)
           | Leaf n => Leaf (on_lf_node f n)
           end).

Definition on_nl (l : loc) (f : bplus_non_leaf -> bplus_non_leaf) : M unit :=
  do n <- load_nl l; store_nl l (f n).

(** [l->key[i]], [l->sub_ptr[i]] and their assignments. *)
Definition get_key (l : loc) (i : Z) : M Z := do n <- load_nl l; lift (aget (nl_key n) i).
Definition put_key (l : loc) (i k : Z) : M unit :=
  do n <- load_nl l; do ks <- lift (aset (nl_key n) i k); store_nl l (set_nl_key ks n).
Definition get_sub (l : loc) (i : Z) : M (option loc) := do n <- load_nl l; lift (aget (sub_ptr n) i).
Definition put_sub (l : loc) (i : Z) (p : option loc) : M unit :=
  do n <- load_nl l; do ps <- lift (aset (sub_ptr n) i p); store_nl l (set_sub_ptr ps n).

(** [l->children], [l->children = c]. *)
Definition get_children (l : loc) : M Z := do n <- load_nl l; mret (children n).
Definition put_children (l : loc) (c : Z) : M unit := on_nl l (on_nl_node (set_count c)).

(** [l->sub_ptr[j]->parent = p], [l->sub_ptr[j]->parent_key_idx = i]. *)
Definition put_sub_parent (l : loc) (j : Z) (p : loc) : M unit :=
  do c <- get_sub l j; do c <- deref c; on_hdr c (set_parent (Some p)).
Definition put_sub_idx (l : loc) (j i : Z) : M unit :=
  do c <- get_sub l j; do c <- deref c; on_hdr c (set_parent_key_idx i).

(** ** Loops *)

(** [for (i = lo; i < hi; i++)] and [for (i = hi; i > lo; i--)]. *)
Fixpoint mloop {S} (n : nat) (i d : Z) (body : Z -> S -> M S) (s : S) : M S :=
  match n with
  | O => mret s
  | Datatypes.S n' => do s' <- body i s; mloop n' (i + d) d body s'
  end.
Definition mfor_up {S} (lo hi : Z) (body : Z -> S -> M S) (s : S) : M S :=
  mloop (Z.to_nat (hi - lo)) lo 1 body s.
Definition mfor_down {S} (hi lo : Z) (body : Z -> S -> M S) (s : S) : M S :=
  mloop (Z.to_nat (hi - lo)) hi (-1) body s.

(** [while (cond) body] over the local variables [s]. *)
Fixpoint mwhile {S} (fuel : nat) (cond : S -> M bool) (body : S -> M S) (s : S) : M S :=
  do b <- cond s;
  if b : bool then
    match fuel with
    | O => ub
    | Datatypes.S fuel' => do s' <- body s; mwhile fuel' cond body s'
    end
  else mret s.

(** Enough for every loop over the slots of a node: two indices, at most 50
    each. *)
Definition loop_fuel : nat := 120.

(** Enough for every walk between the root and the leaves: [tree->list] has 10
    levels, and a level beyond them is undefined behaviour. *)
Definition depth_fuel : nat := 12.

(** ** Lists of the levels *)

Definition load_link (r : linkref) : M node_list_head :=
  match r with
  | LHead lv => do t <- get_tree; lift (aget (tlist t) lv)
  | LNode l => do h <- load_hdr l; mret (link h)
  end.

Definition store_link (r : linkref) (k : node_list_head) : M unit :=
  match r with
  | LHead lv => do t <- get_tree; do hs <- lift (aset (tlist t) lv k); on_tree (set_tlist hs)
  | LNode l => on_hdr l (set_link k)
  end.

Definition put_next (r n : linkref) : M unit :=
  do k <- load_link r; store_link r (mkLink (prev k) n).
Definition put_prev (r p : linkref) : M unit :=
  do k <- load_link r; store_link r (mkLink p (next k)).

Definition list_init (r : linkref) : M unit :=
  do _ <- put_prev r r; put_next r r.

Definition __list_add (link prev next : linkref) : M unit :=
  do _ <- put_next link next;
  do _ <- put_prev link prev;
  do _ <- put_prev next link;
  put_next prev link.

Definition __list_del (prev next : linkref) : M unit :=
  do _ <- put_next prev next;
  put_prev next prev.

Definition list_add (link prev : linkref) : M unit :=
  do k <- load_link prev; __list_add link prev (next k).

Definition list_add_tail (link head : linkref) : M unit :=
  do k <- load_link head; __list_add link (prev k) head.

Definition list_del (link : linkref) : M unit :=
  do k <- load_link link;
  do _ <- __list_del (prev k) (next k);
  list_init link.

Definition list_is_first (link head : linkref) : M bool :=
  do k <- load_link link; mret (bool_decide (prev k = head)).

Definition list_is_last (link head : linkref) : M bool :=
  do k <- load_link link; mret (bool_decide (next k = head)).

(** [list_entry]: the node a link is part of.  The head of a level is part of no
    node, so the pointer computed from it must not be dereferenced. *)
Definition list_entry (r : linkref) : option loc :=
  match r with LNode l => Some l | LHead _ => None end.

Definition list_next_entry (l : loc) : M (option loc) :=
  do h <- load_hdr l; mret (list_entry (next (link h))).
Definition list_prev_entry (l : loc) : M (option loc) :=
  do h <- load_hdr l; mret (list_entry (prev (link h))).

(** ** Total correctness

    [runs e m Q]: started in [m], [e] is defined and ends in a result and a
    memory that satisfy [Q]. *)

Definition runs {A} (e : M A) (m : mem) (Q : A -> mem -> Prop) : Prop :=
  exists x m', e m = Some (x, m') /\ Q x m'.

Lemma runs_wand {A} (e : M A) m (P Q : A -> mem -> Prop) :
  runs e m P -> (forall x m', P x m' -> Q x m') -> runs e m Q.
Proof. intros (x & m' & E & HP) HQ. exists x, m'. auto. Qed.

Lemma runs_ret {A} (x : A) m (Q : A -> mem -> Prop) : Q x m -> runs (mret x) m Q.
Proof. intros HQ. by exists x, m. Qed.

Lemma runs_bind {A B} (e : M A) (f : A -> M B) m (Q : B -> mem -> Prop) :
  runs e m (fun x m' => runs (f x) m' Q) -> runs (mbind f e) m Q.
Proof.
  intros (x & m' & E & y & m2 & E2 & HQ). exists y, m2. split; [|done].
  unfold mbind, M_bind. by rewrite E.
Qed.

Lemma runs_lift {A} (o : option A) x m (Q : A -> mem -> Prop) :
  o = Some x -> Q x m -> runs (lift o) m Q.
Proof. intros -> HQ. by exists x, m. Qed.

Lemma runs_get_tree m Q : Q (tree m) m -> runs get_tree m Q.
Proof. intros HQ. by exists (tree m), m. Qed.

Lemma runs_get_tm m Q : Q (tmem m) m -> runs get_tm m Q.
Proof. intros HQ. by exists (tmem m), m. Qed.

Lemma runs_put_tm t m (Q : unit -> mem -> Prop) : Q tt (set_tmem t m) -> runs (put_tm t) m Q.
Proof. intros HQ. by exists tt, (set_tmem t m). Qed.

Lemma runs_on_tree f m (Q : unit -> mem -> Prop) :
  Q tt (set_tree (f (tree m)) m) -> runs (on_tree f) m Q.
Proof. intros HQ. by exists tt, (set_tree (f (tree m)) m). Qed.

Lemma runs_load l n m Q : nodes m !! l = Some n -> Q n m -> runs (load l) m Q.
Proof. intros E HQ. exists n, m. unfold load. by rewrite E. Qed.

Lemma runs_store l n0 n m (Q : unit -> mem -> Prop) :
  nodes m !! l = Some n0 -> Q tt (set_nodes (<[l := n]> (nodes m)) m) -> runs (store l n) m Q.
Proof. intros E HQ. eexists tt, _. unfold store. rewrite E. split; [done|done]. Qed.

Lemma runs_load_hdr l n m Q :
  nodes m !! l = Some n -> Q (node_hdr n) m -> runs (load_hdr l) m Q.
Proof. intros E HQ. apply runs_bind, (runs_load _ n); [done|]. by apply runs_ret. Qed.

Lemma runs_load_nl l n m Q :
  nodes m !! l = Some (NonLeaf n) -> Q n m -> runs (load_nl l) m Q.
Proof. intros E HQ. eapply runs_bind, runs_load; [done|]. by apply runs_ret. Qed.

Lemma runs_load_lf l n m Q :
  nodes m !! l = Some (Leaf n) -> Q n m -> runs (load_lf l) m Q.
Proof. intros E HQ. eapply runs_bind, runs_load; [done|]. by apply runs_ret. Qed.

Lemma runs_get_sub l n i p m Q :
  nodes m !! l = Some (NonLeaf n) -> aget (sub_ptr n) i = Some p -> Q p m ->
  runs (get_sub l i) m Q.
Proof. intros E Hp HQ. eapply runs_bind, runs_load_nl; [done|]. by eapply runs_lift. Qed.

Lemma runs_get_children l n m Q :
  nodes m !! l = Some (NonLeaf n) -> Q (children n) m -> runs (get_children l) m Q.
Proof. intros E HQ. eapply runs_bind, runs_load_nl; [done|]. by apply runs_ret. Qed.

(** The header of a node, changed. *)
Definition map_hdr (f : bplus_node -> bplus_node) (n : node) : node :=
  match n with NonLeaf n => NonLeaf (on_nl_node f n) | Leaf n => Leaf (on_lf_node f n) end.

Lemma runs_on_hdr l n f m (Q : unit -> mem -> Prop) :
  nodes m !! l = Some n -> Q tt (set_nodes (<[l := map_hdr f n]> (nodes m)) m) ->
  runs (on_hdr l f) m Q.
Proof. intros E HQ. eapply runs_bind, runs_load; [done|]. by eapply runs_store. Qed.

(** Loops: an invariant indexed by the counter. *)
Lemma mloop_rule {S} (P : Z -> S -> mem -> Prop) n d body : forall lo s m,
  P lo s m ->
  (forall k s m, 0 <= k < Z.of_nat n -> P (lo + k * d) s m ->
     runs (body (lo + k * d) s) m (P (lo + (k + 1) * d))) ->
  runs (mloop n lo d body s) m (P (lo + Z.of_nat n * d)).
Proof.
  induction n as [|n IH]; intros lo s m H0 Hstep; simpl mloop.
  - apply runs_ret. by replace (lo + Z.of_nat 0 * d) with lo by lia.
  - apply runs_bind. eapply runs_wand.
    { specialize (Hstep 0 s m ltac:(lia)). replace (lo + 0 * d) with lo in Hstep by lia. by apply Hstep. }
    intros s1 m1 H1. replace (lo + Z.of_nat (Datatypes.S n) * d) with (lo + d + Z.of_nat n * d) by lia.
    apply IH; [by replace (lo + d) with (lo + (0 + 1) * d) by lia|].
    intros k s2 m2 Hk. replace (lo + d + k * d) with (lo + (k + 1) * d) by lia.
    replace (lo + d + (k + 1) * d) with (lo + (k + 1 + 1) * d) by lia. apply Hstep. lia.
Qed.

Lemma mfor_up_rule {S} (P : Z -> S -> mem -> Prop) lo hi body s m :
  lo <= hi -> P lo s m ->
  (forall i s m, lo <= i < hi -> P i s m -> runs (body i s) m (P (i + 1))) ->
  runs (mfor_up lo hi body s) m (P hi).
Proof.
  intros Hle H0 Hstep. unfold mfor_up.
  replace hi with (lo + Z.of_nat (Z.to_nat (hi - lo)) * 1) at 2 by lia.
  apply mloop_rule; [done|]. intros k s1 m1 Hk HP.
  replace (lo + (k + 1) * 1) with (lo + k * 1 + 1) by lia. apply Hstep; [lia|done].
Qed.

Lemma mfor_down_rule {S} (P : Z -> S -> mem -> Prop) hi lo body s m :
  lo <= hi -> P hi s m ->
  (forall i s m, lo < i <= hi -> P i s m -> runs (body i s) m (P (i - 1))) ->
  runs (mfor_down hi lo body s) m (P lo).
Proof.
  intros Hle H0 Hstep. unfold mfor_down.
  replace lo with (hi + Z.of_nat (Z.to_nat (hi - lo)) * -1) at 2 by lia.
  apply mloop_rule; [done|]. intros k s1 m1 Hk HP.
  replace (hi + (k + 1) * -1) with (hi + k * -1 - 1) by lia. apply Hstep; [lia|done].
Qed.

(** ** Allocation *)

Section Allocation.
Context `{Malloc}.

Definition malloc_node (n : loc -> node) : M loc := fun m =>
  let l := next_loc m in
  Some (l, mkMem (tree m) (<[l := n l]> (nodes m)) (S l) (tmem m) (disk m)).

Definition malloc_tid : M tidloc := fun m =>
  let '(t, l) := alloc_tid (tmem m) (fresh_tid (next_tid (tmem m))) in
  Some (l, set_tmem t m).

Definition free (l : loc) : M unit := fun m =>
  match nodes m !! l with
  | Some _ => Some (tt, set_nodes (delete l (nodes m)) m)
  | None => None
  end.

Definition non_leaf_new : M loc :=
  do l <- malloc_node (fun l => NonLeaf (fresh_non_leaf l));
  do _ <- on_nl l bplus_non_leaf_init;
  do _ <- list_init (LNode l);
  do _ <- on_hdr l (set_type BPLUS_TREE_NON_LEAF);
  do _ <- on_hdr l (set_parent_key_idx (-1));
  mret l.

Definition leaf_new : M loc :=
  do l <- malloc_node (fun l => Leaf (fresh_leaf l));
  do n <- load_lf l;
  do _ <- store_lf l (bplus_leaf_init n);
  do _ <- list_init (LNode l);
  do _ <- on_hdr l (set_type BPLUS_TREE_LEAF);
  do _ <- on_hdr l (set_parent_key_idx (-1));
  do _ <- mfor_up 0 BPLUS_MAX_ENTRIES (fun i _ =>
    do t <- malloc_tid;
    do h <- load_hdr l;
    do ts <- lift (aset (tids h) i (Some t));
    on_hdr l (set_tids ts)) tt;
  mret l.

Definition non_leaf_delete (l : loc) : M unit :=
  do _ <- list_del (LNode l); free l.

Definition leaf_delete (l : loc) : M unit :=
  do _ <- list_del (LNode l); free l.

(** [bplus_tree_init]: the fields [fd] and [offset] keep what the block held. *)
Definition bplus_tree_init (alloc : bool) (fresh : bplus_tree) (order entries : Z)
  : option (option bplus_tree) :=
  check (BPLUS_MIN_ORDER <? BPLUS_MAX_ORDER);
  check (order <=? BPLUS_MAX_ORDER) && (entries <=? BPLUS_MAX_ENTRIES);
  if negb alloc then Some None
  else Some (Some (mkTree order entries 0 None
    ((fun i => mkLink (LHead (Z.of_nat i)) (LHead (Z.of_nat i))) <$> seq 0 (Z.to_nat BPLUS_MAX_LEVEL))
    (fd fresh) (offset fresh))).

(** [open] is outside the model: its result is an argument. *)
Definition mybplus_tree_init (opened : Z) (t : bplus_tree) : bplus_tree :=
  mkTree (order t) (t_entries t) (level t) (root t) (tlist t) opened 0.

End Allocation.
