(* ===== verification/Ring.v ===== *)
(** * The lists of the levels (the list functions of
    src/src/include/mbt/mbtree.h)

    The links of a level form a ring through the head of the level.  [ring m lv
    ls] says that level [lv] holds the nodes [ls], in this order; the list
    functions of Heap.v insert into rings and remove from them, and change
    nothing but links. *)

From S2P Require Import Prelude CMem Node Heap NodeCodec.

(** ** Links *)

Definition link_of (m : mem) (r : linkref) : option node_list_head :=
  match r with
  | LHead lv => aget (tlist (tree m)) lv
  | LNode l => (fun n => link (node_hdr n)) <$> nodes m !! l
  end.

Definition nxt (m : mem) (r : linkref) : option linkref := next <$> link_of m r.
Definition prv (m : mem) (r : linkref) : option linkref := prev <$> link_of m r.

(** A node without its links; a tree without its lists. *)
Definition unlinked (n : node) : node := map_hdr (set_link (mkLink (LHead 0) (LHead 0))) n.

(** Nothing but links changes, and the same links exist. *)
Record links_only (m m' : mem) : Prop := {
  lo_tree : set_tlist [] (tree m') = set_tlist [] (tree m);
  lo_next : next_loc m' = next_loc m;
  lo_tmem : tmem m' = tmem m;
  lo_disk : disk m' = disk m;
  lo_nodes l : unlinked <$> nodes m' !! l = unlinked <$> nodes m !! l;
  lo_links r : is_Some (link_of m' r) <-> is_Some (link_of m r)
}.

Lemma links_only_refl m : links_only m m.
Proof. done. Qed.

Lemma links_only_trans m1 m2 m3 : links_only m1 m2 -> links_only m2 m3 -> links_only m1 m3.
Proof.
  intros [T1 ? ? ? N1 L1] [T2 ? ? ? N2 L2]. split; [congruence..| |].
  - intros l. by rewrite N2, N1.
  - intros r. by rewrite L2, L1.
Qed.

Lemma runs_load_link r k m (Q : node_list_head -> mem -> Prop) :
  link_of m r = Some k -> Q k m -> runs (load_link r) m Q.
Proof.
  intros Hk HQ. destruct r as [lv|l]; simpl in *.
  - apply runs_bind, runs_get_tree. by eapply runs_lift.
  - apply fmap_Some in Hk as (n & Hn & ->). eapply runs_bind, runs_load_hdr; [exact Hn|].
    by apply runs_ret.
Qed.

Lemma runs_store_link r k m (Q : unit -> mem -> Prop) :
  is_Some (link_of m r) ->
  (forall m', links_only m m' -> link_of m' r = Some k ->
     (forall r', r' <> r -> link_of m' r' = link_of m r') -> Q tt m') ->
  runs (store_link r k) m Q.
Proof.
  intros [k0 Hk] HQ. destruct r as [lv|l]; simpl in *.
  - apply runs_bind, runs_get_tree. pose proof (aget_lt _ _ _ Hk) as Hr.
    eapply runs_bind, runs_lift; [by apply aset_Some|]. apply runs_on_tree.
    assert (link_of (set_tree (set_tlist (<[Z.to_nat lv := k]> (tlist (tree m))) (tree m)) m) (LHead lv) = Some k) as Hl.
    { simpl. apply aget_Some. split; [lia|]. apply list_lookup_insert_eq. unfold zlen in *. lia. }
    assert (forall r', r' <> LHead lv ->
      link_of (set_tree (set_tlist (<[Z.to_nat lv := k]> (tlist (tree m))) (tree m)) m) r' = link_of m r') as Hne.
    { intros [lv'|l'] Hne; simpl; [|done]. unfold aget. destruct (Z.leb_spec 0 lv'); [|done].
      apply list_lookup_insert_ne. intros ?. apply Hne. f_equal. lia. }
    apply HQ; [|done|done]. split; try done. intros r'.
    destruct (decide (r' = LHead lv)) as [->|Hr']; [|by rewrite Hne].
    rewrite Hl. simpl. rewrite Hk. split; intros _; by eexists.
  - apply fmap_Some in Hk as (n & Hn & ->). eapply runs_on_hdr; [exact Hn|].
    assert (link_of (set_nodes (<[l := map_hdr (set_link k) n]> (nodes m)) m) (LNode l) = Some k) as Hl.
    { simpl. rewrite lookup_insert_eq. by destruct n. }
    assert (forall r', r' <> LNode l ->
      link_of (set_nodes (<[l := map_hdr (set_link k) n]> (nodes m)) m) r' = link_of m r') as Hne.
    { intros [lv'|l'] Hne; simpl; [done|]. rewrite lookup_insert_ne; [done|congruence]. }
    apply HQ; [|done|done]. split; try done; simpl.
    + intros l'. destruct (decide (l = l')) as [<-|]; [|by rewrite lookup_insert_ne].
      rewrite lookup_insert_eq, Hn. simpl. f_equal. by destruct n.
    + intros r'. destruct (decide (r' = LNode l)) as [->|Hr']; [|by rewrite Hne].
      rewrite Hl. simpl. rewrite Hn. split; intros _; by eexists.
Qed.

(** [r->next = n] and [r->prev = p]. *)
Lemma runs_put_next r n m (Q : unit -> mem -> Prop) :
  is_Some (link_of m r) ->
  (forall m', links_only m m' -> (forall r', nxt m' r' = if decide (r' = r) then Some n else nxt m r') ->
     (forall r', prv m' r' = prv m r') -> Q tt m') ->
  runs (put_next r n) m Q.
Proof.
  intros [k Hk] HQ. eapply runs_bind, runs_load_link; [exact Hk|].
  apply runs_store_link; [by eexists|]. intros m' Hlo Hr Hne.
  apply HQ; [done| |]; intros r'; unfold nxt, prv.
  - case_decide as Hd; [subst; by rewrite Hr|by rewrite Hne].
  - destruct (decide (r' = r)) as [->|]; [by rewrite Hr, Hk|by rewrite Hne].
Qed.

Lemma runs_put_prev r p m (Q : unit -> mem -> Prop) :
  is_Some (link_of m r) ->
  (forall m', links_only m m' -> (forall r', prv m' r' = if decide (r' = r) then Some p else prv m r') ->
     (forall r', nxt m' r' = nxt m r') -> Q tt m') ->
  runs (put_prev r p) m Q.
Proof.
  intros [k Hk] HQ. eapply runs_bind, runs_load_link; [exact Hk|].
  apply runs_store_link; [by eexists|]. intros m' Hlo Hr Hne.
  apply HQ; [done| |]; intros r'; unfold nxt, prv.
  - case_decide as Hd; [subst; by rewrite Hr|by rewrite Hne].
  - destruct (decide (r' = r)) as [->|]; [by rewrite Hr, Hk|by rewrite Hne].
Qed.

(** ** The list functions on the links *)

Lemma runs_list_add_raw x p n m (Q : unit -> mem -> Prop) :
  is_Some (link_of m x) -> is_Some (link_of m p) -> is_Some (link_of m n) -> x <> p -> x <> n ->
  (forall m', links_only m m' ->
     (forall r, nxt m' r = if decide (r = x) then Some n else if decide (r = p) then Some x else nxt m r) ->
     (forall r, prv m' r = if decide (r = x) then Some p else if decide (r = n) then Some x else prv m r) ->
     Q tt m') ->
  runs (__list_add x p n) m Q.
Proof.
  intros Hx Hp Hn Hxp Hxn HQ. unfold __list_add.
  apply runs_bind, runs_put_next; [done|]. intros m1 L1 N1 P1.
  apply runs_bind, runs_put_prev; [by apply L1|]. intros m2 L2 P2 N2.
  apply runs_bind, runs_put_prev; [by apply L2, L1|]. intros m3 L3 P3 N3.
  apply runs_put_next; [by apply L3, L2, L1|]. intros m4 L4 N4 P4.
  apply HQ; [by repeat (eapply links_only_trans; [|done])| |]; intros r.
  - rewrite N4, N3, N2, N1. repeat case_decide; congruence.
  - rewrite P4, P3, P2, P1. repeat case_decide; congruence.
Qed.

Lemma runs_list_del x p n m (Q : unit -> mem -> Prop) :
  link_of m x = Some (mkLink p n) -> is_Some (link_of m p) -> is_Some (link_of m n) ->
  (forall m', links_only m m' ->
     (forall r, nxt m' r = if decide (r = x) then Some x else if decide (r = p) then Some n else nxt m r) ->
     (forall r, prv m' r = if decide (r = x) then Some x else if decide (r = n) then Some p else prv m r) ->
     Q tt m') ->
  runs (list_del x) m Q.
Proof.
  intros Hx Hp Hn HQ. assert (is_Some (link_of m x)) as Hx' by (by eexists).
  eapply runs_bind, runs_load_link; [exact Hx|]. cbn [prev next].
  apply runs_bind, runs_bind, runs_put_next; [done|]. intros m1 L1 N1 P1.
  apply runs_put_prev; [by apply L1|]. intros m2 L2 P2 N2.
  apply runs_bind, runs_put_prev; [by apply L2, L1|]. intros m3 L3 P3 N3.
  apply runs_put_next; [by apply L3, L2, L1|]. intros m4 L4 N4 P4.
  apply HQ; [by repeat (eapply links_only_trans; [|done])| |]; intros r.
  - rewrite N4, N3, N2, N1. done.
  - rewrite P4, P3, P2, P1. done.
Qed.

(** ** Rings *)

(** [a] and the references [rs] are linked one after the other, both ways. *)
Fixpoint linked (m : mem) (a : linkref) (rs : list linkref) : Prop :=
  match rs with
  | [] => True
  | b :: rs' => (nxt m a = Some b /\ prv m b = Some a) /\ linked m b rs'
  end.

Definition ring (m : mem) (lv : Z) (ls : list loc) : Prop :=
  NoDup ls /\ linked m (LHead lv) ((LNode <$> ls) ++ [LHead lv]).

Lemma linked_app m a rs b rs' :
  linked m a (rs ++ b :: rs') <-> linked m a (rs ++ [b]) /\ linked m b rs'.
Proof.
  revert a. induction rs as [|r rs IH]; intros a; simpl; [tauto|]. rewrite IH. tauto.
Qed.

(** The last reference of a non-empty list. *)
Fixpoint last_ref (a : linkref) (rs : list linkref) : linkref :=
  match rs with [] => a | b :: rs' => last_ref b rs' end.

Lemma linked_snoc m a rs b :
  linked m a (rs ++ [b]) <-> linked m a rs /\ nxt m (last_ref a rs) = Some b /\ prv m b = Some (last_ref a rs).
Proof.
  revert a. induction rs as [|r rs IH]; intros a; simpl; [tauto|]. rewrite IH. tauto.
Qed.

Lemma last_ref_elem a rs : last_ref a rs ∈ a :: rs.
Proof.
  revert a. induction rs as [|r rs IH]; intros a; simpl; [constructor|]. right. apply (IH r).
Qed.

(** Only the next of the references but the last, and the previous of the
    references but the first matter. *)
Lemma linked_frame m m' a rs :
  linked m a rs ->
  (forall r, r ∈ a :: rs -> r <> last_ref a rs -> nxt m' r = nxt m r) ->
  (forall r, r ∈ rs -> prv m' r = prv m r) ->
  NoDup (a :: rs) -> linked m' a rs.
Proof.
  revert a. induction rs as [|b rs IH]; intros a Hl Hn Hp Hnd; simpl in *; [done|].
  destruct Hl as [[H1 H2] Hl]. apply NoDup_cons in Hnd as [Ha Hnd].
  split; [split|].
  - rewrite Hn; [done|constructor|]. intros ->. apply Ha, last_ref_elem.
  - rewrite Hp; [done|constructor].
  - apply IH; try done.
    + intros r Hr Hne. apply Hn; [by right|done].
    + intros r Hr. apply Hp. by right.
Qed.

Lemma linked_defined m a rs r : linked m a rs -> rs <> [] -> r ∈ a :: rs -> is_Some (link_of m r).
Proof.
  revert a. induction rs as [|b rs IH]; intros a Hl Hne Hr; [done|]. simpl in Hl.
  destruct Hl as [[H1 H2] Hl]. apply elem_of_cons in Hr as [->|Hr].
  - unfold nxt in H1. apply fmap_Some in H1 as (k & -> & _). by eexists.
  - destruct rs as [|c rs].
    + apply list_elem_of_singleton in Hr as ->. unfold prv in H2.
      apply fmap_Some in H2 as (k & -> & _). by eexists.
    + by apply (IH b).
Qed.

(** The references around a place in a ring. *)
Definition before (lv : Z) (l1 : list loc) : linkref := last_ref (LHead lv) (LNode <$> l1).
Definition after (lv : Z) (l2 : list loc) : linkref :=
  match l2 with [] => LHead lv | l :: _ => LNode l end.

Lemma before_elem lv l1 : before lv l1 ∈ LHead lv :: (LNode <$> l1).
Proof. apply last_ref_elem. Qed.

(** The two parts of a ring and the link between them. *)
Lemma ring_split m lv l1 l2 :
  linked m (LHead lv) ((LNode <$> l1 ++ l2) ++ [LHead lv]) <->
  linked m (LHead lv) (LNode <$> l1) /\
  (nxt m (before lv l1) = Some (after lv l2) /\ prv m (after lv l2) = Some (before lv l1)) /\
  linked m (after lv l2) (tail ((LNode <$> l2) ++ [LHead lv])).
Proof.
  rewrite fmap_app, <- app_assoc. destruct l2 as [|l l2]; simpl.
  - rewrite linked_snoc. unfold before. tauto.
  - rewrite linked_app, linked_snoc. unfold before. tauto.
Qed.

Lemma NoDup_refs lv (ls : list loc) : NoDup ls -> NoDup (LHead lv :: (LNode <$> ls)).
Proof.
  intros Hnd. apply NoDup_cons. split.
  - intros (l & ? & _)%list_elem_of_fmap. done.
  - apply NoDup_fmap_2; [|done]. intros ? ?. congruence.
Qed.

Lemma refs_after lv l2 : (LNode <$> l2) ++ [LHead lv] = after lv l2 :: tail ((LNode <$> l2) ++ [LHead lv]).
Proof. by destruct l2. Qed.

Lemma NoDup_refs_after lv l2 : NoDup l2 -> NoDup ((LNode <$> l2) ++ [LHead lv]).
Proof.
  intros Hnd. apply NoDup_app. split_and!.
  - by pose proof (NoDup_refs lv l2 Hnd) as [_ ?]%NoDup_cons.
  - intros r (l & -> & _)%list_elem_of_fmap. by intros ?%list_elem_of_singleton.
  - apply NoDup_singleton.
Qed.

Lemma last_ref_snoc a rs b : last_ref a (rs ++ [b]) = b.
Proof. revert a. induction rs as [|r rs IH]; intros a; simpl; [done|]. apply IH. Qed.

(** The reference in front of [l2] is not in [l2]. *)
Lemma before_not_after lv (l1 l2 : list loc) l :
  (forall l, l ∈ l1 -> ~ l ∈ l2) -> l ∈ l2 -> LNode l <> before lv l1.
Proof.
  intros Hd Hl Heq. pose proof (before_elem lv l1) as He. rewrite <- Heq in He.
  apply elem_of_cons in He as [|(l' & [= <-] & Hl')%list_elem_of_fmap]; [done|]. by apply (Hd l).
Qed.

Lemma after_not_before lv (l1 l2 : list loc) l :
  (forall l, l ∈ l1 -> ~ l ∈ l2) -> l ∈ l1 -> LNode l <> after lv l2.
Proof.
  intros Hd Hl Heq. destruct l2 as [|l' l2]; [done|]. injection Heq as ->. apply (Hd l' Hl). constructor.
Qed.

(** The links inside the two parts of a ring, when only links of [x] and links
    between the parts change. *)
Lemma ring_parts_frame m m' lv l1 l2 (x : loc) :
  NoDup (l1 ++ l2) -> ~ x ∈ l1 ++ l2 ->
  (forall r, r <> LNode x -> r <> before lv l1 -> nxt m' r = nxt m r) ->
  (forall r, r <> LNode x -> r <> after lv l2 -> prv m' r = prv m r) ->
  (linked m (LHead lv) (LNode <$> l1) -> linked m' (LHead lv) (LNode <$> l1)) /\
  (linked m (after lv l2) (tail ((LNode <$> l2) ++ [LHead lv])) ->
   linked m' (after lv l2) (tail ((LNode <$> l2) ++ [LHead lv]))).
Proof.
  intros (Hd1 & Hd & Hd2)%NoDup_app Hx HN HP.
  assert (forall l, l ∈ l1 -> l <> x) as Hx1 by (intros l Hl ->; apply Hx, elem_of_app; by left).
  assert (forall l, l ∈ l2 -> l <> x) as Hx2 by (intros l Hl ->; apply Hx, elem_of_app; by right).
  split; intros Hl.
  - apply (linked_frame m); try done; [| |by apply NoDup_refs].
    + intros r Hr Hne. apply HN; [|done]. intros ->.
      apply elem_of_cons in Hr as [|(l & [= <-] & Hl')%list_elem_of_fmap]; [done|]. by apply (Hx1 x).
    + intros r (l & -> & Hl')%list_elem_of_fmap. apply HP; [intros [= ->]; by apply (Hx1 x)|].
      by eapply after_not_before.
  - pose proof (NoDup_refs_after lv l2 Hd2) as Hn2. rewrite refs_after in Hn2.
    apply (linked_frame m); try done.
    + intros r Hr Hne. rewrite <- refs_after in Hr.
      apply elem_of_app in Hr as [(l & -> & Hl')%list_elem_of_fmap| ->%list_elem_of_singleton].
      * apply HN; [intros [= ->]; by apply (Hx2 x)|]. by eapply before_not_after.
      * exfalso. apply Hne. destruct l2 as [|l l2]; [done|]. simpl. by rewrite last_ref_snoc.
    + intros r Hr. assert (r ∈ (LNode <$> l2) ++ [LHead lv]) as Hr' by (rewrite refs_after; by right).
      apply HP.
      * intros ->. apply elem_of_app in Hr' as [(l & [= <-] & Hl')%list_elem_of_fmap|?%list_elem_of_singleton];
          [by apply (Hx2 x)|done].
      * intros ->. by apply NoDup_cons in Hn2 as [? _].
Qed.

(** Inserting a node into a ring, as [list_add] and [__list_add] do. *)
Lemma ring_insert m m' lv l1 l2 x :
  ring m lv (l1 ++ l2) -> ~ x ∈ l1 ++ l2 ->
  (forall r, nxt m' r = if decide (r = LNode x) then Some (after lv l2)
     else if decide (r = before lv l1) then Some (LNode x) else nxt m r) ->
  (forall r, prv m' r = if decide (r = LNode x) then Some (before lv l1)
     else if decide (r = after lv l2) then Some (LNode x) else prv m r) ->
  ring m' lv (l1 ++ x :: l2).
Proof.
  intros [Hnd Hl] Hx HN HP. apply ring_split in Hl as (Hl1 & _ & Hl2).
  destruct (ring_parts_frame m m' lv l1 l2 x) as [F1 F2]; [done|done| | |].
  { intros r H1 H2. by rewrite HN, !decide_False. }
  { intros r H1 H2. by rewrite HP, !decide_False. }
  split; [rewrite <- Permutation_middle; by apply NoDup_cons|].
  assert (before lv l1 <> LNode x) as Hb.
  { intros Hb. pose proof (before_elem lv l1) as He. rewrite Hb in He.
    apply elem_of_cons in He as [|(l & [= <-] & ?)%list_elem_of_fmap]; [done|]. apply Hx, elem_of_app. by left. }
  assert (after lv l2 <> LNode x) as Ha.
  { destruct l2 as [|l l2]; [done|]. intros [= ->]. apply Hx, elem_of_app. right. constructor. }
  apply ring_split. split_and!; [by apply F1| | |].
  - by rewrite HN, decide_False, decide_True.
  - simpl. by rewrite HP, decide_True.
  - simpl. rewrite refs_after. simpl. split; [split|by apply F2].
    + by rewrite HN, decide_True.
    + by rewrite HP, decide_False, decide_True.
Qed.

(** Removing a node from a ring, as [list_del] does. *)
Lemma ring_remove m m' lv l1 l2 x :
  ring m lv (l1 ++ x :: l2) ->
  (forall r, nxt m' r = if decide (r = LNode x) then Some (LNode x)
     else if decide (r = before lv l1) then Some (after lv l2) else nxt m r) ->
  (forall r, prv m' r = if decide (r = LNode x) then Some (LNode x)
     else if decide (r = after lv l2) then Some (before lv l1) else prv m r) ->
  ring m' lv (l1 ++ l2).
Proof.
  intros [Hnd Hl] HN HP. rewrite <- Permutation_middle in Hnd. apply NoDup_cons in Hnd as [Hx Hnd].
  apply ring_split in Hl as (Hl1 & _ & Hl2). simpl in Hl2. rewrite refs_after in Hl2. destruct Hl2 as [_ Hl2].
  destruct (ring_parts_frame m m' lv l1 l2 x) as [F1 F2]; [done|done| | |].
  { intros r H1 H2. by rewrite HN, !decide_False. }
  { intros r H1 H2. by rewrite HP, !decide_False. }
  assert (before lv l1 <> LNode x) as Hb.
  { intros Hb. pose proof (before_elem lv l1) as He. rewrite Hb in He.
    apply elem_of_cons in He as [|(l & [= <-] & ?)%list_elem_of_fmap]; [done|]. apply Hx, elem_of_app. by left. }
  assert (after lv l2 <> LNode x) as Ha.
  { destruct l2 as [|l l2]; [done|]. intros [= ->]. apply Hx, elem_of_app. right. constructor. }
  split; [done|]. apply ring_split. split_and!; [by apply F1| | |by apply F2].
  - by rewrite HN, decide_False, decide_True.
  - by rewrite HP, decide_False, decide_True.
Qed.

(** A ring whose references are not touched stays. *)
Lemma ring_other m m' lv ls :
  (forall r, r ∈ LHead lv :: (LNode <$> ls) -> nxt m' r = nxt m r /\ prv m' r = prv m r) ->
  ring m lv ls -> ring m' lv ls.
Proof.
  intros Hf [Hnd Hl]. split; [done|].
  assert (forall a rs, linked m a rs -> (forall r, r ∈ a :: rs -> r ∈ LHead lv :: (LNode <$> ls)) ->
    linked m' a rs) as Hgen.
  { intros a rs. revert a. induction rs as [|b rs IH]; intros a Hab Hin; simpl in *; [done|].
    destruct Hab as [[H1 H2] Hrs]. split; [split|].
    - rewrite (proj1 (Hf a (Hin a ltac:(constructor)))). done.
    - rewrite (proj2 (Hf b (Hin b ltac:(right; constructor)))). done.
    - apply IH; [done|]. intros r Hr. apply Hin. by right. }
  apply Hgen; [done|]. intros r [->|[Hr|Hr%list_elem_of_singleton]%elem_of_app]%elem_of_cons.
  - constructor.
  - by right.
  - subst. constructor.
Qed.

(** The references of a level and a place in it exist. *)
Lemma ring_defined m lv l1 l2 :
  ring m lv (l1 ++ l2) -> is_Some (link_of m (before lv l1)) /\ is_Some (link_of m (after lv l2)).
Proof.
  intros [_ Hl]. apply ring_split in Hl as (_ & [H1 H2] & _).
  unfold nxt, prv in *. apply fmap_Some in H1 as (? & -> & _), H2 as (? & -> & _). split; by eexists.
Qed.

Lemma before_ne lv (l1 l2 : list loc) x : ~ x ∈ l1 ++ l2 -> LNode x <> before lv l1.
Proof.
  intros Hx Hb. pose proof (before_elem lv l1) as He. rewrite <- Hb in He.
  apply elem_of_cons in He as [|(l & [= <-] & ?)%list_elem_of_fmap]; [done|]. apply Hx, elem_of_app. by left.
Qed.

Lemma after_ne lv (l1 l2 : list loc) x : ~ x ∈ l1 ++ l2 -> LNode x <> after lv l2.
Proof. destruct l2 as [|l l2]; [done|]. intros Hx [= ->]. apply Hx, elem_of_app. right. constructor. Qed.

(** What an insertion of [x] into level [lv] leaves behind. *)
Definition inserted (m : mem) (lv : Z) (l1 l2 : list loc) (x : loc) (m' : mem) : Prop :=
  ring m' lv (l1 ++ x :: l2) /\ links_only m m' /\
  forall lv' ls, lv' <> lv -> (forall l, l ∈ ls -> ~ l ∈ l1 ++ x :: l2) -> ring m lv' ls -> ring m' lv' ls.

Lemma runs_ring_add m lv l1 l2 x :
  ring m lv (l1 ++ l2) -> ~ x ∈ l1 ++ l2 -> is_Some (nodes m !! x) ->
  runs (__list_add (LNode x) (before lv l1) (after lv l2)) m (fun _ m' => inserted m lv l1 l2 x m').
Proof.
  intros Hr Hx [n Hn]. destruct (ring_defined m lv l1 l2 Hr) as [Hb Ha].
  pose proof (before_ne lv l1 l2 x Hx) as Nb. pose proof (after_ne lv l1 l2 x Hx) as Na.
  apply runs_list_add_raw; [simpl; rewrite Hn; by eexists|done|done|done|done|].
  intros m' Hlo HN HP. split_and!; [by eapply ring_insert|done|].
  intros lv' ls Hlv Hd. apply ring_other. intros r Hr'. rewrite HN, HP.
  assert (r <> LNode x /\ r <> before lv l1 /\ r <> after lv l2) as (R1 & R2 & R3).
  { apply elem_of_cons in Hr' as [->|(l & -> & Hl)%list_elem_of_fmap].
    - split; [done|]. split.
      + intros Hb'. pose proof (before_elem lv l1) as He. rewrite <- Hb' in He.
        apply elem_of_cons in He as [|(l & ? & _)%list_elem_of_fmap]; congruence.
      + destruct l2; [simpl; congruence|done].
    - specialize (Hd l Hl). rewrite elem_of_app, elem_of_cons in Hd. split; [|split].
      + intros [= ->]. tauto.
      + intros Hb'. pose proof (before_elem lv l1) as He. rewrite <- Hb' in He.
        apply elem_of_cons in He as [|(l' & [= <-] & ?)%list_elem_of_fmap]; [done|tauto].
      + destruct l2 as [|l2 l2']; [done|]. intros [= ->]. apply Hd. right. right. constructor. }
  by rewrite !decide_False.
Qed.

(** C29. The lists of the levels: [list_add] behind a node or the head of a level,
    [__list_add] between two neighbours and [list_add_tail] insert the node at
    that place of the level, change nothing but links and leave the other levels
    alone. *)
Theorem list_add_ring (m : mem) (lv : Z) (l1 l2 : list loc) (x : loc) :
  ring m lv (l1 ++ l2) -> ~ x ∈ l1 ++ l2 -> is_Some (nodes m !! x) ->
  (exists m', list_add (LNode x) (before lv l1) m = Some (tt, m') /\ inserted m lv l1 l2 x m') /\
  (exists m', __list_add (LNode x) (before lv l1) (after lv l2) m = Some (tt, m') /\ inserted m lv l1 l2 x m') /\
  (l2 = [] -> exists m', list_add_tail (LNode x) (LHead lv) m = Some (tt, m') /\ inserted m lv l1 [] x m').
Proof.
  intros Hr Hx Hn. pose proof Hr as [_ Hl]. apply ring_split in Hl as (_ & [Hb Ha] & _).
  unfold nxt, prv in Hb, Ha. apply fmap_Some in Hb as (kb & Hkb & Eb), Ha as (ka & Hka & Ea).
  destruct (runs_ring_add m lv l1 l2 x Hr Hx Hn) as ([] & m' & E & Hi). split_and!.
  - exists m'. split; [|done].
    destruct (runs_load_link _ kb m (fun k m1 => k = kb /\ m1 = m) Hkb ltac:(done)) as (? & ? & E1 & -> & ->).
    unfold list_add, mbind, M_bind. rewrite E1, <- Eb. exact E.
  - by exists m'.
  - intros ->. exists m'. split; [|done].
    destruct (runs_load_link (LHead lv) ka m (fun k m1 => k = ka /\ m1 = m) Hka ltac:(done)) as (? & ? & E1 & -> & ->).
    unfold list_add_tail, mbind, M_bind. rewrite E1, <- Ea. exact E.
Qed.

(** [list_del] removes a node from its level, leaves it linked to itself,
    and changes nothing but links. *)
Theorem list_del_ring (m : mem) (lv : Z) (l1 l2 : list loc) (x : loc) :
  ring m lv (l1 ++ x :: l2) ->
  exists m', list_del (LNode x) m = Some (tt, m') /\ ring m' lv (l1 ++ l2) /\
    link_of m' (LNode x) = Some (mkLink (LNode x) (LNode x)) /\ links_only m m'.
Proof.
  intros Hr. pose proof Hr as [_ Hl]. apply ring_split in Hl as (_ & [Hb Hp] & Hl2). simpl in Hp, Hl2.
  rewrite refs_after in Hl2. destruct Hl2 as [[Hn Ha] _].
  unfold nxt, prv in Hb, Hp, Hn, Ha.
  apply fmap_Some in Hb as (kb & Hkb & _), Ha as (ka & Hka & _), Hn as (kx & Hkx & En).
  rewrite Hkx in Hp. injection Hp as Ep.
  enough (runs (list_del (LNode x)) m (fun _ m' => ring m' lv (l1 ++ l2) /\
    link_of m' (LNode x) = Some (mkLink (LNode x) (LNode x)) /\ links_only m m')) as ([] & m' & E & HQ)
    by by exists m'.
  apply (runs_list_del _ (before lv l1) (after lv l2)); [rewrite Hkx; destruct kx; simpl in *; congruence
    |by eexists|by eexists|].
  intros m' Hlo HN HP. split_and!; [by eapply ring_remove| |done].
  assert (nxt m' (LNode x) = Some (LNode x)) as H1 by by rewrite HN, decide_True.
  assert (prv m' (LNode x) = Some (LNode x)) as H2 by by rewrite HP, decide_True.
  unfold nxt, prv in H1, H2. destruct (link_of m' (LNode x)) as [[p q]|]; [|done]. simpl in *. congruence.
Qed.

(** ** A level to evaluate the properties on *)

Definition linked_leaf (p n : linkref) : node := Leaf (on_lf_node (set_link (mkLink p n)) blank_leaf).

Definition ring_mem : mem :=
  mkMem (mkTree 5 5 0 None [mkLink (LNode 1) (LNode 0)] 0 0)
    (<[0%nat := linked_leaf (LHead 0) (LNode 1)]> (<[1%nat := linked_leaf (LNode 0) (LHead 0)]>
      (<[2%nat := linked_leaf (LNode 2) (LNode 2)]> ∅))) 3 (mkTidMem ∅ 0) ∅.

Lemma ring_mem_ring : ring ring_mem 0 ([0%nat] ++ [1%nat]).
Proof. split; [eval_dec|]. simpl. done. Qed.

Lemma list_add_ring_witness :
  exists m', list_add (LNode 2) (LNode 0) ring_mem = Some (tt, m') /\ ring m' 0 [0%nat; 2%nat; 1%nat].
Proof.
  destruct (list_add_ring ring_mem 0 [0%nat] [1%nat] 2) as ((m' & E & Hr & _) & _);
    [exact ring_mem_ring|eval_dec|by eexists|].
  exists m'. split; [exact E|exact Hr].
Defined.

Lemma list_del_ring_witness : exists m', list_del (LNode 1) ring_mem = Some (tt, m') /\ ring m' 0 [0%nat].
Proof.
  destruct (list_del_ring ring_mem 0 [0%nat] [] 1) as (m' & E & Hr & _); [exact ring_mem_ring|].
  exists m'. split; [exact E|exact Hr].
Defined.
