(* ===== verification/Insert.v ===== *)
(** * Insertion (bplus_tree_insert and what it calls in
    src/src/backend/mbt/mbtree.c)

    The leaf operations work on the structs they are given and on the cells of
    the item pointers; the non-leaf operations also write the headers of the
    children and run on the memory. *)

From S2P Require Import Prelude CMem Node Heap.

(** ** Leaf structs *)

(** [leaf->data[j] = s] by [strcpy] into the slot. *)
Definition put_data (leaf : bplus_leaf) (j : Z) (s : list Z) : option bplus_leaf :=
  do slot <- aget (lf_data leaf) j;
  do slot' <- strcpy slot s;
  do ds <- aset (lf_data leaf) j slot';
  Some (set_lf_data ds leaf).

Definition put_lkey (leaf : bplus_leaf) (j k : Z) : option bplus_leaf :=
  do ks <- aset (lf_key leaf) j k; Some (set_lf_key ks leaf).

Definition put_tid_ptr (leaf : bplus_leaf) (j : Z) (p : option tidloc) : option bplus_leaf :=
  do ts <- aset (tids (lf_node leaf)) j p; Some (on_lf_node (set_tids ts) leaf).

Definition put_entries (leaf : bplus_leaf) (c : Z) : bplus_leaf := on_lf_node (set_count c) leaf.

(** The assignments through [leaf->tids[j]], field by field. *)
Definition put_tid (tm : tidmem) (leaf : bplus_leaf) (j : Z) (tid : ItemPointerData) : option tidmem :=
  do p <- aget (tids (lf_node leaf)) j; store_tid tm p tid.

(** [while (cond) body] over local variables and structs. *)
Fixpoint while_some {S} (fuel : nat) (cond : S -> bool) (body : S -> option S) (s : S) : option S :=
  if cond s then
    match fuel with O => None | Datatypes.S fuel' => do s' <- body s; while_some fuel' cond body s' end
  else Some s.

(** [for (i = hi; i > lo; i--)]. *)
Definition for_down {S} (hi lo : Z) (body : Z -> S -> option S) (s : S) : option S :=
  for_n (Z.to_nat (hi - lo)) 0 (fun k => body (hi - k)) s.

Definition leaf_simple_insert (leaf : bplus_leaf) (tm : tidmem) (key : Z) (data : list Z)
    (tid : ItemPointerData) (insert : Z) : option (bplus_leaf * tidmem) :=
  do leaf <- for_down (entries leaf) insert (fun i leaf =>
    do k <- aget (lf_key leaf) (i - 1);
    do leaf <- put_lkey leaf i k;
    do t <- aget (tids (lf_node leaf)) (i - 1);
    do leaf <- put_tid_ptr leaf i t;
    do d <- aget (lf_data leaf) (i - 1);
    put_data leaf i d) leaf;
  let i := Z.min (entries leaf) insert in
  do leaf <- put_lkey leaf i key;
  do tm <- put_tid tm leaf i tid;
  do leaf <- put_data leaf i data;
  Some (put_entries leaf (entries leaf + 1), tm).

(** The local variables of [leaf_split_left]. *)
Record sl_state := mkSL { sl_i : Z; sl_j : Z; sl_left : bplus_leaf; sl_tm : tidmem }.

(** The structs [leaf] and [left] behind the two loops; [leaf_insert] links
    [left] into the list of the level first.  The second loop shifts the keys and item pointers of
    [leaf], but copies its strings into [left]. *)
Definition leaf_split_left (leaf left' : bplus_leaf) (tm : tidmem) (key : Z) (data : list Z)
    (tid : ItemPointerData) (insert : Z) : option (bplus_leaf * bplus_leaf * tidmem) :=
  let split := Z.quot (entries leaf + 1) 2 in
  do s <- while_some loop_fuel (fun s => sl_i s <? split - 1) (fun s =>
    let '(mkSL i j left' tm) := s in
    if j =? insert then
      do left' <- put_lkey left' j key;
      do left' <- put_data left' j data;
      do tm <- put_tid tm left' j tid;
      Some (mkSL i (j + 1) left' tm)
    else
      do k <- aget (lf_key leaf) i;
      do left' <- put_lkey left' j k;
      do d <- aget (lf_data leaf) i;
      do left' <- put_data left' j d;
      do t <- aget (tids (lf_node leaf)) i;
      do left' <- put_tid_ptr left' j t;
      Some (mkSL (i + 1) (j + 1) left' tm)) (mkSL 0 0 left' tm);
  do s <- (let '(mkSL i j left' tm) := s in
    if j =? insert then
      do left' <- put_lkey left' j key;
      do left' <- put_data left' j data;
      do tm <- put_tid tm left' j tid;
      Some (mkSL i (j + 1) left' tm)
    else Some s);
  let '(mkSL i j left' tm) := s in
  let left' := put_entries left' j in
  do ' (leaf, left') <- for_range i (entries leaf) (fun i' st =>
    let '(leaf, left') := st in
    let j := i' - i in
    do k <- aget (lf_key leaf) i';
    do leaf <- put_lkey leaf j k;
    do t <- aget (tids (lf_node leaf)) i';
    do leaf <- put_tid_ptr leaf j t;
    do d <- aget (lf_data leaf) i';
    do left' <- put_data left' j d;
    Some (leaf, left')) (leaf, left');
  Some (put_entries leaf (Z.max 0 (entries leaf - i)), left', tm).

(** The structs [leaf] and [right]; the hole in the loop is left for the new
    entry.  [leaf_insert] links [right] into the list of the level first. *)
Definition leaf_split_right (leaf right' : bplus_leaf) (tm : tidmem) (key : Z) (data : list Z)
    (tid : ItemPointerData) (insert : Z) : option (bplus_leaf * bplus_leaf * tidmem) :=
  let split := Z.quot (entries leaf + 1) 2 in
  do ' (i, j, right') <- while_some loop_fuel (fun s => s.1.1 <? entries leaf) (fun s =>
    let '(i, j, right') := s in
    if negb (j =? insert - split) then
      do k <- aget (lf_key leaf) i;
      do right' <- put_lkey right' j k;
      do t <- aget (tids (lf_node leaf)) i;
      do right' <- put_tid_ptr right' j t;
      do d <- aget (lf_data leaf) i;
      do right' <- put_data right' j d;
      Some (i + 1, j + 1, right')
    else Some (i, j + 1, right')) (split, 0, right');
  do right' <- (if insert - split <? j then Some (put_entries right' j)
               else check (j =? insert - split); Some (put_entries right' (j + 1)));
  let j := insert - split in
  do right' <- put_lkey right' j key;
  do tm <- put_tid tm right' j tid;
  do right' <- put_data right' j data;
  Some (put_entries leaf split, right', tm).

(** ** Non-leaf nodes *)

Section NonLeaf.
Context `{Malloc}.

Definition non_leaf_simple_insert (node l_ch r_ch : loc) (key insert : Z) : M unit :=
  do c <- get_children node;
  do _ <- mfor_down (c - 1) insert (fun i _ =>
    do k <- get_key node (i - 1);
    do _ <- put_key node i k;
    do p <- get_sub node i;
    do _ <- put_sub node (i + 1) p;
    put_sub_idx node (i + 1) i) tt;
  let i := Z.min (c - 1) insert in
  do _ <- put_key node i key;
  do _ <- put_sub node i (Some l_ch);
  do _ <- put_sub_idx node i (i - 1);
  do _ <- put_sub node (i + 1) (Some r_ch);
  do _ <- put_sub_idx node (i + 1) i;
  put_children node (c + 1).

Definition non_leaf_split_left (node left' l_ch r_ch : loc) (key insert : Z) : M Z :=
  do order <- get_children node;
  let split := Z.quot (order + 1) 2 in
  do h <- load_hdr node;
  do _ <- __list_add (LNode left') (prev (link h)) (LNode node);
  do _ <- mfor_up 0 split (fun i j =>
    if j =? insert then
      do _ <- put_sub left' j (Some l_ch);
      do _ <- put_sub_parent left' j left';
      do _ <- put_sub_idx left' j (j - 1);
      do _ <- put_sub left' (j + 1) (Some r_ch);
      do _ <- put_sub_parent left' (j + 1) left';
      do _ <- put_sub_idx left' (j + 1) j;
      mret (j + 1 + 1)
    else
      do p <- get_sub node i;
      do _ <- put_sub left' j p;
      do _ <- put_sub_parent left' j left';
      do _ <- put_sub_idx left' j (j - 1);
      mret (j + 1)) 0;
  do _ <- put_children left' split;
  do ' (_, j) <- mwhile loop_fuel (fun s => mret (s.1 <? split - 1)) (fun s =>
    let '(i, j) := s in
    if j =? insert then
      do _ <- put_key left' j key;
      mret (i, j + 1)
    else
      do k <- get_key node i;
      do _ <- put_key left' j k;
      mret (i + 1, j + 1)) (0, 0);
  do split_key <- (if insert =? split - 1 then
      do _ <- put_key left' insert key;
      do _ <- put_sub left' insert (Some l_ch);
      do _ <- put_sub_parent left' insert left';
      do _ <- put_sub_idx left' insert (j - 1);
      do _ <- put_sub node 0 (Some r_ch);
      mret key
    else
      do p <- get_sub node (split - 1);
      do _ <- put_sub node 0 p;
      get_key node (split - 2));
  do _ <- put_sub_parent node 0 node;
  do _ <- put_sub_idx node 0 (-1);
  do j <- mfor_up (split - 1) (order - 1) (fun i j =>
    do k <- get_key node i;
    do _ <- put_key node j k;
    do p <- get_sub node (i + 1);
    do _ <- put_sub node (j + 1) p;
    do _ <- put_sub_parent node (j + 1) node;
    do _ <- put_sub_idx node (j + 1) j;
    mret (j + 1)) 0;
  do p <- get_sub node (Z.max (split - 1) (order - 1));
  do _ <- put_sub node j p;
  do _ <- put_children node (j + 1);
  mret split_key.

Definition non_leaf_split_right1 (node right' l_ch r_ch : loc) (key insert : Z) : M Z :=
  do order <- get_children node;
  let split := Z.quot (order + 1) 2 in
  do _ <- list_add (LNode right') (LNode node);
  do split_key <- get_key node (split - 1);
  do _ <- put_children node split;
  do _ <- put_key right' 0 key;
  do _ <- put_sub right' 0 (Some l_ch);
  do _ <- put_sub_parent right' 0 right';
  do _ <- put_sub_idx right' 0 (-1);
  do _ <- put_sub right' 1 (Some r_ch);
  do _ <- put_sub_parent right' 1 right';
  do _ <- put_sub_idx right' 1 0;
  do j <- mfor_up split (order - 1) (fun i j =>
    do k <- get_key node i;
    do _ <- put_key right' j k;
    do p <- get_sub node (i + 1);
    do _ <- put_sub right' (j + 1) p;
    do _ <- put_sub_parent right' (j + 1) right';
    do _ <- put_sub_idx right' (j + 1) j;
    mret (j + 1)) 1;
  do _ <- put_children right' (j + 1);
  mret split_key.

Definition non_leaf_split_right2 (node right' l_ch r_ch : loc) (key insert : Z) : M Z :=
  do order <- get_children node;
  let split := Z.quot (order + 1) 2 in
  do _ <- put_children node (split + 1);
  do _ <- list_add (LNode right') (LNode node);
  do split_key <- get_key node split;
  do p <- get_sub node (split + 1);
  do _ <- put_sub right' 0 p;
  do _ <- put_sub_parent right' 0 right';
  do _ <- put_sub_idx right' 0 (-1);
  do ' (_, j) <- mwhile loop_fuel (fun s => mret (s.1 <? order - 1)) (fun s =>
    let '(i, j) := s in
    if negb (j =? insert - split - 1) then
      do k <- get_key node i;
      do _ <- put_key right' j k;
      do p <- get_sub node (i + 1);
      do _ <- put_sub right' (j + 1) p;
      do _ <- put_sub_parent right' (j + 1) right';
      do _ <- put_sub_idx right' (j + 1) j;
      mret (i + 1, j + 1)
    else mret (i, j + 1)) (split + 1, 0);
  do _ <- (if insert - split - 1 <? j then put_children right' (j + 1)
           else do _ <- massert (j =? insert - split - 1); put_children right' (j + 2));
  let j := insert - split - 1 in
  do _ <- put_key right' j key;
  do _ <- put_sub right' j (Some l_ch);
  do _ <- put_sub_parent right' j right';
  do _ <- put_sub_idx right' j (j - 1);
  do _ <- put_sub right' (j + 1) (Some r_ch);
  do _ <- put_sub_parent right' (j + 1) right';
  do _ <- put_sub_idx right' (j + 1) j;
  mret split_key.

(** [parent_node_build]; [insert_above] is the call of [non_leaf_insert] on the
    parent: node, left child, right child, key, level. *)
Definition parent_node_build (insert_above : loc -> loc -> loc -> Z -> Z -> M Z)
    (left' right' : loc) (key level' : Z) : M Z :=
  do lh <- load_hdr left';
  do rh <- load_hdr right';
  match parent lh, parent rh with
  | None, None =>
      do p <- non_leaf_new;
      do _ <- put_key p 0 key;
      do _ <- put_sub p 0 (Some left');
      do _ <- put_sub_parent p 0 p;
      do _ <- put_sub_idx p 0 (-1);
      do _ <- put_sub p 1 (Some right');
      do _ <- put_sub_parent p 1 p;
      do _ <- put_sub_idx p 1 0;
      do _ <- put_children p 2;
      do _ <- on_tree (set_root (Some p));
      do t <- get_tree;
      do _ <- on_tree (set_level (level t + 1));
      do _ <- list_add (LNode p) (LHead (level t + 1));
      mret 0
  | Some p, None =>
      do _ <- on_hdr right' (set_parent (Some p));
      insert_above p left' right' key (level' + 1)
  | _, Some p =>
      do _ <- on_hdr left' (set_parent (Some p));
      insert_above p left' right' key (level' + 1)
  end.

Fixpoint non_leaf_insert (fuel : nat) (node l_ch r_ch : loc) (key level' : Z) : M Z :=
  match fuel with
  | O => ub
  | S fuel' =>
      do n <- load_nl node;
      do insert <- lift (key_binary_search (nl_key n) (children n - 1) key);
      do _ <- massert (insert <? 0);
      let insert := - insert - 1 in
      do t <- get_tree;
      if children n =? order t then
        let split := Z.quot (children n + 1) 2 in
        do sibling <- non_leaf_new;
        do split_key <-
          (if insert <? split then non_leaf_split_left node sibling l_ch r_ch key insert
           else if insert =? split then non_leaf_split_right1 node sibling l_ch r_ch key insert
           else non_leaf_split_right2 node sibling l_ch r_ch key insert);
        if insert <? split then
          parent_node_build (non_leaf_insert fuel') sibling node split_key level'
        else
          parent_node_build (non_leaf_insert fuel') node sibling split_key level'
      else
        do _ <- non_leaf_simple_insert node l_ch r_ch key insert;
        mret 0
  end.

(** ** The tree *)

Definition leaf_insert (leaf : loc) (key : Z) (data : list Z) (tid : ItemPointerData) : M Z :=
  do n <- load_lf leaf;
  do insert <- lift (key_binary_search (lf_key n) (entries n) key);
  if 0 <=? insert then mret (-1)
  else
    let insert := - insert - 1 in
    do t <- get_tree;
    if entries n =? t_entries t then
      let split := Z.quot (t_entries t + 1) 2 in
      do sibling <- leaf_new;
      do n <- load_lf leaf;
      if insert <? split then
        do _ <- __list_add (LNode sibling) (prev (link (lf_node n))) (LNode leaf);
        do n <- load_lf leaf;
        do sn <- load_lf sibling;
        do tm <- get_tm;
        do ' (n, sn, tm) <- lift (leaf_split_left n sn tm key data tid insert);
        do _ <- store_lf leaf n;
        do _ <- store_lf sibling sn;
        do _ <- put_tm tm;
        do k <- lift (aget (lf_key n) 0);
        parent_node_build (non_leaf_insert depth_fuel) sibling leaf k 0
      else
        do _ <- list_add (LNode sibling) (LNode leaf);
        do n <- load_lf leaf;
        do sn <- load_lf sibling;
        do tm <- get_tm;
        do ' (n, sn, tm) <- lift (leaf_split_right n sn tm key data tid insert);
        do _ <- store_lf leaf n;
        do _ <- store_lf sibling sn;
        do _ <- put_tm tm;
        do k <- lift (aget (lf_key sn) 0);
        parent_node_build (non_leaf_insert depth_fuel) leaf sibling k 0
    else
      do tm <- get_tm;
      do ' (n, tm) <- lift (leaf_simple_insert n tm key data tid insert);
      do _ <- store_lf leaf n;
      do _ <- put_tm tm;
      mret 0.

(** The child [key_binary_search] leads to. *)
Definition next_child (n : bplus_non_leaf) (key : Z) : M (option loc) :=
  do i <- lift (key_binary_search (nl_key n) (children n - 1) key);
  if 0 <=? i then lift (aget (sub_ptr n) (i + 1))
  else lift (aget (sub_ptr n) (- i - 1)).

(** The walk of [bplus_tree_insert] and [bplus_tree_delete] from a node down to
    the leaf of a key; [None] when a child pointer is NULL. *)
Fixpoint find_leaf (fuel : nat) (node : option loc) (key : Z) : M (option loc) :=
  match node with
  | None => mret None
  | Some l =>
      do h <- load_hdr l;
      if is_leaf h then mret (Some l)
      else
        match fuel with
        | O => ub
        | S fuel' =>
            do n <- load_nl l;
            do c <- next_child n key;
            find_leaf fuel' c key
        end
  end.

Definition bplus_tree_insert (key : Z) (data : list Z) (tid : ItemPointerData) : M Z :=
  do t <- get_tree;
  do leaf <- find_leaf depth_fuel (root t) key;
  match leaf with
  | Some l => leaf_insert l key data tid
  | None =>
      do r <- leaf_new;
      do n <- load_lf r;
      do tm <- get_tm;
      do n <- lift (put_lkey n 0 key);
      do tm <- lift (put_tid tm n 0 tid);
      do n <- lift (put_data n 0 data);
      do _ <- store_lf r (put_entries n 1);
      do _ <- put_tm tm;
      do _ <- on_tree (set_root (Some r));
      do t <- get_tree;
      do _ <- list_add (LNode r) (LHead (level t));
      mret 0
  end.

End NonLeaf.
