(* ===== verification/Delete.v ===== *)
(** * Deletion and lookup (bplus_tree_delete, bplus_tree_search, bplus_tree_get,
    bplus_tree_put and what they call in src/src/backend/mbt/mbtree.c)

    Deletion moves keys and strings between leaf structs; none of the functions
    touches the item pointers.  The search initialises every non-leaf it passes
    through. *)

From S2P Require Import Prelude CMem Node Heap Insert.

Definition LEFT_SIBLING : Z := 0.
Definition RIGHT_SIBLING : Z := 1.

(** ** Leaf structs *)

Definition leaf_simple_remove (leaf : bplus_leaf) (remove : Z) : option bplus_leaf :=
  do leaf <- for_range remove (entries leaf - 1) (fun remove leaf =>
    do k <- aget (lf_key leaf) (remove + 1);
    do leaf <- put_lkey leaf remove k;
    do d <- aget (lf_data leaf) (remove + 1);
    put_data leaf remove d) leaf;
  Some (put_entries leaf (entries leaf - 1)).

(** [leaf], [left] and the new key of the parent. *)
Definition leaf_shift_from_left (leaf left' : bplus_leaf) (remove : Z)
  : option (bplus_leaf * bplus_leaf * Z) :=
  do leaf <- for_down remove 0 (fun remove leaf =>
    do k <- aget (lf_key leaf) (remove - 1);
    do leaf <- put_lkey leaf remove k;
    do d <- aget (lf_data leaf) (remove - 1);
    put_data leaf remove d) leaf;
  do k <- aget (lf_key left') (entries left' - 1);
  do leaf <- put_lkey leaf 0 k;
  do d <- aget (lf_data left') (entries left' - 1);
  do leaf <- put_data leaf 0 d;
  do k0 <- aget (lf_key leaf) 0;
  Some (leaf, put_entries left' (entries left' - 1), k0).

(** The struct [left]; [leaf] is deleted by the caller. *)
Definition leaf_merge_int64_to_left (leaf left' : bplus_leaf) (remove : Z) : option bplus_leaf :=
  do ' (i, left') <- for_range 0 (entries leaf) (fun j st =>
    let '(i, left') := st in
    if negb (j =? remove) then
      do k <- aget (lf_key leaf) j;
      do left' <- put_lkey left' i k;
      do d <- aget (lf_data leaf) j;
      do left' <- put_data left' i d;
      Some (i + 1, left')
    else Some (i, left')) (entries left', left');
  Some (put_entries left' i).

(** [leaf], [right] and the new key of the parent. *)
Definition leaf_shift_from_right (leaf right' : bplus_leaf)
  : option (bplus_leaf * bplus_leaf * Z) :=
  do k <- aget (lf_key right') 0;
  do leaf <- put_lkey leaf (entries leaf) k;
  do d <- aget (lf_data right') 0;
  do leaf <- put_data leaf (entries leaf) d;
  let leaf := put_entries leaf (entries leaf + 1) in
  do right' <- for_range 0 (entries right' - 1) (fun i right' =>
    do k <- aget (lf_key right') (i + 1);
    do right' <- put_lkey right' i k;
    do d <- aget (lf_data right') (i + 1);
    put_data right' i d) right';
  let right' := put_entries right' (entries right' - 1) in
  do k0 <- aget (lf_key right') 0;
  Some (leaf, right', k0).

(** The struct [leaf]; [right] is deleted by the caller. *)
Definition leaf_merge_from_right (leaf right' : bplus_leaf) : option bplus_leaf :=
  let base := entries leaf in
  do leaf <- for_range 0 (entries right') (fun j leaf =>
    do k <- aget (lf_key right') j;
    do leaf <- put_lkey leaf (base + j) k;
    do d <- aget (lf_data right') j;
    put_data leaf (base + j) d) leaf;
  Some (put_entries leaf (base + Z.max 0 (entries right'))).

(** ** Non-leaf nodes *)

(** [l_sib] and [r_sib] are dereferenced only when both siblings exist. *)
Definition non_leaf_sibling_select (l_sib r_sib : option loc) (parent' : loc) (i : Z) : M Z :=
  if i =? -1 then mret RIGHT_SIBLING
  else
    do c <- get_children parent';
    if i =? c - 2 then mret LEFT_SIBLING
    else
      do l <- deref l_sib; do lc <- get_children l;
      do r <- deref r_sib; do rc <- get_children r;
      mret (if rc <=? lc then LEFT_SIBLING else RIGHT_SIBLING).

Definition non_leaf_shift_from_left (node left' : loc) (parent_key_index remove : Z) : M unit :=
  do _ <- mfor_down remove 0 (fun i _ =>
    do k <- get_key node (i - 1); put_key node i k) tt;
  do _ <- mfor_down (remove + 1) 0 (fun i _ =>
    do p <- get_sub node (i - 1);
    do _ <- put_sub node i p;
    put_sub_idx node i (i - 1)) tt;
  do h <- load_hdr node;
  do p <- deref (parent h);
  do k <- get_key p parent_key_index;
  do _ <- put_key node 0 k;
  do lc <- get_children left';
  do k <- get_key left' (lc - 2);
  do _ <- put_key p parent_key_index k;
  do c <- get_sub left' (lc - 1);
  do _ <- put_sub node 0 c;
  do _ <- put_sub_parent node 0 node;
  do _ <- put_sub_idx node 0 (-1);
  put_children left' (lc - 1).

Definition non_leaf_merge_int64_to_left (node left' : loc) (parent_key_index remove : Z) : M unit :=
  do lc <- get_children left';
  do nc <- get_children node;
  do h <- load_hdr node;
  do p <- deref (parent h);
  do k <- get_key p parent_key_index;
  do _ <- put_key left' (lc - 1) k;
  do _ <- mfor_up 0 (nc - 1) (fun j i =>
    if negb (j =? remove) then
      do k <- get_key node j;
      do _ <- put_key left' i k;
      mret (i + 1)
    else mret i) lc;
  do i <- mfor_up 0 nc (fun j i =>
    if negb (j =? remove + 1) then
      do c <- get_sub node j;
      do _ <- put_sub left' i c;
      do _ <- put_sub_parent left' i left';
      do _ <- put_sub_idx left' i (i - 1);
      mret (i + 1)
    else mret i) lc;
  do _ <- put_children left' i;
  non_leaf_delete node.

Definition non_leaf_shift_from_right (node right' : loc) (parent_key_index : Z) : M unit :=
  do nc <- get_children node;
  do h <- load_hdr node;
  do p <- deref (parent h);
  do k <- get_key p parent_key_index;
  do _ <- put_key node (nc - 1) k;
  do k <- get_key right' 0;
  do _ <- put_key p parent_key_index k;
  do c <- get_sub right' 0;
  do _ <- put_sub node nc c;
  do _ <- put_sub_parent node nc node;
  do _ <- put_sub_idx node nc (nc - 1);
  do _ <- put_children node (nc + 1);
  do rc <- get_children right';
  do _ <- mfor_up 0 (rc - 2) (fun i _ =>
    do k <- get_key right' (i + 1); put_key right' i k) tt;
  do _ <- mfor_up 0 (rc - 1) (fun i _ =>
    do c <- get_sub right' (i + 1);
    do _ <- put_sub right' i c;
    put_sub_idx right' i (i - 1)) tt;
  put_children right' (rc - 1).

Definition non_leaf_merge_from_right (node right' : loc) (parent_key_index : Z) : M unit :=
  do nc <- get_children node;
  do h <- load_hdr node;
  do p <- deref (parent h);
  do k <- get_key p parent_key_index;
  do _ <- put_key node (nc - 1) k;
  do _ <- put_children node (nc + 1);
  do rc <- get_children right';
  do _ <- mfor_up 0 (rc - 1) (fun j _ =>
    do k <- get_key right' j; put_key node (nc + j) k) tt;
  do _ <- mfor_up 0 rc (fun j _ =>
    do c <- get_sub right' j;
    do _ <- put_sub node (nc + j) c;
    do _ <- put_sub_parent node (nc + j) node;
    put_sub_idx node (nc + j) (nc + j - 1)) tt;
  do _ <- put_children node (nc + Z.max 0 rc);
  non_leaf_delete right'.

Definition non_leaf_simple_remove (node : loc) (remove : Z) : M unit :=
  do c <- get_children node;
  do _ <- massert (2 <=? c);
  do _ <- mfor_up remove (c - 2) (fun remove _ =>
    do k <- get_key node (remove + 1);
    do _ <- put_key node remove k;
    do p <- get_sub node (remove + 2);
    do _ <- put_sub node (remove + 1) p;
    put_sub_idx node (remove + 1) remove) tt;
  put_children node (c - 1).

(** The case of [non_leaf_remove] that removes from the root. *)
Definition root_remove (node : loc) (remove : Z) : M unit :=
  do c <- get_children node;
  if c =? 2 then
    do _ <- massert (remove =? 0);
    do p <- get_sub node 0;
    do s <- deref p;
    do _ <- on_hdr s (set_parent None);
    do p <- get_sub node 0;
    do _ <- on_tree (set_root p);
    do _ <- non_leaf_delete node;
    do t <- get_tree;
    on_tree (set_level (level t - 1))
  else non_leaf_simple_remove node remove.

Fixpoint non_leaf_remove (fuel : nat) (node : loc) (remove : Z) : M unit :=
  match fuel with
  | O => ub
  | S fuel' =>
      do c <- get_children node;
      do t <- get_tree;
      let half := Z.quot (order t + 1) 2 in
      if c <=? half then
        do l_sib <- list_prev_entry node;
        do r_sib <- list_next_entry node;
        do h <- load_hdr node;
        match parent h with
        | Some parent' =>
            let i := parent_key_idx h in
            do side <- non_leaf_sibling_select l_sib r_sib parent' i;
            if side =? LEFT_SIBLING then
              do l <- deref l_sib;
              do lc <- get_children l;
              if half <? lc then non_leaf_shift_from_left node l i remove
              else
                do _ <- non_leaf_merge_int64_to_left node l i remove;
                non_leaf_remove fuel' parent' i
            else
              do _ <- non_leaf_simple_remove node remove;
              do r <- deref r_sib;
              do rc <- get_children r;
              if half <? rc then non_leaf_shift_from_right node r (i + 1)
              else
                do _ <- non_leaf_merge_from_right node r (i + 1);
                non_leaf_remove fuel' parent' (i + 1)
        | None => root_remove node remove
        end
      else non_leaf_simple_remove node remove
  end.

(** ** Leaves *)

Definition get_entries (l : loc) : M Z := do n <- load_lf l; mret (entries n).

Definition leaf_sibling_select (l_sib r_sib : option loc) (parent' : loc) (i : Z) : M Z :=
  if i =? -1 then mret RIGHT_SIBLING
  else
    do c <- get_children parent';
    if i =? c - 2 then mret LEFT_SIBLING
    else
      do l <- deref l_sib; do le <- get_entries l;
      do r <- deref r_sib; do re <- get_entries r;
      mret (if re <=? le then LEFT_SIBLING else RIGHT_SIBLING).

(** The part of [leaf_remove] for a leaf that is at most half full and has a
    parent. *)
Definition leaf_rebalance (leaf parent' : loc) (l_sib r_sib : option loc) (i remove half : Z) : M unit :=
  do side <- leaf_sibling_select l_sib r_sib parent' i;
  do n <- load_lf leaf;
  if side =? LEFT_SIBLING then
    do l <- deref l_sib;
    do ln <- load_lf l;
    if half <? entries ln then
      do ' (n, ln, k) <- lift (leaf_shift_from_left n ln remove);
      do _ <- store_lf leaf n;
      do _ <- store_lf l ln;
      do p <- deref (parent (lf_node n));
      put_key p i k
    else
      do ln <- lift (leaf_merge_int64_to_left n ln remove);
      do _ <- store_lf l ln;
      do _ <- leaf_delete leaf;
      non_leaf_remove depth_fuel parent' i
  else
    do n <- lift (leaf_simple_remove n remove);
    do _ <- store_lf leaf n;
    do r <- deref r_sib;
    do rn <- load_lf r;
    if half <? entries rn then
      do ' (n, rn, k) <- lift (leaf_shift_from_right n rn);
      do _ <- store_lf leaf n;
      do _ <- store_lf r rn;
      do p <- deref (parent (lf_node n));
      put_key p (i + 1) k
    else
      do n <- lift (leaf_merge_from_right n rn);
      do _ <- store_lf leaf n;
      do _ <- leaf_delete r;
      non_leaf_remove depth_fuel parent' (i + 1).

Definition leaf_remove (leaf : loc) (key : Z) : M Z :=
  do n <- load_lf leaf;
  do remove <- lift (key_binary_search (lf_key n) (entries n) key);
  if remove <? 0 then mret (-1)
  else
    do t <- get_tree;
    let half := Z.quot (t_entries t + 1) 2 in
    if entries n <=? half then
      do l_sib <- list_prev_entry leaf;
      do r_sib <- list_next_entry leaf;
      match parent (lf_node n) with
      | Some parent' =>
          do _ <- leaf_rebalance leaf parent' l_sib r_sib (parent_key_idx (lf_node n)) remove half;
          mret 0
      | None =>
          if entries n =? 1 then
            do k <- lift (aget (lf_key n) 0);
            do _ <- massert (key =? k);
            do _ <- on_tree (set_root None);
            do _ <- leaf_delete leaf;
            mret 0
          else
            do n <- lift (leaf_simple_remove n remove);
            do _ <- store_lf leaf n;
            mret 0
      end
    else
      do n <- lift (leaf_simple_remove n remove);
      do _ <- store_lf leaf n;
      mret 0.

Definition bplus_tree_delete (key : Z) : M Z :=
  do t <- get_tree;
  do leaf <- find_leaf depth_fuel (root t) key;
  match leaf with
  | Some l => leaf_remove l key
  | None => mret (-1)
  end.

(** ** Lookup *)

Definition str_minus_one : list Z := [45; 49; 0].
Definition str_zero : list Z := [48; 0].

(** The walk of [bplus_tree_search]: every non-leaf on the way is initialised,
    which clears its type, its keys and its number of children; [ret] is the
    buffer of 32 bytes. *)
Fixpoint search_walk (fuel : nat) (node : option loc) (key : Z) (ret : list Z) : M (list Z) :=
  match node with
  | None => mret ret
  | Some l =>
      do h <- load_hdr l;
      if is_leaf h then
        do n <- load_lf l;
        do i <- lift (key_binary_search (lf_key n) (entries n) key);
        if 0 <=? i then
          do d <- lift (aget (lf_data n) i); lift (strcpy ret d)
        else lift (strcpy ret str_zero)
      else
        match fuel with
        | O => ub
        | S fuel' =>
            do _ <- on_nl l bplus_non_leaf_init;
            do n <- load_nl l;
            do c <- next_child n key;
            search_walk fuel' c key ret
        end
  end.

(** [ret0]: what the 32 bytes of the result buffer happen to contain. *)
Definition bplus_tree_search (ret0 : list Z) (key : Z) : M (list Z) :=
  do ret <- lift (strcpy ret0 str_minus_one);
  do t <- get_tree;
  search_walk depth_fuel (root t) key ret.

(** [strcmp(a, b) == 0]. *)
Definition streq (a b : list Z) : option bool :=
  do x <- cstr a; do y <- cstr b; Some (bool_decide (x = y)).

Definition bplus_tree_get (ret0 data0 : list Z) (key : Z) : M (list Z) :=
  do r <- bplus_tree_search ret0 key;
  do data <- lift (strcpy data0 r);
  do z <- lift (streq data str_zero);
  mret (if z : bool then str_minus_one else data).

Section Put.
Context `{Malloc}.

(** The string ["0"] asks for a deletion. *)
Definition bplus_tree_put (key : Z) (data : list Z) (tid : ItemPointerData) : M Z :=
  do z <- lift (streq data str_zero);
  if z : bool then bplus_tree_delete key else bplus_tree_insert key data tid.

End Put.
