(* ===== verification/LeafSpec.v ===== *)
(** * What the leaf operations do to the entries of a leaf (the leaf functions of
    src/src/backend/mbt/mbtree.c)

    A leaf is seen as its arrays of keys, strings and item pointers
    ([holds_entries]); the insertion and deletion functions of Insert.v and
    Delete.v are specified by the lists they leave behind.  The strings of a left
    split and the item pointers of shifted entries are not what the keys say;
    the theorems state what the code does with them. *)

From S2P Require Import Prelude CMem Node NodeCodec Heap Insert Delete.

(** Case analysis of the comparisons in the goal. *)
Ltac by_leb :=
  repeat match goal with |- context [?a <=? ?b] => destruct (Z.leb_spec a b) end; lia.

(** ** Shifting arrays *)

Lemma fmap_delete_list {A B} (f : A -> B) i (l : list A) : f <$> delete i l = delete i (f <$> l).
Proof. revert i. induction l as [|x l IH]; intros [|i]; simpl; [done|done|done|]. by rewrite <- IH. Qed.

(** The slots [i+1 .. hi] hold what the slots [i .. hi-1] held. *)
Definition moved_up {A} (i hi : nat) (l l' : list A) : Prop :=
  length l' = length l /\
  forall j, l' !! j = if decide (i < j <= hi)%nat then l !! (j - 1)%nat else l !! j.

Lemma moved_up_refl {A} hi (l : list A) : moved_up hi hi l l.
Proof. split; [done|]. intros j. rewrite decide_False by lia. done. Qed.

Lemma moved_up_step {A} i hi (l l' : list A) x :
  moved_up (S i) hi l l' -> (S i <= hi < length l)%nat -> l' !! i = Some x ->
  moved_up i hi l (<[S i := x]> l').
Proof.
  intros [Hl Hm] Hi Hx. split; [by rewrite length_insert|]. intros j.
  destruct (decide (j = S i)) as [->|Hne].
  - rewrite list_lookup_insert_eq by lia. rewrite decide_True by lia.
    rewrite Hm, decide_False in Hx by lia. by replace (S i - 1)%nat with i by lia.
  - rewrite list_lookup_insert_ne by done. rewrite Hm.
    repeat case_decide; done || lia.
Qed.

Lemma moved_up_insert {A} i hi (l l' : list A) x :
  moved_up i hi l l' -> (i <= hi < length l)%nat ->
  take (S hi) (<[i := x]> l') = take i l ++ x :: drop i (take hi l).
Proof.
  intros [Hl Hm] Hi. apply list_eq. intros j.
  destruct (decide (j < S hi)%nat) as [Hj|Hj].
  2: { rewrite !lookup_ge_None_2; [done| |]; autorewrite with clen; cbn [length];
       autorewrite with clen; lia. }
  rewrite lookup_take_lt by lia. destruct (Nat.lt_total j i) as [Hlt|[->|Hgt]].
  - rewrite list_lookup_insert_ne by lia. rewrite Hm, decide_False by lia.
    rewrite lookup_app_l by len. by rewrite lookup_take_lt by lia.
  - rewrite list_lookup_insert_eq by lia. rewrite lookup_app_r by len.
    by replace (i - length (take i l))%nat with 0%nat by len.
  - rewrite list_lookup_insert_ne by lia. rewrite Hm, decide_True by lia.
    rewrite lookup_app_r, lookup_cons_ne_0, lookup_drop, lookup_take_lt by len. f_equal. len.
Qed.

(** The slots [lo .. i-1] hold what the slots [lo+1 .. i] held. *)
Definition moved_down {A} (lo i : nat) (l l' : list A) : Prop :=
  length l' = length l /\
  forall j, l' !! j = if decide (lo <= j < i)%nat then l !! (j + 1)%nat else l !! j.

Lemma moved_down_refl {A} lo (l : list A) : moved_down lo lo l l.
Proof. split; [done|]. intros j. rewrite decide_False by lia. done. Qed.

Lemma moved_down_step {A} lo i (l l' : list A) x :
  moved_down lo i l l' -> (lo <= i < length l)%nat -> l' !! S i = Some x ->
  moved_down lo (S i) l (<[i := x]> l').
Proof.
  intros [Hl Hm] Hi Hx. split; [by rewrite length_insert|]. intros j.
  destruct (decide (j = i)) as [->|Hne].
  - rewrite list_lookup_insert_eq by lia. rewrite decide_True by lia.
    rewrite Hm, decide_False in Hx by lia. by rewrite Nat.add_1_r.
  - rewrite list_lookup_insert_ne by done. rewrite Hm.
    repeat case_decide; done || lia.
Qed.

Lemma moved_down_delete {A} lo n (l l' : list A) :
  moved_down lo n l l' -> (lo <= n < length l)%nat -> take n l' = delete lo (take (S n) l).
Proof.
  intros [Hl Hm] Hn. apply list_eq. intros j.
  destruct (decide (j < n)%nat) as [Hj|Hj].
  2: { rewrite !lookup_ge_None_2; [done| |len]. rewrite length_delete by (apply lookup_lt_is_Some; len). len. }
  rewrite lookup_take_lt by lia. rewrite Hm. case_decide.
  - rewrite list_lookup_delete_ge, lookup_take_lt by lia. f_equal. lia.
  - rewrite list_lookup_delete_lt, lookup_take_lt by lia. done.
Qed.

(** ** The entries of a leaf *)

(** The strings in the slots of a leaf; [None] for a slot without terminator. *)
Definition texts (dd : list (list Z)) : list (option (list Z)) := cstr <$> dd.

Record holds_entries (n : bplus_leaf) (ks : list Z) (ds : list (list Z)) : Prop := {
  he_wf : leaf_wf n;
  he_count : entries n = zlen ks;
  he_same : length ds = length ks;
  he_keys : take (length ks) (lf_key n) = ks;
  he_texts : take (length ks) (texts (lf_data n)) = Some <$> ds
}.

(** A leaf with other arrays. *)
Definition upd (kk : list Z) (dd : list (list Z)) (ts : list (option tidloc)) (n : bplus_leaf) : bplus_leaf :=
  on_lf_node (set_tids ts) (set_lf_data dd (set_lf_key kk n)).

Record arrays_ok (kk : list Z) (dd : list (list Z)) (ts : list (option tidloc)) : Prop := {
  ao_key : length kk = 50%nat;
  ao_data : length dd = 50%nat;
  ao_slots : Forall (fun d => zlen d = 33) dd;
  ao_tids : length ts = 50%nat
}.

Lemma leaf_arrays n : leaf_wf n -> arrays_ok (lf_key n) (lf_data n) (tids (lf_node n)).
Proof. intros []. unfold BPLUS_MAX_ENTRIES, zlen in *. split; try done; lia. Qed.

Lemma upd_self n : upd (lf_key n) (lf_data n) (tids (lf_node n)) n = n.
Proof. by destruct n as [[] ?]. Qed.

Lemma upd_wf kk dd ts n : leaf_wf n -> arrays_ok kk dd ts -> leaf_wf (upd kk dd ts n).
Proof. intros [] []. split; simpl; try done; unfold BPLUS_MAX_ENTRIES, zlen; lia. Qed.

Lemma put_entries_wf n c : leaf_wf n -> leaf_wf (put_entries n c).
Proof. by intros []. Qed.

Lemma put_entries_upd kk dd ts n c : put_entries (upd kk dd ts n) c = upd kk dd ts (put_entries n c).
Proof. done. Qed.

Section Puts.
Context (kk : list Z) (dd : list (list Z)) (ts : list (option tidloc)) (n : bplus_leaf).
Context (Hok : arrays_ok kk dd ts).

Lemma put_lkey_upd j k (Q : bplus_leaf -> Prop) :
  0 <= j < 50 -> Q (upd (<[Z.to_nat j := k]> kk) dd ts n) -> yields (put_lkey (upd kk dd ts n) j k) Q.
Proof.
  intros Hj HQ. destruct Hok. apply yields_bind, yields_aset; [simpl; unfold zlen; lia|].
  by apply yields_ret.
Qed.

Lemma put_tid_ptr_upd j p (Q : bplus_leaf -> Prop) :
  0 <= j < 50 -> Q (upd kk dd (<[Z.to_nat j := p]> ts) n) -> yields (put_tid_ptr (upd kk dd ts n) j p) Q.
Proof.
  intros Hj HQ. destruct Hok. apply yields_bind, yields_aset; [simpl; unfold zlen; lia|].
  by apply yields_ret.
Qed.

Lemma put_data_upd j s d (Q : bplus_leaf -> Prop) :
  0 <= j < 50 -> cstr s = Some d -> zlen d <= 32 ->
  (forall b, cstr b = Some d -> zlen b = 33 -> Q (upd kk (<[Z.to_nat j := b]> dd) ts n)) ->
  yields (put_data (upd kk dd ts n) j s) Q.
Proof.
  intros Hj Hs Hd HQ. destruct Hok.
  destruct (lookup_lt_is_Some_2 dd (Z.to_nat j)) as [b Hb]; [lia|].
  assert (zlen b = 33) as Lb by (eapply Forall_lookup_1 in ao_slots0; [exact ao_slots0|exact Hb]).
  destruct (strcpy_cstr b s d Hs ltac:(lia)) as (b' & E & C & L).
  eapply yields_bind, yields_aget; [lia|exact Hb|]. eapply yields_bind, yields_eq; [exact E|].
  apply yields_bind, yields_aset; [simpl; unfold zlen; lia|].
  apply yields_ret, HQ; [done|lia].
Qed.

Lemma arrays_key j k : arrays_ok (<[j := k]> kk) dd ts.
Proof. destruct Hok. split; try done. by rewrite length_insert. Qed.

Lemma arrays_tid j p : arrays_ok kk dd (<[j := p]> ts).
Proof. destruct Hok. split; try done. by rewrite length_insert. Qed.

Lemma arrays_data j b : zlen b = 33 -> arrays_ok kk (<[j := b]> dd) ts.
Proof. destruct Hok. split; try done; [by rewrite length_insert|by apply Forall_insert]. Qed.

Lemma texts_insert j b d : cstr b = Some d -> texts (<[j := b]> dd) = <[j := Some d]> (texts dd).
Proof. intros <-. apply list_fmap_insert. Qed.

(** A slot that shows a string. *)
Lemma texts_lookup j d :
  texts dd !! j = Some (Some d) -> exists b, dd !! j = Some b /\ cstr b = Some d /\ zlen d <= 32.
Proof.
  unfold texts. rewrite list_lookup_fmap. intros (b & Hb & Hc)%fmap_Some. exists b.
  split_and!; [done|done|]. destruct Hok.
  assert (zlen b = 33) by (eapply Forall_lookup_1 in ao_slots0; [exact ao_slots0|exact Hb]).
  pose proof (cstr_fits _ _ (eq_sym Hc)). lia.
Qed.

End Puts.
#[export] Hint Resolve arrays_key arrays_tid arrays_data leaf_arrays : cdef.

(** [for (i = hi; i > lo; i--)] with an invariant. *)
Lemma yields_for_down {S} (P : Z -> S -> Prop) hi lo body s (Q : S -> Prop) :
  lo <= hi -> P hi s ->
  (forall i s, lo < i <= hi -> P i s -> yields (body i s) (P (i - 1))) ->
  (forall s, P lo s -> Q s) -> yields (for_down hi lo body s) Q.
Proof.
  intros Hle H0 Hstep HQ. unfold for_down.
  destruct (for_n_rule (fun k => P (hi - k)) (Z.to_nat (hi - lo)) 0 (fun k => body (hi - k)) s)
    as (s' & E & HP).
  - by rewrite Z.sub_0_r.
  - intros k s1 Hk HP. replace (hi - (k + 1)) with (hi - k - 1) by lia. apply Hstep; [lia|done].
  - exists s'. split; [done|]. apply HQ. by replace (hi - (0 + _)) with lo in HP by lia.
Qed.

(** ** Insertion without a split *)

(** The loop of [leaf_simple_insert]. *)
Lemma shift_up_loop n ks ds (ins : nat) (Q : bplus_leaf -> Prop) :
  holds_entries n ks ds -> (ins <= length ks < 50)%nat ->
  (forall kk dd ts, arrays_ok kk dd ts ->
     moved_up ins (length ks) (lf_key n) kk -> moved_up ins (length ks) (texts (lf_data n)) (texts dd) ->
     moved_up ins (length ks) (tids (lf_node n)) ts -> Q (upd kk dd ts n)) ->
  yields (for_down (entries n) (Z.of_nat ins) (fun i leaf =>
    do k <- aget (lf_key leaf) (i - 1);
    do leaf <- put_lkey leaf i k;
    do t <- aget (tids (lf_node leaf)) (i - 1);
    do leaf <- put_tid_ptr leaf i t;
    do d <- aget (lf_data leaf) (i - 1);
    put_data leaf i d) n) Q.
Proof.
  intros [Hwf Hc Hsame Hk Hd] Hi HQ. rewrite Hc. unfold zlen. set (hi := length ks) in *.
  apply (yields_for_down (fun i leaf => exists kk dd ts, leaf = upd kk dd ts n /\ arrays_ok kk dd ts /\
    moved_up (Z.to_nat i) hi (lf_key n) kk /\ moved_up (Z.to_nat i) hi (texts (lf_data n)) (texts dd) /\
    moved_up (Z.to_nat i) hi (tids (lf_node n)) ts)).
  - lia.
  - exists (lf_key n), (lf_data n), (tids (lf_node n)). rewrite upd_self, Nat2Z.id.
    split_and!; auto using moved_up_refl with cdef.
  - intros i leaf Hir (kk & dd & ts & -> & Hok & Mk & Md & Mt).
    pose proof Hok as [Lk Ld _ Lt]. pose proof (leaf_arrays n Hwf) as [Lk' Ld' _ Lt'].
    set (p := Z.to_nat (i - 1)) in *. replace (Z.to_nat i) with (S p) in * by lia.
    destruct (lookup_lt_is_Some_2 kk p) as [k Hkp]; [lia|].
    destruct (lookup_lt_is_Some_2 ts p) as [t Htp]; [lia|].
    destruct (lookup_lt_is_Some_2 ds p) as [d Hdp]; [lia|].
    assert (texts dd !! p = Some (Some d)) as Htx.
    { rewrite (proj2 Md), decide_False by lia.
      rewrite <- (lookup_take_lt _ hi p) by lia. by rewrite Hd, list_lookup_fmap, Hdp. }
    destruct (texts_lookup kk dd ts Hok p d Htx) as (b & Hb & Cb & Lb).
    eapply yields_bind, yields_aget; [lia|exact Hkp|]. apply yields_bind, put_lkey_upd; [done|lia|].
    eapply yields_bind, yields_aget; [lia|exact Htp|]. apply yields_bind, put_tid_ptr_upd; [auto with cdef|lia|].
    eapply yields_bind, yields_aget; [lia|exact Hb|].
    eapply put_data_upd; [auto with cdef|lia|exact Cb|exact Lb|]. intros b' Cb' Lb'.
    replace (Z.to_nat i) with (S p) by lia. eexists _, _, _. split; [reflexivity|].
    split_and!; [auto with cdef| | |].
    + apply moved_up_step; [done|lia|done].
    + rewrite (texts_insert _ _ _ d) by done. apply moved_up_step; [done| |done].
      unfold texts. rewrite length_fmap. lia.
    + apply moved_up_step; [done|lia|done].
  - intros leaf (kk & dd & ts & -> & Hok & Mk & Md & Mt). rewrite Nat2Z.id in *. by apply HQ.
Qed.

(** [leaf_simple_insert] on its entries and its item pointers. *)
Lemma leaf_simple_insert_yields n tm ks ds key data d tid (ins : nat) p :
  holds_entries n ks ds -> (ins <= length ks < 50)%nat -> cstr data = Some d -> zlen d <= 32 ->
  tids (lf_node n) !! ins = Some (Some p) -> is_Some (cells tm !! p) ->
  yields (leaf_simple_insert n tm key data tid (Z.of_nat ins)) (fun '(n', tm') =>
    holds_entries n' (insert_at ins key ks) (insert_at ins d ds) /\
    take (S (length ks)) (tids (lf_node n')) = insert_at ins (Some p) (take (length ks) (tids (lf_node n))) /\
    tm' = mkTidMem (<[p := tid]> (cells tm)) (next_tid tm)).
Proof.
  intros Hh Hi Hs Hd Hp [c0 Hc0]. apply yields_bind, (shift_up_loop n ks ds); [done|done|].
  intros kk dd ts Hok Mk Md Mt. destruct Hh as [Hwf Hc Hsame Hk Hdt].
  pose proof (leaf_arrays n Hwf) as [Lk' Ld' _ Lt'].
  change (entries (upd kk dd ts n)) with (entries n). rewrite Hc, Z.min_r by (unfold zlen; lia).
  assert (ts !! ins = Some (Some p)) as Htp by (rewrite (proj2 Mt), decide_False by lia; done).
  apply yields_bind, put_lkey_upd; [done|lia|].
  eapply yields_bind, yields_bind, yields_aget; [lia|simpl; rewrite Nat2Z.id; exact Htp|].
  eapply yields_eq; [unfold store_tid; cbn [mbind option_bind]; by rewrite Hc0|].
  eapply yields_bind, put_data_upd; [auto with cdef|lia|exact Hs|exact Hd|]. intros b Cb Lb.
  apply yields_ret. rewrite Nat2Z.id. split_and!; [|simpl|done].
  - assert (arrays_ok (<[ins := key]> kk) (<[ins := b]> dd) ts) as Hok' by auto with cdef.
    split; rewrite ?insert_at_length.
    + by apply put_entries_wf, upd_wf.
    + change (entries (put_entries _ ?c)) with c. change (entries (upd _ _ _ ?n)) with (entries n).
      rewrite Hc. unfold zlen. rewrite insert_at_length. lia.
    + by rewrite Hsame.
    + simpl. rewrite (moved_up_insert ins (length ks) (lf_key n)) by (done || lia).
      by rewrite insert_at_take, Hk by lia.
    + simpl. rewrite (texts_insert _ _ _ d) by done.
      rewrite (moved_up_insert ins (length ks) (texts (lf_data n)))
        by (done || unfold texts; rewrite length_fmap; lia).
      by rewrite insert_at_take, Hdt, insert_at_fmap by lia.
  - rewrite <- (list_insert_id ts ins (Some p)) by done.
    rewrite (moved_up_insert ins (length ks) (tids (lf_node n))) by (done || lia).
    by rewrite insert_at_take by lia.
Qed.

(** Inserting at the rank keeps the keys sorted. *)
Lemma insert_at_increasing ks k :
  increasing ks -> ~ k ∈ ks -> increasing (insert_at (Z.to_nat (rank ks k)) k ks).
Proof.
  intros Hs Hk. unfold insert_at, increasing in *.
  assert (Forall (fun x => x < k) (take (Z.to_nat (rank ks k)) ks)) as Hl.
  { apply Forall_lookup. intros i x [Hx Hi]%lookup_take_Some.
    apply (rank_split ks k i x (increasing_le _ Hs) Hx). lia. }
  assert (Forall (fun x => k < x) (drop (Z.to_nat (rank ks k)) ks)) as Hr.
  { apply Forall_lookup. intros i x Hx. rewrite lookup_drop in Hx.
    pose proof (rank_split ks k _ x (increasing_le _ Hs) Hx) as Hsp.
    pose proof (rank_range ks k). assert (x <> k); [|lia]. intros ->. apply Hk. by eapply list_elem_of_lookup_2. }
  rewrite <- (take_drop (Z.to_nat (rank ks k)) ks) in Hs.
  apply StronglySorted_app in Hs as (Hcross & H1 & H2).
  apply StronglySorted_app. split_and!; [|done|by constructor].
  intros x1 x2 Hx1 Hx2. rewrite Forall_forall in Hl, Hr.
  apply elem_of_cons in Hx2 as [->|Hx2]; [by apply Hl|]. by apply Hcross.
Qed.

(** ** Splitting to the right *)

Lemma yields_while {S} (P : S -> Prop) (mu : S -> nat) cond body (Q : S -> Prop) :
  (forall s, P s -> cond s = true -> yields (body s) (fun s' => P s' /\ (mu s' < mu s)%nat)) ->
  (forall s, P s -> cond s = false -> Q s) ->
  forall fuel s, P s -> (mu s <= fuel)%nat -> yields (while_some fuel cond body s) Q.
Proof.
  intros Hstep Hend. induction fuel as [|fuel IH]; intros s HP Hmu; simpl;
    destruct (cond s) eqn:Hc; try (by apply yields_ret, Hend);
    destruct (Hstep s HP Hc) as (s' & E & HP' & Hlt); [lia|].
  rewrite E. simpl. apply IH; [done|lia].
Qed.

(** The first [j] slots, slot [r] apart, hold the elements of [src]. *)
Definition filled {A} (r j : nat) (src l : list A) : Prop :=
  forall q, (q < j)%nat -> q <> r -> l !! q = src !! (if decide (q < r)%nat then q else q - 1)%nat.

Lemma filled_nil {A} r (src l : list A) : filled r 0 src l.
Proof. intros q ?. lia. Qed.

Lemma filled_skip {A} r (src l : list A) : filled r r src l -> filled r (S r) src l.
Proof. intros Hf q Hq Hne. apply Hf; [lia|done]. Qed.

Lemma filled_step {A} r j (src l : list A) x :
  filled r j src l -> (j < length l)%nat -> j <> r ->
  src !! (if decide (j < r)%nat then j else j - 1)%nat = Some x -> filled r (S j) src (<[j := x]> l).
Proof.
  intros Hf Hj Hne Hx q Hq Hqr. destruct (decide (q = j)) as [->|].
  - by rewrite list_lookup_insert_eq.
  - rewrite list_lookup_insert_ne by done. apply Hf; [lia|done].
Qed.

Lemma filled_insert {A} r j (src l : list A) x :
  filled r j src l -> (length src < length l)%nat -> (r <= length src)%nat ->
  (length src < j)%nat \/ (j = length src /\ r = length src) ->
  take (S (length src)) (<[r := x]> l) = insert_at r x src.
Proof.
  intros Hf Hl Hr Hj. unfold insert_at. apply list_eq. intros q.
  destruct (decide (q < S (length src))%nat) as [Hq|Hq].
  2: { rewrite !lookup_ge_None_2; [done| |]; autorewrite with clen; cbn [length];
       autorewrite with clen; lia. }
  rewrite lookup_take_lt by lia. destruct (Nat.lt_total q r) as [Hlt|[->|Hgt]].
  - rewrite list_lookup_insert_ne, Hf, decide_True by lia.
    rewrite lookup_app_l by len. by rewrite lookup_take_lt by lia.
  - rewrite list_lookup_insert_eq by lia. rewrite lookup_app_r by len.
    by replace (r - length (take r src))%nat with 0%nat by len.
  - rewrite list_lookup_insert_ne, Hf, decide_False by lia.
    rewrite lookup_app_r, lookup_cons_ne_0, lookup_drop by len. f_equal. len.
Qed.

(** The loop of [leaf_split_right], from the state [(i, j, right)] on. *)
Definition right_inv (n : bplus_leaf) (ks : list Z) (ds : list (list Z)) (right0 : bplus_leaf)
    (split r : nat) (s : Z * Z * bplus_leaf) : Prop :=
  exists (i j : nat) kk dd ts,
    s = (Z.of_nat i, Z.of_nat j, upd kk dd ts right0) /\ arrays_ok kk dd ts /\
    (split <= i <= length ks)%nat /\
    (if decide (j <= r)%nat then i = (split + j)%nat else (S i = split + j)%nat) /\
    filled r j (drop split ks) kk /\ filled r j (Some <$> drop split ds) (texts dd) /\
    filled r j (drop split (take (length ks) (tids (lf_node n)))) ts /\
    ts !! r = tids (lf_node right0) !! r.

(** It decreases: the entries that are left, and the hole. *)
Definition right_mu (len r : nat) (s : Z * Z * bplus_leaf) : nat :=
  2 * (len - Z.to_nat s.1.1) + (if s.1.2 <=? Z.of_nat r then 1 else 0).

Lemma right_inv_step n ks ds right0 (split r : nat) s :
  holds_entries n ks ds -> (length ks <= 50)%nat -> (0 < split)%nat ->
  right_inv n ks ds right0 split r s -> (s.1.1 <? entries n) = true ->
  yields (let '(i, j, right') := s in
    if negb (j =? Z.of_nat r) then
      do k <- aget (lf_key n) i;
      do right' <- put_lkey right' j k;
      do t <- aget (tids (lf_node n)) i;
      do right' <- put_tid_ptr right' j t;
      do d <- aget (lf_data n) i;
      do right' <- put_data right' j d;
      Some (i + 1, j + 1, right')
    else Some (i, j + 1, right'))
  (fun s' => right_inv n ks ds right0 split r s' /\
     (right_mu (length ks) r s' < right_mu (length ks) r s)%nat).
Proof.
  intros [Hwf Hc Hsame Hk Hd] Hm Hsp (i & j & kk & dd & ts & -> & Hok & Hi & Hij & Fk & Fd & Ft & Hr) Hcond.
  simpl in Hcond. rewrite Hc in Hcond. apply Z.ltb_lt in Hcond. unfold zlen in *.
  pose proof Hok as [Lk Ld _ Lt]. pose proof (leaf_arrays n Hwf) as [Lk' Ld' _ Lt'].
  destruct (Z.eqb_spec (Z.of_nat j) (Z.of_nat r)) as [Heq|Hne]; simpl.
  - apply yields_ret. replace j with r in * by lia. rewrite decide_True in Hij by lia. split.
    + exists i, (S r), kk, dd, ts. rewrite decide_False by lia.
      split_and!; auto using filled_skip; [by rewrite Nat2Z.inj_succ|lia|lia|lia].
    + unfold right_mu. simpl. repeat case_match; lia.
  - destruct (lookup_lt_is_Some_2 ks i) as [k Hki]; [lia|].
    destruct (lookup_lt_is_Some_2 ds i) as [d Hdi]; [lia|].
    destruct (lookup_lt_is_Some_2 (tids (lf_node n)) i) as [t Hti]; [lia|].
    assert (lf_key n !! i = Some k) as Hk'.
    { rewrite <- Hki, <- Hk at 1. rewrite lookup_take_lt by lia. done. }
    assert (texts (lf_data n) !! i = Some (Some d)) as Htx.
    { rewrite <- (lookup_take_lt _ (length ks)) by lia. by rewrite Hd, list_lookup_fmap, Hdi. }
    destruct (texts_lookup _ _ _ (leaf_arrays n Hwf) _ _ Htx) as (b & Hb & Cb & Lb).
    assert (split + (if decide (j < r)%nat then j else j - 1) = i)%nat as Hsrc
      by (repeat case_decide; lia).
    assert (j < 50)%nat by (repeat case_decide; lia).
    eapply yields_bind, yields_aget; [lia|rewrite Nat2Z.id; exact Hk'|].
    apply yields_bind, put_lkey_upd; [done|lia|].
    eapply yields_bind, yields_aget; [lia|rewrite Nat2Z.id; exact Hti|].
    apply yields_bind, put_tid_ptr_upd; [auto with cdef|lia|].
    eapply yields_bind, yields_aget; [lia|rewrite Nat2Z.id; exact Hb|].
    eapply yields_bind, put_data_upd; [auto with cdef|lia|exact Cb|exact Lb|]. intros b' Cb' Lb'.
    rewrite Nat2Z.id. apply yields_ret. split.
    + exists (S i), (S j), (<[j := k]> kk), (<[j := b']> dd), (<[j := t]> ts).
      split_and!; [by rewrite !Nat2Z.inj_succ|auto with cdef|lia|lia| | | | |].
      * repeat case_decide; lia.
      * apply filled_step; [done|lia|lia|]. by rewrite lookup_drop, Hsrc.
      * rewrite (texts_insert _ _ _ d) by done. apply filled_step; [done| |lia|].
        { unfold texts. rewrite length_fmap. lia. }
        by rewrite list_lookup_fmap, lookup_drop, Hsrc, Hdi.
      * apply filled_step; [done|lia|lia|]. rewrite lookup_drop, Hsrc. by rewrite lookup_take_lt by lia.
      * rewrite list_lookup_insert_ne by lia. done.
    + unfold right_mu. simpl. repeat case_match; lia.
Qed.

(** The entries before and behind the split. *)
Lemma holds_entries_take n ks ds c :
  holds_entries n ks ds -> (c <= length ks)%nat ->
  holds_entries (put_entries n (Z.of_nat c)) (take c ks) (take c ds).
Proof.
  intros [Hwf Hc Hsame Hk Hd] Hle.
  assert (length (take c ks) = c) as Hl by (rewrite length_take; lia). split; rewrite ?Hl.
  - by apply put_entries_wf.
  - unfold zlen. by rewrite Hl.
  - rewrite length_take. lia.
  - simpl. transitivity (take c (take (length ks) (lf_key n))); [by rewrite take_take, Nat.min_l|by rewrite Hk].
  - simpl. rewrite fmap_take, <- Hd, take_take, Nat.min_l; done.
Qed.

Lemma leaf_split_right_yields n right0 tm ks ds key data d tid (ins : nat) p :
  let split := ((length ks + 1) / 2)%nat in
  holds_entries n ks ds -> leaf_wf right0 -> (0 < length ks <= 50)%nat -> (split <= ins <= length ks)%nat ->
  cstr data = Some d -> zlen d <= 32 ->
  tids (lf_node right0) !! (ins - split)%nat = Some (Some p) -> is_Some (cells tm !! p) ->
  yields (leaf_split_right n right0 tm key data tid (Z.of_nat ins)) (fun '(n', right', tm') =>
    n' = put_entries n (Z.of_nat split) /\
    holds_entries n' (take split ks) (take split ds) /\
    holds_entries right' (insert_at (ins - split) key (drop split ks)) (insert_at (ins - split) d (drop split ds)) /\
    take (S (length ks - split)) (tids (lf_node right'))
      = insert_at (ins - split) (Some p) (drop split (take (length ks) (tids (lf_node n)))) /\
    tm' = mkTidMem (<[p := tid]> (cells tm)) (next_tid tm)).
Proof.
  intros split Hh Hwf0 Hm Hins Hs Hld Hp [c0 Hc0]. unfold leaf_split_right.
  pose proof (he_count _ _ _ Hh) as Hc. pose proof (he_same _ _ _ Hh) as Hsame.
  assert (0 < split /\ split <= length ks)%nat as Hsp by (unfold split; split; dlia).
  replace (Z.quot (entries n + 1) 2) with (Z.of_nat split)
    by (rewrite Hc, Z.quot_div_nonneg by (unfold zlen; lia); unfold zlen, split; dlia).
  set (r := (ins - split)%nat) in *. replace (Z.of_nat ins - Z.of_nat split) with (Z.of_nat r) by lia.
  eapply yields_bind, (yields_while (right_inv n ks ds right0 split r) (right_mu (length ks) r)).
  - intros s Hinv Hcond. apply right_inv_step; [done|lia|lia|done|done].
  - intros ? (i & j & kk & dd & ts & -> & Hok & Hi & Hij & Fk & Fd & Ft & Hr) Hcond.
    simpl in Hcond. rewrite Hc in Hcond. apply Z.ltb_ge in Hcond. unfold zlen in Hcond.
    assert (j = S (length ks - split) \/ j = (length ks - split)%nat /\ r = (length ks - split)%nat) as Hj
      by (case_decide; lia).
    rewrite <- Hr in Hp.
    eapply yields_bind, yields_eq with (x := put_entries (upd kk dd ts right0) (Z.of_nat (S (length ks - split)))).
    { destruct (Z.ltb_spec (Z.of_nat r) (Z.of_nat j)); [do 2 f_equal; lia|].
      replace (Z.of_nat j =? Z.of_nat r) with true by lia. simpl. do 2 f_equal. lia. }
    rewrite put_entries_upd. apply yields_bind, put_lkey_upd; [done|lia|].
    eapply yields_bind, yields_bind, yields_aget; [lia|simpl; rewrite Nat2Z.id; exact Hp|].
    eapply yields_eq; [unfold store_tid; cbn [mbind option_bind]; by rewrite Hc0|].
    eapply yields_bind, put_data_upd; [auto with cdef|lia|exact Hs|exact Hld|]. intros b Cb Lb.
    apply yields_ret. rewrite Nat2Z.id.
    pose proof Hok as [Lk Ld _ Lt]. pose proof (leaf_arrays n (he_wf _ _ _ Hh)) as [_ _ _ Lt'].
    assert (length (drop split ks) = (length ks - split)%nat) as Ls by len.
    split_and!; [done|by apply holds_entries_take; [|lia]| |simpl|done].
    + assert (arrays_ok (<[r := key]> kk) (<[r := b]> dd) ts) as Hok' by auto with cdef.
      split; rewrite ?insert_at_length, ?Ls.
      * by apply upd_wf; [apply put_entries_wf|].
      * unfold zlen. rewrite insert_at_length, Ls. simpl. done.
      * rewrite length_drop. lia.
      * simpl. rewrite <- Ls. apply (filled_insert r j); [done|lia|lia|lia].
      * simpl. rewrite (texts_insert _ _ _ d), insert_at_fmap, <- Ls by done.
        replace (length (drop split ks)) with (length (Some <$> drop split ds))
          by (rewrite length_fmap, !length_drop; lia).
        apply (filled_insert r j); [done| | |]; unfold texts; rewrite !length_fmap, length_drop; lia.
    + rewrite <- (list_insert_id ts r (Some p)) by done.
      replace (length ks - split)%nat with (length (drop split (take (length ks) (tids (lf_node n))))) at 1 by len.
      apply (filled_insert r j); [done| | |]; rewrite length_drop, length_take; lia.
  - exists split, 0%nat, (lf_key right0), (lf_data right0), (tids (lf_node right0)).
    rewrite upd_self, decide_True by lia.
    split_and!; auto using filled_nil with cdef; lia.
  - unfold right_mu, loop_fuel. simpl. case_match; lia.
Qed.

(** ** Splitting to the left *)

(** The first [j] slots hold what the slots [off] further on held. *)
Definition slid {A} (off j : nat) (l l' : list A) : Prop :=
  length l' = length l /\
  forall q, l' !! q = if decide (q < j)%nat then l !! (q + off)%nat else l !! q.

Lemma slid_refl {A} off (l : list A) : slid off 0 l l.
Proof. split; [done|]. intros q. by rewrite decide_False by lia. Qed.

Lemma slid_step {A} off j (l l' : list A) x :
  slid off j l l' -> (j < length l)%nat -> l !! (j + off)%nat = Some x -> slid off (S j) l (<[j := x]> l').
Proof.
  intros [Hl Hs] Hj Hx. split; [by rewrite length_insert|]. intros q.
  destruct (decide (q = j)) as [->|].
  - rewrite list_lookup_insert_eq by lia. by rewrite decide_True by lia.
  - rewrite list_lookup_insert_ne, Hs by done. repeat case_decide; done || lia.
Qed.

Lemma slid_lookup {A} off j (l l' : list A) : slid off j l l' -> l' !! (j + off)%nat = l !! (j + off)%nat.
Proof. intros [_ Hs]. rewrite Hs. by rewrite decide_False by lia. Qed.

Lemma slid_take {A} off c (l l' : list A) :
  slid off c l l' -> take c l' = take c (drop off l).
Proof.
  intros [_ Hs]. apply list_eq. intros q. destruct (decide (q < c)%nat).
  - rewrite !lookup_take_lt, Hs, decide_True, lookup_drop by lia. f_equal. lia.
  - rewrite !lookup_take_ge by lia. done.
Qed.

Lemma take_insert_next {A} j (src l : list A) x :
  take j l = take j src -> (j < length l)%nat -> src !! j = Some x ->
  take (S j) (<[j := x]> l) = take (S j) src.
Proof.
  intros Ht Hj Hx. rewrite (take_S_r _ _ x) by by apply list_lookup_insert_eq.
  rewrite take_insert_ge, Ht by lia. by rewrite (take_S_r src _ x).
Qed.

(** The first loop: the entries below the split, with the new entry in its
    place once it has been passed. *)
Definition left_inv (n left0 : bplus_leaf) (tm : tidmem) (ks : list Z) (ds : list (list Z))
    (key : Z) (d : list Z) (tid : ItemPointerData) (p : tidloc) (r : nat) (s : sl_state) : Prop :=
  exists (i j : nat) kk dd ts,
    sl_i s = Z.of_nat i /\ sl_j s = Z.of_nat j /\ sl_left s = upd kk dd ts left0 /\ arrays_ok kk dd ts /\
    filled r j ks kk /\ filled r j (Some <$> ds) (texts dd) /\
    filled r j (take (length ks) (tids (lf_node n))) ts /\ ts !! r = Some (Some p) /\
    if decide (j <= r)%nat then i = j /\ sl_tm s = tm
    else S i = j /\ kk !! r = Some key /\ texts dd !! r = Some (Some d) /\
         sl_tm s = mkTidMem (<[p := tid]> (cells tm)) (next_tid tm).

Lemma filled_self {A} r (src l : list A) x : filled r r src l -> filled r (S r) src (<[r := x]> l).
Proof. intros Hf q Hq Hne. rewrite list_lookup_insert_ne by done. apply Hf; [lia|done]. Qed.

(** The branch [j == insert]. *)
Lemma left_inv_insert n left0 tm ks ds key data d tid p r s :
  left_inv n left0 tm ks ds key d tid p r s -> sl_j s = Z.of_nat r -> (r < 50)%nat ->
  cstr data = Some d -> zlen d <= 32 -> is_Some (cells tm !! p) ->
  yields (do left' <- put_lkey (sl_left s) (sl_j s) key;
          do left' <- put_data left' (sl_j s) data;
          do tm <- put_tid (sl_tm s) left' (sl_j s) tid;
          Some (mkSL (sl_i s) (sl_j s + 1) left' tm))
    (fun s' => left_inv n left0 tm ks ds key d tid p r s' /\ sl_i s' = sl_i s /\ sl_j s' = Z.of_nat (S r)).
Proof.
  intros (i & j & kk & dd & ts & Hsi & Hsj & Hsl & Hok & Fk & Fd & Ft & Hp & Hc) Hj Hr Hs Hd [c0 Hc0].
  rewrite Hsj in Hj. replace j with r in * by lia. rewrite Hsi, Hsj, Hsl. clear Hj Hsj.
  rewrite decide_True in Hc by lia. destruct Hc as [-> Htm]. pose proof Hok as [Lk Ld _ Lt].
  apply yields_bind, put_lkey_upd; [done|lia|].
  eapply yields_bind, put_data_upd; [auto with cdef|lia|exact Hs|exact Hd|]. intros b Cb Lb.
  eapply yields_bind, yields_bind, yields_aget; [lia|simpl; rewrite Nat2Z.id; exact Hp|].
  eapply yields_eq; [unfold store_tid; cbn [mbind option_bind]; by rewrite Htm, Hc0|].
  apply yields_ret. rewrite !Nat2Z.id. split; [|split; [done|simpl; lia]].
  exists r, (S r), (<[r := key]> kk), (<[r := b]> dd), ts. rewrite decide_False by lia.
  rewrite (texts_insert _ _ _ d) by done. simpl.
  split_and!; auto using filled_self, filled_skip with cdef; [lia| |].
  - apply list_lookup_insert_eq. lia.
  - apply list_lookup_insert_eq. unfold texts. rewrite length_fmap. lia.
Qed.

(** The other branch copies entry [i]. *)
Lemma left_inv_copy n left0 tm ks ds key d tid p r s :
  holds_entries n ks ds -> (length ks <= 50)%nat ->
  left_inv n left0 tm ks ds key d tid p r s -> sl_j s <> Z.of_nat r ->
  sl_i s < zlen ks -> sl_j s < 50 ->
  yields (do k <- aget (lf_key n) (sl_i s);
          do left' <- put_lkey (sl_left s) (sl_j s) k;
          do d <- aget (lf_data n) (sl_i s);
          do left' <- put_data left' (sl_j s) d;
          do t <- aget (tids (lf_node n)) (sl_i s);
          do left' <- put_tid_ptr left' (sl_j s) t;
          Some (mkSL (sl_i s + 1) (sl_j s + 1) left' (sl_tm s)))
    (fun s' => left_inv n left0 tm ks ds key d tid p r s' /\
               sl_i s' = sl_i s + 1 /\ sl_j s' = sl_j s + 1).
Proof.
  intros [Hwf Hc Hsame Hk Hd] Hm
    (i & j & kk & dd & ts & Hsi & Hsj & Hsl & Hok & Fk & Fd & Ft & Hp & Hcs) Hne Hi Hj.
  rewrite Hsi, Hsj, Hsl in *. unfold zlen in Hi.
  pose proof Hok as [Lk Ld _ Lt]. pose proof (leaf_arrays n Hwf) as [Lk' Ld' _ Lt'].
  destruct (lookup_lt_is_Some_2 ks i) as [k Hki]; [lia|].
  destruct (lookup_lt_is_Some_2 ds i) as [d' Hdi]; [lia|].
  destruct (lookup_lt_is_Some_2 (tids (lf_node n)) i) as [t Hti]; [lia|].
  assert (lf_key n !! i = Some k) as Hk'.
  { rewrite <- Hki, <- Hk at 1. rewrite lookup_take_lt by lia. done. }
  assert (texts (lf_data n) !! i = Some (Some d')) as Htx.
  { rewrite <- (lookup_take_lt _ (length ks)) by lia. by rewrite Hd, list_lookup_fmap, Hdi. }
  destruct (texts_lookup _ _ _ (leaf_arrays n Hwf) _ _ Htx) as (b & Hb & Cb & Lb).
  assert ((if decide (j < r)%nat then j else j - 1) = i)%nat as Hsrc by (repeat case_decide; lia).
  eapply yields_bind, yields_aget; [lia|rewrite Nat2Z.id; exact Hk'|].
  apply yields_bind, put_lkey_upd; [done|lia|].
  eapply yields_bind, yields_aget; [lia|rewrite Nat2Z.id; exact Hb|].
  eapply yields_bind, put_data_upd; [auto with cdef|lia|exact Cb|exact Lb|]. intros b' Cb' Lb'.
  eapply yields_bind, yields_aget; [lia|rewrite Nat2Z.id; exact Hti|].
  apply yields_bind, put_tid_ptr_upd; [auto with cdef|lia|].
  rewrite Nat2Z.id. apply yields_ret. split; [|done].
  exists (S i), (S j), (<[j := k]> kk), (<[j := b']> dd), (<[j := t]> ts).
  rewrite (texts_insert _ _ _ d') by done. simpl.
  split_and!; [lia|lia|done|auto with cdef| | | | |].
  - apply filled_step; [done|lia|lia|]. by rewrite Hsrc.
  - apply filled_step; [done| |lia|]; [unfold texts; rewrite length_fmap; lia|].
    by rewrite list_lookup_fmap, Hsrc, Hdi.
  - apply filled_step; [done|lia|lia|]. rewrite Hsrc. by rewrite lookup_take_lt by lia.
  - by rewrite list_lookup_insert_ne by lia.
  - destruct (decide (j <= r)%nat) as [Hle|Hgt].
    + rewrite decide_True by lia. destruct Hcs. split; [lia|done].
    + rewrite decide_False by lia. destruct Hcs as (? & ? & ? & ?).
      rewrite !list_lookup_insert_ne by lia. split_and!; [lia|done|done|done].
Qed.

(** The second loop: keys and item pointers of [n] slide down by [off], its
    strings go to [left1]. *)
Lemma left_slide n left1 ks ds (off : nat) (Q : bplus_leaf * bplus_leaf -> Prop) :
  holds_entries n ks ds -> leaf_wf left1 -> (off <= length ks <= 50)%nat ->
  (forall kk ts dd, arrays_ok kk dd ts ->
     slid off (length ks - off) (lf_key n) kk -> slid off (length ks - off) (tids (lf_node n)) ts ->
     take (length ks - off) (texts dd) = Some <$> drop off ds ->
     Q (upd kk (lf_data n) ts n, upd (lf_key left1) dd (tids (lf_node left1)) left1)) ->
  yields (for_range (Z.of_nat off) (entries n) (fun i' st =>
    let '(leaf, left') := st in
    let j := i' - Z.of_nat off in
    do k <- aget (lf_key leaf) i';
    do leaf <- put_lkey leaf j k;
    do t <- aget (tids (lf_node leaf)) i';
    do leaf <- put_tid_ptr leaf j t;
    do d <- aget (lf_data leaf) i';
    do left' <- put_data left' j d;
    Some (leaf, left')) (n, left1)) Q.
Proof.
  intros [Hwf Hc Hsame Hk Hd] Hwf1 Hoff HQ. rewrite Hc. unfold zlen.
  pose proof (leaf_arrays n Hwf) as Ha. pose proof (leaf_arrays left1 Hwf1) as Ha1.
  pose proof Ha as [Lk' Ld' Lsl Lt'].
  apply (yields_for (fun i' st => exists kk ts dd,
    st = (upd kk (lf_data n) ts n, upd (lf_key left1) dd (tids (lf_node left1)) left1) /\
    arrays_ok kk dd ts /\ slid off (Z.to_nat i' - off) (lf_key n) kk /\
    slid off (Z.to_nat i' - off) (tids (lf_node n)) ts /\
    take (Z.to_nat i' - off) (texts dd) = take (Z.to_nat i' - off) (Some <$> drop off ds))).
  - lia.
  - exists (lf_key n), (tids (lf_node n)), (lf_data left1). rewrite !upd_self, Nat2Z.id, Nat.sub_diag.
    destruct Ha1. split_and!; auto using slid_refl. by split.
  - intros i' st Hi (kk & ts & dd & -> & Hok & Sk & St & Td). destruct Hok as [Lk Ld Ls Lt].
    set (j := (Z.to_nat i' - off)%nat) in *.
    destruct (lookup_lt_is_Some_2 (lf_key n) (j + off)) as [k Hki]; [lia|].
    destruct (lookup_lt_is_Some_2 ds (j + off)) as [d' Hdi]; [lia|].
    destruct (lookup_lt_is_Some_2 (tids (lf_node n)) (j + off)) as [t Hti]; [lia|].
    assert (texts (lf_data n) !! (j + off)%nat = Some (Some d')) as Htx.
    { rewrite <- (lookup_take_lt _ (length ks)) by lia. by rewrite Hd, list_lookup_fmap, Hdi. }
    destruct (texts_lookup _ _ _ Ha _ _ Htx) as (b & Hb & Cb & Lb).
    assert (Z.to_nat i' = j + off)%nat as Hij by lia.
    assert (Z.to_nat (i' - Z.of_nat off) = j) as Hij' by lia.
    eapply yields_bind, yields_aget; [lia|simpl; rewrite Hij, (slid_lookup _ _ _ _ Sk); exact Hki|].
    apply yields_bind, put_lkey_upd; [split; try done; lia|lia|].
    eapply yields_bind, yields_aget; [lia|simpl; rewrite Hij, (slid_lookup _ _ _ _ St); exact Hti|].
    apply yields_bind, put_tid_ptr_upd; [split; try done; rewrite length_insert; lia|lia|].
    eapply yields_bind, yields_aget; [lia|simpl; rewrite Hij; exact Hb|].
    eapply yields_bind, put_data_upd; [destruct Ha1; split; done || lia|lia|exact Cb|exact Lb|].
    intros b' Cb' Lb'. rewrite Hij'. apply yields_ret.
    replace (Z.to_nat (i' + 1) - off)%nat with (S j) by lia.
    exists (<[j := k]> kk), (<[j := t]> ts), (<[j := b']> dd).
    rewrite (texts_insert _ _ _ d') by done. split_and!; [done| | | |].
    + split; rewrite ?length_insert; try lia. by apply Forall_insert.
    + apply slid_step; [done|lia|done].
    + apply slid_step; [done|lia|done].
    + apply take_insert_next; [done| |].
      * unfold texts. rewrite length_fmap. lia.
      * rewrite list_lookup_fmap, lookup_drop. by rewrite Nat.add_comm, Hdi.
  - intros st (kk & ts & dd & -> & Hok & Sk & St & Td). rewrite Nat2Z.id in *.
    rewrite (take_ge (Some <$> _)) in Td by (rewrite length_fmap, length_drop; lia).
    by apply HQ.
Qed.

(** The first loop and the entry behind it. *)
Lemma left_first_loop n left0 tm ks ds key data d tid p (split r : nat) (Q : sl_state -> Prop) :
  holds_entries n ks ds -> leaf_wf left0 -> (0 < split <= length ks)%nat -> (length ks <= 50)%nat ->
  (r < split)%nat -> cstr data = Some d -> zlen d <= 32 ->
  tids (lf_node left0) !! r = Some (Some p) -> is_Some (cells tm !! p) ->
  (forall s, left_inv n left0 tm ks ds key d tid p r s ->
     sl_i s = Z.of_nat (split - 1) -> sl_j s = Z.of_nat split -> Q s) ->
  yields (do s <- while_some loop_fuel (fun s => sl_i s <? Z.of_nat split - 1) (fun s =>
    let '(mkSL i j left' tm) := s in
    if j =? Z.of_nat r then
      do left' <- put_lkey left' j key;
      do left' <- put_data left' j data;
      do tm <- put_tid tm left' j tid;
      Some (mkSL i (j + 1) left' tm)
    else
      do k <- aget (lf_key n) i;
      do left' <- put_lkey left' j k;
      do d <- aget (lf_data n) i;
      do left' <- put_data left' j d;
      do t <- aget (tids (lf_node n)) i;
      do left' <- put_tid_ptr left' j t;
      Some (mkSL (i + 1) (j + 1) left' tm)) (mkSL 0 0 left0 tm);
  (let '(mkSL i j left' tm) := s in
    if j =? Z.of_nat r then
      do left' <- put_lkey left' j key;
      do left' <- put_data left' j data;
      do tm <- put_tid tm left' j tid;
      Some (mkSL i (j + 1) left' tm)
    else Some s)) Q.
Proof.
  intros Hh Hwf0 Hsp Hm Hr Hs Hd Hp Hc0 HQ.
  eapply yields_bind, (yields_while
    (fun s => left_inv n left0 tm ks ds key d tid p r s /\ sl_i s <= Z.of_nat split - 1)
    (fun s => (2 * (split - 1 - Z.to_nat (sl_i s)) + (if (sl_j s <=? Z.of_nat r)%Z then 1 else 0))%nat)).
  - intros s [Hinv Hle] Hcond. apply Z.ltb_lt in Hcond.
    pose proof Hinv as (i & j & ? & ? & ? & Hsi & Hsj & _ & _ & _ & _ & _ & _ & Hij).
    assert (0 <= sl_i s /\ 0 <= sl_j s <= sl_i s + 1 /\ (sl_j s <= Z.of_nat r -> sl_j s = sl_i s)) as (Hi0 & Hj0 & Hij')
      by (case_decide; lia).
    destruct (Z.eqb_spec (sl_j s) (Z.of_nat r)) as [Heq|Hne].
    + eapply yields_wand.
      { destruct s as [si sj sl st]. simpl in Heq |- *. rewrite (proj2 (Z.eqb_eq _ _) Heq).
        by apply (left_inv_insert n left0 tm ks ds key data d tid p r (mkSL si sj sl st)); [| |lia|..]. }
      intros s' (Hinv' & Ei & Ej). rewrite Ei, Ej. split; [split; [done|lia]|].
      clear Hij. by_leb.
    + eapply yields_wand.
      { destruct s as [si sj sl st]. simpl in Hne |- *. rewrite (proj2 (Z.eqb_neq _ _) Hne).
        apply (left_inv_copy n left0 tm ks ds key d tid p r (mkSL si sj sl st));
          simpl in *; try done; unfold zlen; lia. }
      intros s' (Hinv' & Ei & Ej). rewrite Ei, Ej. split; [split; [done|lia]|].
      clear Hij. by_leb.
  - intros s [Hinv Hle] Hcond. apply Z.ltb_ge in Hcond.
    pose proof Hinv as (i & j & ? & ? & ? & Hsi & Hsj & _ & _ & _ & _ & _ & _ & Hij).
    destruct (Z.eqb_spec (sl_j s) (Z.of_nat r)) as [Heq|Hne].
    + eapply yields_wand.
      { destruct s as [si sj sl st]. simpl in Heq |- *. rewrite (proj2 (Z.eqb_eq _ _) Heq).
        by apply (left_inv_insert n left0 tm ks ds key data d tid p r (mkSL si sj sl st)); [| |lia|..]. }
      intros s' (Hinv' & Ei & Ej). rewrite decide_True in Hij by lia. apply HQ; [done|lia|lia].
    + destruct s as [si sj sl st]. simpl in *. rewrite (proj2 (Z.eqb_neq _ _) Hne).
      apply yields_ret, HQ; [done|simpl; lia|]. simpl. case_decide; lia.
  - split; [|simpl; lia].
    exists 0%nat, 0%nat, (lf_key left0), (lf_data left0), (tids (lf_node left0)).
    rewrite upd_self, decide_True by lia. split_and!; auto using filled_nil with cdef.
  - unfold loop_fuel. simpl. case_match; lia.
Qed.

(** The new entry stands among the entries below the split. *)
Lemma filled_insert_take {A} r c (src l : list A) x :
  filled r (S c) src l -> (r <= c <= length src)%nat -> (c < length l)%nat -> l !! r = Some x ->
  take (S c) l = insert_at r x (take c src).
Proof.
  intros Hf Hr Hl Hx. rewrite <- (list_insert_id l r x) at 1 by done.
  assert (length (take c src) = c) as Hc by (rewrite length_take; lia).
  rewrite <- Hc at 1. apply (filled_insert r (S c)); [|lia|lia|lia].
  intros q Hq Hne. rewrite Hf by done. symmetry. apply lookup_take_lt. case_decide; lia.
Qed.

(** What [leaf_split_left] leaves in the two leaves.  The keys are split as they
    should be; the strings are not: [n] keeps the strings of its old first
    entries, and the new leaf gets the strings [n] should have kept. *)
Lemma leaf_split_left_yields n left0 tm ks ds key data d tid (ins : nat) p :
  let split := ((length ks + 1) / 2)%nat in
  let keep := (length ks - (split - 1))%nat in
  holds_entries n ks ds -> leaf_wf left0 -> (0 < length ks <= 50)%nat -> (ins < split)%nat ->
  cstr data = Some d -> zlen d <= 32 ->
  tids (lf_node left0) !! ins = Some (Some p) -> is_Some (cells tm !! p) ->
  yields (leaf_split_left n left0 tm key data tid (Z.of_nat ins)) (fun '(n', left', tm') =>
    holds_entries n' (drop (split - 1) ks) (take keep ds) /\
    holds_entries left' (insert_at ins key (take (split - 1) ks)) (take split (drop (split - 1) ds)) /\
    take split (tids (lf_node left')) = insert_at ins (Some p) (take (split - 1) (tids (lf_node n))) /\
    take keep (tids (lf_node n')) = take keep (drop (split - 1) (tids (lf_node n))) /\
    tm' = mkTidMem (<[p := tid]> (cells tm)) (next_tid tm)).
Proof.
  intros split keep Hh Hwf0 Hm Hins Hs Hld Hp Hc0. unfold leaf_split_left.
  pose proof (he_count _ _ _ Hh) as Hc. pose proof (he_same _ _ _ Hh) as Hsame.
  assert (0 < split /\ split <= length ks /\ split <= keep)%nat as Hsp by (unfold keep, split; split_and!; dlia).
  replace (Z.quot (entries n + 1) 2) with (Z.of_nat split)
    by (rewrite Hc, Z.quot_div_nonneg by (unfold zlen; lia); unfold zlen, split; dlia).
  destruct (left_first_loop n left0 tm ks ds key data d tid p split ins
    (fun s => left_inv n left0 tm ks ds key d tid p ins s /\ sl_i s = Z.of_nat (split - 1) /\ sl_j s = Z.of_nat split))
    as (s & E & Hinv & Hsi & Hsj); [done|done|lia|lia|done|done|done|done|done|done|].
  apply bind_Some in E as (s1 & E1 & E2). rewrite E1. cbn [mbind option_bind]. rewrite E2. clear E1 E2 s1.
  cbn [mbind option_bind]. destruct Hinv as (i & j & kk & dd & ts & Hi & Hj & Hl & Hok & Fk & Fd & Ft & Htp & Hcs).
  destruct s as [si sj sl st]. cbn [sl_i sl_j sl_left sl_tm] in *. subst si sl.
  replace j with split in * by lia. replace i with (split - 1)%nat in * by lia.
  rewrite decide_False in Hcs by lia. destruct Hcs as (_ & Hkk & Hdd & ->). subst sj.
  rewrite put_entries_upd.
  assert (leaf_wf (put_entries left0 (Z.of_nat split))) as Hwf1 by by apply put_entries_wf.
  pose proof (leaf_arrays n (he_wf _ _ _ Hh)) as [Lk' Ld' Lsl' Lt']. pose proof Hok as [Lk Ld Lsl Lt].
  apply yields_bind, (left_slide n (upd kk dd ts (put_entries left0 (Z.of_nat split))) ks ds);
    [done|by apply upd_wf|lia|].
  intros kk' ts' dd' Hok' Sk St Td. fold keep in Sk, St, Td. apply yields_ret.
  pose proof Hok' as [Lk2 Ld2 Lsl2 Lt2]. split_and!; [| | | |done].
  - split; rewrite ?length_drop.
    + apply put_entries_wf, upd_wf; [by apply he_wf in Hh|]. by split.
    + transitivity (Z.max 0 (entries n - Z.of_nat (split - 1))); [done|].
      rewrite Hc. unfold zlen. rewrite length_drop. lia.
    + rewrite length_take. lia.
    + simpl. fold keep. rewrite (slid_take _ _ _ _ Sk).
      assert (take keep (drop (split - 1) (lf_key n)) = drop (split - 1) (take (length ks) (lf_key n))) as ->
        by (rewrite skipn_firstn_comm; reflexivity).
      by rewrite (he_keys _ _ _ Hh).
    + simpl. fold keep. rewrite fmap_take, <- (he_texts _ _ _ Hh), take_take. f_equal. lia.
  - assert (length (insert_at ins key (take (split - 1) ks)) = split) as Hli
      by (rewrite insert_at_length, length_take; lia).
    split; rewrite ?Hli.
    + apply upd_wf; [by apply upd_wf|]. split; simpl; done || lia.
    + unfold zlen. by rewrite Hli.
    + rewrite length_take, length_drop. lia.
    + simpl. replace split with (S (split - 1)) at 1 by lia.
      apply filled_insert_take; [by replace (S (split - 1)) with split by lia|lia|lia|done].
    + simpl. rewrite fmap_take, <- Td, take_take. f_equal. lia.
  - simpl. replace split with (S (split - 1)) at 1 by lia.
    rewrite (filled_insert_take ins (split - 1) _ ts (Some p) ltac:(replace (S (split - 1)) with split by lia; exact Ft));
      [|rewrite length_take; lia|lia|done].
    by rewrite take_take, Nat.min_l by lia.
  - simpl. apply (slid_take _ _ _ _ St).
Qed.

(** ** Deletion *)

(** Slot [i] of a leaf that holds entries. *)
Lemma entry_lookup n ks ds i k d :
  holds_entries n ks ds -> ks !! i = Some k -> ds !! i = Some d ->
  lf_key n !! i = Some k /\ exists b, lf_data n !! i = Some b /\ cstr b = Some d /\ zlen d <= 32.
Proof.
  intros [Hwf Hc Hsame Hk Hd] Hki Hdi. pose proof (lookup_lt_Some _ _ _ Hki). split.
  - rewrite <- (lookup_take_lt _ (length ks)) by lia. by rewrite Hk.
  - apply (texts_lookup _ _ _ (leaf_arrays n Hwf)).
    rewrite <- (lookup_take_lt _ (length ks)) by lia. by rewrite Hd, list_lookup_fmap, Hdi.
Qed.

(** The loop that moves the entries behind [remove] down. *)
Lemma shift_down_loop n ks ds (rm : nat) (Q : bplus_leaf -> Prop) :
  holds_entries n ks ds -> (rm < length ks <= 50)%nat ->
  (forall kk dd, arrays_ok kk dd (tids (lf_node n)) ->
     take (length ks - 1) kk = delete rm ks -> take (length ks - 1) (texts dd) = Some <$> delete rm ds ->
     Q (upd kk dd (tids (lf_node n)) n)) ->
  yields (for_range (Z.of_nat rm) (entries n - 1) (fun i leaf =>
    do k <- aget (lf_key leaf) (i + 1);
    do leaf <- put_lkey leaf i k;
    do d <- aget (lf_data leaf) (i + 1);
    put_data leaf i d) n) Q.
Proof.
  intros Hh Hrm HQ. pose proof Hh as [Hwf Hc Hsame Hk Hd]. rewrite Hc. unfold zlen.
  pose proof (leaf_arrays n Hwf) as Ha. pose proof Ha as [Lk' Ld' _ Lt'].
  apply (yields_for (fun i leaf => exists kk dd, leaf = upd kk dd (tids (lf_node n)) n /\
    arrays_ok kk dd (tids (lf_node n)) /\ moved_down rm (Z.to_nat i) (lf_key n) kk /\
    moved_down rm (Z.to_nat i) (texts (lf_data n)) (texts dd))).
  - lia.
  - exists (lf_key n), (lf_data n). rewrite upd_self, Nat2Z.id. split_and!; auto using moved_down_refl.
  - intros i leaf Hi (kk & dd & -> & Hok & Mk & Md). pose proof Hok as [Lk Ld _ Lt].
    set (q := Z.to_nat i) in *.
    destruct (lookup_lt_is_Some_2 kk (S q)) as [k Hkq]; [lia|].
    destruct (lookup_lt_is_Some_2 ds (S q)) as [d Hdq]; [lia|].
    assert (texts dd !! S q = Some (Some d)) as Htx.
    { rewrite (proj2 Md), decide_False by lia.
      rewrite <- (lookup_take_lt _ (length ks)) by lia. by rewrite Hd, list_lookup_fmap, Hdq. }
    destruct (texts_lookup _ _ _ Hok _ _ Htx) as (b & Hb & Cb & Lb).
    replace (Z.to_nat (i + 1)) with (S q) by lia.
    eapply yields_bind, yields_aget; [lia|simpl; replace (Z.to_nat (i + 1)) with (S q) by lia; exact Hkq|].
    apply yields_bind, put_lkey_upd; [done|lia|].
    eapply yields_bind, yields_aget; [lia|simpl; replace (Z.to_nat (i + 1)) with (S q) by lia; exact Hb|].
    eapply put_data_upd; [auto with cdef|lia|exact Cb|exact Lb|]. intros b' Cb' Lb'.
    eexists _, _. split; [reflexivity|]. fold q. rewrite (texts_insert _ _ _ d) by done.
    split_and!; [auto with cdef| |]; apply moved_down_step; try done; [lia|].
    unfold texts. rewrite length_fmap. lia.
  - intros leaf (kk & dd & -> & Hok & Mk & Md). replace (Z.to_nat (Z.of_nat (length ks) - 1)) with (length ks - 1)%nat in * by lia.
    assert (S (length ks - 1) = length ks) as HS by lia.
    apply HQ; [done| |].
    + rewrite (moved_down_delete _ _ _ _ Mk) by lia. by rewrite HS, Hk.
    + rewrite (moved_down_delete _ _ _ _ Md) by (unfold texts; rewrite length_fmap; lia).
      rewrite HS, Hd. symmetry. apply fmap_delete_list.
Qed.

Lemma leaf_simple_remove_yields n ks ds (rm : nat) :
  holds_entries n ks ds -> (rm < length ks <= 50)%nat ->
  yields (leaf_simple_remove n (Z.of_nat rm)) (fun n' =>
    holds_entries n' (delete rm ks) (delete rm ds) /\ tids (lf_node n') = tids (lf_node n)).
Proof.
  intros Hh Hrm. apply yields_bind, (shift_down_loop n ks ds); [done|done|].
  intros kk dd Hok Hk' Hd'. apply yields_ret. split; [|done]. destruct Hh as [Hwf Hc Hsame Hk Hd].
  assert (length (delete rm ks) = length ks - 1)%nat as Hl by (apply length_delete, lookup_lt_is_Some; lia).
  split; rewrite ?Hl; simpl.
  - by apply put_entries_wf, upd_wf.
  - transitivity (entries n - 1); [done|]. rewrite Hc. unfold zlen. lia.
  - rewrite length_delete by (apply lookup_lt_is_Some; lia). lia.
  - done.
  - done.
Qed.

(** Copying an entry behind the last one. *)
Lemma append_step {B} n ks ds kk dd (c : nat) k d o b (g : bplus_leaf -> list Z -> option B)
    (f : bplus_leaf -> option B) (Q : B -> Prop) :
  (forall leaf d, g leaf d = (do leaf <- put_data leaf (Z.of_nat c) d; f leaf)) ->
  arrays_ok kk dd (tids (lf_node n)) -> (c < 50)%nat -> o = Some b -> cstr b = Some d -> zlen d <= 32 ->
  take c kk = ks -> take c (texts dd) = Some <$> ds ->
  (forall kk' dd', arrays_ok kk' dd' (tids (lf_node n)) ->
     take (S c) kk' = ks ++ [k] -> take (S c) (texts dd') = Some <$> (ds ++ [d]) ->
     yields (f (upd kk' dd' (tids (lf_node n)) n)) Q) ->
  yields (do leaf <- put_lkey (upd kk dd (tids (lf_node n)) n) (Z.of_nat c) k;
          do d <- o; g leaf d) Q.
Proof.
  intros Hg Hok Hc -> Hb Hd Hk Ht HQ. pose proof Hok as [Lk Ld _ Lt].
  apply yields_bind, put_lkey_upd; [done|lia|]. cbn [mbind option_bind]. rewrite Hg.
  eapply yields_bind, put_data_upd; [auto with cdef|lia|exact Hb|exact Hd|]. intros b' Cb' Lb'.
  rewrite Nat2Z.id. apply HQ; [auto with cdef| |].
  - apply take_insert_snoc; [lia|done].
  - rewrite (texts_insert _ _ _ d), fmap_app by done.
    apply take_insert_snoc; [unfold texts; rewrite length_fmap; lia|done].
Qed.

Lemma put_data_ret leaf j d : put_data leaf j d = (do leaf <- put_data leaf j d; Some leaf).
Proof. by destruct (put_data leaf j d). Qed.

(** A leaf whose arrays have been extended. *)
Lemma holds_entries_upd n kk dd ks ds c :
  leaf_wf n -> arrays_ok kk dd (tids (lf_node n)) -> c = zlen ks -> length ds = length ks ->
  take (length ks) kk = ks -> take (length ks) (texts dd) = Some <$> ds ->
  holds_entries (put_entries (upd kk dd (tids (lf_node n)) n) c) ks ds.
Proof. intros ? ? -> ? ? ?. split; try done. by apply put_entries_wf, upd_wf. Qed.

Lemma leaf_merge_from_right_yields n right0 ks ds ks' ds' :
  holds_entries n ks ds -> holds_entries right0 ks' ds' -> (length ks + length ks' <= 50)%nat ->
  yields (leaf_merge_from_right n right0) (fun n' =>
    holds_entries n' (ks ++ ks') (ds ++ ds') /\ tids (lf_node n') = tids (lf_node n)).
Proof.
  intros Hh Hr Hm. pose proof Hh as [Hwf Hc Hsame Hk Hd]. pose proof (he_count _ _ _ Hr) as Hcr.
  pose proof (he_same _ _ _ Hr) as Hsr. unfold leaf_merge_from_right. rewrite Hc, Hcr. unfold zlen.
  eapply yields_bind, (yields_for (fun j leaf => exists kk dd, leaf = upd kk dd (tids (lf_node n)) n /\
    arrays_ok kk dd (tids (lf_node n)) /\
    take (length ks + Z.to_nat j) kk = ks ++ take (Z.to_nat j) ks' /\
    take (length ks + Z.to_nat j) (texts dd) = Some <$> (ds ++ take (Z.to_nat j) ds'))).
  - lia.
  - exists (lf_key n), (lf_data n). rewrite upd_self. change (Z.to_nat 0) with 0%nat.
    rewrite Nat.add_0_r, !take_0, !app_nil_r. split_and!; auto with cdef.
  - intros j leaf Hj (kk & dd & -> & Hok & Tk & Td).
    destruct (lookup_lt_is_Some_2 ks' (Z.to_nat j)) as [k Hki]; [lia|].
    destruct (lookup_lt_is_Some_2 ds' (Z.to_nat j)) as [d Hdi]; [lia|].
    destruct (entry_lookup _ _ _ _ _ _ Hr Hki Hdi) as (Hk' & b & Hb & Cb & Lb).
    eapply yields_bind, yields_aget; [lia|exact Hk'|].
    replace (Z.of_nat (length ks) + j) with (Z.of_nat (length ks + Z.to_nat j)) by lia.
    eapply append_step; [intros; apply put_data_ret|done|lia|by apply aget_Some; split; [lia|exact Hb]|exact Cb|exact Lb|exact Tk|exact Td|].
    intros kk' dd' Hok' Tk' Td'. apply yields_ret. exists kk', dd'.
    replace (length ks + Z.to_nat (j + 1))%nat with (S (length ks + Z.to_nat j)) by lia.
    replace (Z.to_nat (j + 1)) with (S (Z.to_nat j)) by lia.
    rewrite (take_S_r ks' _ k), (take_S_r ds' _ d), !app_assoc by done. by split_and!.
  - intros leaf (kk & dd & -> & Hok & Tk & Td). apply yields_ret. rewrite Nat2Z.id in *.
    rewrite (take_ge ks') in Tk by lia. rewrite (take_ge ds') in Td by lia. split; [|done].
    apply holds_entries_upd; rewrite ?length_app; try done; [|lia]. len.
Qed.

(** The first [j] elements without element [rm]. *)
Definition kept {A} (rm j : nat) (l : list A) : list A := take (Nat.min j rm) l ++ drop (S rm) (take j l).

Lemma kept_step {A} rm j (l : list A) x :
  l !! j = Some x -> j <> rm -> kept rm (S j) l = kept rm j l ++ [x].
Proof.
  intros Hx Hne. pose proof (lookup_lt_Some _ _ _ Hx). unfold kept.
  destruct (decide (j < rm)%nat).
  - rewrite !Nat.min_l by lia. rewrite (take_S_r _ _ x) by done.
    rewrite !drop_ge by (rewrite ?length_app, ?length_take; simpl; lia). by rewrite !app_nil_r.
  - rewrite !Nat.min_r by lia. rewrite <- app_assoc. f_equal.
    rewrite (take_S_r _ _ x) by done. rewrite drop_app_le by (rewrite length_take; lia). done.
Qed.

Lemma kept_skip {A} rm (l : list A) : kept rm (S rm) l = kept rm rm l.
Proof.
  unfold kept. rewrite Nat.min_r, Nat.min_id by lia.
  rewrite !drop_ge by (rewrite length_take; lia). done.
Qed.

Lemma kept_all {A} rm (l : list A) : (rm < length l)%nat -> kept rm (length l) l = delete rm l.
Proof.
  intros Hrm. unfold kept. rewrite Nat.min_r, firstn_all by lia. by rewrite delete_take_drop.
Qed.

Lemma leaf_merge_int64_to_left_yields n left0 ks ds ks' ds' (rm : nat) :
  holds_entries n ks ds -> holds_entries left0 ks' ds' -> (rm < length ks)%nat ->
  (length ks' + length ks <= 50)%nat ->
  yields (leaf_merge_int64_to_left n left0 (Z.of_nat rm)) (fun left' =>
    holds_entries left' (ks' ++ delete rm ks) (ds' ++ delete rm ds) /\
    tids (lf_node left') = tids (lf_node left0)).
Proof.
  intros Hn Hh Hrm Hm. pose proof Hh as [Hwf Hc Hsame Hk Hd]. pose proof (he_count _ _ _ Hn) as Hcn.
  pose proof (he_same _ _ _ Hn) as Hsn. unfold leaf_merge_int64_to_left. rewrite Hc, Hcn. unfold zlen.
  eapply yields_bind, (yields_for (fun j st => exists kk dd,
    st = (Z.of_nat (length (ks' ++ kept rm (Z.to_nat j) ks)), upd kk dd (tids (lf_node left0)) left0) /\
    arrays_ok kk dd (tids (lf_node left0)) /\
    take (length (ks' ++ kept rm (Z.to_nat j) ks)) kk = ks' ++ kept rm (Z.to_nat j) ks /\
    take (length (ks' ++ kept rm (Z.to_nat j) ks)) (texts dd) = Some <$> (ds' ++ kept rm (Z.to_nat j) ds))).
  - lia.
  - exists (lf_key left0), (lf_data left0). rewrite upd_self. unfold kept. simpl.
    rewrite ?drop_nil, !app_nil_r. split_and!; auto with cdef.
  - intros j st Hj (kk & dd & -> & Hok & Tk & Td).
    replace (Z.to_nat (j + 1)) with (S (Z.to_nat j)) by lia.
    destruct (Z.eqb_spec j (Z.of_nat rm)) as [->|Hne]; simpl.
    { apply yields_ret. exists kk, dd. rewrite Nat2Z.id, !kept_skip in *. by split_and!. }
    destruct (lookup_lt_is_Some_2 ks (Z.to_nat j)) as [k Hki]; [lia|].
    destruct (lookup_lt_is_Some_2 ds (Z.to_nat j)) as [d Hdi]; [lia|].
    destruct (entry_lookup _ _ _ _ _ _ Hn Hki Hdi) as (Hk' & b & Hb & Cb & Lb).
    rewrite (kept_step _ _ _ k Hki), (kept_step _ _ _ d Hdi), !app_assoc by lia.
    set (c := length (ks' ++ kept rm (Z.to_nat j) ks)) in *.
    assert (c < 50)%nat as Hc50.
    { unfold c, kept. rewrite !length_app, length_drop, !length_take. lia. }
    eapply yields_bind, yields_aget; [lia|exact Hk'|].
    eapply append_step; [intros; reflexivity|done|lia|by apply aget_Some; split; [lia|exact Hb]
      |exact Cb|exact Lb|exact Tk|exact Td|].
    intros kk' dd' Hok' Tk' Td'. apply yields_ret. exists kk', dd'.
    replace (length ((ks' ++ kept rm (Z.to_nat j) ks) ++ [k])) with (S c) by (rewrite length_app; simpl; lia).
    split_and!; try done. f_equal. lia.
  - intros st (kk & dd & -> & Hok & Tk & Td). apply yields_ret. rewrite Nat2Z.id in *.
    rewrite kept_all in * by lia. rewrite <- Hsn, kept_all in Td by lia. split; [|done].
    apply holds_entries_upd; try done.
    rewrite !length_app, Hsame, !length_delete by (apply lookup_lt_is_Some; lia). lia.
Qed.

(** Making room at the front: entry [rm] falls out. *)
Lemma moved_up_shift {A} rm (l l' : list A) x :
  moved_up 0 rm l l' -> (rm < length l)%nat -> <[0%nat := x]> l' = x :: delete rm l.
Proof.
  intros [Hl Hm] Hrm. apply list_eq. intros [|j].
  - rewrite list_lookup_insert_eq by lia. done.
  - rewrite list_lookup_insert_ne, Hm by lia. change ((x :: delete rm l) !! S j) with (delete rm l !! j).
    destruct (decide (j < rm)%nat).
    + rewrite decide_True, list_lookup_delete_lt by lia. f_equal. lia.
    + rewrite decide_False, list_lookup_delete_ge by lia. done.
Qed.

Lemma delete_take {A} rm n (l : list A) :
  (rm <= n < length l)%nat -> take n (delete rm l) = delete rm (take (S n) l).
Proof.
  intros Hn. apply list_eq. intros j. destruct (decide (j < n)%nat).
  - rewrite lookup_take_lt by done. destruct (decide (j < rm)%nat).
    + by rewrite !list_lookup_delete_lt, lookup_take_lt by lia.
    + by rewrite !list_lookup_delete_ge, lookup_take_lt by lia.
  - rewrite !lookup_ge_None_2; [done| |len].
    rewrite length_delete by (apply lookup_lt_is_Some; len). len.
Qed.

(** The front of a leaf after [moved_up 0 rm]. *)
Lemma moved_up_front {A} rm c (l l' : list A) x :
  moved_up 0 rm l l' -> (rm < c <= length l)%nat ->
  take c (<[0%nat := x]> l') = x :: delete rm (take c l).
Proof.
  intros Hm Hc. rewrite (moved_up_shift rm l) by (done || lia).
  destruct c as [|c]; [lia|]. simpl. f_equal. apply delete_take. lia.
Qed.

(** The loop of [leaf_shift_from_left]. *)
Lemma shift_room_loop n ks ds (rm : nat) (Q : bplus_leaf -> Prop) :
  holds_entries n ks ds -> (rm < length ks <= 50)%nat ->
  (forall kk dd, arrays_ok kk dd (tids (lf_node n)) -> moved_up 0 rm (lf_key n) kk ->
     moved_up 0 rm (texts (lf_data n)) (texts dd) -> Q (upd kk dd (tids (lf_node n)) n)) ->
  yields (for_down (Z.of_nat rm) 0 (fun i leaf =>
    do k <- aget (lf_key leaf) (i - 1);
    do leaf <- put_lkey leaf i k;
    do d <- aget (lf_data leaf) (i - 1);
    put_data leaf i d) n) Q.
Proof.
  intros [Hwf Hc Hsame Hk Hd] Hrm HQ.
  apply (yields_for_down (fun i leaf => exists kk dd, leaf = upd kk dd (tids (lf_node n)) n /\
    arrays_ok kk dd (tids (lf_node n)) /\ moved_up (Z.to_nat i) rm (lf_key n) kk /\
    moved_up (Z.to_nat i) rm (texts (lf_data n)) (texts dd))).
  - lia.
  - exists (lf_key n), (lf_data n). rewrite upd_self, Nat2Z.id. split_and!; auto using moved_up_refl with cdef.
  - intros i leaf Hi (kk & dd & -> & Hok & Mk & Md). pose proof Hok as [Lk Ld _ Lt].
    pose proof (leaf_arrays n Hwf) as [Lk' Ld' _ Lt'].
    set (q := Z.to_nat (i - 1)) in *. replace (Z.to_nat i) with (S q) in * by lia.
    destruct (lookup_lt_is_Some_2 kk q) as [k Hkq]; [lia|].
    destruct (lookup_lt_is_Some_2 ds q) as [d Hdq]; [lia|].
    assert (texts dd !! q = Some (Some d)) as Htx.
    { rewrite (proj2 Md), decide_False by lia.
      rewrite <- (lookup_take_lt _ (length ks) q) by lia. by rewrite Hd, list_lookup_fmap, Hdq. }
    destruct (texts_lookup _ _ _ Hok _ _ Htx) as (b & Hb & Cb & Lb).
    eapply yields_bind, yields_aget; [lia|exact Hkq|]. apply yields_bind, put_lkey_upd; [done|lia|].
    eapply yields_bind, yields_aget; [lia|exact Hb|].
    eapply put_data_upd; [auto with cdef|lia|exact Cb|exact Lb|]. intros b' Cb' Lb'.
    replace (Z.to_nat i) with (S q) by lia. eexists _, _. split; [reflexivity|].
    rewrite (texts_insert _ _ _ d) by done.
    split_and!; [auto with cdef| |]; apply moved_up_step; try done; [lia|].
    unfold texts. rewrite length_fmap. lia.
  - intros leaf (kk & dd & -> & Hok & Mk & Md). by apply HQ.
Qed.

Lemma leaf_shift_from_left_yields n left0 ks ds ks' ds' (rm : nat) k d :
  holds_entries n ks ds -> holds_entries left0 (ks' ++ [k]) (ds' ++ [d]) -> (rm < length ks <= 50)%nat ->
  yields (leaf_shift_from_left n left0 (Z.of_nat rm)) (fun '(n', left', sep) =>
    holds_entries n' (k :: delete rm ks) (d :: delete rm ds) /\ holds_entries left' ks' ds' /\ sep = k /\
    tids (lf_node n') = tids (lf_node n) /\ tids (lf_node left') = tids (lf_node left0)).
Proof.
  intros Hn Hl Hrm. pose proof (he_count _ _ _ Hl) as Hcl. pose proof (he_same _ _ _ Hl) as Hsl.
  unfold zlen in Hcl. rewrite !length_app in *. simpl in Hsl, Hcl.
  destruct (entry_lookup _ _ _ (length ks') k d Hl) as (Hk' & b & Hb & Cb & Lb);
    [by rewrite lookup_app_r, Nat.sub_diag by lia|
     rewrite lookup_app_r by lia; by replace (length ks' - length ds')%nat with 0%nat by lia|].
  apply yields_bind, (shift_room_loop n ks ds); [done|done|]. intros kk dd Hok Mk Md.
  destruct Hn as [Hwf Hc Hsame Hk Hd]. pose proof (leaf_arrays n Hwf) as [Lk' Ld' _ Lt'].
  assert (Z.to_nat (entries left0 - 1) = length ks') as Hlast by lia.
  eapply yields_bind, yields_aget; [lia|rewrite Hlast; exact Hk'|].
  apply yields_bind, put_lkey_upd; [done|lia|].
  eapply yields_bind, yields_aget; [lia|rewrite Hlast; exact Hb|].
  eapply yields_bind, put_data_upd; [auto with cdef|lia|exact Cb|exact Lb|]. intros b' Cb' Lb'.
  pose proof Hok as [Lk Ld Lsl Lt].
  eapply yields_bind, yields_aget; [lia|simpl; apply list_lookup_insert_eq; lia|].
  apply yields_ret. split_and!; try done.
  - assert (length (delete rm ks) = length ks - 1)%nat as Hlen by (apply length_delete, lookup_lt_is_Some; lia).
    split; cbn [length]; rewrite ?Hlen; replace (S (length ks - 1)) with (length ks) by lia.
    + apply upd_wf; [done|auto with cdef].
    + transitivity (entries n); [done|]. rewrite Hc, zlen_cons. unfold zlen. lia.
    + rewrite length_delete by (apply lookup_lt_is_Some; lia). lia.
    + simpl. change (Z.to_nat 0) with 0%nat. rewrite (moved_up_front rm _ (lf_key n)) by (done || lia). by rewrite Hk.
    + simpl. change (Z.to_nat 0) with 0%nat. rewrite (texts_insert _ _ _ d) by done.
      rewrite (moved_up_front rm _ (texts (lf_data n))) by (done || unfold texts; rewrite length_fmap; lia).
      rewrite Hd. f_equal. symmetry. apply fmap_delete_list.
  - pose proof (holds_entries_take left0 _ _ (length ks') Hl ltac:(rewrite length_app; simpl; lia)) as Ht.
    rewrite take_app_length in Ht.
    replace (length ks') with (length ds') in Ht at 2 by lia. rewrite take_app_length in Ht.
    by replace (entries left0 - 1) with (Z.of_nat (length ks')) by lia.
Qed.

Lemma leaf_shift_from_right_yields n right0 ks ds ks' ds' k d :
  holds_entries n ks ds -> holds_entries right0 (k :: ks') (d :: ds') -> (length ks < 50)%nat ->
  (0 < length ks' < 50)%nat ->
  yields (leaf_shift_from_right n right0) (fun '(n', right', sep) =>
    holds_entries n' (ks ++ [k]) (ds ++ [d]) /\ holds_entries right' ks' ds' /\ head ks' = Some sep /\
    tids (lf_node n') = tids (lf_node n) /\ tids (lf_node right') = tids (lf_node right0)).
Proof.
  intros Hn Hr Hm Hm'. pose proof Hn as [Hwf Hc Hsame Hk Hd]. pose proof (he_same _ _ _ Hr) as Hsr.
  destruct (entry_lookup _ _ _ 0 k d Hr) as (Hk' & b & Hb & Cb & Lb); [done|done|].
  pose proof (leaf_arrays n Hwf) as Hok. pose proof Hok as [Lk Ld _ Lt]. unfold zlen in Hc.
  eapply yields_bind, yields_aget; [lia|exact Hk'|].
  replace (put_lkey n) with (put_lkey (upd (lf_key n) (lf_data n) (tids (lf_node n)) n)) by by rewrite upd_self.
  apply yields_bind, put_lkey_upd; [done|lia|].
  eapply yields_bind, yields_aget; [lia|exact Hb|]. change (entries (upd _ _ _ n)) with (entries n).
  eapply yields_bind, put_data_upd; [auto with cdef|lia|exact Cb|exact Lb|]. intros b' Cb' Lb'.
  assert (Z.to_nat (entries n) = length ks) as -> by lia.
  apply yields_bind, (shift_down_loop right0 (k :: ks') (d :: ds') 0); [done|simpl; lia|].
  intros kk dd Hok2 Tk Td. simpl in Tk, Td. rewrite Nat.sub_0_r in *.
  destruct ks' as [|k1 ks']; [simpl in *; lia|].
  eapply yields_bind, yields_aget with (x := k1); [lia| |].
  { simpl. rewrite <- (lookup_take_lt _ (length (k1 :: ks')) 0) by (simpl; lia). by rewrite Tk. }
  apply yields_ret. split_and!; try done.
  - apply holds_entries_upd; [done|auto with cdef| | | |]; rewrite ?length_app; simpl.
    + transitivity (entries n + 1); [done|]. unfold zlen. rewrite length_app. simpl. lia.
    + lia.
    + rewrite Nat.add_1_r. apply take_insert_snoc; [lia|done].
    + rewrite Nat.add_1_r, (texts_insert _ _ _ d), fmap_app by done.
      apply take_insert_snoc; [unfold texts; rewrite length_fmap; lia|done].
  - apply holds_entries_upd; try done; [by apply he_wf in Hr| |simpl in *; lia].
    transitivity (entries right0 - 1); [done|]. rewrite (he_count _ _ _ Hr). unfold zlen. simpl. lia.
Qed.

(** ** The properties of the leaf operations *)

(** Every item pointer of the leaf has a cell. *)
Definition tids_alloc (tm : tidmem) (n : bplus_leaf) : Prop :=
  Forall (fun o => exists p, o = Some p /\ is_Some (cells tm !! p)) (tids (lf_node n)).

Lemma tids_alloc_lookup tm n i :
  leaf_wf n -> tids_alloc tm n -> (i < 50)%nat ->
  exists p, tids (lf_node n) !! i = Some (Some p) /\ is_Some (cells tm !! p).
Proof.
  intros Hwf Ha Hi. pose proof (leaf_arrays n Hwf) as [_ _ _ Lt].
  destruct (lookup_lt_is_Some_2 (tids (lf_node n)) i) as [o Ho]; [lia|].
  destruct (Forall_lookup_1 _ _ _ _ Ha Ho) as (p & -> & Hp). by exists p.
Qed.

(** A key that is present stands at its rank. *)
Lemma lookup_rank ks key : increasing ks -> key ∈ ks -> ks !! Z.to_nat (rank ks key) = Some key.
Proof.
  intros Hinc [i Hi]%list_elem_of_lookup. pose proof (rank_range ks key).
  pose proof (rank_split ks key i key (increasing_le _ Hinc) Hi) as Hle.
  destruct (lookup_lt_is_Some_2 ks (Z.to_nat (rank ks key))) as [x Hx].
  { pose proof (lookup_lt_Some _ _ _ Hi). lia. }
  pose proof (rank_split ks key _ x (increasing_le _ Hinc) Hx) as Hge.
  destruct (decide (i = Z.to_nat (rank ks key))) as [->|]; [done|].
  pose proof (increasing_lookup ks _ _ _ _ Hinc Hx Hi ltac:(lia)). lia.
Qed.

(** The search in the keys of a leaf. *)
Lemma leaf_key_search n ks ds key : holds_entries n ks ds -> increasing ks ->
  key_binary_search (lf_key n) (entries n) key = Some (if decide (key ∈ ks) then rank ks key else - rank ks key - 1).
Proof.
  intros [Hwf Hc _ Hk _] Hinc. pose proof (key_binary_search_rank (lf_key n) (entries n) key) as Hkb.
  rewrite Hc in Hkb |- *. unfold zlen in Hkb |- *. rewrite Nat2Z.id, Hk in Hkb.
  assert (length ks <= length (lf_key n))%nat by (rewrite <- Hk, length_take; lia).
  rewrite (Hkb (increasing_le _ Hinc) ltac:(lia)). case_decide as Hl; case_decide as Hin; try done.
  - by apply list_elem_of_lookup_2 in Hl.
  - by apply lookup_rank in Hin.
Qed.

Section LeafInsert.
Context `{Malloc} (m : mem) (l : loc) (n : bplus_leaf) (ks : list Z) (ds : list (list Z)).
Context (key : Z) (data d : list Z) (tid : ItemPointerData).
Context (El : nodes m !! l = Some (Leaf n)) (Hh : holds_entries n ks ds) (Hinc : increasing ks).

Lemma leaf_insert_present : key ∈ ks -> leaf_insert l key data tid m = Some (-1, m).
Proof.
  intros Hin. enough (runs (leaf_insert l key data tid) m (fun x m' => x = -1 /\ m' = m))
    as (? & ? & E & -> & ->) by exact E.
  eapply runs_bind, runs_load_lf; [exact El|]. eapply runs_bind, runs_lift; [by eapply leaf_key_search|].
  rewrite decide_True by done. pose proof (rank_range ks key). replace (0 <=? rank ks key) with true by lia.
  by apply runs_ret.
Qed.

(** A new key in a leaf that is not full: the leaf and one cell change. *)
Lemma leaf_insert_absent :
  zlen ks < t_entries (tree m) <= BPLUS_MAX_ENTRIES -> tids_alloc (tmem m) n ->
  cstr data = Some d -> zlen d <= DATA_SIZE -> ~ key ∈ ks ->
  exists n' p, let r := Z.to_nat (rank ks key) in
    let tm' := mkTidMem (<[p := tid]> (cells (tmem m))) (next_tid (tmem m)) in
    leaf_insert l key data tid m = Some (0, set_tmem tm' (set_nodes (<[l := Leaf n']> (nodes m)) m)) /\
    leaf_simple_insert n (tmem m) key data tid (Z.of_nat r) = Some (n', tm') /\
    is_Some (cells (tmem m) !! p) /\
    holds_entries n' (insert_at r key ks) (insert_at r d ds).
Proof.
  intros Hm Hta Hs Hd Hnin. unfold BPLUS_MAX_ENTRIES, DATA_SIZE in *. pose proof Hh as [Hwf Hc Hsame Hk _].
  unfold zlen in Hm. pose proof (rank_range ks key) as Hr. unfold zlen in Hr. set (r := Z.to_nat (rank ks key)).
  destruct (tids_alloc_lookup (tmem m) n r Hwf Hta ltac:(lia)) as (p & Hp & Hcell).
  destruct (leaf_simple_insert_yields n (tmem m) ks ds key data d tid r p)
    as ([n' tm'] & E & Hh' & _ & ->); [done|lia|done|done|done|done|].
  exists n', p. split_and!; [|done|done|done].
  enough (runs (leaf_insert l key data tid) m (fun x m' => x = 0 /\
    m' = set_tmem (mkTidMem (<[p := tid]> (cells (tmem m))) (next_tid (tmem m))) (set_nodes (<[l := Leaf n']> (nodes m)) m)))
    as (? & ? & E' & -> & ->) by exact E'.
  eapply runs_bind, runs_load_lf; [exact El|]. eapply runs_bind, runs_lift; [by eapply leaf_key_search|].
  rewrite decide_False by done.
  replace (0 <=? - rank ks key - 1) with false by lia. apply runs_bind, runs_get_tree.
  rewrite Hc. unfold zlen. replace (Z.of_nat (length ks) =? t_entries (tree m)) with false by lia.
  apply runs_bind, runs_get_tm. eapply runs_bind, runs_lift.
  { replace (- (- rank ks key - 1) - 1) with (Z.of_nat r) by lia. exact E. }
  eapply runs_bind, runs_store; [exact El|]. apply runs_bind, runs_put_tm. by apply runs_ret.
Qed.

End LeafInsert.

(** Insertion into a leaf that is not full: a key that is present is refused
    with -1 and nothing changes; otherwise the result is 0 and the key and its
    string are inserted at the rank of the key, so that the keys stay sorted. *)
Theorem leaf_insert_sorted `{Malloc} (m : mem) (l : loc) (n : bplus_leaf) (ks : list Z) (ds : list (list Z))
    (key : Z) (data d : list Z) (tid : ItemPointerData) :
  nodes m !! l = Some (Leaf n) -> holds_entries n ks ds -> increasing ks ->
  zlen ks < t_entries (tree m) <= BPLUS_MAX_ENTRIES -> tids_alloc (tmem m) n ->
  cstr data = Some d -> zlen d <= DATA_SIZE ->
  (key ∈ ks -> leaf_insert l key data tid m = Some (-1, m)) /\
  (~ key ∈ ks -> exists n' tm',
     leaf_insert l key data tid m = Some (0, set_tmem tm' (set_nodes (<[l := Leaf n']> (nodes m)) m)) /\
     let r := Z.to_nat (rank ks key) in
     holds_entries n' (insert_at r key ks) (insert_at r d ds) /\ increasing (insert_at r key ks)).
Proof.
  intros El Hh Hinc Hm Hta Hs Hd. split; [by eapply leaf_insert_present|]. intros Hnin.
  destruct (leaf_insert_absent m l n ks ds key data d tid El Hh Hinc Hm Hta Hs Hd Hnin) as (n' & p & E & _ & _ & Hh').
  eexists n', _. split; [exact E|]. split; [exact Hh'|by apply insert_at_increasing].
Qed.

Lemma insert_at_here {A} i (x : A) l : (i <= length l)%nat -> insert_at i x l !! i = Some x.
Proof.
  intros. unfold insert_at. rewrite lookup_app_r by len. by replace (i - _)%nat with 0%nat by len.
Qed.

Lemma insert_at_next {A} i (x : A) l : (i <= length l)%nat -> insert_at i x l !! S i = l !! i.
Proof.
  intros. unfold insert_at. rewrite lookup_app_r, lookup_cons_ne_0, lookup_drop by len. f_equal. len.
Qed.

(** Insertion in front of an entry loses that entry's item pointer: the loop
    shifts the pointers, not the cells, so the new entry and its right neighbour
    share a cell, and both read the new item pointer. *)
Theorem leaf_simple_insert_tids (n : bplus_leaf) (tm : tidmem) (ks : list Z) (ds : list (list Z))
    (key : Z) (data d : list Z) (tid : ItemPointerData) (ins : nat) :
  holds_entries n ks ds -> zlen ks < BPLUS_MAX_ENTRIES -> (ins < length ks)%nat ->
  tids_alloc tm n -> cstr data = Some d -> zlen d <= DATA_SIZE ->
  exists n' tm', leaf_simple_insert n tm key data tid (Z.of_nat ins) = Some (n', tm') /\
    (do q <- tids (lf_node n') !! ins; load_tid tm' q) = Some tid /\
    (do q <- tids (lf_node n') !! S ins; load_tid tm' q) = Some tid.
Proof.
  intros Hh Hm Hins Hta Hs Hd. unfold BPLUS_MAX_ENTRIES, DATA_SIZE, zlen in *.
  pose proof (he_wf _ _ _ Hh) as Hwf. pose proof (leaf_arrays n Hwf) as [_ _ _ Lt].
  destruct (tids_alloc_lookup tm n ins Hwf Hta ltac:(lia)) as (p & Hp & Hcell).
  destruct (leaf_simple_insert_yields n tm ks ds key data d tid ins p)
    as ([n' tm'] & E & _ & Ht & ->); [done|lia|done|done|done|done|].
  exists n', (mkTidMem (<[p := tid]> (cells tm)) (next_tid tm)). split; [done|].
  assert (forall i, (i < S (length ks))%nat -> tids (lf_node n') !! i
    = insert_at ins (Some p) (take (length ks) (tids (lf_node n))) !! i) as Hl.
  { intros i Hi. rewrite <- Ht, lookup_take_lt; done. }
  rewrite !Hl, insert_at_here, insert_at_next, lookup_take_lt, Hp by (rewrite ?length_take; lia).
  cbn [mbind option_bind load_tid cells]. by rewrite lookup_insert_eq.
Qed.

(** A split to the right distributes the entries: the old leaf keeps the
    first half, the new leaf gets the second half with the new entry at its
    place, and the item pointer of the new entry goes to a cell of its own.  The
    old leaf still points to the cells it has given away. *)
Theorem leaf_split_right_entries (n right0 : bplus_leaf) (tm : tidmem) (ks : list Z) (ds : list (list Z))
    (key : Z) (data d : list Z) (tid : ItemPointerData) (ins : nat) :
  let split := ((length ks + 1) / 2)%nat in
  holds_entries n ks ds -> leaf_wf right0 -> tids_alloc tm right0 ->
  0 < zlen ks <= BPLUS_MAX_ENTRIES -> (split <= ins <= length ks)%nat ->
  cstr data = Some d -> zlen d <= DATA_SIZE ->
  exists n' right' tm',
    leaf_split_right n right0 tm key data tid (Z.of_nat ins) = Some (n', right', tm') /\
    holds_entries n' (take split ks) (take split ds) /\
    holds_entries right' (insert_at (ins - split) key (drop split ks)) (insert_at (ins - split) d (drop split ds)) /\
    (do q <- tids (lf_node right') !! (ins - split)%nat; load_tid tm' q) = Some tid /\
    tids (lf_node n') = tids (lf_node n).
Proof.
  intros split Hh Hwf0 Hta Hm Hins Hs Hd. unfold BPLUS_MAX_ENTRIES, DATA_SIZE, zlen in *.
  assert (0 < split /\ split <= length ks)%nat as Hsp by (unfold split; split; dlia).
  pose proof (leaf_arrays n (he_wf _ _ _ Hh)) as [_ _ _ Lt].
  destruct (tids_alloc_lookup tm right0 (ins - split) Hwf0 Hta ltac:(lia)) as (p & Hp & Hcell).
  destruct (leaf_split_right_yields n right0 tm ks ds key data d tid ins p)
    as ([[n' right'] tm'] & E & -> & H1 & H2 & H3 & ->); [done|done|lia|done|done|done|done|done|].
  fold split in H3. eexists _, right', _. split; [exact E|]. split_and!; [done|done| |done].
  rewrite <- (lookup_take_lt _ (S (length ks - split))) by lia. rewrite H3.
  rewrite insert_at_here by (rewrite length_drop, length_take; lia).
  cbn [mbind option_bind load_tid cells]. by rewrite lookup_insert_eq.
Qed.

(** A split to the left distributes the keys but not the strings: the second
    loop copies the strings of the upper half over those of the new left leaf
    instead of moving them down in the old one.  The new leaf shows the strings
    that belong to the keys of the old leaf, and the old leaf keeps the strings
    of the keys it has given away. *)
Theorem leaf_split_left_strings (n left0 : bplus_leaf) (tm : tidmem) (ks : list Z) (ds : list (list Z))
    (key : Z) (data d : list Z) (tid : ItemPointerData) (ins : nat) :
  let split := ((length ks + 1) / 2)%nat in
  holds_entries n ks ds -> leaf_wf left0 -> tids_alloc tm left0 ->
  0 < zlen ks <= BPLUS_MAX_ENTRIES -> (ins < split)%nat -> cstr data = Some d -> zlen d <= DATA_SIZE ->
  exists n' left' tm',
    leaf_split_left n left0 tm key data tid (Z.of_nat ins) = Some (n', left', tm') /\
    holds_entries n' (drop (split - 1) ks) (take (length ks - (split - 1)) ds) /\
    holds_entries left' (insert_at ins key (take (split - 1) ks)) (take split (drop (split - 1) ds)).
Proof.
  intros split Hh Hwf0 Hta Hm Hins Hs Hd. unfold BPLUS_MAX_ENTRIES, DATA_SIZE, zlen in *.
  assert (split <= length ks)%nat as Hsp by (unfold split; dlia).
  destruct (tids_alloc_lookup tm left0 ins Hwf0 Hta ltac:(lia)) as (p & Hp & Hcell).
  destruct (leaf_split_left_yields n left0 tm ks ds key data d tid ins p)
    as ([[n' left'] tm'] & E & H1 & H2 & _); [done|done|lia|done|done|done|done|done|].
  by exists n', left', tm'.
Qed.

(** C32. Deletion keeps the other entries and their order, however the leaf is
    rebalanced.  [n] loses entry [rm]: alone, by a shift from the left or the
    right sibling, or by a merge with it; the entries of the two leaves together
    are those of before without entry [rm], and the new separator is the first
    key of the right one.  No item pointer moves. *)
Theorem leaf_deletion_entries (left0 n right0 : bplus_leaf) (kl ks kr : list Z) (dl ds dr : list (list Z))
    (rm : nat) (k1 k2 : Z) (d1 d2 : list Z) :
  holds_entries left0 (kl ++ [k1]) (dl ++ [d1]) -> holds_entries n ks ds ->
  holds_entries right0 (k2 :: kr) (d2 :: dr) -> (rm < length ks)%nat -> (0 < length kr)%nat ->
  zlen (kl ++ [k1]) + zlen ks <= BPLUS_MAX_ENTRIES -> zlen ks + zlen (k2 :: kr) <= BPLUS_MAX_ENTRIES ->
  (exists n1, leaf_simple_remove n (Z.of_nat rm) = Some n1 /\
     holds_entries n1 (delete rm ks) (delete rm ds) /\ tids (lf_node n1) = tids (lf_node n) /\
     (exists n2 r2 sep, leaf_shift_from_right n1 right0 = Some (n2, r2, sep) /\
        holds_entries n2 (delete rm ks ++ [k2]) (delete rm ds ++ [d2]) /\ holds_entries r2 kr dr /\
        head kr = Some sep) /\
     (exists n2, leaf_merge_from_right n1 right0 = Some n2 /\
        holds_entries n2 (delete rm ks ++ k2 :: kr) (delete rm ds ++ d2 :: dr))) /\
  (exists n2 l2 sep, leaf_shift_from_left n left0 (Z.of_nat rm) = Some (n2, l2, sep) /\
     holds_entries l2 kl dl /\ holds_entries n2 (k1 :: delete rm ks) (d1 :: delete rm ds) /\ sep = k1) /\
  (exists l2, leaf_merge_int64_to_left n left0 (Z.of_nat rm) = Some l2 /\
     holds_entries l2 ((kl ++ [k1]) ++ delete rm ks) ((dl ++ [d1]) ++ delete rm ds)).
Proof.
  intros Hl Hn Hr Hrm Hkr Hm1 Hm2. unfold BPLUS_MAX_ENTRIES, zlen in *. simpl in Hm2.
  assert (length (delete rm ks) = length ks - 1)%nat as Hdl by (apply length_delete, lookup_lt_is_Some; lia).
  split_and!.
  - destruct (leaf_simple_remove_yields n ks ds rm Hn ltac:(lia)) as (n1 & E1 & H1 & T1).
    exists n1. split_and!; [done|done|done| |].
    + destruct (leaf_shift_from_right_yields n1 right0 _ _ kr dr k2 d2 H1 Hr) as ([[n2 r2] sep] & E & ? & ? & ? & _);
        [lia|lia|]. by exists n2, r2, sep.
    + destruct (leaf_merge_from_right_yields n1 right0 _ _ _ _ H1 Hr) as (n2 & E & ? & _); [simpl; lia|].
      by exists n2.
  - destruct (leaf_shift_from_left_yields n left0 ks ds kl dl rm k1 d1 Hn Hl)
      as ([[n2 l2] sep] & E & ? & ? & ? & _); [lia|]. by exists n2, l2, sep.
  - destruct (leaf_merge_int64_to_left_yields n left0 ks ds _ _ rm Hn Hl) as (l2 & E & ? & _); [lia|lia|].
    by exists l2.
Qed.

(** ** Lookup *)

(** The string of a key; ["0"] for a key that is not there. *)
Definition found (ks : list Z) (ds : list (list Z)) (key : Z) : list Z :=
  if decide (key ∈ ks) then default [] (ds !! Z.to_nat (rank ks key)) else [48].

(** The search in a leaf; [ret] has room for strings of 31 characters. *)
Lemma search_leaf_runs fuel l n ks ds m ret key :
  nodes m !! l = Some (Leaf n) -> type (lf_node n) = BPLUS_TREE_LEAF -> holds_entries n ks ds ->
  increasing ks -> Forall (fun d => zlen d < 32) ds -> zlen ret = 32 ->
  runs (search_walk fuel (Some l) key ret) m
    (fun r m' => m' = m /\ zlen r = 32 /\ cstr r = Some (found ks ds key)).
Proof.
  intros El Hty Hh Hinc Hds Hret. pose proof Hh as [Hwf Hc Hsame Hk _].
  pose proof (key_binary_search_rank (lf_key n) (entries n) key) as Hkb.
  rewrite Hc in Hkb. unfold zlen in Hkb. rewrite Nat2Z.id, Hk in Hkb.
  pose proof (leaf_arrays n Hwf) as [Lk _ _ _].
  assert (length ks <= length (lf_key n))%nat as Hle
    by (rewrite <- Hk, length_take; lia).
  specialize (Hkb (increasing_le _ Hinc) ltac:(lia)). pose proof (rank_range ks key) as Hr.
  assert (runs (do n <- load_lf l; do i <- lift (key_binary_search (lf_key n) (entries n) key);
    if 0 <=? i then do d <- lift (aget (lf_data n) i); lift (strcpy ret d) else lift (strcpy ret str_zero)) m
    (fun r m' => m' = m /\ zlen r = 32 /\ cstr r = Some (found ks ds key))) as Hrun.
  { eapply runs_bind, runs_load_lf; [exact El|]. eapply runs_bind, runs_lift; [by rewrite Hc; exact Hkb|].
    unfold found. destruct (decide (key ∈ ks)) as [Hin|Hnin].
    - pose proof (lookup_rank ks key Hinc Hin) as Hlk. rewrite decide_True by done.
      replace (0 <=? rank ks key) with true by lia. pose proof (lookup_lt_Some _ _ _ Hlk).
      destruct (lookup_lt_is_Some_2 ds (Z.to_nat (rank ks key))) as [d Hd]; [lia|].
      destruct (entry_lookup n ks ds _ _ _ Hh Hlk Hd) as (_ & b & Hb & Cb & _).
      pose proof (Forall_lookup_1 _ _ _ _ Hds Hd) as Hd32. simpl in Hd32.
      destruct (strcpy_cstr ret b d Cb ltac:(lia)) as (r & Er & Cr & Lr).
      eapply runs_bind, runs_lift; [apply aget_Some; split; [lia|exact Hb]|].
      eapply runs_lift; [exact Er|]. rewrite Hd. simpl. split_and!; [done|lia|done].
    - rewrite decide_False by (intros ?%list_elem_of_lookup_2; done).
      replace (0 <=? - rank ks key - 1) with false by lia.
      destruct (strcpy_cstr ret str_zero [48] eq_refl ltac:(rewrite Hret; done)) as (r & Er & Cr & Lr).
      eapply runs_lift; [exact Er|]. split_and!; [done|lia|done]. }
  destruct fuel; simpl; (eapply runs_bind, runs_load_hdr; [exact El|]);
    unfold is_leaf; simpl; rewrite Hty; exact Hrun.
Qed.

(** [bplus_tree_get] on a tree that is a single leaf returns the string of
    the key, or "-1" when the key is absent or its string is "0"; the tree is
    unchanged.  The two buffers are what [malloc] returns. *)
Theorem bplus_tree_get_leaf (m : mem) (l : loc) (n : bplus_leaf) (ks : list Z) (ds : list (list Z))
    (ret0 data0 : list Z) (key : Z) :
  root (tree m) = Some l -> nodes m !! l = Some (Leaf n) -> type (lf_node n) = BPLUS_TREE_LEAF ->
  holds_entries n ks ds -> increasing ks -> Forall (fun d => zlen d < 32) ds ->
  zlen ret0 = 32 -> zlen data0 = 32 ->
  exists r, bplus_tree_get ret0 data0 key m = Some (r, m) /\
    cstr r = Some (if decide (found ks ds key = [48]) then [45; 49] else found ks ds key).
Proof.
  intros Hroot El Hty Hh Hinc Hds Hr0 Hd0.
  enough (runs (bplus_tree_get ret0 data0 key) m (fun r m' => m' = m /\
    cstr r = Some (if decide (found ks ds key = [48]) then [45; 49] else found ks ds key)))
    as (r & ? & E & -> & Hr) by by exists r.
  destruct (strcpy_cstr ret0 str_minus_one [45; 49] eq_refl ltac:(rewrite Hr0; done)) as (ret & E0 & _ & L0).
  eapply runs_bind, runs_bind, runs_lift; [exact E0|]. apply runs_bind, runs_get_tree. rewrite Hroot.
  eapply runs_wand; [eapply search_leaf_runs; done || lia|]. intros r m' (-> & Lr & Cr).
  pose proof (cstr_fits _ _ Cr).
  destruct (strcpy_cstr data0 r _ Cr ltac:(lia)) as (data & Ed & Cd & _).
  eapply runs_bind, runs_lift; [exact Ed|].
  eapply runs_bind, runs_lift; [unfold streq; rewrite Cd; reflexivity|].
  apply runs_ret. split; [done|]. case_bool_decide; case_decide; done.
Qed.

(** C35. [bplus_tree_search] destroys the tree it searches: it initialises every
    non-leaf on its way.  In a tree of two levels the root loses its type, its
    keys and its number of children, and only the second child is searched,
    whatever the key. *)
Theorem bplus_tree_search_wipes (m : mem) (l c : loc) (rn : bplus_non_leaf) (n : bplus_leaf)
    (ks : list Z) (ds : list (list Z)) (ret0 : list Z) (key : Z) :
  root (tree m) = Some l -> nodes m !! l = Some (NonLeaf rn) -> type (nl_node rn) = BPLUS_TREE_NON_LEAF ->
  aget (sub_ptr rn) 1 = Some (Some c) -> l <> c ->
  nodes m !! c = Some (Leaf n) -> type (lf_node n) = BPLUS_TREE_LEAF ->
  holds_entries n ks ds -> increasing ks -> Forall (fun d => zlen d < 32) ds -> zlen ret0 = 32 ->
  exists r, bplus_tree_search ret0 key m
    = Some (r, set_nodes (<[l := NonLeaf (bplus_non_leaf_init rn)]> (nodes m)) m) /\
    cstr r = Some (found ks ds key) /\
    children (bplus_non_leaf_init rn) = 0 /\ type (nl_node (bplus_non_leaf_init rn)) = -1.
Proof.
  intros Hroot El Htl Hc Hne Ec Hty Hh Hinc Hds Hr0. set (m2 := set_nodes _ m).
  enough (runs (bplus_tree_search ret0 key) m (fun r m' => m' = m2 /\ cstr r = Some (found ks ds key)))
    as (r & ? & E & -> & Hr) by by exists r.
  destruct (strcpy_cstr ret0 str_minus_one [45; 49] eq_refl ltac:(rewrite Hr0; done)) as (ret & E0 & _ & L0).
  eapply runs_bind, runs_lift; [exact E0|]. apply runs_bind, runs_get_tree. rewrite Hroot.
  unfold depth_fuel. simpl search_walk. eapply runs_bind, runs_load_hdr; [exact El|].
  unfold is_leaf. simpl. rewrite Htl. simpl.
  eapply runs_bind, runs_bind, runs_load_nl; [exact El|]. eapply runs_store; [exact El|]. fold m2.
  eapply runs_bind, runs_load_nl; [apply lookup_insert_eq|].
  eapply runs_bind, runs_bind, runs_lift; [reflexivity|].
  eapply runs_lift; [exact Hc|].
  eapply runs_wand; [eapply (search_leaf_runs 11 c n ks ds m2)|]; try done; [|lia|].
  - unfold m2. simpl. by rewrite lookup_insert_ne.
  - intros r m' (-> & _ & Hr). done.
Qed.

(** ** Leaves to evaluate the properties on *)

Definition leaf_of (base : nat) (ks : list Z) (ds : list (list Z)) : bplus_leaf :=
  mkLeaf (mkNode 0 (-1) None (mkLink (LHead 0) (LHead 0)) (zlen ks) (Some <$> seq base 50))
    (ks ++ zeros (50 - length ks))
    (((fun d => d ++ zeros (33 - length d)) <$> ds) ++ replicate (50 - length ds) (zeros 33))
    (replicate 50 (zeros 33)) (zeros 33) 0 0.

Definition tm_of : tidmem :=
  mkTidMem (list_to_map ((fun i => (i, mkTid 0 0 (Z.of_nat i))) <$> seq 0 100)) 100.

Lemma leaf_of_wf base ks ds :
  (length ks <= 50)%nat -> (length ds <= 50)%nat -> Forall (fun d => (length d <= 33)%nat) ds ->
  leaf_wf (leaf_of base ks ds).
Proof.
  intros Hk Hd Hl. unfold leaf_of, zeros.
  split; cbn [lf_node lf_key lf_data lf_childhash lf_node_hash tids];
    unfold zlen, BPLUS_MAX_ENTRIES; rewrite ?length_app, ?length_fmap, ?length_replicate, ?length_seq; try lia.
  - apply Forall_app. split; [|by apply Forall_replicate].
    apply Forall_fmap. eapply Forall_impl; [exact Hl|]. intros d Hld. unfold compose. rewrite length_app, length_replicate. simpl in Hld. lia.
  - by apply Forall_replicate.
Qed.

Lemma leaf_of_holds base ks ds :
  length ds = length ks -> (length ks <= 50)%nat -> Forall (fun d => (length d <= 32)%nat /\ chars d) ds ->
  holds_entries (leaf_of base ks ds) ks ds.
Proof.
  intros Hs Hm Hd. split; try done.
  - apply leaf_of_wf; [done|lia|]. eapply Forall_impl; [exact Hd|]. simpl. intros ? [? _]. lia.
  - simpl. apply take_app_length.
  - simpl. unfold texts. rewrite fmap_app, <- Hs, <- (length_fmap (fun d => d ++ zeros (33 - length d)) ds).
    rewrite <- (length_fmap cstr), take_app_length, <- list_fmap_compose.
    apply list_fmap_ext. intros i d Hi. destruct (Forall_lookup_1 _ _ _ _ Hd Hi) as [Hl Hc].
    simpl. unfold zeros. replace (33 - length d)%nat with (S (32 - length d)) by lia. simpl. by apply cstr_app.
Qed.

Definition tids_allocb (tm : tidmem) (n : bplus_leaf) : bool :=
  forallb (fun o => match o with Some p => bool_decide (is_Some (cells tm !! p)) | None => false end)
    (tids (lf_node n)).

Lemma tids_allocb_ok tm n : tids_allocb tm n = true -> tids_alloc tm n.
Proof.
  unfold tids_allocb, tids_alloc. rewrite forallb_forall. intros Ha. apply Forall_forall.
  intros o Ho%list_elem_of_In. specialize (Ha o Ho). destruct o as [p|]; [|done].
  exists p. split; [done|]. by apply bool_decide_eq_true in Ha.
Qed.

Definition s1 : list Z := [111; 110; 101].
Definition s2 : list Z := [116; 119; 111].
Definition s3 : list Z := [115; 105; 120].

Ltac leaf_holds := apply leaf_of_holds; [reflexivity|simpl; lia|repeat constructor; (simpl; lia) || done].

Definition leaf_mem (n : bplus_leaf) : mem :=
  mkMem (mkTree 5 5 0 (Some 0%nat) [] 0 0) (<[0%nat := Leaf n]> ∅) 1 tm_of ∅.

#[local, refine] Instance demo_malloc : Malloc := {|
  malloc_platform := demo_platform; fresh_leaf _ := blank_leaf; fresh_non_leaf _ := blank_non_leaf;
  fresh_tid _ := mkTid 0 0 0; fresh_bytes n := zeros n
|}.
Proof.
  - intros. exact blank_leaf_wf.
  - intros. exact blank_non_leaf_wf.
  - intros. apply length_replicate.
Defined.

Lemma leaf_insert_sorted_witness :
  exists n' tm', leaf_insert 0 4 (s3 ++ [0]) (mkTid 1 2 3) (leaf_mem (leaf_of 0 [1; 7] [s1; s2]))
    = Some (0, set_tmem tm' (set_nodes (<[0%nat := Leaf n']> (nodes (leaf_mem (leaf_of 0 [1; 7] [s1; s2]))))
        (leaf_mem (leaf_of 0 [1; 7] [s1; s2])))) /\
    holds_entries n' [1; 4; 7] [s1; s3; s2].
Proof.
  destruct (leaf_insert_sorted (leaf_mem (leaf_of 0 [1; 7] [s1; s2])) 0 (leaf_of 0 [1; 7] [s1; s2])
    [1; 7] [s1; s2] 4 (s3 ++ [0]) s3 (mkTid 1 2 3)) as [_ Hn];
    [reflexivity|leaf_holds|repeat constructor|vm_compute; split; congruence
    |apply tids_allocb_ok; vm_compute; reflexivity|reflexivity|vm_compute; congruence|].
  destruct Hn as (n' & tm' & E & Hh & _); [eval_dec|].
  exists n', tm'. split; [exact E|exact Hh].
Defined.

Lemma leaf_simple_insert_tids_witness :
  exists n' tm', leaf_simple_insert (leaf_of 0 [1; 7] [s1; s2]) tm_of 4 (s3 ++ [0]) (mkTid 1 2 3) 1 = Some (n', tm') /\
    (do q <- tids (lf_node n') !! 2%nat; load_tid tm' q) = Some (mkTid 1 2 3).
Proof.
  destruct (leaf_simple_insert_tids (leaf_of 0 [1; 7] [s1; s2]) tm_of [1; 7] [s1; s2] 4 (s3 ++ [0]) s3 (mkTid 1 2 3) 1)
    as (n' & tm' & E & _ & Ht);
    [leaf_holds|vm_compute; congruence|simpl; lia|apply tids_allocb_ok; vm_compute; reflexivity|reflexivity
    |vm_compute; congruence|].
  exists n', tm'. split; [exact E|exact Ht].
Defined.

Lemma leaf_split_right_entries_witness :
  exists n' right' tm',
    leaf_split_right (leaf_of 0 [1; 7; 9] [s1; s2; s3]) (leaf_of 50 [] []) tm_of 8 (s3 ++ [0]) (mkTid 1 2 3) 2
      = Some (n', right', tm') /\
    holds_entries n' [1; 7] [s1; s2] /\ holds_entries right' [8; 9] [s3; s3].
Proof.
  destruct (leaf_split_right_entries (leaf_of 0 [1; 7; 9] [s1; s2; s3]) (leaf_of 50 [] []) tm_of
    [1; 7; 9] [s1; s2; s3] 8 (s3 ++ [0]) s3 (mkTid 1 2 3) 2) as (n' & right' & tm' & E & H1 & H2 & _);
    [leaf_holds|apply leaf_of_wf; simpl; lia || constructor|apply tids_allocb_ok; vm_compute; reflexivity
    |vm_compute; split; congruence|vm_compute; lia|reflexivity|vm_compute; congruence|].
  exists n', right', tm'. split; [exact E|]. split; [exact H1|exact H2].
Defined.

Lemma leaf_split_left_strings_witness :
  exists n' left' tm',
    leaf_split_left (leaf_of 0 [1; 7; 9] [s1; s2; s3]) (leaf_of 50 [] []) tm_of 4 (s3 ++ [0]) (mkTid 1 2 3) 1
      = Some (n', left', tm') /\
    holds_entries n' [7; 9] [s1; s2] /\ holds_entries left' [1; 4] [s2; s3].
Proof.
  destruct (leaf_split_left_strings (leaf_of 0 [1; 7; 9] [s1; s2; s3]) (leaf_of 50 [] []) tm_of
    [1; 7; 9] [s1; s2; s3] 4 (s3 ++ [0]) s3 (mkTid 1 2 3) 1) as (n' & left' & tm' & E & H1 & H2);
    [leaf_holds|apply leaf_of_wf; simpl; lia || constructor|apply tids_allocb_ok; vm_compute; reflexivity
    |vm_compute; split; congruence|vm_compute; lia|reflexivity|vm_compute; congruence|].
  exists n', left', tm'. split; [exact E|]. split; [exact H1|exact H2].
Defined.

Lemma leaf_deletion_entries_witness :
  exists l2, leaf_merge_int64_to_left (leaf_of 0 [5; 7] [s1; s2]) (leaf_of 50 [1; 2] [s1; s2]) 0 = Some l2 /\
    holds_entries l2 [1; 2; 7] [s1; s2; s2].
Proof.
  destruct (leaf_deletion_entries (leaf_of 50 [1; 2] [s1; s2]) (leaf_of 0 [5; 7] [s1; s2]) (leaf_of 50 [8; 9] [s1; s3])
    [1] [5; 7] [9] [s1] [s1; s2] [s3] 0 2 8 s2 s1) as (_ & _ & l2 & E & Hh);
    [leaf_holds|leaf_holds|leaf_holds|simpl; lia|simpl; lia|vm_compute; congruence|vm_compute; congruence|].
  exists l2. split; [exact E|exact Hh].
Defined.

Lemma bplus_tree_get_leaf_witness :
  exists r, bplus_tree_get (zeros 32) (zeros 32) 7 (leaf_mem (leaf_of 0 [1; 7] [s1; s2]))
    = Some (r, leaf_mem (leaf_of 0 [1; 7] [s1; s2])) /\ cstr r = Some s2.
Proof.
  destruct (bplus_tree_get_leaf (leaf_mem (leaf_of 0 [1; 7] [s1; s2])) 0 (leaf_of 0 [1; 7] [s1; s2]) [1; 7] [s1; s2]
    (zeros 32) (zeros 32) 7) as (r & E & Hr);
    [reflexivity|reflexivity|reflexivity|leaf_holds|repeat constructor|repeat constructor|reflexivity|reflexivity|].
  exists r. split; [exact E|]. rewrite Hr. vm_compute. reflexivity.
Defined.

Definition wipe_root : bplus_non_leaf :=
  set_sub_ptr (Some 1%nat :: Some 2%nat :: replicate 48 None) (demo_non_leaf 2).

Definition wipe_mem : mem :=
  mkMem (mkTree 5 5 1 (Some 0%nat) [] 0 0)
    (<[0%nat := NonLeaf wipe_root]> (<[1%nat := Leaf (leaf_of 0 [1] [s1])]>
      (<[2%nat := Leaf (leaf_of 50 [7] [s2])]> ∅))) 3 tm_of ∅.

Lemma bplus_tree_search_wipes_witness :
  exists r, bplus_tree_search (zeros 32) 1 wipe_mem
    = Some (r, set_nodes (<[0%nat := NonLeaf (bplus_non_leaf_init wipe_root)]> (nodes wipe_mem)) wipe_mem) /\
    cstr r = Some [48].
Proof.
  destruct (bplus_tree_search_wipes wipe_mem 0 2 wipe_root (leaf_of 50 [7] [s2]) [7] [s2] (zeros 32) 1)
    as (r & E & Hr & _);
    [reflexivity|reflexivity|reflexivity|reflexivity|lia|reflexivity|reflexivity|leaf_holds|repeat constructor
    |repeat constructor|reflexivity|].
  exists r. split; [exact E|]. rewrite Hr. vm_compute. reflexivity.
Defined.
