(* ===== verification/Merkle.v ===== *)
(** * Hashing the tree (src/src/backend/mbt/vibuilder.c)

    [hashcompute] fills the hashes of a tree bottom-up: the hash of an entry is
    the hash of its string, the hash of a node is the hash of the
    concatenation of its children's hashes.  It is written against the
    interface [HashFn], what it needs of [sha256_pg]; the SHA-256 of Sha256.v
    is an instance.  The abstract specification is [mhash] on rose trees. *)

From S2P Require Import Prelude CMem Sha256 Node NodeCodec Heap.

(** ** The interface to the hash function *)

(** [hash_into input output] is the call [sha256_pg(input, output)]; [H] is the
    text it writes.  An input has fewer than [hash_limit] characters. *)
Definition hash_limit : Z := 2 ^ 29.

Class HashFn := {
  hash_into : list Z -> list Z -> option (list Z);
  H : list Z -> list Z;
  H_length s : length (H s) = 32%nat;
  H_chars s : chars (H s);
  H_bytes s : Forall byteb (H s);
  hash_into_spec input output msg :
    Forall byteb msg -> cstr input = Some msg -> zlen msg < hash_limit -> 33 <= zlen output ->
    hash_into input output = Some (H msg ++ 0 :: drop 33 output)
}.

#[export] Hint Rewrite @H_length : clen.

Lemma hexdigit_byte d : 0 <= d < 16 -> byteb (hexdigit d).
Proof. unfold hexdigit, in_u. destruct (Z.ltb_spec d 10); lia. Qed.

Lemma H256_bytes msg : Forall byteb (H256 msg).
Proof.
  unfold H256, hexstr. pose proof (Forall_take _ 16 _ (digest_bytes msg)) as Hb.
  induction Hb as [|b bs Hb Hbs IH]; [constructor|].
  change (mjoin (sprintf_02x <$> b :: bs)) with (sprintf_02x b ++ mjoin (sprintf_02x <$> bs)).
  apply Forall_app. split; [|done]. unfold in_u in Hb.
  repeat constructor; apply hexdigit_byte; dlia.
Qed.

(** [sha256_pg] implements the interface, whatever its context and its local
    array contain at first. *)
#[export, program] Instance sha256_pg_hash (ctx0 : SHA256) (buf0 : list Z)
    (Hctx : ctx_ok ctx0) (Hbuf : length buf0 = 65%nat) : HashFn := {|
  hash_into := sha256_pg ctx0 buf0;
  H := H256
|}.
Next Obligation. intros. apply H256_length. Qed.
Next Obligation. intros. apply H256_chars. Qed.
Next Obligation. intros. apply H256_bytes. Qed.
Next Obligation.
  intros. apply sha256_pg_value; try done. unfold hash_limit in *. lia.
Qed.

(** ** hashcompute *)

Section Hashcompute.
Context `{HashFn}.

(** The leaf case: the new hashes and the string of their concatenation. *)
Definition hash_leaf (ln : bplus_leaf) : option bplus_leaf :=
  do ' (ln, leafstring) <- for_range 0 (entries ln) (fun i st =>
    let '(ln, leafstring) := st in
    do d <- aget (lf_data ln) i;
    do tmp <- strcpy (replicate 33 0) d;
    do ch <- aget (lf_childhash ln) i;
    do ch <- hash_into tmp ch;
    do chs <- aset (lf_childhash ln) i ch;
    let ln := set_lf_childhash chs ln in
    do leafstring <- strcat leafstring ch;
    Some (ln, leafstring)) (ln, replicate 4096 0);
  do nh <- hash_into leafstring (lf_node_hash ln);
  Some (set_lf_node_hash nh ln).

(** [hashcompute(node)]: the [char *] it returns, NULL for NULL. *)
Fixpoint hashcompute (fuel : nat) (node : option loc) : M (option (list Z)) :=
  match node with
  | None => mret None
  | Some l =>
      do h <- load_hdr l;
      if is_leaf h then
        do ln <- load_lf l;
        do ln <- lift (hash_leaf ln);
        do _ <- store_lf l ln;
        mret (Some (lf_node_hash ln))
      else
        match fuel with
        | O => ub
        | S fuel' =>
            do nln <- load_nl l;
            do ' (_, nonleafstring) <- mfor_up 0 (children nln) (fun i st =>
              let '(sub_hash, nonleafstring) := st in
              do p <- get_sub l i;
              do r <- hashcompute fuel' p;
              do r <- lift r;
              do sub_hash <- lift (strcpy sub_hash r);
              do nln <- load_nl l;
              do slot <- lift (aget (nl_childhash nln) i);
              do slot <- lift (strcpy slot sub_hash);
              do chs <- lift (aset (nl_childhash nln) i slot);
              do _ <- store_nl l (set_nl_childhash chs nln);
              do nonleafstring <- lift (strcat nonleafstring sub_hash);
              mret (sub_hash, nonleafstring)) (replicate 1024 0, replicate 4096 0);
            do nln <- load_nl l;
            do nh <- lift (hash_into nonleafstring (nl_node_hash nln));
            do _ <- store_nl l (set_nl_node_hash nh nln);
            mret (Some nh)
        end
  end.

End Hashcompute.

(** ** The abstract tree *)

(** A tree as the memory holds it: the location of every node, the strings of
    the leaves. *)
Inductive mtree := MLeaf (l : loc) (ds : list (list Z)) | MNode (l : loc) (ts : list mtree).

Definition mloc (t : mtree) : loc := match t with MLeaf l _ => l | MNode l _ => l end.

Fixpoint mlocs (t : mtree) : list loc :=
  match t with MLeaf l _ => [l] | MNode l ts => l :: concat (map mlocs ts) end.

(** Every leaf is [h] levels below the root. *)
Fixpoint balanced (h : nat) (t : mtree) : Prop :=
  match h, t with
  | O, MLeaf _ _ => True
  | S h', MNode _ ts => Forall (balanced h') ts
  | _, _ => False
  end.

(** The strings of the leaves, from left to right, with the shape of the tree. *)
Fixpoint content (t : mtree) : mtree :=
  match t with MLeaf _ ds => MLeaf 0 ds | MNode _ ts => MNode 0 (map content ts) end.

Fixpoint strings (t : mtree) : list (list Z) :=
  match t with MLeaf _ ds => ds | MNode _ ts => concat (map strings ts) end.

Definition all (Ps : list Prop) : Prop := fold_right and True Ps.

Lemma all_Forall {A} (P : A -> Prop) xs : all (map P xs) <-> Forall P xs.
Proof. induction xs as [|x xs IH]; simpl; [by split|]. rewrite Forall_cons, <- IH. done. Qed.

Lemma mlocs_concat t ts l : t ∈ ts -> l ∈ mlocs t -> l ∈ concat (map mlocs ts).
Proof. apply concat_map_elem. Qed.

Lemma mlocs_child l0 t ts l : t ∈ ts -> l ∈ mlocs t -> l ∈ mlocs (MNode l0 ts).
Proof. intros Ht Hl. right. by eapply mlocs_concat. Qed.

Lemma mtree_ind' (P : mtree -> Prop) :
  (forall l ds, P (MLeaf l ds)) -> (forall l ts, Forall P ts -> P (MNode l ts)) -> forall t, P t.
Proof.
  intros HL HN. fix IH 1. intros [l ds|l ts]; [apply HL|apply HN].
  induction ts as [|t ts IHts]; constructor; [apply IH|exact IHts].
Qed.

Section Merkle.
Context `{HashFn}.

(** The Merkle hash of a tree. *)
Fixpoint mhash (t : mtree) : list Z :=
  match t with
  | MLeaf _ ds => H (concat (map H ds))
  | MNode _ ts => H (concat (map mhash ts))
  end.

Lemma mhash_length t : length (mhash t) = 32%nat.
Proof. destruct t; apply H_length. Qed.

Lemma all32 {A} (f : A -> list Z) xs :
  (forall x, length (f x) = 32%nat) -> Forall (fun h => length h = 32%nat) (map f xs).
Proof. intros Hf. induction xs; constructor; auto. Qed.

(** *** Binding *)

(** The inputs the hash function is applied to for a tree. *)
Fixpoint inputs (t : mtree) : list (list Z) :=
  match t with
  | MLeaf _ ds => concat (map H ds) :: ds
  | MNode _ ts => concat (map mhash ts) :: concat (map inputs ts)
  end.

(** Two inputs that differ and have the same hash: hashing the two trees finds a
    collision. *)
Definition clash (xs ys : list (list Z)) : Prop :=
  exists x y, x ∈ xs /\ y ∈ ys /\ x <> y /\ H x = H y.

Lemma clash_mono xs ys xs' ys' :
  (forall x, x ∈ xs -> x ∈ xs') -> (forall y, y ∈ ys -> y ∈ ys') -> clash xs ys -> clash xs' ys'.
Proof. intros Hx Hy (x & y & ? & ? & ? & ?). exists x, y. auto. Qed.

Lemma concat_inj (xs ys : list (list Z)) :
  Forall (fun x => length x = 32%nat) xs -> Forall (fun x => length x = 32%nat) ys ->
  concat xs = concat ys -> xs = ys.
Proof.
  intros Hx. revert ys. induction Hx as [|x xs Hx _ IH]; intros ys Hy Heq;
    destruct Hy as [|y ys Hy Hys]; simpl in Heq; [done| | |].
  - destruct y; simpl in *; [lia|done].
  - destruct x; simpl in *; [lia|done].
  - apply app_inj_1 in Heq as [-> Heq]; [|lia]. f_equal. by apply IH.
Qed.

(** Equal hashes of concatenated pieces come from equal pieces or a clash. *)
Lemma H_concat_inj (xs ys : list (list Z)) :
  Forall (fun x => length x = 32%nat) xs -> Forall (fun x => length x = 32%nat) ys ->
  H (concat xs) = H (concat ys) -> xs = ys \/ clash [concat xs] [concat ys].
Proof.
  intros Hx Hy Heq. destruct (decide (concat xs = concat ys)) as [E|E].
  - left. by apply concat_inj.
  - right. exists (concat xs), (concat ys). split_and!; [constructor|constructor|done|done].
Qed.

Lemma map_H_inj (xs ys : list (list Z)) : map H xs = map H ys -> xs = ys \/ clash xs ys.
Proof.
  revert ys. induction xs as [|x xs IH]; intros [|y ys] E; try done; [by left|].
  injection E as E1 E2. destruct (decide (x = y)) as [->|Hne].
  - destruct (IH _ E2) as [->|Hc]; [by left|right]. by eapply clash_mono; [by right|by right|].
  - right. exists x, y. split_and!; [constructor|constructor|done|done].
Qed.

(** The lists of children, given the same for every child. *)
Lemma map_mhash_inj ts1 : forall ts2,
  Forall (fun t1 => forall t2, t2 ∈ ts2 -> mhash t1 = mhash t2 ->
    content t1 = content t2 \/ clash (inputs t1) (inputs t2)) ts1 ->
  map mhash ts1 = map mhash ts2 ->
  map content ts1 = map content ts2 \/
  clash (concat (map inputs ts1)) (concat (map inputs ts2)).
Proof.
  induction ts1 as [|t1 ts1 IH]; intros [|t2 ts2] Hall E; try done; [by left|].
  injection E as E1 E2. apply Forall_cons in Hall as [H1 Hts].
  destruct (H1 t2) as [Ec|Hc]; [constructor|done| |].
  - destruct (IH ts2) as [Em|Hc]; [|done|left; simpl; congruence|right].
    + eapply Forall_impl; [exact Hts|]. intros t Ht t' Ht'. apply Ht. by right.
    + eapply clash_mono; [| |exact Hc]; intros; simpl; apply elem_of_app; by right.
  - right. eapply clash_mono; [| |exact Hc]; intros; simpl; apply elem_of_app; by left.
Qed.

(** Trees of the same height with the same Merkle hash have the same content,
    or hashing them clashes. *)
Lemma mhash_inj h : forall t1 t2, balanced h t1 -> balanced h t2 ->
  mhash t1 = mhash t2 -> content t1 = content t2 \/ clash (inputs t1) (inputs t2).
Proof.
  induction h as [|h IH]; intros [l1 ds1|l1 ts1] [l2 ds2|l2 ts2] B1 B2 E; simpl in *; try done.
  - destruct (H_concat_inj _ _ (all32 _ _ H_length) (all32 _ _ H_length) E) as [E'|Hc].
    + destruct (map_H_inj _ _ E') as [->|Hc]; [by left|right].
      eapply clash_mono; [| |exact Hc]; by right.
    + right. eapply clash_mono; [| |exact Hc]; intros x ->%list_elem_of_singleton; constructor.
  - destruct (H_concat_inj _ _ (all32 _ _ mhash_length) (all32 _ _ mhash_length) E) as [E'|Hc].
    + rewrite Forall_forall in *.
      destruct (map_mhash_inj ts1 ts2) as [Em|Hc]; [|done|left; congruence|right].
      * apply Forall_forall. intros t1 Ht1 t2 Ht2. by apply IH; [apply B1|apply B2].
      * eapply clash_mono; [| |exact Hc]; by right.
    + right. eapply clash_mono; [| |exact Hc]; intros x ->%list_elem_of_singleton; constructor.
Qed.

(** *** The tree in memory *)

(** The buffer holds the string. *)
Definition shows (buf s : list Z) : Prop := cstr buf = Some s /\ Forall byteb s.

(** The struct of a leaf with the strings [ds], of a non-leaf with the children
    [ps]. *)
Definition leaf_rep (n : bplus_leaf) (ds : list (list Z)) : Prop :=
  type (lf_node n) = BPLUS_TREE_LEAF /\ leaf_wf n /\ entries n = zlen ds /\
  zlen ds <= BPLUS_MAX_ENTRIES /\ Forall2 shows (take (length ds) (lf_data n)) ds.

Definition non_leaf_rep (n : bplus_non_leaf) (ps : list loc) : Prop :=
  type (nl_node n) <> BPLUS_TREE_LEAF /\ non_leaf_wf n /\ children n = zlen ps /\
  zlen ps <= BPLUS_MAX_ORDER /\ take (length ps) (sub_ptr n) = Some <$> ps.

Fixpoint rep (ns : gmap loc node) (t : mtree) : Prop :=
  match t with
  | MLeaf l ds => exists n, ns !! l = Some (Leaf n) /\ leaf_rep n ds
  | MNode l ts => (exists n, ns !! l = Some (NonLeaf n) /\ non_leaf_rep n (map mloc ts)) /\
                  all (map (rep ns) ts)
  end.

(** The hashes of every node of the tree are filled in. *)
Fixpoint hashed (ns : gmap loc node) (t : mtree) : Prop :=
  match t with
  | MLeaf l ds => exists n, ns !! l = Some (Leaf n) /\
      Forall2 shows (take (length ds) (lf_childhash n)) (map H ds) /\
      shows (lf_node_hash n) (mhash t)
  | MNode l ts => (exists n, ns !! l = Some (NonLeaf n) /\
      Forall2 shows (take (length ts) (nl_childhash n)) (map mhash ts) /\
      shows (nl_node_hash n) (mhash t)) /\ all (map (hashed ns) ts)
  end.

(** Both depend on the nodes of the tree only. *)
Lemma rep_frame ns ns' t :
  (forall l, l ∈ mlocs t -> ns' !! l = ns !! l) -> rep ns t -> rep ns' t.
Proof.
  induction t as [l ds|l ts IH] using mtree_ind'; intros Hf.
  - intros (n & E & Hr). exists n. rewrite Hf by constructor. done.
  - intros [(n & E & Hr) Hts]. split; [exists n; rewrite Hf by constructor; done|].
    rewrite all_Forall, Forall_forall in *. intros t Ht. apply (IH t Ht); [|by apply Hts].
    intros l' Hl. apply Hf. by eapply mlocs_child.
Qed.

Lemma hashed_frame ns ns' t :
  (forall l, l ∈ mlocs t -> ns' !! l = ns !! l) -> hashed ns t -> hashed ns' t.
Proof.
  induction t as [l ds|l ts IH] using mtree_ind'; intros Hf.
  - intros (n & E & Hr). exists n. rewrite Hf by constructor. done.
  - intros [(n & E & Hr) Hts]. split; [exists n; rewrite Hf by constructor; done|].
    rewrite all_Forall, Forall_forall in *. intros t Ht. apply (IH t Ht); [|by apply Hts].
    intros l' Hl. apply Hf. by eapply mlocs_child.
Qed.

(** *** hashcompute on a leaf *)

(** The pieces of a Merkle hash: the hashes it concatenates. *)
Record pieces (hs : list (list Z)) : Prop := {
  pc_len : Forall (fun h => length h = 32%nat) hs;
  pc_bytes : Forall (Forall byteb) hs;
  pc_chars : Forall chars hs
}.

Lemma pieces_H (xs : list (list Z)) : pieces (map H xs).
Proof. split; [apply all32, H_length| |]; induction xs; constructor; auto using H_bytes, H_chars. Qed.

Lemma pieces_mhash ts : pieces (map mhash ts).
Proof.
  split; [apply all32, mhash_length| |]; induction ts as [|[] ts IH]; constructor;
    auto using H_bytes, H_chars; apply H_bytes || apply H_chars.
Qed.

Lemma pieces_concat_bytes hs : pieces hs -> Forall byteb (concat hs).
Proof. intros [_ Hb _]. induction Hb; simpl; [constructor|]. by apply Forall_app. Qed.

Lemma pieces_concat_zlen hs i : pieces hs -> zlen (concat (take i hs)) <= 32 * Z.of_nat i.
Proof.
  intros [Hl _ _]. unfold zlen. rewrite (concat_length _ 32) by by apply Forall_take.
  rewrite length_take. lia.
Qed.

(** Appending the next piece to the buffer. *)
Lemma strcat_piece hs i h buf src :
  pieces hs -> hs !! i = Some h -> cstr src = Some h ->
  cstr buf = Some (concat (take i hs)) -> 32 * Z.of_nat i + 32 < zlen buf ->
  exists buf', strcat buf src = Some buf' /\ cstr buf' = Some (concat (take (S i) hs)) /\
    zlen buf' = zlen buf.
Proof.
  intros Hp Hi Hs Hb Hl. pose proof (pieces_concat_zlen _ i Hp).
  assert (length h = 32)%nat as Hh by (eapply Forall_lookup_1 in Hi; [exact Hi|apply Hp]).
  rewrite (concat_take_S _ _ _ Hi). apply strcat_cstr; [done|done|]. unfold zlen in *. lia.
Qed.

(** [n] with other hashes. *)
Definition rehash_leaf (chs : list (list Z)) (nh : list Z) (n : bplus_leaf) : bplus_leaf :=
  set_lf_node_hash nh (set_lf_childhash chs n).

Lemma hash_leaf_spec n ds : leaf_rep n ds ->
  yields (hash_leaf n) (fun n' => exists chs nh, n' = rehash_leaf chs nh n /\ leaf_rep n' ds /\
    Forall2 shows (take (length ds) chs) (map H ds) /\ shows nh (H (concat (map H ds)))).
Proof.
  intros (Ht & [Wt Wk Wd Wds Wc Wcs Wn] & He & Hm & Hd). unfold hash_leaf. rewrite He.
  eapply yields_bind, (yields_for (fun i st => exists chs,
    st.1 = set_lf_childhash chs n /\ zlen chs = BPLUS_MAX_ENTRIES /\
    Forall (fun h => zlen h = 33) chs /\
    Forall2 shows (take (Z.to_nat i) chs) (take (Z.to_nat i) (map H ds)) /\
    cstr st.2 = Some (concat (take (Z.to_nat i) (map H ds))) /\ zlen st.2 = 4096)).
  - apply zlen_nonneg.
  - exists (lf_childhash n). split_and!; try done. by destruct n.
  - intros i [n1 buf] Hi (chs & E1 & L1 & F1 & S1 & C1 & B1). simpl in E1, C1, B1. subst n1.
    destruct (lookup_lt_is_Some_2 ds (Z.to_nat i)) as [d Hdi]; [unfold zlen in *; lia|].
    destruct (Forall2_take_lookup _ _ _ _ _ _ Hd Hdi) as (db & Hdb & Hc & Hby).
    assert (zlen db = 33) as Ldb by (eapply Forall_lookup_1 in Wds; [exact Wds|exact Hdb]).
    pose proof (cstr_fits _ _ Hc).
    destruct (strcpy_cstr (replicate 33 0) db d Hc ltac:(rewrite zlen_replicate; lia)) as (tmp & Et & Hct & _).
    destruct (lookup_lt_is_Some_2 chs (Z.to_nat i)) as [ch Hch]; [unfold zlen in *; lia|].
    assert (zlen ch = 33) as Lch by (eapply Forall_lookup_1 in F1; [exact F1|exact Hch]).
    assert (map H ds !! Z.to_nat i = Some (H d)) as HHi
      by (change (map H ds) with (H <$> ds); by rewrite list_lookup_fmap, Hdi).
    destruct (strcat_piece (map H ds) (Z.to_nat i) (H d) buf (H d ++ 0 :: drop 33 ch))
      as (buf' & Eb & Cb & Lb);
      [apply pieces_H|done|apply cstr_app, H_chars|done|unfold BPLUS_MAX_ENTRIES in *; lia|].
    eapply yields_bind, yields_aget; [lia|exact Hdb|].
    eapply yields_bind, yields_eq; [exact Et|].
    eapply yields_bind, yields_aget; [lia|exact Hch|].
    eapply yields_bind, yields_eq; [apply (hash_into_spec tmp ch d); (done || (unfold hash_limit; lia))|].
    apply yields_bind, yields_aset; [simpl; lia|].
    eapply yields_bind, yields_eq; [exact Eb|]. apply yields_ret.
    replace (Z.to_nat (i + 1)) with (S (Z.to_nat i)) by lia.
    eexists. split; [reflexivity|]. split_and!; [by rewrite zlen_insert| | |done|simpl; lia].
    + apply Forall_insert; [done|]. len.
    + cbn [lf_childhash set_lf_childhash].
      apply Forall2_take_insert with (H d); [done|unfold zlen, BPLUS_MAX_ENTRIES in *; lia|done|].
      split; [apply cstr_app, H_chars|apply H_bytes].
  - intros [n1 buf] (chs & E1 & L1 & F1 & S1 & C1 & B1). simpl in E1, C1, B1. subst n1.
    replace (Z.to_nat (zlen ds)) with (length ds) in * by len.
    rewrite (take_ge (map H ds)) in C1, S1 by (by rewrite length_map).
    pose proof (pieces_concat_zlen _ (length ds) (pieces_H ds)) as Hl.
    rewrite take_ge in Hl by (by rewrite length_map).
    eapply yields_bind, yields_eq.
    { apply (hash_into_spec buf (lf_node_hash n) (concat (map H ds)));
      [apply pieces_concat_bytes, pieces_H|done|unfold hash_limit, BPLUS_MAX_ENTRIES, zlen in *; lia|lia]. }
    apply yields_ret. eexists chs, _. split; [done|].
    split_and!; [|done|split; [apply cstr_app, H_chars|apply H_bytes]].
    split_and!; try done. split; simpl; try done. len.
Qed.

(** *** hashcompute on a tree *)

(** A node without its hashes. *)
Definition unhashed (n : node) : node :=
  match n with
  | Leaf n => Leaf (rehash_leaf [] [] n)
  | NonLeaf n => NonLeaf (set_nl_node_hash [] (set_nl_childhash [] n))
  end.

(** [m'] differs from [m] in the hashes of the nodes [ls] only. *)
Record hashes_only (ls : list loc) (m m' : mem) : Prop := {
  ho_tree : tree m' = tree m;
  ho_next : next_loc m' = next_loc m;
  ho_tmem : tmem m' = tmem m;
  ho_disk : disk m' = disk m;
  ho_out l : ~ l ∈ ls -> nodes m' !! l = nodes m !! l;
  ho_in l : unhashed <$> nodes m' !! l = unhashed <$> nodes m !! l
}.

Lemma hashes_only_refl ls m : hashes_only ls m m.
Proof. done. Qed.

Lemma hashes_only_trans ls m1 m2 m3 :
  hashes_only ls m1 m2 -> hashes_only ls m2 m3 -> hashes_only ls m1 m3.
Proof.
  intros [? ? ? ? O1 I1] [? ? ? ? O2 I2]. split; [congruence..| |].
  - intros l Hl. by rewrite O2, O1.
  - intros l. by rewrite I2, I1.
Qed.

Lemma hashes_only_weaken ls ls' m m' :
  (forall l, l ∈ ls -> l ∈ ls') -> hashes_only ls m m' -> hashes_only ls' m m'.
Proof. intros Hs []. split; try done. auto. Qed.

(** Replacing a node by one that differs in its hashes. *)
Lemma hashes_only_store ls m l n0 n :
  l ∈ ls -> nodes m !! l = Some n0 -> unhashed n = unhashed n0 ->
  hashes_only ls m (set_nodes (<[l := n]> (nodes m)) m).
Proof.
  intros Hl E Hu. split; try done; simpl; intros l'; destruct (decide (l = l')) as [<-|].
  - done.
  - intros _. by rewrite lookup_insert_ne.
  - rewrite lookup_insert_eq, E. simpl. by rewrite Hu.
  - by rewrite lookup_insert_ne.
Qed.

(** The nodes of different children are different. *)
Lemma mlocs_disjoint ts i j t t' l :
  NoDup (concat (map mlocs ts)) -> ts !! i = Some t -> ts !! j = Some t' ->
  l ∈ mlocs t -> l ∈ mlocs t' -> i = j.
Proof. apply concat_map_disjoint. Qed.

Lemma mlocs_child_NoDup ts i t :
  NoDup (concat (map mlocs ts)) -> ts !! i = Some t -> NoDup (mlocs t).
Proof. apply concat_map_NoDup. Qed.

(** What [hashcompute] leaves behind for a tree. *)
Definition hash_post (t : mtree) (m : mem) (r : option (list Z)) (m' : mem) : Prop :=
  (exists nh, r = Some nh /\ shows nh (mhash t)) /\
  rep (nodes m') t /\ hashed (nodes m') t /\ hashes_only (mlocs t) m m'.

(** The loop over the children: the first [i] of them are done. *)
Record hash_inv (l : loc) (n : bplus_non_leaf) (ts : list mtree) (m : mem) (i : nat)
    (st : list Z * list Z) (m1 : mem) (chs : list (list Z)) : Prop := {
  hi_node : nodes m1 !! l = Some (NonLeaf (set_nl_childhash chs n));
  hi_chs : zlen chs = BPLUS_MAX_ORDER;
  hi_lens : Forall (fun h => zlen h = 33) chs;
  hi_hashes : Forall2 shows (take i chs) (take i (map mhash ts));
  hi_sub : zlen st.1 = 1024;
  hi_cat : cstr st.2 = Some (concat (take i (map mhash ts)));
  hi_len : zlen st.2 = 4096;
  hi_rep : Forall (rep (nodes m1)) ts;
  hi_done : Forall (hashed (nodes m1)) (take i ts);
  hi_only : hashes_only (mlocs (MNode l ts)) m m1
}.

(** Hashing child [i] keeps what the invariant says about the others. *)
Lemma hash_inv_child l n ts m i st m1 chs t m2 r :
  NoDup (mlocs (MNode l ts)) -> hash_inv l n ts m i st m1 chs -> ts !! i = Some t ->
  hash_post t m1 r m2 ->
  nodes m2 !! l = Some (NonLeaf (set_nl_childhash chs n)) /\
  Forall (rep (nodes m2)) ts /\ Forall (hashed (nodes m2)) (take (S i) ts) /\
  hashes_only (mlocs (MNode l ts)) m m2.
Proof.
  intros [Hl Hnd]%NoDup_cons Hinv Hi (_ & Hr & Hh & Ho). pose proof (ho_out _ _ _ Ho) as Hout.
  assert (forall j t' l', ts !! j = Some t' -> j <> i -> l' ∈ mlocs t' ->
    nodes m2 !! l' = nodes m1 !! l') as Hfr.
  { intros j t' l' Hj Hne Hl'. apply Hout. intros Hin. apply Hne. by eapply mlocs_disjoint. }
  split_and!.
  - rewrite Hout; [apply Hinv|]. intros Hin. apply Hl.
    eapply mlocs_concat; [by eapply list_elem_of_lookup_2|done].
  - apply Forall_lookup. intros j t' Hj. destruct (decide (j = i)) as [->|Hne]; [by simplify_eq|].
    eapply rep_frame; [|eapply Forall_lookup_1; [apply Hinv|exact Hj]]. intros. by eapply Hfr.
  - rewrite (take_S_r _ _ t) by done. apply Forall_app. split; [|by repeat constructor].
    apply Forall_lookup. intros j t' Hj.
    pose proof (Forall_lookup_1 _ _ _ _ (hi_done _ _ _ _ _ _ _ _ Hinv) Hj) as Hj'.
    apply lookup_take_Some in Hj as [Hj ?]. eapply hashed_frame; [|exact Hj'].
    intros. eapply Hfr; [exact Hj|lia|done].
  - eapply hashes_only_trans; [apply Hinv|]. eapply hashes_only_weaken; [|exact Ho].
    intros l' Hl'. eapply mlocs_child; [|exact Hl']. by eapply list_elem_of_lookup_2.
Qed.

(** The round of the loop for child [i]; [r] is the hash of the child. *)
Lemma hash_inv_round l n ts m i sub str m1 chs t m2 nh (Q : list Z * list Z -> mem -> Prop) :
  NoDup (mlocs (MNode l ts)) -> zlen ts <= BPLUS_MAX_ORDER ->
  hash_inv l n ts m i (sub, str) m1 chs -> ts !! i = Some t ->
  hash_post t m1 (Some nh) m2 ->
  (forall st m3 chs', hash_inv l n ts m (S i) st m3 chs' -> Q st m3) ->
  runs (do sub_hash <- lift (strcpy sub nh);
        do nln <- load_nl l;
        do slot <- lift (aget (nl_childhash nln) (Z.of_nat i));
        do slot <- lift (strcpy slot sub_hash);
        do chs <- lift (aset (nl_childhash nln) (Z.of_nat i) slot);
        do _ <- store_nl l (set_nl_childhash chs nln);
        do nonleafstring <- lift (strcat str sub_hash);
        mret (sub_hash, nonleafstring)) m2 Q.
Proof.
  intros Hnd Hm Hinv Hi Hpost HQ.
  destruct (hash_inv_child _ _ _ _ _ _ _ _ _ _ _ Hnd Hinv Hi Hpost) as (Hn & Hr & Hd & Ho).
  destruct Hpost as ((? & [= <-] & Hnh & Hby) & _).
  destruct Hinv as [_ Hc Hls Hh Hsub Hcat Hlen _ _ _]. simpl in *.
  pose proof (mhash_length t) as Ht. pose proof (lookup_lt_Some _ _ _ Hi) as Hlt.
  destruct (strcpy_cstr sub nh _ Hnh) as (sub' & Es & Cs & Ls); [unfold zlen in *; lia|].
  destruct (lookup_lt_is_Some_2 chs i) as [slot Hslot]; [unfold zlen, BPLUS_MAX_ORDER in *; lia|].
  pose proof (Forall_lookup_1 _ _ _ _ Hls Hslot) as Hsl. simpl in Hsl.
  destruct (strcpy_cstr slot sub' _ Cs) as (slot' & El & Cl & Ll); [unfold zlen in *; lia|].
  assert (map mhash ts !! i = Some (mhash t)) as Hhi
    by (change (map mhash ts) with (mhash <$> ts); by rewrite list_lookup_fmap, Hi).
  destruct (strcat_piece (map mhash ts) i (mhash t) str sub') as (str' & Est & Cst & Lst);
    [apply pieces_mhash|done|done|done|unfold zlen, BPLUS_MAX_ORDER in *; lia|].
  eapply runs_bind, runs_lift; [exact Es|].
  eapply runs_bind, runs_load_nl; [exact Hn|].
  eapply runs_bind, runs_lift; [simpl; rewrite aget_nat; exact Hslot|].
  eapply runs_bind, runs_lift; [exact El|].
  eapply runs_bind, runs_lift; [apply aset_Some; simpl; unfold zlen, BPLUS_MAX_ORDER in *; lia|].
  eapply runs_bind, runs_store; [exact Hn|].
  eapply runs_bind, runs_lift; [exact Est|]. apply runs_ret.
  apply (HQ _ _ (<[i := slot']> chs)). rewrite Nat2Z.id.
  apply NoDup_cons in Hnd as [Hl _].
  assert (forall t' l', t' ∈ ts -> l' ∈ mlocs t' -> l <> l') as Hne
    by (intros t' l' Ht' Hl' ->; apply Hl; by eapply mlocs_concat).
  split; simpl; try done.
  - apply lookup_insert_eq.
  - by rewrite zlen_insert.
  - apply Forall_insert; [done|]. lia.
  - apply Forall2_take_insert with (mhash t);
      [done|unfold zlen, BPLUS_MAX_ORDER in *; lia|done|done].
  - lia.
  - lia.
  - rewrite Forall_forall in *. intros t' Ht'. eapply rep_frame; [|by apply Hr].
    intros l' Hl'. apply lookup_insert_ne. by eapply Hne.
  - rewrite Forall_forall in *. intros t' Ht'. eapply hashed_frame; [|by apply Hd].
    intros l' Hl'. apply lookup_insert_ne. eapply Hne; [|done]. by eapply elem_of_take in Ht' as (? & ?%list_elem_of_lookup_2 & _).
  - eapply hashes_only_trans; [exact Ho|]. eapply hashes_only_store; [constructor|exact Hn|done].
Qed.

(** The end of the loop: the hash of the node itself. *)
Lemma hash_inv_final l n ts m st m1 chs :
  NoDup (mlocs (MNode l ts)) -> non_leaf_rep n (map mloc ts) ->
  hash_inv l n ts m (length ts) st m1 chs ->
  runs (do nln <- load_nl l;
        do nh <- lift (hash_into st.2 (nl_node_hash nln));
        do _ <- store_nl l (set_nl_node_hash nh nln);
        mret (Some nh)) m1 (hash_post (MNode l ts) m).
Proof.
  intros [Hl Hnd]%NoDup_cons (Hty & Hwf & Hc & Hm & Hsub) [En Hcl Hls Hh _ Hcat Hlen Hrt Hdone Ho].
  rewrite (take_ge (map mhash ts)) in Hcat, Hh by (by rewrite length_map).
  rewrite take_ge in Hdone by done.
  pose proof (pieces_concat_zlen _ (length ts) (pieces_mhash ts)) as Hz.
  rewrite take_ge in Hz by (by rewrite length_map).
  unfold zlen at 1 in Hm. rewrite length_map in Hm.
  eapply runs_bind, runs_load_nl; [exact En|].
  eapply runs_bind, runs_lift.
  { apply (hash_into_spec st.2 _ (concat (map mhash ts)));
      [apply pieces_concat_bytes, pieces_mhash|done|unfold hash_limit, BPLUS_MAX_ORDER in *; lia|].
    simpl. destruct Hwf. lia. }
  eapply runs_bind, runs_store; [exact En|]. apply runs_ret.
  assert (forall t' l', t' ∈ ts -> l' ∈ mlocs t' -> l <> l') as Hne
    by (intros t' l' Ht' Hl' ->; apply Hl; by eapply mlocs_concat).
  assert (shows (H (concat (map mhash ts)) ++ 0 :: drop 33 (nl_node_hash n)) (H (concat (map mhash ts))))
    as Hs by (split; [apply cstr_app, H_chars|apply H_bytes]).
  split_and!.
  - by eexists.
  - split; [eexists; split; [apply lookup_insert_eq|]|].
    + destruct Hwf. split_and!; try done; [split; simpl; try done; len|].
      unfold zlen in *. by rewrite length_map.
    + apply all_Forall. rewrite Forall_forall in *. intros t' Ht'. eapply rep_frame; [|by apply Hrt].
      intros l' Hl'. apply lookup_insert_ne. by eapply Hne.
  - split; [eexists; split; [apply lookup_insert_eq|done]|].
    apply all_Forall. rewrite Forall_forall in *. intros t' Ht'. eapply hashed_frame; [|by apply Hdone].
    intros l' Hl'. apply lookup_insert_ne. by eapply Hne.
  - eapply hashes_only_trans; [exact Ho|]. eapply hashes_only_store; [constructor|exact En|done].
Qed.

Lemma hashcompute_leaf fuel l ds m :
  rep (nodes m) (MLeaf l ds) -> runs (hashcompute fuel (Some l)) m (hash_post (MLeaf l ds) m).
Proof.
  intros (n & E & Hr). destruct (hash_leaf_spec n ds Hr) as (n' & En & chs & nh & -> & Hr' & Hh & Hnh).
  assert (runs (do ln <- load_lf l; do ln <- lift (hash_leaf ln); do _ <- store_lf l ln;
    mret (Some (lf_node_hash ln))) m (hash_post (MLeaf l ds) m)) as Hrun.
  { eapply runs_bind, runs_load_lf; [exact E|]. eapply runs_bind, runs_lift; [exact En|].
    eapply runs_bind, runs_store; [exact E|]. apply runs_ret. split_and!.
    - by exists nh.
    - eexists; split; [apply lookup_insert_eq|done].
    - eexists; split; [apply lookup_insert_eq|done].
    - eapply hashes_only_store; [constructor|exact E|done]. }
  destruct fuel; simpl; (eapply runs_bind, runs_load_hdr; [exact E|]);
    unfold is_leaf; simpl; by rewrite (proj1 Hr).
Qed.

Lemma non_leaf_child n ts i t :
  non_leaf_rep n (map mloc ts) -> ts !! i = Some t -> sub_ptr n !! i = Some (Some (mloc t)).
Proof.
  intros (_ & _ & _ & _ & Hs) Hi. pose proof (lookup_lt_Some _ _ _ Hi). rewrite length_map in Hs.
  assert (take (length ts) (sub_ptr n) !! i = Some (Some (mloc t))) as Hl.
  { rewrite Hs. change (map mloc ts) with (mloc <$> ts). by rewrite !list_lookup_fmap, Hi. }
  rewrite lookup_take_lt in Hl by lia. exact Hl.
Qed.

(** [hashcompute] on a balanced tree. *)
Lemma hashcompute_runs h : forall fuel t m,
  balanced h t -> (h <= fuel)%nat -> rep (nodes m) t -> NoDup (mlocs t) ->
  runs (hashcompute fuel (Some (mloc t))) m (hash_post t m).
Proof.
  induction h as [|h IH]; intros fuel [l ds|l ts] m Hb Hf Hr Hnd; try done;
    [by apply hashcompute_leaf|].
  destruct fuel as [|fuel]; [lia|]. destruct Hr as [(n & E & Hn) Hrs]. simpl hashcompute.
  pose proof Hn as (Hty & Hwf & Hc & Hm & _). unfold zlen in Hm, Hc. rewrite length_map in Hm, Hc.
  eapply runs_bind, runs_load_hdr; [exact E|].
  unfold is_leaf. simpl. destruct (Z.eqb_spec (type (nl_node n)) BPLUS_TREE_LEAF) as [|_]; [done|].
  eapply runs_bind, runs_load_nl; [exact E|]. rewrite Hc. eapply runs_bind, runs_wand.
  - apply (mfor_up_rule (fun i st m1 => exists chs, hash_inv l n ts m (Z.to_nat i) st m1 chs)); [lia| |].
    + exists (nl_childhash n). destruct Hwf. split; try done; [by destruct n|by apply all_Forall].
    + intros i [sub str] m1 Hi (chs & Hinv).
      destruct (lookup_lt_is_Some_2 ts (Z.to_nat i)) as [t Ht]; [lia|].
      pose proof (hi_rep _ _ _ _ _ _ _ _ Hinv) as Hrt. pose proof (hi_node _ _ _ _ _ _ _ _ Hinv) as En.
      eapply runs_bind, runs_get_sub; [exact En| |].
      { apply aget_Some. split; [lia|]. by apply (non_leaf_child n ts). }
      eapply runs_bind, runs_wand.
      { apply (IH fuel t m1); [|lia| |].
        - by eapply Forall_lookup_1 in Hb.
        - by eapply Forall_lookup_1 in Hrt.
        - apply NoDup_cons in Hnd as [_ Hnd]. by eapply mlocs_child_NoDup. }
      intros r m2 Hpost. pose proof Hpost as ((nh & -> & _) & _).
      eapply runs_bind, runs_lift; [done|]. rewrite <- (Z2Nat.id i) by lia.
      eapply hash_inv_round; [done|done|exact Hinv|exact Ht|exact Hpost|].
      intros st m3 chs' Hinv'. exists chs'.
      by replace (Z.to_nat (Z.of_nat (Z.to_nat i) + 1)) with (S (Z.to_nat i)) by lia.
  - intros [sub str] m1 (chs & Hinv). rewrite Nat2Z.id in Hinv. by eapply (hash_inv_final _ _ _ _ (sub, str)).
Qed.

(** C11. [hashcompute] computes the Merkle hash: on a balanced tree of at most
    [fuel] levels it terminates, returns the hash of the root, fills in the hash
    of every entry and node of the tree, and changes nothing else. *)
Theorem hashcompute_merkle (h fuel : nat) (t : mtree) (m : mem) :
  balanced h t -> (h <= fuel)%nat -> rep (nodes m) t -> NoDup (mlocs t) ->
  exists nh m', hashcompute fuel (Some (mloc t)) m = Some (Some nh, m') /\
    cstr nh = Some (mhash t) /\ rep (nodes m') t /\ hashed (nodes m') t /\
    hashes_only (mlocs t) m m'.
Proof.
  intros Hb Hf Hr Hn. destruct (hashcompute_runs h fuel t m Hb Hf Hr Hn)
    as (r & m' & E & (nh & -> & Hs & _) & H1 & H2 & H3). by exists nh, m'.
Qed.

(** C12. The root hash authenticates the tree: when [hashcompute] returns the same
    string for two trees of the same height, the trees hold the same strings in
    the same places, or two different inputs that were hashed for them have the
    same hash. *)
Theorem root_hash_binds (h fuel : nat) (t1 t2 : mtree) (m1 m2 : mem) :
  balanced h t1 -> balanced h t2 -> (h <= fuel)%nat ->
  rep (nodes m1) t1 -> NoDup (mlocs t1) -> rep (nodes m2) t2 -> NoDup (mlocs t2) ->
  exists nh1 m1' nh2 m2',
    hashcompute fuel (Some (mloc t1)) m1 = Some (Some nh1, m1') /\
    hashcompute fuel (Some (mloc t2)) m2 = Some (Some nh2, m2') /\
    (cstr nh1 = cstr nh2 -> content t1 = content t2 \/ clash (inputs t1) (inputs t2)).
Proof.
  intros B1 B2 Hf R1 N1 R2 N2.
  destruct (hashcompute_runs h fuel t1 m1 B1 Hf R1 N1) as (? & m1' & E1 & (nh1 & -> & S1 & _) & _).
  destruct (hashcompute_runs h fuel t2 m2 B2 Hf R2 N2) as (? & m2' & E2 & (nh2 & -> & S2 & _) & _).
  exists nh1, m1', nh2, m2'. split_and!; [done|done|]. intros Heq.
  apply (mhash_inj h); congruence.
Qed.

End Merkle.

(** ** A tree to evaluate the properties on *)

Definition demo_root : bplus_non_leaf :=
  set_sub_ptr (Some 1%nat :: Some 2%nat :: replicate 48 None) (demo_non_leaf 2).

Definition demo_mem : mem :=
  mkMem (mkTree 5 5 1 (Some 0%nat) [] 0 0)
    (<[0%nat := NonLeaf demo_root]> (<[1%nat := Leaf demo_leaf]> (<[2%nat := Leaf demo_leaf]> ∅)))
    3 demo_tm ∅.

Definition demo_mtree : mtree := MNode 0 [MLeaf 1 [demo_str]; MLeaf 2 [demo_str]].

Lemma demo_ctx_ok : ctx_ok (mkSHA256 0 0 (replicate 128 0) []).
Proof. split; [reflexivity|eval_dec]. Qed.

Definition demo_hashfn : HashFn :=
  sha256_pg_hash (mkSHA256 0 0 (replicate 128 0) []) (replicate 65 0) demo_ctx_ok eq_refl.

Lemma demo_leaf_rep : leaf_rep demo_leaf [demo_str].
Proof. split_and!; [done|apply demo_leaf_wf|done|done|]. repeat constructor; done. Qed.

Lemma demo_rep : rep (nodes demo_mem) demo_mtree.
Proof.
  split; [exists demo_root; split; [reflexivity|]|].
  - split_and!; [done| |done|done|done]. split; reflexivity || eval_dec.
  - apply all_Forall. repeat constructor; exists demo_leaf; split; reflexivity || apply demo_leaf_rep.
Qed.

Lemma demo_balanced : balanced 1 demo_mtree.
Proof. repeat constructor. Qed.

Lemma demo_NoDup : NoDup (mlocs demo_mtree).
Proof. eval_dec. Qed.

Lemma hashcompute_merkle_witness :
  exists nh m', @hashcompute demo_hashfn 12 (Some 0%nat) demo_mem = Some (Some nh, m') /\
    cstr nh = Some (@mhash demo_hashfn demo_mtree).
Proof.
  destruct (@hashcompute_merkle demo_hashfn 1 12 demo_mtree demo_mem)
    as (nh & m' & E & Hs & _); [exact demo_balanced|lia|exact demo_rep|exact demo_NoDup|].
  exists nh, m'. split; [exact E|exact Hs].
Defined.

Lemma root_hash_binds_witness :
  exists nh1 m1' nh2 m2',
    @hashcompute demo_hashfn 12 (Some 0%nat) demo_mem = Some (Some nh1, m1') /\
    @hashcompute demo_hashfn 12 (Some 0%nat) demo_mem = Some (Some nh2, m2') /\
    (cstr nh1 = cstr nh2 -> content demo_mtree = content demo_mtree \/
      @clash demo_hashfn (@inputs demo_hashfn demo_mtree) (@inputs demo_hashfn demo_mtree)).
Proof.
  apply (@root_hash_binds demo_hashfn 1 12 demo_mtree demo_mtree demo_mem demo_mem);
    [exact demo_balanced|exact demo_balanced|lia|exact demo_rep|exact demo_NoDup
    |exact demo_rep|exact demo_NoDup].
Defined.
