(* ===== verification/Store.v ===== *)
(** * Numbering and storing the tree (set_node_id and bplus_tree_store in
    src/src/backend/mbt/mbtree.c)

    Both walk the rings of the levels.  [set_node_id] numbers the nodes of each
    level from 0, from the top level down, so that a node finds the number of
    its parent, and records for every non-leaf the numbers of its children in
    the hash map of its level.  [bplus_tree_store] writes one page per node,
    level by level from the leaves up, and records in each parent the offsets
    of its children's pages.

    A vector of child numbers is the list of its elements and the hash maps are
    those of Hashmap.v; allocations succeed.  A walk has as much fuel as the
    memory has nodes. *)

From S2P Require Import Prelude CMem Hashmap Codec Node NodeCodec Heap.

Definition hashmaps : Type := list (Hashmap.Hashmap (list Z)).

(** [temp_node_id[10][500]]. *)
Definition MAX_IDS : Z := 500.

Definition ring_fuel : M nat := fun m => Some (S (base.size (nodes m)), m).

(** The node behind the head of a level: [(char * )(tree->list[i].next) - offset]. *)
Definition first_of_level (i : Z) : M loc :=
  do k <- load_link (LHead i); deref (list_entry (next k)).

(** [l->link.next == &(tree->list[i])]. *)
Definition is_last_of_level (l : loc) (i : Z) : M bool := list_is_last (LNode l) (LHead i).

(** ** set_node_id *)

Fixpoint label_leaves (fuel : nat) (i : Z) (leaf : loc) (id : Z) : M unit :=
  match fuel with
  | O => ub
  | S fuel' =>
      do n <- load_lf leaf;
      do _ <- store_lf leaf (set_lf_ids id (lf_parent_id n) n);
      do _ <- match parent (lf_node n) with
              | Some p =>
                  do pn <- load_nl p;
                  do n <- load_lf leaf;
                  store_lf leaf (set_lf_ids (lf_node_id n) (nl_node_id pn) n)
              | None => mret tt
              end;
      do last <- is_last_of_level leaf i;
      if last : bool then mret tt
      else
        do nx <- list_next_entry leaf;
        do nx <- deref nx;
        label_leaves fuel' i nx (id + 1)
  end.

Fixpoint label_non_leaves (fuel : nat) (i : Z) (non_leaf : loc) (id : Z) : M unit :=
  match fuel with
  | O => ub
  | S fuel' =>
      do n <- load_nl non_leaf;
      do _ <- store_nl non_leaf (set_nl_ids id (nl_parent_id n) n);
      do _ <- match parent (nl_node n) with
              | Some p =>
                  do pn <- load_nl p;
                  do n <- load_nl non_leaf;
                  store_nl non_leaf (set_nl_ids (nl_node_id n) (nl_node_id pn) n)
              | None => mret tt
              end;
      do last <- is_last_of_level non_leaf i;
      if last : bool then mret tt
      else
        do nx <- list_next_entry non_leaf;
        do nx <- deref nx;
        label_non_leaves fuel' i nx (id + 1)
  end.

(** The first step: [for(i = tree->level; i >= 0; i--)]. *)
Definition label_levels : M unit :=
  do t <- get_tree;
  do fuel <- ring_fuel;
  mfor_down (level t) (-1) (fun i _ =>
    do n <- first_of_level i;
    if i =? 0 then label_leaves fuel i n 0 else label_non_leaves fuel i n 0) tt.

(** The numbers of the children of a non-leaf of level [i]. *)
Definition children_ids (i : Z) (non_leaf : loc) : M (list Z) :=
  do c <- get_children non_leaf;
  mfor_up 0 c (fun j children_id =>
    do p <- get_sub non_leaf j;
    do s <- deref p;
    if 1 <? i then do n <- load_nl s; mret (children_id ++ [nl_node_id n])
    else do n <- load_lf s; mret (children_id ++ [lf_node_id n])) [].

(** One level of the second step. *)
Fixpoint map_level (fuel : nat) (i : Z) (non_leaf : loc) (hashp : hashmaps) (temp_node_id : list (list Z))
  : M (hashmaps * list (list Z)) :=
  match fuel with
  | O => ub
  | S fuel' =>
      do children_id <- children_ids i non_leaf;
      do n <- load_nl non_leaf;
      do hp <- lift (aget hashp i);
      do ' (hp, _) <- lift (Hashmap.hashmap_set true hp (nl_node_id n) (Some children_id));
      do hashp <- lift (aset hashp i hp);
      do row <- lift (aget temp_node_id i);
      do row <- lift (aset row (nl_node_id n) 1);
      do temp_node_id <- lift (aset temp_node_id i row);
      do _ <- (if (i =? 1) && (nl_node_id n =? 0) then
                 do hp1 <- lift (aget hashp 1);
                 do pv <- lift (Hashmap.hashmap_get hp1 0);
                 do _ <- lift pv;
                 mret tt
               else mret tt);
      do last <- is_last_of_level non_leaf i;
      if last : bool then mret (hashp, temp_node_id)
      else
        do nx <- list_next_entry non_leaf;
        do nx <- deref nx;
        map_level fuel' i nx hashp temp_node_id
  end.

(** The second step: [for(i = 1; i <= tree->level; i++)]. *)
Definition map_levels (hashp : hashmaps) (temp_node_id : list (list Z))
  : M (hashmaps * list (list Z)) :=
  do t <- get_tree;
  do fuel <- ring_fuel;
  mfor_up 1 (level t + 1) (fun i st =>
    let '(hashp, temp_node_id) := st in
    do n <- first_of_level i;
    map_level fuel i n hashp temp_node_id) (hashp, temp_node_id).

Definition set_node_id (hashp : hashmaps) (temp_node_id : list (list Z))
  : M (hashmaps * list (list Z)) :=
  do _ <- label_levels;
  map_levels hashp temp_node_id.

(** ** bplus_tree_store *)

Section Storing.
Context `{Platform}.

(** [pwrite(tree->fd, buffer, PAGESIZE, tree->offset)]; its result is not used.  It
    writes nothing with a descriptor of a failed [open] and at a negative offset,
    and otherwise as many bytes as the platform lets it; the others of the page
    stay.  A page that was never written is not in [disk]. *)
Definition pwrite (buffer : list Z) : M unit := fun m =>
  let o := offset (tree m) in
  let n := if (0 <=? fd (tree m)) && (0 <=? o) then Nat.min (pwritten o) (length buffer) else O in
  Some (tt, if decide (n = O) then m
            else mkMem (tree m) (nodes m) (next_loc m) (tmem m)
                   (<[o := take (Z.to_nat PAGESIZE) (take n buffer ++ drop n (default [] (disk m !! o)))]> (disk m))).

(** [node->parent->chindrenoffset[children_number] = tree->offset]. *)
Definition record_offset (p : option loc) (children_number : Z) : M unit :=
  match p with
  | Some p =>
      do t <- get_tree;
      do pn <- load_nl p;
      do os <- lift (aset (chindrenoffset pn) children_number (offset t));
      store_nl p (set_chindrenoffset os pn)
  | None => mret tt
  end.

Definition parent_children (l : loc) (child_count : Z) : M Z :=
  do h <- load_hdr l;
  match parent h with Some p => get_children p | None => mret child_count end.

(** The local variables of a level: the buffer and the two counters.  [full] is
    the test of step 3, [>=] for leaves and [==] for non-leaves. *)
Fixpoint store_level (serialize : loc -> list Z -> M (list Z)) (full : Z -> Z -> bool)
    (fuel : nat) (i : Z) (node : loc) (buffer : list Z) (child_count children_number : Z)
  : M (list Z) :=
  match fuel with
  | O => ub
  | S fuel' =>
      do buffer <- serialize node buffer;
      do _ <- pwrite buffer;
      do h <- load_hdr node;
      do _ <- record_offset (parent h) children_number;
      let children_number := children_number + 1 in
      do _ <- on_tree (fun t => set_offset (offset t + PAGESIZE) t);
      do last <- is_last_of_level node i;
      if last : bool then mret buffer
      else
        do nx <- list_next_entry node;
        do nx <- deref nx;
        if full children_number child_count then
          do child_count <- parent_children nx child_count;
          store_level serialize full fuel' i nx buffer child_count 0
        else store_level serialize full fuel' i nx buffer child_count children_number
  end.

Definition serialize_leaf_at (l : loc) (buffer : list Z) : M (list Z) :=
  do n <- load_lf l;
  do tm <- get_tm;
  lift (bplus_leaf_serialize tm n buffer).

Definition serialize_non_leaf_at (l : loc) (buffer : list Z) : M (list Z) :=
  do n <- load_nl l;
  lift (bplus_non_leaf_serialize n buffer).

Definition bplus_tree_store : M Z :=
  do t <- get_tree;
  do fuel <- ring_fuel;
  do ' (_, root_offset) <- mfor_up 0 (level t + 1) (fun i st =>
    let '(buffer, root_offset) := st in
    do t <- get_tree;
    let root_offset := if i =? level t then offset t else root_offset in
    do node <- first_of_level i;
    do child_count <- parent_children node 0;
    do buffer <-
      (if i =? 0 then
         store_level serialize_leaf_at (fun n c => c <=? n) fuel i node buffer child_count 0
       else
         store_level serialize_non_leaf_at (fun n c => n =? c) fuel i node buffer child_count 0);
    mret (buffer, root_offset)) (replicate (Z.to_nat PAGESIZE) 0, 0);
  mret root_offset.

End Storing.
