(* ===== verification/Vo.v ===== *)
(** * The verification object (struct rangevo in src/src/include/mbt/mbtree.h;
    rangevo_init, vo_serialize and vo_deserialize in
    src/src/backend/mbt/mbtree.c)

    A verification object carries the strings in the range, grouped by leaf,
    and for each level of the two search paths the hashes of the siblings
    outside the range.  A vector is the list of its elements: [data] holds
    vectors of [char *], taken as the buffers they point to, [nhash] holds
    slots of 33 bytes, [itemdata] holds item pointers, taken as the cells they
    point to.

    [vo_deserialize] pushes the variable [value], a pointer of 8 bytes, to a vector
    whose elements have 33 bytes: [vector_push_back] reads 25 bytes behind the
    variable.  Of an element only the pointer in front is used later (Pgvector.v,
    [pushed_pointer]).  Whether the bytes can be read is up to the platform
    ([push_variable]). *)

From S2P Require Import Prelude CMem Codec Node.

Record nodevo := mkNodevo {
  vo_node_id : Z;
  bound_node_childno : Z;
  nhash : list (list Z)
}.

Record rangevo := mkRangevo {
  traverse_height : Z;
  leftvo : list nodevo;
  rightvo : list nodevo;
  vdata : list (list (list Z));
  itemdata : list ItemPointerData;
  vo_hashmap : list Z;
  mbtree_size : Z
}.

(** [rangevo_init] sets up the vectors; the ids keep what the block held. *)
Definition rangevo_init (vo : rangevo) (hashmap_size : Z) : rangevo :=
  let setup (n : nodevo) := mkNodevo (vo_node_id n) (bound_node_childno n) [] in
  mkRangevo 0 (setup <$> leftvo vo) (setup <$> rightvo vo) [] []
    (replicate (Z.to_nat hashmap_size) 0) (Z.quot hashmap_size 8192).

(** ** vo_serialize *)

(** A [char *]: its length and its characters. *)
Definition emit_string (s : list Z) (st : out) : option out :=
  do c <- cstr s;
  do st <- emit (put64 (zlen c)) st;
  emit c st.

(** [memcpy(buffer + pos, temp_hash, 32)]. *)
Definition emit_hash (h : list Z) (st : out) : option out :=
  do bs <- read_bytes h 0 DATA_SIZE; emit bs st.

Definition emit_nodevo (n : nodevo) (st : out) : option out :=
  do st <- emit (put64 (vo_node_id n)) st;
  do st <- emit (put64 (bound_node_childno n)) st;
  do st <- emit (put64 (zlen (nhash n))) st;
  int_range (zlen (nhash n)) (fun j st => do h <- aget (nhash n) j; emit_hash h st) st.

Definition vo_writer (vo : rangevo) (st : out) : option out :=
  do st <- emit (put32 (traverse_height vo)) st;
  do st <- emit (put64 (zlen (vdata vo))) st;
  do st <- int_range (zlen (vdata vo)) (fun i st =>
    do v <- aget (vdata vo) i;
    do st <- emit (put64 (zlen v)) st;
    int_range (zlen v) (fun j st => do s <- aget v j; emit_string s st) st) st;
  do st <- for_range 0 BPLUS_MAX_LEVEL (fun i st =>
    do n <- aget (leftvo vo) i; emit_nodevo n st) st;
  for_range 0 BPLUS_MAX_LEVEL (fun i st =>
    do n <- aget (rightvo vo) i; emit_nodevo n st) st.

Definition vo_serialize (vo : rangevo) (buffer : list Z) : option (list Z) :=
  fst <$> vo_writer vo (buffer, 0).

(** ** vo_deserialize *)

(** The loops have [int] counters. *)
Definition read_ints {A} (f : list Z -> Z -> option (A * Z)) (n : Z) (acc : list A) (buffer : list Z) (pos : Z)
  : option (list A * Z) :=
  check n <? 2 ^ 31; read_list f n acc buffer pos.

Section Reader.
Context `{Platform}.

(** A zeroed block of [len + 1] bytes that [strncpy] fills, and the push of the
    variable that points to it. *)
Definition read_string (buffer : list Z) (pos : Z) : option (list Z * Z) :=
  do ' (len, pos) <- fetch_u64 buffer pos;
  do value <- fetch_str (replicate (Z.to_nat (len + 1)) 0) (Z.to_nat len) len buffer pos;
  do _ <- push_variable (DATA_SIZE + 1);
  Some value.

Definition read_strings (buffer : list Z) (pos : Z) : option (list (list Z) * Z) :=
  do ' (n, pos) <- fetch_u64 buffer pos;
  read_ints read_string n [] buffer pos.

Definition read_hash (buffer : list Z) (pos : Z) : option (list Z * Z) :=
  fetch_str (replicate (Z.to_nat (DATA_SIZE + 1)) 0) (Z.to_nat DATA_SIZE) DATA_SIZE buffer pos.

Definition read_nodevo (old : nodevo) (buffer : list Z) (pos : Z) : option (nodevo * Z) :=
  do ' (id, pos) <- fetch_s64 buffer pos;
  do ' (bound, pos) <- fetch_s64 buffer pos;
  do ' (n, pos) <- fetch_u64 buffer pos;
  do ' (hs, pos) <- read_ints read_hash n (nhash old) buffer pos;
  Some (mkNodevo id bound hs, pos).

Definition read_nodevos (arr : list nodevo) (buffer : list Z) (pos : Z) : option (list nodevo * Z) :=
  for_range 0 BPLUS_MAX_LEVEL (fun i st =>
    do old <- aget st.1 i;
    do ' (n, pos) <- read_nodevo old buffer st.2;
    do arr' <- aset st.1 i n;
    Some (arr', pos)) (arr, pos).

Definition vo_reader (vo : rangevo) (buffer : list Z) (pos : Z) : option (rangevo * Z) :=
  do ' (th, pos) <- fetch_s32 buffer pos;
  do ' (n, pos) <- fetch_u64 buffer pos;
  do ' (d, pos) <- read_ints read_strings n (vdata vo) buffer pos;
  do ' (l, pos) <- read_nodevos (leftvo vo) buffer pos;
  do ' (r, pos) <- read_nodevos (rightvo vo) buffer pos;
  Some (mkRangevo th l r d (itemdata vo) (vo_hashmap vo) (mbtree_size vo), pos).

Definition vo_deserialize (vo : rangevo) (buffer : list Z) : option rangevo :=
  fst <$> vo_reader vo buffer 0.

End Reader.

(** ** Round trip *)

(** A slot with a string of 32 characters in its 33 bytes. *)
Definition hash_slot (h : list Z) : Prop := exists s, h = s ++ [0] /\ length s = 32%nat /\ chars s.

Definition nodevo_ok (n : nodevo) : Prop :=
  in_s 64 (vo_node_id n) /\ in_s 64 (bound_node_childno n) /\
  zlen (nhash n) < 2 ^ 31 /\ Forall hash_slot (nhash n).

(** A string that [vo_serialize] can send, without its terminator. *)
Definition string_ok (b : list Z) : Prop :=
  exists s, cstr b = Some s /\ in_u 64 (zlen s).

Record vo_ok (vo : rangevo) : Prop := {
  vok_height : in_s 32 (traverse_height vo);
  vok_data : zlen (vdata vo) < 2 ^ 31;
  vok_datas : Forall (fun v => zlen v < 2 ^ 31 /\ Forall string_ok v) (vdata vo);
  vok_left : zlen (leftvo vo) = BPLUS_MAX_LEVEL;
  vok_right : zlen (rightvo vo) = BPLUS_MAX_LEVEL;
  vok_lefts : Forall nodevo_ok (leftvo vo);
  vok_rights : Forall nodevo_ok (rightvo vo)
}.

Definition string_bytes (b : list Z) : list Z :=
  let s := default [] (cstr b) in put64 (zlen s) ++ s.
Definition strings_bytes (v : list (list Z)) : list Z :=
  put64 (zlen v) ++ mjoin (string_bytes <$> v).
Definition nodevo_bytes (n : nodevo) : list Z :=
  put64 (vo_node_id n) ++ put64 (bound_node_childno n) ++ put64 (zlen (nhash n)) ++
  mjoin (take 32 <$> nhash n).
Definition vo_bytes (vo : rangevo) : list Z :=
  put32 (traverse_height vo) ++ put64 (zlen (vdata vo)) ++ mjoin (strings_bytes <$> vdata vo) ++
  mjoin (nodevo_bytes <$> leftvo vo) ++ mjoin (nodevo_bytes <$> rightvo vo).

(** A string as [vo_deserialize] stores it: exactly its characters and a NUL. *)
Definition tight (b : list Z) : list Z := default [] (cstr b) ++ [0].

Definition tights (v : list (list Z)) : list (list Z) := tight <$> v.

(** The loops over vectors with fewer than 2^31 elements. *)
Lemma emits_ints {A} (l : list A) (enc : A -> list Z) (f : A -> out -> option out) : zlen l < 2 ^ 31 ->
  (forall x, x ∈ l -> emits (f x) (enc x)) ->
  emits (int_range (zlen l) (fun i st => do x <- aget l i; f x st)) (mjoin (enc <$> l)).
Proof. intros Hl Hf. eapply emits_ext; [|by apply (emits_list l enc f)]. intros st. by rewrite int_range_eq. Qed.

Lemma reads_ints {A B} (f : list Z -> Z -> option (B * Z)) (enc : A -> list Z) (dec : A -> B) l acc : zlen l < 2 ^ 31 ->
  (forall x, x ∈ l -> reads f (enc x) (dec x)) ->
  reads (read_ints f (zlen l) acc) (mjoin (enc <$> l)) (acc ++ (dec <$> l)).
Proof.
  intros Hl Hf. eapply reads_ext; [|by apply (reads_list f enc dec l acc)]. intros buf pos. unfold read_ints.
  by rewrite (proj2 (Z.ltb_lt _ _) Hl).
Qed.

Lemma count_u64 {A} (l : list A) : zlen l < 2 ^ 31 -> in_u 64 (zlen l).
Proof. pose proof (zlen_nonneg l). unfold in_u. lia. Qed.

Lemma push_variable_ok `{Platform} n : n <= 8 + past_local -> push_variable n = Some tt.
Proof. intros Hn. unfold push_variable. by rewrite (proj2 (Z.leb_le _ _) Hn). Qed.

Lemma emits_string b : string_ok b -> emits (emit_string b) (string_bytes b).
Proof.
  intros (s & Hs & _). unfold string_bytes. rewrite Hs. change (default [] (Some s)) with s. intros pre rest Hl.
  unfold emit_string. rewrite Hs. cbn [mbind option_bind].
  apply (emits_seq (emit (put64 (zlen s))) (emit s)); [apply emits_emit..|done].
Qed.

Lemma reads_string `{Platform} b : 25 <= past_local -> string_ok b -> reads read_string (string_bytes b) (tight b).
Proof.
  intros Hpl (s & Hs & Hz). unfold string_bytes, tight. rewrite Hs. change (default [] (Some s)) with s.
  pose proof (cstr_chars _ _ Hs) as Hc. unfold read_string.
  eapply reads_bind; [by apply reads_u64|]. intros pre rest. unfold fetch_str, strncpy_at.
  rewrite (proj2 (Z.leb_le _ _)) by apply zlen_nonneg. unfold zlen. rewrite !Nat2Z.id, drop_app_length.
  unfold strncpy. rewrite strncpy_bytes_full by done. cbn [mbind option_bind].
  rewrite write_bytes_head by (rewrite zlen_replicate; unfold zlen; lia). cbn [mbind option_bind].
  rewrite push_variable_ok by (unfold DATA_SIZE; lia). cbn [mbind option_bind].
  do 3 f_equal. replace (Z.to_nat (Z.of_nat (length s) + 1)) with (S (length s)) by lia.
  rewrite drop_replicate. by replace (S (length s) - length s)%nat with 1%nat by lia.
Qed.

Lemma hash_slot_take h : hash_slot h -> h = take 32 h ++ [0] /\ length (take 32 h) = 32%nat /\ chars (take 32 h).
Proof. intros (s & -> & Hl & Hc). by rewrite take_app_length' by done. Qed.

Lemma emits_hash h : hash_slot h -> emits (emit_hash h) (take 32 h).
Proof.
  intros Hh pre rest Hl. destruct (hash_slot_take h Hh) as (He & Hlen & _). unfold emit_hash.
  assert (zlen h = 33) as H33 by (rewrite He, zlen_app; unfold zlen; simpl; lia).
  rewrite read_bytes_Some by (unfold DATA_SIZE; lia).
  cbn [mbind option_bind]. by apply emits_emit.
Qed.

Lemma reads_hash h : hash_slot h -> reads read_hash (take 32 h) h.
Proof.
  intros Hh pre rest. destruct (hash_slot_take h Hh) as (He & Hlen & Hc).
  unfold read_hash, fetch_str, strncpy_at.
  rewrite (proj2 (Z.leb_le _ _)) by apply zlen_nonneg.
  replace (Z.to_nat (zlen pre)) with (length pre) by (unfold zlen; lia). rewrite drop_app_length.
  unfold strncpy. rewrite strncpy_bytes_full by done. cbn [mbind option_bind].
  rewrite write_bytes_head by (rewrite zlen_replicate; unfold zlen, DATA_SIZE; lia).
  cbn [mbind option_bind]. rewrite Hlen, drop_replicate.
  replace (zlen (take 32 h)) with DATA_SIZE by (unfold zlen, DATA_SIZE; lia).
  do 2 f_equal. symmetry. exact He.
Qed.

Lemma emits_nodevo n : nodevo_ok n -> emits (emit_nodevo n) (nodevo_bytes n).
Proof.
  intros (_ & _ & Hn & Hs). unfold emit_nodevo, nodevo_bytes.
  do 3 (apply emits_seq; [apply emits_emit|]).
  apply (emits_ints (nhash n) (take 32) emit_hash Hn). intros h Hh. apply emits_hash.
  by apply (proj1 (Forall_forall _ _) Hs).
Qed.

Lemma reads_nodevo n old : nodevo_ok n -> nhash old = [] -> reads (read_nodevo old) (nodevo_bytes n) n.
Proof.
  intros (H1 & H2 & H3 & Hs) Ho. unfold read_nodevo, nodevo_bytes.
  do 2 (eapply reads_bind; [by apply reads_s64|]). eapply reads_bind; [by apply reads_u64, count_u64|].
  rewrite <- (app_nil_r (mjoin _)). eapply reads_bind.
  - apply (reads_ints read_hash (take 32) id (nhash n) _ H3). intros h Hh. apply reads_hash.
    by apply (proj1 (Forall_forall _ _) Hs).
  - rewrite Ho, list_fmap_id. destruct n. apply reads_ret.
Qed.

Lemma reads_nodevos arr ns :
  zlen ns = BPLUS_MAX_LEVEL -> zlen arr = BPLUS_MAX_LEVEL ->
  Forall nodevo_ok ns -> Forall (fun o => nhash o = []) arr ->
  reads (read_nodevos arr) (mjoin (nodevo_bytes <$> ns)) ns.
Proof.
  intros Hn Ha Hok Hnil. unfold read_nodevos.
  assert (ns = overwritten arr ns (length ns)) as Hall.
  { rewrite overwritten_all, drop_ge, app_nil_r; [done|]. unfold zlen in *. lia. }
  rewrite Hall at 2.
  apply (reads_for ns nodevo_bytes (overwritten arr ns) BPLUS_MAX_LEVEL (fun i buf st =>
    do old <- aget st.1 i; do ' (n, pos) <- read_nodevo old buf st.2;
    do arr' <- aset st.1 i n; Some (arr', pos)) arr); [done|done|].
  intros j n Hj pre rest. cbn [fst snd]. pose proof (lookup_lt_Some _ _ _ Hj).
  destruct (lookup_lt_is_Some_2 arr j) as [old Hold]; [unfold zlen in *; lia|].
  rewrite aget_nat, overwritten_lookup, Hold by (unfold zlen in *; lia). cbn [mbind option_bind].
  rewrite (reads_nodevo n old) by (by apply (Forall_lookup_1 _ _ _ _ Hok Hj) || by apply (Forall_lookup_1 _ _ _ _ Hnil Hold)).
  cbn [mbind option_bind]. by rewrite (overwritten_step arr ns j n) by (done || unfold zlen in *; lia).
Qed.

Lemma vo_writer_emits vo : vo_ok vo -> emits (vo_writer vo) (vo_bytes vo).
Proof.
  intros [Hh Hd Hds Hl Hr Hls Hrs]. unfold vo_writer, vo_bytes.
  do 2 (apply emits_seq; [apply emits_emit|]).
  rewrite Forall_forall in Hds. rewrite Forall_forall in Hls. rewrite Forall_forall in Hrs.
  apply emits_seq; [|apply emits_seq].
  - apply (emits_ints (vdata vo) strings_bytes (fun v st =>
      do st <- emit (put64 (zlen v)) st;
      int_range (zlen v) (fun j st => do s <- aget v j; emit_string s st) st) Hd).
    intros v [Hvl Hv]%Hds. rewrite Forall_forall in Hv. apply emits_seq; [apply emits_emit|].
    apply (emits_ints v string_bytes emit_string Hvl). intros. apply emits_string. auto.
  - rewrite <- Hl. apply (emits_list (leftvo vo) nodevo_bytes emit_nodevo).
    intros. apply emits_nodevo. auto.
  - rewrite <- Hr. apply (emits_list (rightvo vo) nodevo_bytes emit_nodevo).
    intros. apply emits_nodevo. auto.
Qed.

Lemma reads_strings `{Platform} v : 25 <= past_local -> zlen v < 2 ^ 31 -> Forall string_ok v ->
  reads read_strings (strings_bytes v) (tights v).
Proof.
  intros Hpl Hz Hv. rewrite Forall_forall in Hv. unfold read_strings, strings_bytes.
  eapply reads_bind; [by apply reads_u64, count_u64|].
  apply (reads_ints read_string string_bytes tight v [] Hz). intros. apply reads_string; auto.
Qed.

Lemma vo_reader_reads `{Platform} vo vo0 :
  25 <= past_local -> vo_ok vo -> vdata vo0 = [] -> zlen (leftvo vo0) = BPLUS_MAX_LEVEL -> zlen (rightvo vo0) = BPLUS_MAX_LEVEL ->
  Forall (fun o => nhash o = []) (leftvo vo0) -> Forall (fun o => nhash o = []) (rightvo vo0) ->
  reads (vo_reader vo0) (vo_bytes vo)
    (mkRangevo (traverse_height vo) (leftvo vo) (rightvo vo) (tights <$> vdata vo)
       (itemdata vo0) (vo_hashmap vo0) (mbtree_size vo0)).
Proof.
  intros Hpl [Hh Hd Hds Hl Hr Hls Hrs] Hd0 Hl0 Hr0 Hln Hrn. rewrite Forall_forall in Hds.
  unfold vo_reader, vo_bytes.
  eapply reads_bind; [by apply reads_s32|]. eapply reads_bind; [by apply reads_u64, count_u64|].
  eapply reads_bind.
  { rewrite Hd0. apply (reads_ints read_strings strings_bytes tights (vdata vo) [] Hd).
    intros v [? ?]%Hds. by apply reads_strings. }
  eapply reads_bind; [by apply reads_nodevos|].
  rewrite <- (app_nil_r (mjoin (nodevo_bytes <$> rightvo vo))).
  eapply reads_bind; [by apply reads_nodevos|]. apply reads_ret.
Qed.

Lemma vo_sent `{Platform} (vo vo0 : rangevo) (hashmap_size : Z) (buffer : list Z) :
  25 <= past_local -> vo_ok vo -> zlen (leftvo vo0) = BPLUS_MAX_LEVEL -> zlen (rightvo vo0) = BPLUS_MAX_LEVEL ->
  zlen (vo_bytes vo) <= zlen buffer ->
  exists buffer' vo', vo_serialize vo buffer = Some buffer' /\
    vo_deserialize (rangevo_init vo0 hashmap_size) buffer' = Some vo' /\
    traverse_height vo' = traverse_height vo /\
    leftvo vo' = leftvo vo /\ rightvo vo' = rightvo vo /\
    vdata vo' = tights <$> vdata vo /\
    Forall2 (Forall2 (fun b' b => cstr b' = cstr b)) (vdata vo') (vdata vo).
Proof.
  intros Hpl Hok Hl Hr Hfit. eexists _, _. split.
  { unfold vo_serialize. rewrite (emits_run _ _ _ (vo_writer_emits vo Hok) Hfit). reflexivity. }
  split.
  { apply reads_run, vo_reader_reads; cbn; rewrite ?zlen_fmap; try done;
      apply Forall_fmap, Forall_true; done. }
  cbn. split_and!; try done. apply Forall2_fmap_l, Forall_Forall2_diag.
  pose proof (vok_datas _ Hok) as Hds. eapply Forall_impl; [exact Hds|]. intros v [_ Hv].
  apply Forall2_fmap_l, Forall_Forall2_diag. eapply Forall_impl; [exact Hv|].
  intros b (s & Hs & _). unfold compose, tight. rewrite Hs. apply cstr_app. by eapply cstr_chars.
Qed.

(** What was written does not come back where the bytes behind the variable cannot be
    read: a string cannot be pushed. *)
Lemma read_string_strict `{Platform} buffer pos : past_local < 25 -> read_string buffer pos = None.
Proof.
  intros Hp. unfold read_string. destruct (fetch_u64 buffer pos) as [[len pos']|]; [|done]. cbn [mbind option_bind].
  destruct (fetch_str _ _ _ _ _); [|done]. cbn [mbind option_bind]. unfold push_variable, DATA_SIZE.
  by rewrite (proj2 (Z.leb_gt _ _)) by lia.
Qed.

Lemma read_strings_strict `{Platform} buffer pos n pos' : past_local < 25 -> fetch_u64 buffer pos = Some (n, pos') -> 0 < n ->
  read_strings buffer pos = None.
Proof.
  intros Hp E Hn. unfold read_strings. rewrite E. cbn [mbind option_bind]. unfold read_ints.
  destruct (n <? 2 ^ 31); [|done]. cbn [cassert mbind option_bind]. unfold read_list, for_range.
  destruct (Z.to_nat (n - 0)) as [|k] eqn:Ek; [lia|]. cbn [for_n snd]. by rewrite read_string_strict.
Qed.

Lemma vo_reader_strict `{Platform} vo vo0 b bs rest tail : past_local < 25 -> vo_ok vo -> vdata vo = (b :: bs) :: rest ->
  vo_deserialize vo0 (vo_bytes vo ++ tail) = None.
Proof.
  intros Hp [Hh Hd Hds _ _ _ _] Ed. unfold vo_deserialize, vo_reader, vo_bytes.
  rewrite <- app_assoc. set (th := traverse_height vo) in *.
  pose proof (reads_s32 _ Hh [] : forall r, fetch_s32 (put32 th ++ r) 0 = Some (th, zlen (put32 th))) as E1. rewrite E1.
  cbn [mbind option_bind]. rewrite <- app_assoc. pose proof (reads_u64 _ (count_u64 _ Hd) (put32 th)) as E2.
  rewrite E2. cbn [mbind option_bind].
  unfold read_ints. rewrite (proj2 (Z.ltb_lt _ _) Hd). cbn [cassert mbind option_bind]. unfold read_list, for_range.
  rewrite Ed in Hds |- *. apply Forall_cons in Hds as [[Hb _] _]. rewrite Z.sub_0_r. unfold zlen at 3. rewrite Nat2Z.id.
  cbn [length for_n snd fmap list_fmap]. change (mjoin (?x :: ?y)) with (x ++ mjoin y).
  pose proof (reads_u64 _ (count_u64 _ Hb) (put32 th ++ put64 (zlen ((b :: bs) :: rest)))) as E3.
  rewrite <- zlen_app. match goal with |- context [read_strings ?buf _] => assert (exists r,
    buf = (put32 th ++ put64 (zlen ((b :: bs) :: rest))) ++ put64 (zlen (b :: bs)) ++ r) as [r ->] end.
  { eexists. unfold strings_bytes. rewrite <- !app_assoc. reflexivity. }
  rewrite (read_strings_strict _ _ _ _ Hp (E3 _)); [done|]. unfold zlen. simpl. lia.
Qed.

(** C24. A verification object survives the wire where 25 bytes behind a pointer variable
    can be read: what [vo_serialize] writes into a buffer that is large enough,
    [vo_deserialize] reads back into a struct prepared by [rangevo_init]: the same
    height, the same ids and sibling hashes on both paths, and the same strings.
    Where they cannot be read, [vo_deserialize] is undefined on the same buffer as
    soon as the first group has a string. *)
Theorem vo_roundtrip `{Platform} (vo vo0 : rangevo) (hashmap_size : Z) (buffer : list Z) :
  vo_ok vo -> zlen (leftvo vo0) = BPLUS_MAX_LEVEL -> zlen (rightvo vo0) = BPLUS_MAX_LEVEL ->
  zlen (vo_bytes vo) <= zlen buffer ->
  exists buffer', vo_serialize vo buffer = Some buffer' /\
    (25 <= past_local -> exists vo',
      vo_deserialize (rangevo_init vo0 hashmap_size) buffer' = Some vo' /\
      traverse_height vo' = traverse_height vo /\
      leftvo vo' = leftvo vo /\ rightvo vo' = rightvo vo /\
      vdata vo' = tights <$> vdata vo /\
      Forall2 (Forall2 (fun b' b => cstr b' = cstr b)) (vdata vo') (vdata vo)) /\
    (past_local < 25 -> forall b bs rest, vdata vo = (b :: bs) :: rest ->
      vo_deserialize (rangevo_init vo0 hashmap_size) buffer' = None).
Proof.
  intros Hok Hl Hr Hfit. eexists. split.
  { unfold vo_serialize. rewrite (emits_run _ _ _ (vo_writer_emits vo Hok) Hfit). reflexivity. }
  split.
  - intros Hpl. destruct (vo_sent vo vo0 hashmap_size buffer Hpl Hok Hl Hr Hfit) as (b' & vo' & E & Hvo).
    unfold vo_serialize in E. rewrite (emits_run _ _ _ (vo_writer_emits vo Hok) Hfit) in E. injection E as <-. by exists vo'.
  - intros Hp b bs rest Ed. by apply (vo_reader_strict vo _ b bs rest).
Qed.

Definition demo_vo : rangevo :=
  mkRangevo 1
    (mkNodevo 0 2 [] :: mkNodevo 3 2 [replicate 32 97 ++ [0]] :: replicate 8 (mkNodevo 0 0 []))
    (mkNodevo 0 2 [] :: mkNodevo 4 2 [] :: replicate 8 (mkNodevo 0 0 []))
    [[[102; 105; 0; 9]]; [[118; 0]; [101; 101; 0]]] [] [] 0.

Lemma demo_vo_ok : vo_ok demo_vo.
Proof.
  split; try reflexivity; try eval_dec.
  - repeat first [apply Forall_nil_2 | apply Forall_cons; split; [split; [eval_dec|]|] |
      apply Forall_cons; split; [eexists; split; [reflexivity|eval_dec]|]].
  - repeat constructor; try eval_dec; try (exists (replicate 32 97); repeat split; eval_dec).
  - repeat constructor; eval_dec.
Qed.

Lemma vo_roundtrip_witness :
  exists buffer', vo_serialize demo_vo (replicate 900 7) = Some buffer' /\
    (exists vo', @vo_deserialize demo_platform (rangevo_init demo_vo 0) buffer' = Some vo' /\
      vdata vo' = [[[102; 105; 0]]; [[118; 0]; [101; 101; 0]]]) /\
    @vo_deserialize strict (rangevo_init demo_vo 0) buffer' = None.
Proof.
  destruct (@vo_roundtrip demo_platform demo_vo demo_vo 0 (replicate 900 7)) as (b & E & Hr & _);
    [exact demo_vo_ok|reflexivity|reflexivity|vm_compute; discriminate|].
  destruct (@vo_roundtrip strict demo_vo demo_vo 0 (replicate 900 7)) as (b' & E' & _ & Hn);
    [exact demo_vo_ok|reflexivity|reflexivity|vm_compute; discriminate|].
  rewrite E in E'. injection E' as <-. destruct Hr as (vo' & Ev & _ & _ & _ & Hd & _); [vm_compute; discriminate|].
  exists b. split; [exact E|]. split; [exists vo'; split; [exact Ev|exact Hd]|].
  apply (Hn eq_refl [102; 105; 0; 9] [] [[[118; 0]; [101; 101; 0]]]). reflexivity.
Defined.
