(* ===== verification/HmCodec.v ===== *)
(** * The maps of child numbers on the wire (hashmap_serialize and
    hashmap_deserialize in src/src/backend/mbt/mbtree.c)

    The client rebuilds the root hash with the maps that [set_node_id] fills:
    for each level, from the number of a node to the numbers of its children.
    [temp_node_id] marks the numbers in use.  Each map is sent as its [size]
    and its entries in the order of the numbers.  A vector of numbers is the
    list of its elements. *)

From S2P Require Import Prelude CMem Hashmap Codec Node.

(** [temp_node_id[i]] has 500 marks. *)
Definition ID_LIMIT : Z := 500.

(** ** hashmap_serialize *)

(** One entry: the number and the vector behind it. *)
Definition emit_entry (hp : Hashmap (list Z)) (j : Z) (st : out) : option out :=
  do st <- emit (put64 j) st;
  do pv <- hashmap_get hp j;
  do pv <- pv;
  do st <- emit (put64 (zlen pv)) st;
  for_range 0 (zlen pv) (fun k st => do v <- aget pv k; emit (put64 v) st) st.

Definition emit_map (hp : Hashmap (list Z)) (marks : list Z) (st : out) : option out :=
  do st <- emit (put64 (size hp)) st;
  if 0 <? size hp then
    for_range 0 ID_LIMIT (fun j st =>
      do x <- aget marks j;
      if x =? 0 then Some st else emit_entry hp j st) st
  else Some st.

Definition maps_writer (hashp : list (Hashmap (list Z))) (temp_node_id : list (list Z)) (st : out)
  : option out :=
  for_range 0 BPLUS_MAX_LEVEL (fun i st =>
    do hp <- aget hashp i;
    do marks <- aget temp_node_id i;
    emit_map hp marks st) st.

Definition hashmap_serialize (hashp : list (Hashmap (list Z))) (temp_node_id : list (list Z))
    (buffer : list Z) : option (list Z) :=
  fst <$> maps_writer hashp temp_node_id (buffer, 0).

(** ** hashmap_deserialize *)

Definition read_entry (buffer : list Z) (pos : Z) : option (Z * list Z * Z) :=
  do ' (key, pos) <- fetch_s64 buffer pos;
  do ' (v_size, pos) <- fetch_u64 buffer pos;
  do ' (pv, pos) <- (if 0 <? v_size then read_list fetch_s64 v_size [] buffer pos else Some ([], pos));
  Some (key, pv, pos).

Definition read_map (hp : Hashmap (list Z)) (buffer : list Z) (pos : Z)
  : option (Hashmap (list Z) * Z) :=
  do ' (hp_size, pos) <- fetch_s64 buffer pos;
  if 0 <? hp_size then
    for_range 0 hp_size (fun _ st =>
      let '(hp, pos) := st in
      do ' (key, pv, pos) <- read_entry buffer pos;
      do ' (hp, _) <- hashmap_set true hp key (Some pv);
      Some (hp, pos)) (hp, pos)
  else Some (hp, pos).

Definition maps_reader (hashp : list (Hashmap (list Z))) (buffer : list Z) (pos : Z)
  : option (list (Hashmap (list Z)) * Z) :=
  for_range 0 BPLUS_MAX_LEVEL (fun i st =>
    do hp <- aget st.1 i;
    do ' (hp, pos) <- read_map hp buffer st.2;
    do hashp <- aset st.1 i hp;
    Some (hashp, pos)) (hashp, pos).

Definition hashmap_deserialize (hashp : list (Hashmap (list Z))) (buffer : list Z)
  : option (list (Hashmap (list Z))) :=
  fst <$> maps_reader hashp buffer 0.

(** ** Round trip *)

Section RoundTrip.
Implicit Types (M : gmap Z (option (list Z))) (hp : Hashmap (list Z)).

(** The entries of a map in the order of the numbers. *)
Definition entries_upto (n : nat) M : list (Z * list Z) :=
  omap (fun j => pv ← mjoin (M !! Z.of_nat j); Some (Z.of_nat j, pv)) (seq 0 n).

(** What [set_node_id] leaves of a level: the map, its marks, its [size]. *)
Record level_ok hp (marks : list Z) M : Prop := {
  lo_rep : hm_rep hp M;
  lo_marks : zlen marks = ID_LIMIT;
  lo_mark j x : aget marks j = Some x -> (x <> 0 <-> exists pv, M !! j = Some (Some pv));
  lo_dom k v : M !! k = Some v -> 0 <= k < ID_LIMIT /\ is_Some v;
  lo_size : size hp = Z.of_nat (length (entries_upto (Z.to_nat ID_LIMIT) M));
  lo_vals k pv : M !! k = Some (Some pv) -> in_u 64 (zlen pv) /\ Forall (in_s 64) pv
}.

Definition entry_bytes (e : Z * list Z) : list Z :=
  put64 e.1 ++ put64 (zlen e.2) ++ mjoin (put64 <$> e.2).
Definition map_bytes M : list Z :=
  let es := entries_upto (Z.to_nat ID_LIMIT) M in
  put64 (zlen es) ++ mjoin (entry_bytes <$> es).

Lemma small_key k : 0 <= k < ID_LIMIT -> in_s 64 k.
Proof. unfold ID_LIMIT, in_s. lia. Qed.

Lemma emits_entry hp M j pv :
  hm_rep hp M -> 0 <= j < ID_LIMIT -> M !! j = Some (Some pv) ->
  emits (emit_entry hp j) (entry_bytes (j, pv)).
Proof.
  intros Hr Hj HM. unfold emit_entry, entry_bytes. simpl fst; simpl snd.
  apply (emits_seq (emit (put64 j))); [apply emits_emit|].
  intros pre rest Hl. rewrite (hashmap_get_rep hp M j Hr (small_key j Hj)), HM. simpl mjoin.
  cbn [mbind option_bind]. revert pre rest Hl.
  apply (emits_seq (emit (put64 (zlen pv)))); [apply emits_emit|].
  apply (emits_list pv put64 (fun v => emit (put64 v))). intros. apply emits_emit.
Qed.

(** The bytes of the entry of a number, none when it has no entry. *)
Definition slot_bytes M (j : nat) : list Z :=
  from_option (fun pv => entry_bytes (Z.of_nat j, pv)) [] (mjoin (M !! Z.of_nat j)).

Lemma entries_bytes n M :
  mjoin (slot_bytes M <$> seq 0 n) = mjoin (entry_bytes <$> entries_upto n M).
Proof.
  unfold entries_upto. generalize 0%nat. induction n as [|n IH]; intros i; [done|].
  change (mjoin (slot_bytes M <$> seq i (S n)))
    with (slot_bytes M i ++ mjoin (slot_bytes M <$> seq (S i) n)).
  rewrite IH. simpl. unfold slot_bytes. by destruct (mjoin (M !! Z.of_nat i)).
Qed.

Lemma emits_map hp marks M : level_ok hp marks M -> emits (emit_map hp marks) (map_bytes M).
Proof.
  intros Hok. pose proof Hok as [Hr Hm Hmk Hd Hs Hv]. unfold emit_map, map_bytes.
  change (Z.of_nat (length ?l)) with (zlen l) in Hs. rewrite <- Hs.
  apply emits_seq; [apply emits_emit|]. destruct (Z.ltb_spec 0 (size hp)) as [Hpos|Hz].
  - rewrite <- entries_bytes. change ID_LIMIT with (Z.of_nat (Z.to_nat ID_LIMIT)) at 1.
    apply emits_for_idx. intros j Hj pre rest Hl.
    destruct (aget_is_Some marks (Z.of_nat j)) as [x Hx]; [rewrite Hm; unfold ID_LIMIT in *; lia|].
    rewrite Hx. cbn [mbind option_bind]. specialize (Hmk _ _ Hx). unfold slot_bytes in *.
    destruct (Z.eqb_spec x 0) as [->|Hne].
    + destruct (M !! Z.of_nat j) as [[pv|]|] eqn:E.
      * destruct (proj2 Hmk); [eauto|done].
      * destruct (Hd _ _ E) as [_ [? ?]]. done.
      * by apply (emits_nil Some).
    + destruct (proj1 Hmk Hne) as [pv E]. rewrite E in Hl |- *. simpl in Hl |- *.
      apply (emits_entry hp M); [done|unfold ID_LIMIT in *; lia|done|done].
  - replace (entries_upto (Z.to_nat ID_LIMIT) M) with (@nil (Z * list Z)); [by apply emits_nil|].
    symmetry. apply length_zero_iff_nil. unfold zlen in Hs. lia.
Qed.

Lemma reads_entry k pv :
  in_s 64 k -> in_u 64 (zlen pv) -> Forall (in_s 64) pv ->
  reads read_entry (entry_bytes (k, pv)) (k, pv).
Proof.
  intros Hk Hz Hv. rewrite Forall_forall in Hv. unfold read_entry, entry_bytes. simpl fst; simpl snd.
  eapply reads_bind; [by apply reads_s64|]. eapply reads_bind; [by apply reads_u64|].
  rewrite <- (app_nil_r (mjoin (put64 <$> pv))).
  apply (reads_bind (fun buf pos => if 0 <? zlen pv then read_list fetch_s64 (zlen pv) [] buf pos else Some ([], pos))
    (fun pv' _ pos => Some (k, pv', pos)) _ _ pv); [|apply reads_ret].
  destruct (Z.ltb_spec 0 (zlen pv)).
  - pose proof (reads_list fetch_s64 put64 id pv []) as Hl. rewrite list_fmap_id in Hl. apply Hl.
    intros x Hx. apply reads_s64. auto.
  - destruct pv; [apply reads_ret|]. rewrite zlen_cons in *. pose proof (zlen_nonneg pv). lia.
Qed.

(** The map after the entries of the first numbers are set. *)
Lemma entries_lookup n M k pv :
  0 <= k -> (k, pv) ∈ entries_upto n M <-> k < Z.of_nat n /\ M !! k = Some (Some pv).
Proof.
  intros Hk. unfold entries_upto. rewrite list_elem_of_omap. split.
  - intros (j & Hj%elem_of_seq & E). destruct (M !! Z.of_nat j) as [[pv'|]|] eqn:EM; simpl in E; simplify_eq.
    split; [lia|done].
  - intros [Hlt E]. exists (Z.to_nat k). split; [apply elem_of_seq; lia|].
    rewrite Z2Nat.id by lia. by rewrite E.
Qed.

Fixpoint set_all M (es : list (Z * list Z)) : gmap Z (option (list Z)) :=
  match es with [] => M | (k, pv) :: es => set_all (<[k := Some pv]> M) es end.

Lemma set_all_lookup M0 es k :
  NoDup es.*1 ->
  set_all M0 es !! k
  = match list_find (fun e => e.1 = k) es with Some (_, e) => Some (Some e.2) | None => M0 !! k end.
Proof.
  revert M0. induction es as [|[k' pv] es IH]; intros M0 Hnd; simpl; [done|].
  apply NoDup_cons in Hnd as [Hni Hnd]. rewrite IH by done. case_decide as Hk; simpl in *; subst.
  - destruct (list_find _ es) as [[i e]|] eqn:E; simpl.
    + apply list_find_Some in E as (Hi & He & _). destruct Hni. apply list_elem_of_fmap.
      exists e. split; [done|]. by eapply list_elem_of_lookup_2.
    + by rewrite lookup_insert_eq.
  - destruct (list_find _ es) as [[i e]|]; simpl; [done|]. by rewrite lookup_insert_ne.
Qed.

Lemma entries_keys n M : NoDup (entries_upto n M).*1.
Proof.
  unfold entries_upto. generalize 0%nat.
  induction n as [|n IH]; intros i; simpl; [constructor|].
  destruct (mjoin (M !! Z.of_nat i)) as [pv|]; simpl; [|apply IH].
  constructor; [|apply IH]. intros (e & He & Hin)%list_elem_of_fmap.
  apply list_elem_of_omap in Hin as (j & Hj%elem_of_seq & E).
  destruct (mjoin (M !! Z.of_nat j)); simpl in E; simplify_eq. simpl in He. lia.
Qed.

Lemma set_all_entries hp marks M :
  level_ok hp marks M -> set_all ∅ (entries_upto (Z.to_nat ID_LIMIT) M) = M.
Proof.
  intros [_ _ _ Hd _ _]. apply map_eq. intros k. rewrite set_all_lookup by apply entries_keys.
  destruct (list_find _ _) as [[i [k' pv]]|] eqn:E; simpl.
  - apply list_find_Some in E as (Hi & He & _). simpl in He. subst.
    apply list_elem_of_lookup_2 in Hi.
    destruct (decide (0 <= k)); [by apply entries_lookup in Hi as [_ ->]|].
    unfold entries_upto in Hi. apply list_elem_of_omap in Hi as (j & _ & E).
    destruct (mjoin (M !! Z.of_nat j)); simpl in E; simplify_eq. lia.
  - rewrite lookup_empty. destruct (M !! k) as [v|] eqn:Ek; [|done]. exfalso.
    destruct (Hd _ _ Ek) as [Hr [pv ->]]. apply list_find_None in E. rewrite Forall_forall in E.
    apply (E (k, pv)); [|done]. apply entries_lookup; [lia|]. unfold ID_LIMIT in *. split; [lia|done].
Qed.

(** The hash map after an entry is set. *)
Definition set_hp hp (e : Z * list Z) : Hashmap (list Z) :=
  match hashmap_set true hp e.1 (Some e.2) with Some (hp', _) => hp' | None => hp end.

Lemma set_hp_rep hp M e :
  hm_rep hp M -> in_s 64 e.1 ->
  hashmap_set true hp e.1 (Some e.2) = Some (set_hp hp e, 1) /\ hm_rep (set_hp hp e) (<[e.1 := Some e.2]> M).
Proof.
  intros Hr Hk. unfold set_hp.
  destruct (hashmap_set_rep hp M e.1 (Some e.2) Hr Hk) as (hp' & -> & Hr' & _). done.
Qed.

Lemma set_hps_rep es : forall hp M,
  hm_rep hp M -> Forall (fun e => in_s 64 e.1) es ->
  hm_rep (foldl set_hp hp es) (set_all M es).
Proof.
  induction es as [|[k pv] es IH]; intros hp M Hr Hes; simpl; [done|].
  apply Forall_cons in Hes as [He Hes]. apply IH; [|done]. by apply (set_hp_rep hp M (k, pv)).
Qed.

Lemma entries_ok hp marks M :
  level_ok hp marks M ->
  Forall (fun e => in_s 64 e.1 /\ in_u 64 (zlen e.2) /\ Forall (in_s 64) e.2)
    (entries_upto (Z.to_nat ID_LIMIT) M).
Proof.
  intros [_ _ _ Hd _ Hv]. apply Forall_forall. intros [k pv] Hin.
  pose proof Hin as (j & Hj%elem_of_seq & E)%list_elem_of_omap.
  destruct (M !! Z.of_nat j) as [[pv'|]|] eqn:EM; simpl in E; simplify_eq. simpl.
  split; [apply small_key; unfold ID_LIMIT in *; lia|]. by apply (Hv (Z.of_nat j)).
Qed.

Lemma reads_map hp0 hp marks M :
  hm_rep hp0 ∅ -> level_ok hp marks M -> in_s 64 (size hp) ->
  reads (read_map hp0) (map_bytes M) (foldl set_hp hp0 (entries_upto (Z.to_nat ID_LIMIT) M)).
Proof.
  intros Hr0 Hok Hsz. pose proof (entries_ok _ _ _ Hok) as Hes. pose proof (lo_size _ _ _ Hok) as Hs.
  set (es := entries_upto (Z.to_nat ID_LIMIT) M) in *. unfold read_map, map_bytes. fold es.
  change (Z.of_nat (length es)) with (zlen es) in Hs.
  eapply reads_bind; [apply reads_s64; by rewrite <- Hs|].
  destruct (Z.ltb_spec 0 (zlen es)) as [Hpos|Hz].
  - replace (foldl set_hp hp0 es) with ((fun j => foldl set_hp hp0 (take j es)) (length es))
      by by rewrite take_ge.
    apply (reads_for es entry_bytes (fun j => foldl set_hp hp0 (take j es)) (zlen es)
      (fun _ buf st => let '(hp, pos) := st in
        do ' (key, pv, pos) <- read_entry buf pos;
        do ' (hp, _) <- hashmap_set true hp key (Some pv); Some (hp, pos)) hp0); [done|done|].
    intros j [k pv] Hj pre rest. destruct (Forall_lookup_1 _ _ _ _ Hes Hj) as (H1 & H2 & H3).
    rewrite (reads_entry k pv H1 H2 H3). cbn [mbind option_bind].
    destruct (set_hp_rep (foldl set_hp hp0 (take j es)) (set_all ∅ (take j es)) (k, pv)) as [E _]; [|done|].
    + apply set_hps_rep; [done|]. apply Forall_take. eapply Forall_impl; [exact Hes|]. naive_solver.
    + simpl in E. rewrite E. cbn [mbind option_bind].
      by rewrite (take_S_r _ _ _ Hj), foldl_snoc.
  - destruct es; [apply reads_ret|]. rewrite zlen_cons in Hz. pose proof (zlen_nonneg es). lia.
Qed.

End RoundTrip.

(** ** All levels *)

Section Maps.
Context (hashp hashp0 : list (Hashmap (list Z))) (temp : list (list Z))
  (Ms : list (gmap Z (option (list Z)))).
Hypothesis Hh : zlen hashp = BPLUS_MAX_LEVEL.
Hypothesis Ht : zlen temp = BPLUS_MAX_LEVEL.
Hypothesis HM : zlen Ms = BPLUS_MAX_LEVEL.
Hypothesis H0 : zlen hashp0 = BPLUS_MAX_LEVEL.
Hypothesis Hok : forall i hp marks M,
  hashp !! i = Some hp -> temp !! i = Some marks -> Ms !! i = Some M ->
  level_ok hp marks M /\ in_s 32 (size hp).
Hypothesis Hr0 : Forall (fun hp => hm_rep hp ∅) hashp0.

Lemma level_at j M :
  Ms !! j = Some M -> exists hp mk hp0, hashp !! j = Some hp /\ temp !! j = Some mk /\
    hashp0 !! j = Some hp0 /\ hm_rep hp0 ∅ /\ level_ok hp mk M /\ in_s 32 (size hp).
Proof.
  intros Hj. pose proof (lookup_lt_Some _ _ _ Hj).
  destruct (lookup_lt_is_Some_2 hashp j) as [hp Hhp]; [unfold zlen in *; lia|].
  destruct (lookup_lt_is_Some_2 temp j) as [mk Hmk]; [unfold zlen in *; lia|].
  destruct (lookup_lt_is_Some_2 hashp0 j) as [hp0 Hhp0]; [unfold zlen in *; lia|].
  destruct (Hok _ _ _ _ Hhp Hmk Hj). exists hp, mk, hp0. split_and!; try done.
  by apply (Forall_lookup_1 _ _ _ _ Hr0 Hhp0).
Qed.

Lemma maps_writer_emits : emits (maps_writer hashp temp) (mjoin (map_bytes <$> Ms)).
Proof.
  unfold maps_writer. rewrite <- HM.
  pose proof (emits_for Ms map_bytes (zlen Ms) (fun i st =>
    do hp <- aget hashp i; do marks <- aget temp i; emit_map hp marks st)) as He.
  rewrite (take_ge Ms) in He by (unfold zlen; lia).
  apply He; [split; [apply zlen_nonneg|lia]|]. intros i M Hi [? HMi]%aget_Some pre rest Hl.
  destruct (level_at _ _ HMi) as (hp & mk & hp0 & Hhp & Hmk & _ & _ & Hlo & _).
  rewrite (proj2 (aget_Some hashp i hp)), (proj2 (aget_Some temp i mk)) by done.
  cbn [mbind option_bind]. by apply (emits_map hp mk M).
Qed.

(** The hash maps that are read. *)
Definition read_maps : list (Hashmap (list Z)) :=
  zip_with (fun hp M => foldl set_hp hp (entries_upto (Z.to_nat ID_LIMIT) M)) hashp0 Ms.

Lemma maps_reader_reads : reads (maps_reader hashp0) (mjoin (map_bytes <$> Ms)) read_maps.
Proof.
  assert (length read_maps = length Ms) as Hn
    by (unfold read_maps; rewrite length_zip_with; unfold zlen in *; lia).
  replace read_maps with (overwritten hashp0 read_maps (length Ms))
    by (rewrite <- Hn, overwritten_all, drop_ge, app_nil_r; [done|unfold zlen in *; lia]).
  apply (reads_for Ms map_bytes (overwritten hashp0 read_maps) BPLUS_MAX_LEVEL (fun i buf st =>
    do hp <- aget st.1 i; do ' (hp, pos) <- read_map hp buf st.2;
    do hashp <- aset st.1 i hp; Some (hashp, pos)) hashp0); [done|done|].
  intros j M Hj pre rest. cbn [fst snd]. pose proof (lookup_lt_Some _ _ _ Hj).
  destruct (level_at _ _ Hj) as (hp & mk & hp0 & Hhp & Hmk & Hhp0 & Hr & Hlo & Hsz).
  rewrite aget_nat, overwritten_lookup, Hhp0 by (unfold zlen in *; lia). cbn [mbind option_bind].
  rewrite (reads_map hp0 hp mk M) by (done || unfold in_s in *; lia). cbn [mbind option_bind].
  rewrite (overwritten_step hashp0 read_maps j _
    ltac:(unfold read_maps; rewrite lookup_zip_with, Hhp0, Hj; reflexivity)); [done|unfold zlen in *; lia].
Qed.

Lemma read_maps_rep : Forall2 hm_rep read_maps Ms.
Proof.
  apply Forall2_same_length_lookup. split.
  { unfold read_maps. rewrite length_zip_with. unfold zlen in *. lia. }
  intros j hp' M Hhp' Hj. destruct (level_at _ _ Hj) as (hp & mk & hp0 & _ & _ & Hhp0 & Hr & Hlo & _).
  unfold read_maps in Hhp'. rewrite lookup_zip_with, Hj, Hhp0 in Hhp'. simpl in Hhp'. simplify_eq.
  rewrite <- (set_all_entries _ _ _ Hlo) at 2. apply set_hps_rep; [done|].
  eapply Forall_impl; [exact (entries_ok _ _ _ Hlo)|]. by intros e [? _].
Qed.

End Maps.

Lemma maps_sent (hashp hashp0 : list (Hashmap (list Z))) (temp : list (list Z))
    (Ms : list (gmap Z (option (list Z)))) (buffer : list Z) :
  zlen hashp = BPLUS_MAX_LEVEL -> zlen temp = BPLUS_MAX_LEVEL -> zlen Ms = BPLUS_MAX_LEVEL ->
  zlen hashp0 = BPLUS_MAX_LEVEL ->
  (forall i hp marks M, hashp !! i = Some hp -> temp !! i = Some marks -> Ms !! i = Some M ->
     level_ok hp marks M /\ in_s 32 (size hp)) ->
  Forall (fun hp => hm_rep hp ∅) hashp0 ->
  zlen (mjoin (map_bytes <$> Ms)) <= zlen buffer ->
  exists buffer' hashp', hashmap_serialize hashp temp buffer = Some buffer' /\
    hashmap_deserialize hashp0 buffer' = Some hashp' /\ Forall2 hm_rep hashp' Ms.
Proof.
  intros Hh Ht HM H0 Hok Hr0 Hfit. eexists _, (read_maps hashp0 Ms). split; [|split].
  - unfold hashmap_serialize.
    rewrite (emits_run _ _ _ (maps_writer_emits hashp hashp0 temp Ms Hh Ht HM H0 Hok Hr0) Hfit). reflexivity.
  - apply reads_run. by apply (maps_reader_reads hashp hashp0 temp Ms).
  - by apply (read_maps_rep hashp hashp0 temp Ms).
Qed.

(** C25. The maps of child numbers survive the wire: when the marks and the
    [size] of each level are those of its map, as [set_node_id] leaves them,
    [hashmap_deserialize] on the bytes that [hashmap_serialize] writes turns
    empty maps into hash maps that represent the same finite maps. *)
Theorem maps_roundtrip (hashp hashp0 : list (Hashmap (list Z))) (temp : list (list Z))
    (Ms : list (gmap Z (option (list Z)))) (buffer : list Z) :
  zlen hashp = BPLUS_MAX_LEVEL -> zlen temp = BPLUS_MAX_LEVEL -> zlen Ms = BPLUS_MAX_LEVEL ->
  zlen hashp0 = BPLUS_MAX_LEVEL ->
  (forall i hp marks M, hashp !! i = Some hp -> temp !! i = Some marks -> Ms !! i = Some M ->
     level_ok hp marks M /\ in_s 32 (size hp)) ->
  Forall (fun hp => hm_rep hp ∅) hashp0 ->
  zlen (mjoin (map_bytes <$> Ms)) <= zlen buffer ->
  exists buffer' hashp', hashmap_serialize hashp temp buffer = Some buffer' /\
    hashmap_deserialize hashp0 buffer' = Some hashp' /\ Forall2 hm_rep hashp' Ms.
Proof. apply maps_sent. Qed.

(** ** A map to evaluate the property on *)

Definition empty_map : Hashmap (list Z) := init_buckets (mkHashmap NUM_BUCKETS [] myhash compare 0).
Definition demo_map1 : Hashmap (list Z) := set_hp empty_map (0, [0; 1]).
Definition demo_maps : list (Hashmap (list Z)) := empty_map :: demo_map1 :: replicate 8 empty_map.
Definition demo_marks : list (list Z) :=
  replicate 500 0 :: (1 :: replicate 499 0) :: replicate 8 (replicate 500 0).
Definition demo_Ms : list (gmap Z (option (list Z))) := ∅ :: {[0 := Some [0; 1]]} :: replicate 8 ∅.

Lemma empty_map_rep : hm_rep empty_map ∅.
Proof. by apply (hashmap_new_rep NUM_BUCKETS myhash compare empty_map _). Qed.

Lemma empty_level : level_ok empty_map (replicate 500 0) ∅.
Proof.
  split; try reflexivity.
  - apply empty_map_rep.
  - intros j x [_ [-> _]%lookup_replicate]%aget_Some. split; [done|]. intros [pv E]. by rewrite lookup_empty in E.
  - intros k v E. by rewrite lookup_empty in E.
  - intros k v E. by rewrite lookup_empty in E.
Qed.

Lemma demo_level : level_ok demo_map1 (1 :: replicate 499 0) {[0 := Some [0; 1]]}.
Proof.
  split; try reflexivity.
  - apply (set_hp_rep empty_map ∅ (0, [0; 1])); [apply empty_map_rep|eval_dec].
  - intros j x Hj. destruct (decide (j = 0)) as [->|Hne].
    + injection Hj as <-. rewrite lookup_singleton_eq. split; [eauto|lia].
    + apply aget_Some in Hj as [Hj Hx]. destruct (Z.to_nat j) as [|n] eqn:En; [lia|].
      change (replicate 499 0 !! n = Some x) in Hx. apply lookup_replicate in Hx as [-> _]. split; [done|].
      intros [pv E]. by rewrite lookup_singleton_ne in E by done.
  - intros k v [<- <-]%lookup_singleton_Some. split; [unfold ID_LIMIT; lia|eauto].
  - intros k pv [<- [= <-]]%lookup_singleton_Some. split; eval_dec.
Qed.

Lemma demo_levels i hp mk M :
  demo_maps !! i = Some hp -> demo_marks !! i = Some mk -> demo_Ms !! i = Some M ->
  level_ok hp mk M /\ in_s 32 (size hp).
Proof.
  destruct i as [|[|i]]; intros H1 H2 H3.
  - injection H1 as <-. injection H2 as <-. injection H3 as <-. split; [apply empty_level|eval_dec].
  - injection H1 as <-. injection H2 as <-. injection H3 as <-. split; [apply demo_level|eval_dec].
  - change (replicate 8 empty_map !! i = Some hp) in H1.
    change (replicate 8 (replicate 500 0) !! i = Some mk) in H2.
    change (replicate 8 ∅ !! i = Some M) in H3.
    apply lookup_replicate in H1 as [-> _]. apply lookup_replicate in H2 as [-> _].
    apply lookup_replicate in H3 as [-> _]. split; [apply empty_level|eval_dec].
Qed.

Lemma maps_roundtrip_witness :
  exists buffer' hashp', hashmap_serialize demo_maps demo_marks (replicate 200 9) = Some buffer' /\
    hashmap_deserialize (replicate 10 empty_map) buffer' = Some hashp' /\
    Forall2 hm_rep hashp' demo_Ms.
Proof.
  apply (maps_roundtrip demo_maps (replicate 10 empty_map) demo_marks demo_Ms (replicate 200 9));
    try reflexivity.
  - exact demo_levels.
  - apply Forall_replicate, empty_map_rep.
  - vm_compute. discriminate.
Defined.
