(* ===== verification/RangeQuery.v ===== *)
(** * The authenticated range query (bplus_tree_get_range_disk_vo in
    src/src/backend/mbt/mbtree.c)

    The query walks from the root to the leaf of the smaller key, scans the
    leaves up to the larger key, and walks from the root to the leaf of the
    larger key.  The verification object collects, per level, the hashes to the
    left of the left path and to the right of the right path, and the strings
    that were scanned.

    The strings of a leaf go to a vector [nodedata] whose elements have the size of a
    vector, 32 bytes, although a [char *] is pushed: [vector_push_back] reads 24 bytes
    behind the variable [data1] ([push_variable]).

    The pointer behind the last leaf of the ring is computed from the head of
    the list and never NULL: it is [None] here and must not be dereferenced.  A
    query on a tree without non-leaf dereferences a NULL leaf pointer. *)

From S2P Require Import Prelude CMem Node Heap Insert Store Vo.

(** [sizeof(pgvector)]: three [size_t] and a pointer. *)
Definition SIZEOF_PGVECTOR : Z := 32.

(** The local variables that grow: the object and the two result vectors. *)
Record qstate := mkQ {
  q_vo : rangevo;
  q_result : list ItemPointerData;
  q_keys : list Z
}.

Definition set_leftvo (vs : list nodevo) (vo : rangevo) : rangevo :=
  mkRangevo (traverse_height vo) vs (rightvo vo) (vdata vo) (itemdata vo) (vo_hashmap vo) (mbtree_size vo).
Definition set_rightvo (vs : list nodevo) (vo : rangevo) : rangevo :=
  mkRangevo (traverse_height vo) (leftvo vo) vs (vdata vo) (itemdata vo) (vo_hashmap vo) (mbtree_size vo).
Definition set_vdata (ds : list (list (list Z))) (vo : rangevo) : rangevo :=
  mkRangevo (traverse_height vo) (leftvo vo) (rightvo vo) ds (itemdata vo) (vo_hashmap vo) (mbtree_size vo).
Definition set_height (h : Z) (vo : rangevo) : rangevo :=
  mkRangevo h (leftvo vo) (rightvo vo) (vdata vo) (itemdata vo) (vo_hashmap vo) (mbtree_size vo).

Section Query.
Context `{Malloc}.

(** [while(uuuu < BPLUS_MAX_ORDER) if(key[uuuu] != 0) ... else break]: the
    number of keys is taken to be the number of leading non-zero slots. *)
Fixpoint nonzero_len (fuel : nat) (keys : list Z) (u : Z) : option Z :=
  if u <? BPLUS_MAX_ORDER then
    match fuel with
    | O => None
    | S fuel' => do k <- aget keys u; if k =? 0 then Some u else nonzero_len fuel' keys (u + 1)
    end
  else Some u.

Definition tmp_len (keys : list Z) : option Z := nonzero_len (Z.to_nat BPLUS_MAX_ORDER) keys 0.

(** The hashes of the slots [lo .. hi - 1], each copied to a block of 33 bytes. *)
Definition copied_hashes (lo hi : Z) (hs acc : list (list Z)) : option (list (list Z)) :=
  for_range lo hi (fun p acc =>
    do h <- aget hs p;
    do temp_hash <- strcpy (fresh_bytes 33) h;
    Some (acc ++ [temp_hash])) acc.

(** The hashes of the slots [lo .. hi - 1], pushed from the node. *)
Definition pushed_hashes (lo hi : Z) (hs acc : list (list Z)) : option (list (list Z)) :=
  for_range lo hi (fun p acc =>
    do h <- aget hs p;
    do bs <- read_bytes h 0 33;
    Some (acc ++ [bs])) acc.

(** The hashes of the slots [lo .. hi - 1], copied with [strncpy(.., 33)]. *)
Definition strncpied_hashes (lo hi : Z) (hs acc : list (list Z)) : option (list (list Z)) :=
  for_range lo hi (fun p acc =>
    do h <- aget hs p;
    do tempc <- strncpy (fresh_bytes 33) h 33;
    Some (acc ++ [tempc])) acc.

(** The entry of the current height: the ids, and the hashes [f] adds. *)
Definition on_nodevo (vs : list nodevo) (height id bound : Z)
    (f : list (list Z) -> option (list (list Z))) : option (list nodevo) :=
  do v <- aget vs height;
  do hs <- f (nhash v);
  aset vs height (mkNodevo id bound hs).

(** ** The left path *)

Definition left_step (min : Z) (n : bplus_non_leaf) (vo : rangevo) : option (option loc * rangevo) :=
  do len <- tmp_len (nl_key n);
  do i <- key_binary_search (nl_key n) len min;
  let record k := on_nodevo (leftvo vo) (traverse_height vo) (nl_node_id n) (children n)
                    (copied_hashes 0 k (nl_childhash n)) in
  if 0 <=? i then
    do vs <- record (i + 1);
    do c <- aget (sub_ptr n) (i + 1);
    Some (c, set_leftvo vs vo)
  else
    let i := - i - 1 in
    do vs <- record i;
    do c <- aget (sub_ptr n) i;
    Some (c, set_leftvo vs vo).

(** The loop [while(level > 0)]; the last pointer is the leaf. *)
Fixpoint left_path (levels : nat) (tmp leaf : option loc) (min : Z) (vo : rangevo)
  : M (option loc * rangevo) :=
  match levels with
  | O => mret (leaf, vo)
  | S levels' =>
      do l <- deref tmp;
      do n <- load_nl l;
      do ' (c, vo) <- lift (left_step min n vo);
      let vo := set_height (traverse_height vo + 1) vo in
      match levels' with
      | O => left_path levels' tmp c min vo
      | S _ => left_path levels' c leaf min vo
      end
  end.

Definition left_leaf (min : Z) (n : bplus_leaf) (vo : rangevo) : option rangevo :=
  do i <- key_binary_search (lf_key n) (entries n) min;
  let i := if 0 <=? i then i else - i - 1 in
  do vs <- on_nodevo (leftvo vo) (traverse_height vo) (lf_node_id n) (entries n)
             (copied_hashes 0 i (lf_childhash n));
  Some (set_leftvo vs vo).

(** ** The scan *)

(** Where the scan starts: the leaf and the index. *)
Definition scan_start (leaf : loc) (min : Z) : M (option loc * Z) :=
  do n <- load_lf leaf;
  do i <- lift (key_binary_search (lf_key n) (entries n) min);
  if i <? 0 then
    let i := - i - 1 in
    if entries n <=? i then do nx <- list_next_entry leaf; mret (nx, 0)
    else mret (Some leaf, i)
  else mret (Some leaf, i).

(** The loop [while (ln != NULL && ln->key[i] <= max)]. *)
Fixpoint scan (fuel : nat) (ln : option loc) (i key1 key2 max : Z) (nodedata : list (list Z)) (q : qstate)
  : M (list (list Z) * qstate) :=
  do l <- deref ln;
  do n <- load_lf l;
  do k <- lift (aget (lf_key n) i);
  if k <=? max then
    match fuel with
    | O => ub
    | S fuel' =>
        do d <- lift (aget (lf_data n) i);
        do data1 <- lift (strcpy (fresh_bytes 33) d);
        do _ <- lift (push_variable SIZEOF_PGVECTOR);
        let nodedata := nodedata ++ [data1] in
        do q <- (if (key1 <=? k) && (k <=? key2) then
                   do p <- lift (aget (tids (lf_node n)) i);
                   do tm <- get_tm;
                   do tid <- lift (load_tid tm p);
                   mret (mkQ (q_vo q) (q_result q ++ [tid]) (q_keys q ++ [k]))
                 else mret q);
        let i := i + 1 in
        if entries n <=? i then
          let q := mkQ (set_vdata (vdata (q_vo q) ++ [nodedata]) (q_vo q)) (q_result q) (q_keys q) in
          do nx <- list_next_entry l;
          scan fuel' nx 0 key1 key2 max [] q
        else scan fuel' ln i key1 key2 max nodedata q
    end
  else mret (nodedata, q).

(** Every round of the scan passes an entry of a leaf. *)
Definition scan_fuel : M nat := fun m => Some ((51 * base.size (nodes m) + 51)%nat, m).

(** ** The right path *)

Definition right_step (max : Z) (n : bplus_non_leaf) (vo : rangevo) : option (option loc * rangevo) :=
  do len <- tmp_len (nl_key n);
  do ei <- key_binary_search (nl_key n) len max;
  if 0 <=? ei then
    do vs <- on_nodevo (rightvo vo) (traverse_height vo) (nl_node_id n) (children n)
               (pushed_hashes (ei + 2) (children n) (nl_childhash n));
    do c <- aget (sub_ptr n) (ei + 1);
    Some (c, set_rightvo vs vo)
  else
    let ei := - ei - 1 in
    do vs <- on_nodevo (rightvo vo) (traverse_height vo) (nl_node_id n) (children n)
               (strncpied_hashes (ei + 1) (children n) (nl_childhash n));
    do c <- aget (sub_ptr n) ei;
    Some (c, set_rightvo vs vo).

Fixpoint right_path (levels : nat) (tmp2 leaf : option loc) (max : Z) (vo : rangevo)
  : M (option loc * rangevo) :=
  match levels with
  | O => mret (leaf, vo)
  | S levels' =>
      do l <- deref tmp2;
      do n <- load_nl l;
      do ' (c, vo) <- lift (right_step max n vo);
      let vo := set_height (traverse_height vo + 1) vo in
      match levels' with
      | O => right_path levels' tmp2 c max vo
      | S _ => right_path levels' c leaf max vo
      end
  end.

(** Both branches push the hashes behind the index that was found: the entry at
    the index itself is skipped even when it is larger than [max]. *)
Definition right_leaf (max : Z) (n : bplus_leaf) (vo : rangevo) : option rangevo :=
  do ei <- key_binary_search (lf_key n) (entries n) max;
  let ei := if 0 <=? ei then ei else - ei - 1 in
  do vs <- on_nodevo (rightvo vo) (traverse_height vo) (lf_node_id n) (entries n)
             (pushed_hashes (ei + 1) (entries n) (lf_childhash n));
  Some (set_rightvo vs vo).

(** ** The query *)

Definition bplus_tree_get_range_disk_vo (key1 key2 : Z) (result : list ItemPointerData)
    (vo : rangevo) (keys_result : list Z) : M qstate :=
  do t <- get_tree;
  let min := if key1 <=? key2 then key1 else key2 in
  let max := if min =? key1 then key2 else key1 in
  do ' (tmp1, vo) <- left_path (Z.to_nat (level t)) (root t) None min vo;
  do leaf <- deref tmp1;
  do n <- load_lf leaf;
  do vo <- lift (left_leaf min n vo);
  do ' (ln, i) <- scan_start leaf min;
  do fuel <- scan_fuel;
  do ' (nodedata, q) <- scan fuel ln i key1 key2 max [] (mkQ vo result keys_result);
  let vo := set_vdata (vdata (q_vo q) ++ [nodedata]) (q_vo q) in
  let vo := set_height 0 vo in
  do ' (tmp3, vo) <- right_path (Z.to_nat (level t)) (root t) None max vo;
  do leaf2 <- deref tmp3;
  do n2 <- load_lf leaf2;
  do vo <- lift (right_leaf max n2 vo);
  mret (mkQ vo (q_result q) (q_keys q)).

End Query.
