(* ===== verification/Reconstruct.v ===== *)
(** * Rebuilding the root hash (reconstruct_root in
    src/src/backend/mbt/mbtree.c)

    From the strings in the range, the sibling hashes of the two boundary paths
    and the maps of child numbers, [reconstruct_root] computes the hashes of the
    nodes between the two paths level by level and returns the hash of node 0
    of the top level.  The hashes of a level are kept in a hash map from node
    numbers to [char *]; a string is a block of its own, which is freed when it
    has been used in the level above.

    The function is written against the interface [HashFn] of the hash function;
    [None] is undefined behaviour: NULL or a freed string is dereferenced, a
    buffer overflows, or an index leaves its array. *)

From S2P Require Import Prelude CMem Sha256 Hashmap Node Heap Merkle Vo.

(** The strings on the heap. *)
Record strheap := mkStrs { strs : gmap nat (list Z); next_str : nat }.

Definition new_str (sh : strheap) (s : list Z) : strheap * nat :=
  (mkStrs (<[next_str sh := s]> (strs sh)) (S (next_str sh)), next_str sh).

Definition free_str (sh : strheap) (p : nat) : option strheap :=
  match strs sh !! p with
  | Some _ => Some (mkStrs (delete p (strs sh)) (next_str sh))
  | None => None
  end.

(** The state of the reconstruction: [tmp_hashes] and the strings. *)
Record rstate := mkR { tmp_hashes : list (Hashmap nat); rstrs : strheap }.

Section Reconstruct.
Context `{HashFn}.

(** [strcat(buf, h)] for every element of a vector. *)
Definition cat_all (hs : list (list Z)) (buf : list Z) : option (list Z) :=
  for_range 0 (zlen hs) (fun j buf => do h <- aget hs j; strcat buf h) buf.

(** The hash of every string of a leaf, appended to the buffer. *)
Definition cat_hashed (ds : list (list Z)) (buf : list Z) : option (list Z) :=
  for_range 0 (zlen ds) (fun j buf =>
    do tmp_id <- aget ds j;
    do result <- hash_into tmp_id (replicate 33 0);
    strcat buf result) buf.

(** [sha256_pg(buf, out)] into a zeroed block, stored in the map of a level. *)
Definition put_hash (st : rstate) (lvl id : Z) (buf : list Z) : option rstate :=
  do out <- hash_into buf (replicate 33 0);
  let '(sh, p) := new_str (rstrs st) out in
  do hm <- aget (tmp_hashes st) lvl;
  do ' (hm, _) <- hashmap_set true hm id (Some p);
  do hms <- aset (tmp_hashes st) lvl hm;
  Some (mkR hms sh).

(** The hashes of the children that the map of a level knows, appended to the
    buffer; [freeing] when the loop frees what it has used. *)
Definition cat_children (freeing : bool) (lvl : Z) (ids : list Z) (st : rstate) (buf : list Z)
  : option (rstate * list Z) :=
  for_range 0 (zlen ids) (fun j s =>
    let '(st, buf) := s in
    do child_id <- aget ids j;
    do hm <- aget (tmp_hashes st) lvl;
    do p <- hashmap_get hm child_id;
    match p with
    | Some p =>
        do ss_temp <- strs (rstrs st) !! p;
        do buf <- strcat buf ss_temp;
        if freeing then do sh <- free_str (rstrs st) p; Some (mkR (tmp_hashes st) sh, buf)
        else Some (st, buf)
    | None => Some (st, buf)
    end) (st, buf).

(** The children of node [id] of level [k]; a node without entry is NULL, which
    is dereferenced. *)
Definition node_children (hashp : list (Hashmap (list Z))) (k id : Z) : option (list Z) :=
  do hm <- aget hashp k; do pv <- hashmap_get hm id; pv.

Definition BUF : Z := 8192.

(** The leaf level: the left boundary node, the nodes between, the right
    boundary node. *)
Definition leaf_level (vo : rangevo) (st : rstate) : option rstate :=
  do lv <- aget (leftvo vo) (traverse_height vo);
  do rv <- aget (rightvo vo) (traverse_height vo);
  let start_id := vo_node_id lv in
  let end_id := vo_node_id rv in
  do hashca <- cat_all (nhash lv) (replicate (Z.to_nat BUF) 0);
  do myvector1 <- aget (vdata vo) 0;
  do hashca <- cat_hashed myvector1 hashca;
  do st <- put_hash st 0 start_id hashca;
  do ' (st, node_count) <- for_range (start_id + 1) end_id (fun m s =>
    let '(st, node_count) := s in
    do myvector2 <- aget (vdata vo) node_count;
    do mhash <- cat_hashed myvector2 (replicate (Z.to_nat BUF) 0);
    do st <- put_hash st 0 m mhash;
    Some (st, node_count + 1)) (st, 1);
  do myvector2 <- aget (vdata vo) (if start_id =? end_id then node_count - 1 else node_count);
  do ehash <- cat_hashed myvector2 (replicate (Z.to_nat BUF) 0);
  do ehash <- cat_all (nhash rv) ehash;
  put_hash st 0 end_id ehash.

(** A level above the leaves when the two paths pass through different nodes. *)
Definition level_apart (hashp : list (Hashmap (list Z))) (lv rv : nodevo) (k level_count : Z) (st : rstate)
  : option rstate :=
  let start_id := vo_node_id lv in
  let end_id := vo_node_id rv in
  do hashcau <- cat_all (nhash lv) (replicate (Z.to_nat BUF) 0);
  do pv <- node_children hashp k start_id;
  do ' (st, hashcau) <- cat_children false level_count pv st hashcau;
  do st <- put_hash st (level_count + 1) start_id hashcau;
  do st <- for_range (start_id + 1) end_id (fun p st =>
    do childs <- node_children hashp k p;
    do ' (st, phash) <- cat_children true level_count childs st (replicate (Z.to_nat (BUF * 3)) 0);
    put_hash st (level_count + 1) p phash) st;
  do pv1 <- node_children hashp k end_id;
  do ' (st, ehash2) <- cat_children true level_count pv1 st (replicate (Z.to_nat BUF) 0);
  do ehash2 <- cat_all (nhash rv) ehash2;
  put_hash st (level_count + 1) end_id ehash2.

(** A level above the leaves when the two paths pass through the same node. *)
Definition level_joined (hashp : list (Hashmap (list Z))) (lv rv : nodevo) (k level_count : Z) (st : rstate)
  : option rstate :=
  let start_id := vo_node_id lv in
  let end_id := vo_node_id rv in
  do hashcau <- cat_all (nhash lv) (replicate (Z.to_nat BUF) 0);
  do pv2 <- node_children hashp k start_id;
  do ' (st, hashcau) <- cat_children true level_count pv2 st hashcau;
  do hashcau <- cat_all (nhash rv) hashcau;
  put_hash st (level_count + 1) end_id hashcau.

(** [for(k = 1; k <= vo.traverse_height; k++)]; the level counter is [k - 1]. *)
Definition upper_levels (hashp : list (Hashmap (list Z))) (vo : rangevo) (st : rstate) : option rstate :=
  for_range 1 (traverse_height vo + 1) (fun k st =>
    let i := traverse_height vo - k in
    do lv <- aget (leftvo vo) i;
    do rv <- aget (rightvo vo) i;
    if negb (vo_node_id lv =? vo_node_id rv) then level_apart hashp lv rv k (k - 1) st
    else level_joined hashp lv rv k (k - 1) st) st.

(** Ten new maps, [hashmap_new(NUM_BUCKETS, myhash, compare)]. *)
Definition new_maps : option (list (Hashmap nat)) :=
  for_range 0 BPLUS_MAX_LEVEL (fun _ hms =>
    do hm <- hashmap_new true true NUM_BUCKETS myhash compare; Some (hms ++ [hm])) [].

Definition reconstruct_root (hashp : list (Hashmap (list Z))) (vo : rangevo) (root : list Z) (sh : strheap)
  : option (list Z) :=
  do root <- memset root 0 0 33;
  do hms <- new_maps;
  do st <- leaf_level vo (mkR hms sh);
  do st <- upper_levels hashp vo st;
  let level_count := traverse_height vo in
  do hm <- aget (tmp_hashes st) level_count;
  do p <- hashmap_get hm 0;
  do p <- p;
  do ss_temp <- strs (rstrs st) !! p;
  do root <- strcpy root ss_temp;
  do _ <- free_str (rstrs st) p;
  do _ <- for_range 0 BPLUS_MAX_LEVEL (fun i _ =>
    do hm <- aget (tmp_hashes st) i; do _ <- hashmap_free hm; Some tt) tt;
  Some root.

End Reconstruct.
