(* ===== verification/ReconstructSpec.v ===== *)
(** * What the root reconstruction computes

    The tree is seen level by level: a level is the list of its nodes, a node the
    list of the hashes it concatenates ([groups]).  [chain] says that the pieces
    of a level are the hashes of the level below; at the bottom they are the
    hashes of the strings.  [fits] says that a verification object and the maps
    of child numbers belong to a range of such a tree; then [reconstruct_root]
    returns the hash of the root. *)

From S2P Require Import Prelude CMem Sha256 Hashmap Node NodeCodec Heap Merkle Vo Reconstruct.

(** ** Slices *)

Definition slice {A} (a b : nat) (l : list A) : list A := take (b - a) (drop a l).

Lemma slice_app {A} a b c (l : list A) :
  (a <= b <= c)%nat -> slice a b l ++ slice b c l = slice a c l.
Proof.
  intros H. unfold slice. replace (c - a)%nat with ((b - a) + (c - b))%nat by lia.
  rewrite <- take_take_drop. f_equal. rewrite drop_drop. do 2 f_equal. lia.
Qed.

Lemma slice_nil {A} a b (l : list A) : (b <= a)%nat -> slice a b l = [].
Proof. intros. unfold slice. by replace (b - a)%nat with 0%nat by lia. Qed.

Lemma slice_length {A} a b (l : list A) : (a <= b <= length l)%nat -> length (slice a b l) = (b - a)%nat.
Proof. intros. unfold slice. rewrite length_take, length_drop. lia. Qed.

Lemma slice_fmap {A B} (f : A -> B) a b l : f <$> slice a b l = slice a b (f <$> l).
Proof. unfold slice. by rewrite fmap_take, fmap_drop. Qed.

Lemma slice_S_r {A} a b (l : list A) x :
  (a <= b)%nat -> l !! b = Some x -> slice a (S b) l = slice a b l ++ [x].
Proof.
  intros Hab Hx. rewrite <- (slice_app a b (S b)) by lia. f_equal. unfold slice.
  rewrite Nat.sub_succ_l, Nat.sub_diag by lia. by rewrite (drop_S _ _ _ Hx).
Qed.

Lemma Forall_concat_2 {A} (P : A -> Prop) (l : list (list A)) : Forall (Forall P) l -> Forall P (concat l).
Proof. induction 1 as [|x l Hx _ IH]; simpl; [constructor|]. by apply Forall_app. Qed.

(** ** Buffers *)

Definition cats (bs ps : list (list Z)) : Prop := Forall2 (fun b p => cstr b = Some p) bs ps.

Section Buffers.
Context `{HashFn}.

Lemma cat_all_yields hs ps buf s :
  cats hs ps -> cstr buf = Some s -> zlen s + zlen (concat ps) < zlen buf ->
  yields (cat_all hs buf) (fun buf' => cstr buf' = Some (s ++ concat ps) /\ zlen buf' = zlen buf).
Proof.
  intros Hc Hb Hl. pose proof (Forall2_length _ _ _ Hc) as Hlen.
  apply (yields_for (fun j b => cstr b = Some (s ++ concat (take (Z.to_nat j) ps)) /\ zlen b = zlen buf)).
  - apply zlen_nonneg.
  - change (Z.to_nat 0) with 0%nat. rewrite take_0. simpl. by rewrite app_nil_r.
  - intros j b Hj [Cb Lb]. unfold zlen in Hj.
    destruct (lookup_lt_is_Some_2 hs (Z.to_nat j)) as [h Hh]; [lia|].
    destruct (Forall2_lookup_l _ _ _ _ _ Hc Hh) as (p & Hp & Hhp).
    eapply yields_bind, yields_aget; [lia|exact Hh|].
    destruct (strcat_cstr b h _ p Cb Hhp) as (b' & E & Cb' & Lb').
    { rewrite Lb. eapply Z.le_lt_trans; [|exact Hl].
      rewrite <- (take_drop (S (Z.to_nat j)) ps) at 2. rewrite concat_app, (concat_take_S _ _ _ Hp).
      unfold zlen. rewrite !length_app. lia. }
    eapply yields_eq; [exact E|]. replace (Z.to_nat (j + 1)) with (S (Z.to_nat j)) by lia.
    rewrite (concat_take_S _ _ _ Hp), app_assoc. split; [done|lia].
  - intros b [Cb Lb]. split; [|done]. rewrite Cb. unfold zlen. rewrite Nat2Z.id, Hlen, firstn_all. done.
Qed.

Lemma cat_hashed_yields ds xs buf s :
  cats ds xs -> Forall (fun x => Forall byteb x /\ zlen x < hash_limit) xs -> cstr buf = Some s ->
  zlen s + zlen (concat (map H xs)) < zlen buf ->
  yields (cat_hashed ds buf) (fun buf' => cstr buf' = Some (s ++ concat (map H xs)) /\ zlen buf' = zlen buf).
Proof.
  intros Hc Hx Hb Hl. pose proof (Forall2_length _ _ _ Hc) as Hlen.
  apply (yields_for (fun j b => cstr b = Some (s ++ concat (take (Z.to_nat j) (map H xs))) /\ zlen b = zlen buf)).
  - apply zlen_nonneg.
  - change (Z.to_nat 0) with 0%nat. rewrite take_0. simpl. by rewrite app_nil_r.
  - intros j b Hj [Cb Lb]. unfold zlen in Hj.
    destruct (lookup_lt_is_Some_2 ds (Z.to_nat j)) as [d Hd]; [lia|].
    destruct (Forall2_lookup_l _ _ _ _ _ Hc Hd) as (x & Hxj & Hdx).
    destruct (Forall_lookup_1 _ _ _ _ Hx Hxj) as [Hby Hlim].
    assert (map H xs !! Z.to_nat j = Some (H x)) as HHj
      by (change (map H xs) with (H <$> xs); by rewrite list_lookup_fmap, Hxj).
    eapply yields_bind, yields_aget; [lia|exact Hd|].
    eapply yields_bind, yields_eq; [by apply (hash_into_spec d _ x)|].
    destruct (strcat_cstr b (H x ++ 0 :: drop 33 (replicate 33 0)) _ (H x) Cb) as (b' & E & Cb' & Lb');
      [apply cstr_app, H_chars| |].
    { rewrite Lb. eapply Z.le_lt_trans; [|exact Hl].
      rewrite <- (take_drop (S (Z.to_nat j)) (map H xs)) at 2. rewrite concat_app, (concat_take_S _ _ _ HHj).
      unfold zlen. rewrite !length_app. lia. }
    eapply yields_eq; [exact E|]. replace (Z.to_nat (j + 1)) with (S (Z.to_nat j)) by lia.
    rewrite (concat_take_S _ _ _ HHj), app_assoc. split; [done|lia].
  - intros b [Cb Lb]. split; [|done]. rewrite Cb. unfold zlen. rewrite Nat2Z.id, Hlen.
    rewrite take_ge by (by rewrite length_map). done.
Qed.

Lemma cstr_zeros n : (0 < n)%nat -> cstr (replicate n 0) = Some [].
Proof. destruct n; [lia|done]. Qed.

End Buffers.

(** ** The hashes of a level *)

(** The map of level [j] takes the numbers [dom P] to strings on the heap. *)
Definition lmap (st : rstate) (j : nat) (P : gmap Z nat) : Prop :=
  exists hm, tmp_hashes st !! j = Some hm /\ hm_rep hm (Some <$> P).

(** The strings of the numbers [live] show their hashes. *)
Definition alive (sh : strheap) (P : gmap Z nat) (h : Z -> list Z) (live : Z -> Prop) : Prop :=
  forall id p, P !! id = Some p -> live id -> exists buf, strs sh !! p = Some buf /\ cstr buf = Some (h id).

Definition inj_map (P : gmap Z nat) : Prop :=
  forall id id' p, P !! id = Some p -> P !! id' = Some p -> id = id'.

(** The hashes the map knows, in the order of the numbers. *)
Definition known (P : gmap Z nat) (h : Z -> list Z) (ids : list Z) : list (list Z) :=
  h <$> filter (fun id => is_Some (P !! id)) ids.

Lemma known_snoc P h ids id :
  known P h (ids ++ [id]) = known P h ids ++ (if P !! id is Some _ then [h id] else []).
Proof.
  unfold known. rewrite filter_app, fmap_app. f_equal. simpl.
  destruct (P !! id) as [p|] eqn:E.
  - rewrite filter_cons_True by (rewrite E; by eexists). done.
  - rewrite filter_cons_False by (rewrite E; by intros []). done.
Qed.

Lemma known_length P h ids n :
  (forall id, length (h id) = n) -> (length (concat (known P h ids)) <= n * length ids)%nat.
Proof.
  intros Hn. rewrite (concat_length _ n).
  - unfold known. rewrite length_fmap. pose proof (length_filter (fun id => is_Some (P !! id)) ids). nia.
  - unfold known. apply Forall_fmap, Forall_forall. intros. apply Hn.
Qed.

Lemma lmap_get st j P id :
  lmap st j P -> in_s 64 id ->
  exists hm, tmp_hashes st !! j = Some hm /\ hashmap_get hm id = Some (P !! id).
Proof.
  intros (hm & Hj & Hr) Hid. exists hm. split; [done|].
  rewrite (hashmap_get_rep _ _ _ Hr Hid), lookup_fmap. by destruct (P !! id).
Qed.

Section Levels.
Context `{HashFn}.

Lemma put_hash_yields st (lvl : nat) id buf s P (Q : rstate -> Prop) :
  lmap st lvl P -> in_s 64 id -> cstr buf = Some s -> Forall byteb s -> zlen s < hash_limit ->
  (forall st' out, lmap st' lvl (<[id := next_str (rstrs st)]> P) ->
     (forall j P', j <> lvl -> lmap st j P' -> lmap st' j P') ->
     rstrs st' = mkStrs (<[next_str (rstrs st) := out]> (strs (rstrs st))) (S (next_str (rstrs st))) ->
     cstr out = Some (H s) -> Q st') ->
  yields (put_hash st (Z.of_nat lvl) id buf) Q.
Proof.
  intros (hm & Hl & Hr) Hid Hb Hby Hlim HQ. unfold put_hash.
  eapply yields_bind, yields_eq; [by apply (hash_into_spec buf _ s)|].
  destruct (hashmap_set_rep hm _ id (Some (next_str (rstrs st))) Hr Hid) as (hm' & E & Hr' & _).
  pose proof (lookup_lt_Some _ _ _ Hl) as Hlt.
  eapply yields_bind, yields_aget; [lia|rewrite Nat2Z.id; exact Hl|].
  eapply yields_bind, yields_eq; [exact E|].
  apply yields_bind, yields_aset; [unfold zlen; lia|]. rewrite Nat2Z.id. apply yields_ret.
  eapply HQ; [| |reflexivity|apply cstr_app, H_chars].
  - exists hm'. simpl. rewrite list_lookup_insert_eq by lia. by rewrite fmap_insert.
  - intros j P' Hj (hm2 & H2 & R2). exists hm2. simpl. by rewrite list_lookup_insert_ne.
Qed.

Lemma cat_children_yields fr st (j : nat) P h ids buf s :
  lmap st j P -> inj_map P -> (forall id, id ∈ ids -> in_s 64 id) -> NoDup ids ->
  alive (rstrs st) P h (fun id => id ∈ ids) -> (forall id, length (h id) = 32%nat) ->
  cstr buf = Some s -> zlen s + 32 * zlen ids < zlen buf ->
  yields (cat_children fr (Z.of_nat j) ids st buf) (fun '(st', buf') =>
    tmp_hashes st' = tmp_hashes st /\ next_str (rstrs st') = next_str (rstrs st) /\
    (forall p, (fr = true -> forall id, id ∈ ids -> P !! id <> Some p) ->
       strs (rstrs st') !! p = strs (rstrs st) !! p) /\
    cstr buf' = Some (s ++ concat (known P h ids)) /\ zlen buf' = zlen buf).
Proof.
  intros Hm Hinj Hids Hnd Hal Hh Hb Hl.
  apply (yields_for (fun q x => let '(st', buf') := x in
    tmp_hashes st' = tmp_hashes st /\ next_str (rstrs st') = next_str (rstrs st) /\
    (forall p, (fr = true -> forall id, id ∈ take (Z.to_nat q) ids -> P !! id <> Some p) ->
       strs (rstrs st') !! p = strs (rstrs st) !! p) /\
    cstr buf' = Some (s ++ concat (known P h (take (Z.to_nat q) ids))) /\ zlen buf' = zlen buf)).
  - apply zlen_nonneg.
  - change (Z.to_nat 0) with 0%nat. rewrite take_0. simpl. rewrite app_nil_r. done.
  - intros q [st' buf'] Hq (Ht & Hns & Hst & Cb & Lb). unfold zlen in Hq.
    destruct (lookup_lt_is_Some_2 ids (Z.to_nat q)) as [id Hid]; [lia|].
    assert (id ∈ ids) as Hin by by eapply list_elem_of_lookup_2.
    destruct (lmap_get st j P id Hm (Hids id Hin)) as (hm & Ej & Eg).
    replace (Z.to_nat (q + 1)) with (S (Z.to_nat q)) by lia.
    rewrite (take_S_r _ _ _ Hid), known_snoc.
    eapply yields_bind, yields_aget; [lia|exact Hid|].
    eapply yields_bind, yields_aget; [lia|rewrite Nat2Z.id, Ht; exact Ej|].
    eapply yields_bind, yields_eq; [exact Eg|]. destruct (P !! id) as [p|] eqn:Ep.
    + destruct (Hal id p Ep Hin) as (ss & Hss & Css).
      assert (forall id', id' ∈ take (Z.to_nat q) ids -> P !! id' <> Some p) as Hnew.
      { intros id' Hid' Ep'. pose proof (Hinj _ _ _ Ep Ep') as ->.
        apply elem_of_take in Hid' as (i & Hi & Hlt). pose proof (NoDup_lookup _ _ _ _ Hnd Hi Hid). lia. }
      rewrite <- (Hst p (fun _ => Hnew)) in Hss. eapply yields_bind, yields_eq; [exact Hss|].
      destruct (strcat_cstr buf' ss _ (h id) Cb Css) as (buf2 & E2 & C2 & L2).
      { pose proof (known_length P h (take (Z.to_nat q) ids) 32 Hh) as Hk.
        rewrite length_take in Hk. rewrite Lb. unfold zlen in *. rewrite length_app, Hh. lia. }
      eapply yields_bind, yields_eq; [exact E2|].
      assert (cstr buf2 = Some (s ++ concat (known P h (take (Z.to_nat q) ids) ++ [h id]))) as C2'
        by (rewrite C2, concat_app; simpl; by rewrite app_nil_r, app_assoc).
      destruct fr.
      * eapply yields_bind, yields_eq; [unfold free_str; by rewrite Hss|]. apply yields_ret. simpl.
        split_and!; [done|done| |done|lia]. intros p' Hp'. rewrite lookup_delete_ne.
        -- apply Hst. intros _ id' Hid'. apply Hp', elem_of_app; [done|by left].
        -- intros <-. apply (Hp' eq_refl id); [apply elem_of_app; right; constructor|done].
      * apply yields_ret. split_and!; [done|done| |done|lia]. intros p' Hp'. by apply Hst.
    + apply yields_ret. rewrite app_nil_r. split_and!; [done|done| |done|done].
      intros p' Hp'. apply Hst. intros Hfr id' Hid'. apply Hp', elem_of_app; [done|by left].
  - intros [st' buf'] (Ht & Hns & Hst & Cb & Lb). unfold zlen in *. rewrite Nat2Z.id, firstn_all in *. done.
Qed.

End Levels.

(** ** Levels of pieces *)

(** Where the pieces of node [j] start. *)
Definition start {A} (gs : list (list A)) (j : nat) : nat := length (concat (take j gs)).

Lemma start_S {A} (gs : list (list A)) j g :
  gs !! j = Some g -> start gs (S j) = (start gs j + length g)%nat.
Proof. intros Hj. unfold start. by rewrite (concat_take_S _ _ _ Hj), length_app. Qed.

Lemma start_mono {A} (gs : list (list A)) i j : (i <= j)%nat -> (start gs i <= start gs j)%nat.
Proof.
  intros Hij. unfold start. rewrite <- (take_drop i (take j gs)), take_take, Nat.min_l by done.
  rewrite concat_app, length_app. lia.
Qed.

Lemma start_all {A} (gs : list (list A)) : start gs (length gs) = length (concat gs).
Proof. unfold start. by rewrite firstn_all. Qed.

Lemma start_le {A} (gs : list (list A)) j : (start gs j <= length (concat gs))%nat.
Proof.
  unfold start. rewrite <- (take_drop j gs) at 2. rewrite concat_app, length_app. lia.
Qed.

Lemma start_slice {A} (gs : list (list A)) j g :
  gs !! j = Some g -> slice (start gs j) (start gs (S j)) (concat gs) = g.
Proof.
  intros Hj. rewrite (start_S _ _ _ Hj). unfold slice, start.
  rewrite <- (take_drop j gs) at 4. rewrite concat_app, drop_app_length.
  rewrite (drop_S _ _ _ Hj). simpl. replace (_ + length g - _)%nat with (length g) by lia.
  apply take_app_length.
Qed.

(** The value for a number outside of the level is never used. *)
Definition hash_at (hs : list (list Z)) (id : Z) : list Z := default (replicate 32 0) (hs !! Z.to_nat id).

Definition ids_of (a n : nat) : list Z := Z.of_nat <$> seq a n.

Lemma known_slice P hs (lo hi a n : nat) :
  (forall id, is_Some (P !! id) <-> Z.of_nat lo <= id <= Z.of_nat hi) -> (a + n <= length hs)%nat ->
  known P (hash_at hs) (ids_of a n) = slice (Nat.max a lo) (Nat.min (a + n) (S hi)) hs.
Proof.
  intros Hdom. induction n as [|n IH]; intros Hn.
  - symmetry. apply slice_nil. lia.
  - unfold ids_of in *. rewrite seq_S, fmap_app.
    change (Z.of_nat <$> [(a + n)%nat]) with [Z.of_nat (a + n)]. rewrite known_snoc, IH by lia.
    destruct (lookup_lt_is_Some_2 hs (a + n)) as [x Hx]; [lia|].
    pose proof (Hdom (Z.of_nat (a + n))) as Hd.
    assert (hash_at hs (Z.of_nat (a + n)) = x) as Hh by (unfold hash_at; by rewrite Nat2Z.id, Hx).
    destruct (P !! Z.of_nat (a + n)) as [p|] eqn:E.
    + assert (lo <= a + n <= hi)%nat by (assert (is_Some (Some p)) as Hs by (by eexists); apply Hd in Hs; lia).
      rewrite Hh. replace (Nat.min (a + S n) (S hi)) with (S (a + n)) by lia.
      replace (Nat.min (a + n) (S hi)) with (a + n)%nat by lia.
      symmetry. apply slice_S_r; [lia|done].
    + assert (~ (lo <= a + n <= hi)%nat) as Hout.
      { intros Hr. destruct (proj2 Hd ltac:(lia)) as [p Hp]. done. }
      rewrite app_nil_r. destruct (decide (a + n < lo)%nat).
      * rewrite !slice_nil by lia. done.
      * f_equal. lia.
Qed.

Lemma ids_of_NoDup a n : NoDup (ids_of a n).
Proof. apply NoDup_fmap_2; [apply _|apply NoDup_seq]. Qed.

Lemma ids_of_elem a n id : id ∈ ids_of a n <-> Z.of_nat a <= id < Z.of_nat (a + n).
Proof.
  unfold ids_of. rewrite list_elem_of_fmap. setoid_rewrite elem_of_seq. split.
  - intros (y & -> & Hy). lia.
  - intros Hid. exists (Z.to_nat id). lia.
Qed.

Lemma ids_of_zlen a n : zlen (ids_of a n) = Z.of_nat n.
Proof. unfold ids_of. rewrite zlen_fmap. unfold zlen. by rewrite length_seq. Qed.

Section Chain.
Context `{HashFn}.

Definition hashes (gs : list (list (list Z))) : list (list Z) := map (fun g => H (concat g)) gs.

(** A level: the pieces of its nodes are hashes, at most 50 per node. *)
Record pieces_ok (gs : list (list (list Z))) : Prop := {
  lk_pieces : pieces (concat gs);
  lk_sizes : Forall (fun g => length g <= 50)%nat gs;
  lk_few : Z.of_nat (length gs) < 2 ^ 31
}.

Lemma hash_at_length gs id : pieces (concat gs) -> length (hash_at (concat gs) id) = 32%nat.
Proof.
  intros [Hl _ _]. unfold hash_at. destruct (concat gs !! Z.to_nat id) as [h|] eqn:E; [|done].
  simpl. by apply (Forall_lookup_1 _ _ _ _ Hl E).
Qed.

Lemma group_pieces gs j g : pieces_ok gs -> gs !! j = Some g -> pieces g /\ (length g <= 50)%nat.
Proof.
  intros [[Hl Hb Hc] Hs _] Hj. split; [|by apply (Forall_lookup_1 _ _ _ _ Hs Hj)].
  rewrite <- (start_slice gs j g Hj). unfold slice. split; by apply Forall_take, Forall_drop.
Qed.

Lemma hashes_pieces gs : pieces (hashes gs).
Proof.
  unfold hashes. rewrite <- (map_map (@concat Z) H). apply pieces_H.
Qed.

End Chain.

(** ** One level up *)

Section LevelUp.
Context `{HashFn}.
(** Level [k] with the pieces [gs]; the hashes [lo .. hi] of the level below are
    known, the nodes [s .. e] of this level are to be computed. *)
Context (gs : list (list (list Z))) (Hgs : pieces_ok gs) (k lo hi s e : nat).

(** The nodes of level [k] up to [m] are done, in strings from [B] on. *)
Record written (st : rstate) (m : nat) (P' : gmap Z nat) (B : nat) : Prop := {
  wr_map : lmap st k P';
  wr_inj : inj_map P';
  wr_dom id : is_Some (P' !! id) <-> Z.of_nat s <= id < Z.of_nat m;
  wr_al : alive (rstrs st) P' (hash_at (hashes gs)) (fun _ => True);
  wr_ptr id p : P' !! id = Some p -> (B <= p < next_str (rstrs st))%nat;
  wr_B : (B <= next_str (rstrs st))%nat;
  wr_up j : (k < j < 10)%nat -> lmap st j ∅;
  wr_all j : (j < 10)%nat -> exists P0, lmap st j P0
}.

(** ... and the hashes of the level below that are [live] have not been freed. *)
Record linv (st : rstate) (m : nat) (live : Z -> Prop) (P P' : gmap Z nat) (B : nat) : Prop := {
  li_rd : lmap st (k - 1) P;
  li_rinj : inj_map P;
  li_rdom id : is_Some (P !! id) <-> Z.of_nat lo <= id <= Z.of_nat hi;
  li_ral : alive (rstrs st) P (hash_at (concat gs)) live;
  li_rptr id p : P !! id = Some p -> (p < B)%nat;
  li_wr : written st m P' B
}.

(** The part of the pieces of node [m] that is known. *)
Definition mid (m : nat) : list (list Z) :=
  slice (Nat.max (start gs m) lo) (Nat.min (start gs (S m)) (S hi)) (concat gs).

Lemma node_cat fr st m live P P' B g buf pre :
  linv st m live P P' B -> gs !! m = Some g -> Z.of_nat (start gs (S m)) < 2 ^ 62 ->
  (forall id, id ∈ ids_of (start gs m) (length g) -> live id) ->
  cstr buf = Some (concat pre) -> zlen (concat pre) <= 2000 -> 4096 <= zlen buf ->
  yields (cat_children fr (Z.of_nat (k - 1)) (ids_of (start gs m) (length g)) st buf) (fun '(st', buf') =>
    linv st' m (fun id => live id /\ (fr = true -> ~ id ∈ ids_of (start gs m) (length g))) P P' B /\
    cstr buf' = Some (concat (pre ++ mid m)) /\ zlen buf' = zlen buf).
Proof.
  intros Hinv Hg Hbig Hlive Hb Hpre Hbuf. destruct Hinv as [Rm Rinj Rdom Ral Rptr [Wm Winj Wdom Wal Wptr HB Hup Hall]].
  destruct (group_pieces gs m g Hgs Hg) as [_ Hg50]. pose proof (start_S gs m g Hg) as HS.
  pose proof (start_le gs (S m)) as Hle.
  eapply yields_wand.
  - apply (cat_children_yields fr st (k - 1) P (hash_at (concat gs)) (ids_of (start gs m) (length g)) buf (concat pre));
      [done|done| |apply ids_of_NoDup| | |done|].
    + intros id Hid%ids_of_elem. unfold in_s. lia.
    + intros id p Hp Hid. by apply Ral; [|apply Hlive].
    + intros id. apply hash_at_length, Hgs.
    + rewrite ids_of_zlen. lia.
  - intros [st' buf'] (Ht & Hns & Hst & Cb & Lb).
    assert (forall j P2, lmap st j P2 -> lmap st' j P2) as Hlm by (intros j P2; unfold lmap; by rewrite Ht).
    split_and!; [|rewrite Cb, concat_app; unfold mid; rewrite (known_slice P (concat gs) lo hi), <- HS by (done || lia); done|done].
    split; auto; try done; [|split; auto; try done].
    + intros id p Hp [Hl Hfr]. destruct (Ral id p Hp Hl) as (b & Hbp & Cbp). exists b. split; [|done].
      rewrite <- Hbp. apply Hst. intros -> id' Hid' Hp'. apply (Hfr eq_refl). by rewrite (Rinj _ _ _ Hp Hp').
    + intros id p Hp Hl. destruct (Wal id p Hp Hl) as (b & Hbp & Cbp). exists b. split; [|done].
      rewrite <- Hbp. apply Hst. intros _ id' _ Hp'. pose proof (Rptr _ _ Hp'). pose proof (Wptr _ _ Hp). lia.
    + rewrite Hns. done.
    + by rewrite Hns.
    + intros j Hj. destruct (Hall j Hj) as [P0 HP0]. exists P0. auto.
Qed.

(** Storing the hash of node [m]. *)
Lemma written_put st m P' B g buf (Q : rstate -> Prop) :
  written st m P' B -> gs !! m = Some g -> (s <= m)%nat -> cstr buf = Some (concat g) ->
  (forall st' P2, written st' (S m) P2 B ->
     (forall j P0, j <> k -> lmap st j P0 -> lmap st' j P0) ->
     (forall p, (p < next_str (rstrs st))%nat -> strs (rstrs st') !! p = strs (rstrs st) !! p) -> Q st') ->
  yields (put_hash st (Z.of_nat k) (Z.of_nat m) buf) Q.
Proof.
  intros [Wm Winj Wdom Wal Wptr HB Hup Hall] Hg Hsm Hb HQ.
  destruct (group_pieces gs m g Hgs Hg) as [Hp Hg50].
  pose proof (lookup_lt_Some _ _ _ Hg) as Hm. pose proof (lk_few _ Hgs) as Hfew.
  assert (length (concat g) <= 1600)%nat as Hlen.
  { rewrite (concat_length g 32) by apply Hp. lia. }
  apply (put_hash_yields st k (Z.of_nat m) buf (concat g) P'); try done;
    [unfold in_s; lia|by apply pieces_concat_bytes|unfold hash_limit, zlen; lia|].
  intros st' out Wm' Hoth Hrs Co. set (np := next_str (rstrs st)) in *.
  assert (hash_at (hashes gs) (Z.of_nat m) = H (concat g)) as Hhm.
  { unfold hash_at, hashes. rewrite Nat2Z.id.
    change (map (fun g => H (concat g)) gs) with ((fun g => H (concat g)) <$> gs).
    by rewrite list_lookup_fmap, Hg. }
  assert (forall p, (p < np)%nat -> strs (rstrs st') !! p = strs (rstrs st) !! p) as Hold.
  { intros p Hlt. rewrite Hrs. simpl. apply lookup_insert_ne. lia. }
  apply (HQ st' (<[Z.of_nat m := np]> P')); [|done|done]. split; try done.
  - intros id id' p. rewrite !lookup_insert_Some. intros [[<- <-]|[_ H1]] [[<- H2]|[_ H2]]; try done.
    + pose proof (Wptr _ _ H2). lia.
    + subst p. pose proof (Wptr _ _ H1). lia.
    + by apply (Winj id id' p).
  - intros id. rewrite lookup_insert_is_Some, Wdom. destruct (decide (Z.of_nat m = id)); lia.
  - intros id p. rewrite lookup_insert_Some. intros [[<- <-]|[_ H1]] _.
    + exists out. rewrite Hrs, Hhm. simpl. by rewrite lookup_insert_eq.
    + destruct (Wal id p H1 I) as (b & Hbp & Cbp). exists b. split; [|done].
      rewrite Hold; [done|]. pose proof (Wptr _ _ H1). lia.
  - intros id p. rewrite Hrs. simpl. rewrite lookup_insert_Some. intros [[_ <-]|[_ H1]]; [lia|].
    pose proof (Wptr _ _ H1). lia.
  - rewrite Hrs. simpl. lia.
  - intros j Hj. apply Hoth; [lia|]. by apply Hup.
  - intros j Hj. destruct (decide (j = k)) as [->|Hne]; [by eexists|].
    destruct (Hall j Hj) as [P0 HP0]. exists P0. by apply Hoth.
Qed.

Lemma node_put st m live P P' B g buf (Q : rstate -> Prop) :
  linv st m live P P' B -> gs !! m = Some g -> (s <= m)%nat -> (0 < k)%nat ->
  cstr buf = Some (concat g) ->
  (forall st' P2, linv st' (S m) live P P2 B -> Q st') ->
  yields (put_hash st (Z.of_nat k) (Z.of_nat m) buf) Q.
Proof.
  intros [Rm Rinj Rdom Ral Rptr Hw] Hg Hsm Hk0 Hb HQ.
  eapply written_put; [exact Hw|exact Hg|done|exact Hb|]. intros st' P2 Hw' Hoth Hold.
  apply (HQ st' P2). split; try done.
  - apply Hoth; [lia|done].
  - intros id p Hp' Hl. destruct (Ral id p Hp' Hl) as (b & Hbp & Cbp). exists b. split; [|done].
    rewrite Hold; [done|]. pose proof (Rptr _ _ Hp'). pose proof (wr_B _ _ _ _ Hw). lia.
Qed.

End LevelUp.

(** The hashes of the nodes [lo .. hi] of level [j] are there, and the levels
    above are empty. *)
Definition ready (st : rstate) (j lo hi : nat) (hs : list (list Z)) : Prop :=
  exists P, lmap st j P /\ inj_map P /\
    (forall id, is_Some (P !! id) <-> Z.of_nat lo <= id <= Z.of_nat hi) /\
    alive (rstrs st) P (hash_at hs) (fun _ => True) /\
    (forall id p, P !! id = Some p -> (p < next_str (rstrs st))%nat) /\
    (forall i, (j < i < 10)%nat -> lmap st i ∅) /\
    (forall i, (i < 10)%nat -> exists P0, lmap st i P0).

Lemma written_ready `{HashFn} gs k s e st P' B :
  written gs k s st (S e) P' B -> ready st k s e (hashes gs).
Proof.
  intros [Wm Winj Wdom Wal Wptr HB Hup Hall]. exists P'. split_and!; try done.
  - intros id. rewrite Wdom. lia.
  - intros id p Hp. apply (Wptr _ _ Hp).
Qed.

(** Storing the only hash of a level; a hash that was stored there under the same
    number is lost. *)
Lemma put_single_ready `{HashFn} st (k id : nat) P buf s hs :
  lmap st k P -> (forall i, i <> Z.of_nat id -> P !! i = None) -> Z.of_nat id < 2 ^ 62 ->
  cstr buf = Some s -> Forall byteb s -> zlen s < hash_limit -> hs !! id = Some (H s) ->
  (forall i, (k < i < 10)%nat -> lmap st i ∅) -> (forall i, (i < 10)%nat -> exists P0, lmap st i P0) ->
  yields (put_hash st (Z.of_nat k) (Z.of_nat id) buf) (fun st' => ready st' k id id hs).
Proof.
  intros Hm HP Hid Cb Hby Hlim Hhs Hup Hall.
  apply (put_hash_yields _ _ _ _ s _ _ Hm); [unfold in_s; lia|exact Cb|done|done|].
  intros st2 out2 Hm2 Hup2 Hrs2 Co2. set (p := next_str (rstrs st)) in *.
  assert (<[Z.of_nat id := p]> P = {[Z.of_nat id := p]}) as EP.
  { apply map_eq. intros i. destruct (decide (i = Z.of_nat id)) as [->|Hne].
    - by rewrite lookup_insert_eq, lookup_singleton_eq.
    - rewrite lookup_insert_ne, lookup_singleton_ne by done. by apply HP. }
  rewrite EP in Hm2. exists {[Z.of_nat id := p]}. split_and!; [done| | | | | |].
  - intros id1 id' p'. rewrite !lookup_singleton_Some. lia.
  - intros id1. rewrite lookup_singleton_is_Some. lia.
  - intros id1 p' [<- <-]%lookup_singleton_Some _. exists out2. rewrite Hrs2. simpl.
    rewrite lookup_insert_eq. split; [done|]. unfold hash_at. by rewrite Nat2Z.id, Hhs.
  - intros id1 p' [_ <-]%lookup_singleton_Some. rewrite Hrs2. simpl. lia.
  - intros i Hi. apply Hup2; [lia|]. by apply Hup.
  - intros i Hi. destruct (decide (i = k)) as [->|Hne]; [by eexists|].
    destruct (Hall i Hi) as [P0 HP0]. exists P0. by apply Hup2.
Qed.

Section LevelStep.
Context `{HashFn}.
Context (gs : list (list (list Z))) (Hgs : pieces_ok gs) (j lo hi s e : nat).
Context (Hlohi : (lo <= hi)%nat) (Hse : (s <= e < length gs)%nat) (Hj : (S j < 10)%nat).
Context (Hs1 : (start gs s <= lo < start gs (S s))%nat) (He1 : (start gs e <= hi < start gs (S e))%nat).
Context (lv rv : nodevo) (hashp : list (Hashmap (list Z))).
Context (Hlid : vo_node_id lv = Z.of_nat s) (Hrid : vo_node_id rv = Z.of_nat e).
Context (Hlh : cats (nhash lv) (slice (start gs s) lo (concat gs))).
Context (Hrh : cats (nhash rv) (slice (S hi) (start gs (S e)) (concat gs))).
Context (Hch : forall m g, (s <= m <= e)%nat -> gs !! m = Some g ->
  node_children hashp (Z.of_nat (S j)) (Z.of_nat m) = Some (ids_of (start gs m) (length g))).

Lemma group_at m : (m <= e)%nat -> exists g, gs !! m = Some g /\ (length g <= 50)%nat /\ pieces g /\
  Z.of_nat (start gs (S m)) < 2 ^ 62.
Proof.
  intros Hm. destruct (lookup_lt_is_Some_2 gs m) as [g Hg]; [lia|]. exists g.
  destruct (group_pieces gs m g Hgs Hg) as [Hp Hl]. split_and!; [done|done|done|].
  destruct Hgs as [_ Hs _].
  assert (forall i, (start gs i <= 50 * i)%nat) as Hb.
  { intros i. induction i as [|i IHi]; [unfold start; simpl; lia|].
    destruct (gs !! i) as [gi|] eqn:Egi.
    - rewrite (start_S _ _ _ Egi). pose proof (Forall_lookup_1 _ _ _ _ Hs Egi). simpl in *. lia.
    - apply lookup_ge_None in Egi. unfold start in *. rewrite (take_ge gs i) in IHi by lia.
      rewrite (take_ge gs (S i)) by lia. lia. }
  pose proof (Hb (S m)). pose proof (lk_few _ Hgs). lia.
Qed.

(** Any slice of the pieces of one node is short. *)
Lemma slice_short m a b :
  (m <= e)%nat -> (start gs m <= a <= b)%nat -> (b <= start gs (S m))%nat ->
  zlen (concat (slice a b (concat gs))) <= 1600.
Proof.
  intros Hm Ha Hb. destruct (group_at m Hm) as (g & Hg & Hl & _ & _).
  pose proof (start_S gs m g Hg). pose proof (start_le gs (S m)). unfold zlen. rewrite (concat_length _ 32).
  - rewrite slice_length by lia. lia.
  - unfold slice. apply Forall_take, Forall_drop. apply Hgs.
Qed.

Lemma ready_linv st : ready st j lo hi (concat gs) ->
  exists P, linv gs (S j) lo hi s st s (fun _ => True) P ∅ (next_str (rstrs st)).
Proof.
  intros (P & Hm & Hinj & Hdom & Hal & Hptr & Hup & Hall). exists P. split; try done; [|split; try done].
  - by replace (S j - 1)%nat with j by lia.
  - by apply Hup; lia.
  - intros id. rewrite lookup_empty. split; [by intros []|lia].
  - intros i Hi. apply Hup. lia.
Qed.

Lemma linv_ready st live P P' B :
  linv gs (S j) lo hi s st (S e) live P P' B -> ready st (S j) s e (hashes gs).
Proof.
  intros [_ _ _ _ _ Hw]. by eapply written_ready.
Qed.

Lemma level_joined_yields st : s = e -> ready st j lo hi (concat gs) ->
  yields (level_joined hashp lv rv (Z.of_nat (S j)) (Z.of_nat j) st) (fun st' => ready st' (S j) s e (hashes gs)).
Proof.
  intros Heq Hr. destruct (ready_linv st Hr) as (P & Hinv).
  destruct (group_at s ltac:(lia)) as (g & Hg & Hl & Hp & Hbig). unfold level_joined. rewrite Hlid, Hrid.
  pose proof He1 as He2. pose proof Hrh as Hrh2. rewrite <- Heq in He2, Hrh2.
  pose proof (slice_short s (start gs s) lo ltac:(lia) ltac:(lia) ltac:(lia)) as Z1.
  pose proof (slice_short s (S hi) (start gs (S s)) ltac:(lia) ltac:(lia) ltac:(lia)) as Z3.
  pose proof (slice_short s lo (S hi) ltac:(lia) ltac:(lia) ltac:(lia)) as Z2.
  eapply yields_bind, yields_wand.
  { apply (cat_all_yields _ _ _ [] Hlh); [apply cstr_zeros; unfold BUF; lia|].
    rewrite zlen_replicate. unfold BUF, zlen at 1. simpl length. lia. }
  intros buf [Cb Lb]. rewrite zlen_replicate in Lb. simpl in Cb.
  eapply yields_bind, yields_eq; [by apply Hch; [lia|exact Hg]|].
  replace (Z.of_nat j) with (Z.of_nat (S j - 1)) at 1 by lia.
  eapply yields_bind, yields_wand.
  { eapply (node_cat gs Hgs (S j) lo hi s); [exact Hinv|exact Hg|done|done|exact Cb|lia|unfold BUF in *; lia]. }
  intros [st1 buf1] (Hinv1 & Cb1 & Lb1). unfold mid in Cb1.
  rewrite Nat.max_r, Nat.min_r in Cb1 by lia. rewrite slice_app in Cb1 by lia.
  eapply yields_bind, yields_wand.
  { apply (cat_all_yields _ _ _ _ Hrh2 Cb1). rewrite <- (slice_app (start gs s) lo (S hi)) by lia.
    rewrite concat_app, zlen_app. unfold BUF in *. lia. }
  intros buf2 [Cb2 Lb2]. rewrite <- concat_app, slice_app, (start_slice gs s g Hg) in Cb2 by lia.
  replace (Z.of_nat j + 1) with (Z.of_nat (S j)) by lia. rewrite <- Heq.
  eapply (node_put gs Hgs (S j) lo hi s); [exact Hinv1|exact Hg|lia|lia|exact Cb2|].
  intros st' P2 Hinv2. rewrite Heq in Hinv2 at 2. apply linv_ready in Hinv2. by rewrite <- Heq in Hinv2.
Qed.

(** The start node of [level_apart]; its children are not freed. *)
Lemma apart_first st (f : rstate -> option rstate) (Q : rstate -> Prop) :
  (s < e)%nat -> ready st j lo hi (concat gs) ->
  (forall st' P P', linv gs (S j) lo hi s st' (S s) (fun _ => True) P P' (next_str (rstrs st)) ->
     yields (f st') Q) ->
  yields (do hashcau <- cat_all (nhash lv) (replicate (Z.to_nat BUF) 0);
          do pv <- node_children hashp (Z.of_nat (S j)) (Z.of_nat s);
          do ' (st, hashcau) <- cat_children false (Z.of_nat j) pv st hashcau;
          do st <- put_hash st (Z.of_nat j + 1) (Z.of_nat s) hashcau; f st) Q.
Proof.
  intros Hlt Hr HQ. destruct (ready_linv st Hr) as (P & Hinv).
  destruct (group_at s ltac:(lia)) as (g & Hg & Hl & Hp & Hbig).
  pose proof (slice_short s (start gs s) lo ltac:(lia) ltac:(lia) ltac:(lia)) as Z1.
  pose proof (start_mono gs (S s) e ltac:(lia)) as Hmono.
  eapply yields_bind, yields_wand.
  { apply (cat_all_yields _ _ _ [] Hlh); [apply cstr_zeros; unfold BUF; lia|].
    rewrite zlen_replicate. unfold BUF, zlen at 1. simpl length. lia. }
  intros buf [Cb Lb]. rewrite zlen_replicate in Lb. simpl in Cb.
  eapply yields_bind, yields_eq; [by apply Hch; [lia|exact Hg]|].
  replace (Z.of_nat j) with (Z.of_nat (S j - 1)) at 1 by lia.
  eapply yields_bind, yields_wand.
  { eapply (node_cat gs Hgs (S j) lo hi s); [exact Hinv|exact Hg|done|done|exact Cb|lia|unfold BUF in *; lia]. }
  intros [st1 buf1] (Hinv1 & Cb1 & Lb1). unfold mid in Cb1.
  rewrite Nat.max_r, Nat.min_l, slice_app, (start_slice gs s g Hg) in Cb1 by lia.
  replace (Z.of_nat j + 1) with (Z.of_nat (S j)) by lia.
  eapply yields_bind, (node_put gs Hgs (S j) lo hi s); [exact Hinv1|exact Hg|lia|lia|exact Cb1|].
  intros st' P2 Hinv2. apply (HQ st' P P2). destruct Hinv2. split; try done.
  intros id p Hp' _. by apply li_ral0.
Qed.

(** A node between the two paths; its children are freed. *)
Lemma apart_middle st m P P' B (Q : rstate -> Prop) :
  linv gs (S j) lo hi s st m (fun id => Z.of_nat (start gs m) <= id) P P' B -> (s < m < e)%nat ->
  (forall st' P2, linv gs (S j) lo hi s st' (S m) (fun id => Z.of_nat (start gs (S m)) <= id) P P2 B -> Q st') ->
  yields (do childs <- node_children hashp (Z.of_nat (S j)) (Z.of_nat m);
          do ' (st, phash) <- cat_children true (Z.of_nat j) childs st (replicate (Z.to_nat (BUF * 3)) 0);
          put_hash st (Z.of_nat j + 1) (Z.of_nat m) phash) Q.
Proof.
  intros Hinv Hm HQ. destruct (group_at m ltac:(lia)) as (g & Hg & Hl & Hp & Hbig).
  pose proof (start_S gs m g Hg) as HS. pose proof (start_mono gs (S s) m ltac:(lia)).
  pose proof (start_mono gs (S m) e ltac:(lia)).
  eapply yields_bind, yields_eq; [by apply Hch; [lia|exact Hg]|].
  replace (Z.of_nat j) with (Z.of_nat (S j - 1)) at 1 by lia.
  eapply yields_bind, yields_wand.
  { eapply (node_cat gs Hgs (S j) lo hi s) with (pre := []); [exact Hinv|exact Hg|done| | |done|].
    - intros id Hid%ids_of_elem. cbv beta. lia.
    - apply cstr_zeros. unfold BUF. lia.
    - rewrite zlen_replicate. unfold BUF. lia. }
  intros [st1 buf1] (Hinv1 & Cb1 & Lb1). unfold mid in Cb1.
  rewrite Nat.max_l, Nat.min_l, (start_slice gs m g Hg) in Cb1 by lia. simpl in Cb1.
  replace (Z.of_nat j + 1) with (Z.of_nat (S j)) by lia.
  eapply (node_put gs Hgs (S j) lo hi s); [exact Hinv1|exact Hg|lia|lia|exact Cb1|].
  intros st' P2 Hinv2. apply (HQ st' P2). destruct Hinv2. split; try done.
  intros id p Hp' Hid. cbv beta in Hid. apply li_ral0; [done|]. split; [lia|]. intros _ Hin%ids_of_elem. lia.
Qed.

(** The end node. *)
Lemma apart_last st P P' B :
  linv gs (S j) lo hi s st e (fun id => Z.of_nat (start gs e) <= id) P P' B -> (s < e)%nat ->
  yields (do pv1 <- node_children hashp (Z.of_nat (S j)) (Z.of_nat e);
          do ' (st, ehash2) <- cat_children true (Z.of_nat j) pv1 st (replicate (Z.to_nat BUF) 0);
          do ehash2 <- cat_all (nhash rv) ehash2;
          put_hash st (Z.of_nat j + 1) (Z.of_nat e) ehash2)
    (fun st' => ready st' (S j) s e (hashes gs)).
Proof.
  intros Hinv Hlt. destruct (group_at e ltac:(lia)) as (g & Hg & Hl & Hp & Hbig).
  pose proof (start_S gs e g Hg) as HS. pose proof (start_mono gs (S s) e ltac:(lia)).
  pose proof (slice_short e (S hi) (start gs (S e)) ltac:(lia) ltac:(lia) ltac:(lia)) as Z3.
  pose proof (slice_short e (start gs e) (S hi) ltac:(lia) ltac:(lia) ltac:(lia)) as Z2.
  eapply yields_bind, yields_eq; [by apply Hch; [lia|exact Hg]|].
  replace (Z.of_nat j) with (Z.of_nat (S j - 1)) at 1 by lia.
  eapply yields_bind, yields_wand.
  { eapply (node_cat gs Hgs (S j) lo hi s) with (pre := []); [exact Hinv|exact Hg|done| | |done|].
    - intros id Hid%ids_of_elem. cbv beta. lia.
    - apply cstr_zeros. unfold BUF. lia.
    - rewrite zlen_replicate. unfold BUF. lia. }
  intros [st1 buf1] (Hinv1 & Cb1 & Lb1). unfold mid in Cb1. rewrite zlen_replicate in Lb1.
  rewrite Nat.max_l, Nat.min_r in Cb1 by lia. simpl in Cb1.
  eapply yields_bind, yields_wand.
  { apply (cat_all_yields _ _ _ _ Hrh Cb1). unfold BUF in *. lia. }
  intros buf2 [Cb2 Lb2]. rewrite <- concat_app, slice_app, (start_slice gs e g Hg) in Cb2 by lia.
  replace (Z.of_nat j + 1) with (Z.of_nat (S j)) by lia.
  eapply (node_put gs Hgs (S j) lo hi s); [exact Hinv1|exact Hg|lia|lia|exact Cb2|].
  intros st' P2 Hinv2. eapply linv_ready. exact Hinv2.
Qed.

Lemma level_apart_yields st : (s < e)%nat -> ready st j lo hi (concat gs) ->
  yields (level_apart hashp lv rv (Z.of_nat (S j)) (Z.of_nat j) st) (fun st' => ready st' (S j) s e (hashes gs)).
Proof.
  intros Hlt Hr. unfold level_apart. rewrite Hlid, Hrid.
  apply apart_first; [done|done|]. intros st1 P P1 Hinv1.
  eapply yields_bind, (yields_for (fun m st' => exists P',
    linv gs (S j) lo hi s st' (Z.to_nat m) (fun id => Z.of_nat (start gs (Z.to_nat m)) <= id) P P' (next_str (rstrs st)))).
  - lia.
  - exists P1. replace (Z.to_nat (Z.of_nat s + 1)) with (S s) by lia. destruct Hinv1. split; try done.
    intros id p Hp _. by apply li_ral0.
  - intros m st' Hm (P' & Hinv'). replace (Z.to_nat (m + 1)) with (S (Z.to_nat m)) by lia.
    destruct (Z_of_nat_complete m ltac:(lia)) as [q ->]. rewrite Nat2Z.id in *.
    eapply apart_middle; [exact Hinv'|lia|].
    intros st2 P2 Hinv2. by exists P2.
  - intros st' (P' & Hinv'). rewrite Nat2Z.id in Hinv'. by eapply apart_last.
Qed.
End LevelStep.

(** ** The leaf level *)

Section LeafLevel.
Context `{HashFn}.
(** The strings of the leaves. *)
Context (xs : list (list (list Z))).
Context (Hxs : Forall (Forall (fun x => Forall byteb x /\ zlen x < hash_limit)) xs).
Context (Hsizes : Forall (fun x => length x <= 50)%nat xs) (Hfew : Z.of_nat (length xs) < 2 ^ 31).

Definition leaf_groups : list (list (list Z)) := map (map H) xs.

Lemma leaf_groups_concat : concat leaf_groups = map H (concat xs).
Proof. unfold leaf_groups. by rewrite concat_map. Qed.

Lemma leaf_groups_start j : start leaf_groups j = start xs j.
Proof.
  unfold start, leaf_groups. rewrite firstn_map, <- concat_map. apply length_map.
Qed.

Lemma leaf_groups_ok : pieces_ok leaf_groups.
Proof.
  split.
  - rewrite leaf_groups_concat. apply pieces_H.
  - unfold leaf_groups. apply Forall_forall. intros g (x & <- & Hx)%list_elem_of_In%in_map_iff.
    rewrite length_map. rewrite Forall_forall in Hsizes. by apply Hsizes, list_elem_of_In.
  - unfold leaf_groups. by rewrite length_map.
Qed.

Lemma leaf_at m : (m < length xs)%nat -> exists x, xs !! m = Some x /\ (length x <= 50)%nat /\
  leaf_groups !! m = Some (map H x).
Proof.
  intros Hm. destruct (lookup_lt_is_Some_2 xs m) as [x Hx]; [lia|]. exists x.
  split_and!; [done|by apply (Forall_lookup_1 _ _ _ _ Hsizes Hx)|].
  unfold leaf_groups. change (map (map H) xs) with (map H <$> xs). by rewrite list_lookup_fmap, Hx.
Qed.

Lemma slice_strings_ok a b :
  Forall (fun x => Forall byteb x /\ zlen x < hash_limit) (slice a b (concat xs)).
Proof.
  unfold slice. apply Forall_take, Forall_drop. by apply Forall_concat_2.
Qed.

Lemma slice_H_short m a b :
  (m < length xs)%nat -> (start xs m <= a <= b)%nat -> (b <= start xs (S m))%nat ->
  zlen (concat (map H (slice a b (concat xs)))) <= 1600.
Proof.
  intros Hm Ha Hb. destruct (leaf_at m Hm) as (x & Hx & Hl & _). pose proof (start_S xs m x Hx).
  pose proof (start_le xs (S m)). unfold zlen. rewrite (concat_length _ 32 (all32 _ _ H_length)), length_map.
  rewrite slice_length by lia. lia.
Qed.

(** The strings [lo .. hi] are in the range, from leaf [s] to leaf [e]. *)
Context (lo hi s e : nat).
Context (Hse : (s < e < length xs)%nat).
Context (Hs1 : (start xs s <= lo < start xs (S s))%nat) (He1 : (start xs e <= hi < start xs (S e))%nat).

(** The strings of leaf [m] that are in the range. *)
Definition in_range (m : nat) : list (list Z) :=
  slice (Nat.max (start xs m) lo) (Nat.min (start xs (S m)) (S hi)) (concat xs).

(** The verification object of the leaf level. *)
Context (vo : rangevo) (lv rv : nodevo).
Context (Hlv : aget (leftvo vo) (traverse_height vo) = Some lv).
Context (Hrv : aget (rightvo vo) (traverse_height vo) = Some rv).
Context (Hlid : vo_node_id lv = Z.of_nat s) (Hrid : vo_node_id rv = Z.of_nat e).
Context (Hlh : cats (nhash lv) (map H (slice (start xs s) lo (concat xs)))).
Context (Hrh : cats (nhash rv) (map H (slice (S hi) (start xs (S e)) (concat xs)))).
Context (Hdata : forall m, (s <= m <= e)%nat -> exists v, vdata vo !! (m - s)%nat = Some v /\ cats v (in_range m)).

Lemma leaf_node_pieces m x : xs !! m = Some x -> (s < m < e)%nat -> map H (in_range m) = map H x.
Proof.
  intros Hx Hm. f_equal. unfold in_range. pose proof (start_mono xs (S s) m ltac:(lia)).
  pose proof (start_mono xs (S m) e ltac:(lia)). rewrite Nat.max_l, Nat.min_l by lia. by apply start_slice.
Qed.

(** The buffer of the left boundary leaf: the hashes to the left of the range,
    then those of the strings of the range. *)
Lemma left_boundary_yields {A} x (k : list Z -> option A) (Q : A -> Prop) : xs !! s = Some x ->
  (forall buf, cstr buf = Some (concat (map H x)) -> yields (k buf) Q) ->
  yields (do hashca <- cat_all (nhash lv) (replicate (Z.to_nat BUF) 0);
    do v <- aget (vdata vo) 0; do hashca <- cat_hashed v hashca; k hashca) Q.
Proof.
  intros Hx Hk. pose proof (start_mono xs (S s) e ltac:(lia)) as Hmono.
  pose proof (slice_H_short s (start xs s) lo ltac:(lia) ltac:(lia) ltac:(lia)) as Z1.
  pose proof (slice_H_short s lo (start xs (S s)) ltac:(lia) ltac:(lia) ltac:(lia)) as Z2.
  eapply yields_bind, yields_wand.
  { apply (cat_all_yields _ _ _ [] Hlh); [apply cstr_zeros; unfold BUF; lia|].
    rewrite zlen_replicate. unfold BUF, zlen at 1. simpl length. lia. }
  intros buf [Cb Lb]. rewrite zlen_replicate in Lb. simpl in Cb.
  destruct (Hdata s ltac:(lia)) as (v0 & Hv0 & Cv0). rewrite Nat.sub_diag in Hv0.
  eapply yields_bind, yields_aget; [lia|exact Hv0|].
  assert (in_range s = slice lo (start xs (S s)) (concat xs)) as Hrs
    by (unfold in_range; rewrite Nat.max_r, Nat.min_l by lia; done).
  eapply yields_bind, yields_wand.
  { apply (cat_hashed_yields _ _ _ _ Cv0 (slice_strings_ok _ _) Cb). rewrite Hrs. unfold BUF in *. lia. }
  intros buf1 [Cb1 Lb1]. rewrite Hrs, <- concat_app, <- map_app, slice_app, (start_slice xs s x Hx) in Cb1 by lia.
  by apply Hk.
Qed.

(** The buffer of a leaf between the boundaries: all its hashes. *)
Lemma inner_leaf_yields {A} q y (k : list Z -> option A) (Q : A -> Prop) : (s < q < e)%nat ->
  xs !! q = Some y -> (length y <= 50)%nat ->
  (forall buf, cstr buf = Some (concat (map H y)) -> yields (k buf) Q) ->
  yields (do v <- aget (vdata vo) (Z.of_nat q - Z.of_nat s); do mhash <- cat_hashed v (replicate (Z.to_nat BUF) 0); k mhash) Q.
Proof.
  intros Hq Hy Hly Hk. destruct (Hdata q ltac:(lia)) as (v & Hv & Cv). eapply yields_bind, yields_aget; [lia| |].
  { replace (Z.to_nat (Z.of_nat q - Z.of_nat s)) with (q - s)%nat by lia. exact Hv. }
  pose proof (leaf_node_pieces q y Hy ltac:(lia)) as Hp. eapply yields_bind, yields_wand.
  { apply (cat_hashed_yields _ _ _ [] Cv (slice_strings_ok _ _)); [apply cstr_zeros; unfold BUF; lia|].
    fold (in_range q). rewrite Hp, zlen_replicate. unfold zlen. simpl length.
    rewrite (concat_length _ 32 (all32 _ _ H_length)), length_map. unfold BUF. lia. }
  intros buf2 [Cb2 Lb2]. fold (in_range q) in Cb2. rewrite Hp in Cb2. by apply Hk.
Qed.

(** The buffer of the right boundary leaf: the hashes of the strings of the range,
    then those to the right of it. *)
Lemma right_boundary_yields {A} y (k : list Z -> option A) (Q : A -> Prop) : xs !! e = Some y ->
  (forall buf, cstr buf = Some (concat (map H y)) -> yields (k buf) Q) ->
  yields (do v <- aget (vdata vo) (Z.of_nat e - Z.of_nat s); do ehash <- cat_hashed v (replicate (Z.to_nat BUF) 0);
    do ehash <- cat_all (nhash rv) ehash; k ehash) Q.
Proof.
  intros Hy Hk. pose proof (start_mono xs (S s) e ltac:(lia)) as Hmono. destruct (Hdata e ltac:(lia)) as (v & Hv & Cv).
  assert (in_range e = slice (start xs e) (S hi) (concat xs)) as Hre
    by (unfold in_range; rewrite Nat.max_l, Nat.min_r by lia; done).
  pose proof (slice_H_short e (start xs e) (S hi) ltac:(lia) ltac:(lia) ltac:(lia)) as Z3.
  pose proof (slice_H_short e (S hi) (start xs (S e)) ltac:(lia) ltac:(lia) ltac:(lia)) as Z4.
  eapply yields_bind, yields_aget; [lia| |].
  { replace (Z.to_nat (Z.of_nat e - Z.of_nat s)) with (e - s)%nat by lia. exact Hv. }
  eapply yields_bind, yields_wand.
  { apply (cat_hashed_yields _ _ _ [] Cv (slice_strings_ok _ _)); [apply cstr_zeros; unfold BUF; lia|].
    fold (in_range e). rewrite Hre, zlen_replicate. unfold BUF, zlen at 1. simpl length. lia. }
  intros buf2 [Cb2 Lb2]. fold (in_range e) in Cb2. rewrite Hre in Cb2. simpl in Cb2. rewrite zlen_replicate in Lb2.
  eapply yields_bind, yields_wand.
  { apply (cat_all_yields _ _ _ _ Hrh Cb2). unfold BUF in *. lia. }
  intros buf3 [Cb3 Lb3]. rewrite <- concat_app, <- map_app, slice_app, (start_slice xs e y Hy) in Cb3 by lia.
  by apply Hk.
Qed.

Lemma leaf_level_yields st :
  (forall i, (i < 10)%nat -> lmap st i ∅) ->
  yields (leaf_level vo st) (fun st' => ready st' 0 s e (hashes leaf_groups)).
Proof.
  intros Hmaps. pose proof leaf_groups_ok as Hok. set (B := next_str (rstrs st)).
  assert (written leaf_groups 0 s st s ∅ B) as Hw0.
  { split; try done; [by apply Hmaps; lia| |intros j Hj; apply Hmaps; lia|intros j Hj; exists ∅; by apply Hmaps].
    intros id. rewrite lookup_empty. split; [by intros []|lia]. }
  unfold leaf_level. eapply yields_bind, yields_eq; [exact Hlv|].
  eapply yields_bind, yields_eq; [exact Hrv|]. rewrite Hlid, Hrid.
  destruct (leaf_at s ltac:(lia)) as (x & Hx & Hlx & Hg). apply (left_boundary_yields x); [done|]. intros buf Cb.
  eapply yields_bind, (written_put leaf_groups Hok 0 s); [exact Hw0|exact Hg|lia|exact Cb|].
  intros st1 P1 Hw1 _ _.
  eapply yields_bind, (yields_for (fun m x => exists P', x.2 = m - Z.of_nat s /\
    written leaf_groups 0 s x.1 (Z.to_nat m) P' B)).
  - lia.
  - exists P1. simpl. replace (Z.to_nat (Z.of_nat s + 1)) with (S s) by lia. split; [lia|done].
  - intros m [st2 nc] Hm (P' & Hnc & Hw). simpl in Hnc, Hw. subst nc.
    destruct (Z_of_nat_complete m ltac:(lia)) as [q ->]. rewrite Nat2Z.id in Hw.
    destruct (leaf_at q ltac:(lia)) as (y & Hy & Hly & Hgy). apply (inner_leaf_yields q y); [lia|done|lia|]. intros buf2 Cb2.
    eapply yields_bind, (written_put leaf_groups Hok 0 s); [exact Hw|exact Hgy|lia|exact Cb2|].
    intros st3 P3 Hw3 _ _. apply yields_ret. exists P3. simpl.
    replace (Z.to_nat (Z.of_nat q + 1)) with (S q) by lia. split; [lia|done].
  - intros [st2 nc] (P' & Hnc & Hw). simpl in Hnc, Hw. subst nc. rewrite Nat2Z.id in Hw.
    replace (Z.of_nat s =? Z.of_nat e) with false by lia.
    destruct (leaf_at e ltac:(lia)) as (y & Hy & Hly & Hgy). apply (right_boundary_yields y); [done|]. intros buf3 Cb3.
    eapply (written_put leaf_groups Hok 0 s); [exact Hw|exact Hgy|lia|exact Cb3|].
    intros st3 P3 Hw3 _ _. by eapply written_ready.
Qed.

End LeafLevel.

(** The range lies within one leaf.  The hash of the leaf is stored twice under
    the same number, and the second time without the hashes to the left of the
    range: the left hashes [ls] are without effect. *)
Section LeafSingle.
Context `{HashFn}.
Context (xs : list (list (list Z))) (hi s : nat) (ls : list (list Z)).
Context (Hxs : Forall (Forall (fun x => Forall byteb x /\ zlen x < hash_limit)) xs).
Context (Hsizes : Forall (fun x => length x <= 50)%nat xs) (Hfew : Z.of_nat (length xs) < 2 ^ 31).
Context (Hs : (s < length xs)%nat) (Hhi : (start xs s <= hi < start xs (S s))%nat).
Context (vo : rangevo) (lv rv : nodevo) (v : list (list Z)).
Context (Hlv : aget (leftvo vo) (traverse_height vo) = Some lv).
Context (Hrv : aget (rightvo vo) (traverse_height vo) = Some rv).
Context (Hlid : vo_node_id lv = Z.of_nat s) (Hrid : vo_node_id rv = Z.of_nat s).
Context (Hlh : cats (nhash lv) ls) (Hls : Forall (Forall byteb) ls) (Hshort : zlen (concat ls) <= 4096).
Context (Hrh : cats (nhash rv) (map H (slice (S hi) (start xs (S s)) (concat xs)))).
Context (Hv : vdata vo !! 0%nat = Some v) (Cv : cats v (slice (start xs s) (S hi) (concat xs))).

Lemma leaf_single_yields st :
  (forall i, (i < 10)%nat -> lmap st i ∅) ->
  yields (leaf_level vo st) (fun st' => ready st' 0 s s (hashes (leaf_groups xs))).
Proof.
  intros Hmaps. pose proof (leaf_groups_ok xs Hsizes Hfew) as Hok.
  unfold leaf_level. eapply yields_bind, yields_eq; [exact Hlv|].
  eapply yields_bind, yields_eq; [exact Hrv|]. rewrite Hlid, Hrid, Z.eqb_refl.
  pose proof (slice_H_short xs Hsizes s (start xs s) (S hi) ltac:(lia) ltac:(lia) ltac:(lia)) as Z1.
  pose proof (slice_H_short xs Hsizes s (S hi) (start xs (S s)) ltac:(lia) ltac:(lia) ltac:(lia)) as Z2.
  destruct (leaf_at xs Hsizes s ltac:(lia)) as (x & Hx & Hlx & Hg).
  pose proof (slice_strings_ok xs Hxs (start xs s) (S hi)) as Hstr.
  eapply yields_bind, yields_wand.
  { apply (cat_all_yields _ _ _ [] Hlh); [apply cstr_zeros; unfold BUF; lia|].
    rewrite zlen_replicate. unfold BUF, zlen at 1. simpl length. lia. }
  intros buf [Cb Lb]. rewrite zlen_replicate in Lb. simpl in Cb.
  eapply yields_bind, yields_aget; [lia|exact Hv|].
  eapply yields_bind, yields_wand.
  { apply (cat_hashed_yields _ _ _ _ Cv Hstr Cb). unfold BUF in *. lia. }
  intros buf1 [Cb1 Lb1].
  eapply yields_bind, (put_hash_yields _ 0 _ _ _ _ _ (Hmaps 0%nat ltac:(lia)));
    [unfold in_s; lia|exact Cb1| |unfold hash_limit; rewrite zlen_app; lia|].
  { apply Forall_app. split; [by apply Forall_concat_2|]. apply pieces_concat_bytes, pieces_H. }
  intros st1 out1 Hm1 Hup1 Hrs1 Co1. rewrite for_range_empty by lia. cbn [mbind option_bind].
  eapply yields_bind, yields_aget; [lia|exact Hv|].
  eapply yields_bind, yields_wand.
  { apply (cat_hashed_yields _ _ _ [] Cv Hstr); [apply cstr_zeros; unfold BUF; lia|].
    rewrite zlen_replicate. unfold BUF, zlen at 1. simpl length. lia. }
  intros buf2 [Cb2 Lb2]. rewrite zlen_replicate in Lb2. simpl in Cb2.
  eapply yields_bind, yields_wand.
  { apply (cat_all_yields _ _ _ _ Hrh Cb2). unfold BUF in *. lia. }
  intros buf3 [Cb3 Lb3]. rewrite <- concat_app, <- map_app, slice_app, (start_slice xs s x Hx) in Cb3 by lia.
  eapply (put_single_ready _ 0 s _ _ _ _ Hm1); [|lia|exact Cb3|apply pieces_concat_bytes, pieces_H| | | |].
  - intros i Hi. by rewrite lookup_insert_ne, lookup_empty.
  - unfold hash_limit, zlen. rewrite (concat_length _ 32 (all32 _ _ H_length)), length_map. lia.
  - unfold hashes. change (map (fun g => H (concat g)) ?l) with ((fun g => H (concat g)) <$> l).
    by rewrite list_lookup_fmap, Hg.
  - intros i Hi. apply Hup1; [lia|]. apply Hmaps. lia.
  - intros i Hi. destruct (decide (i = 0%nat)) as [->|Hne]; [by eexists|].
    exists ∅. apply Hup1; [done|]. by apply Hmaps.
Qed.

End LeafSingle.
