(* ===== verification/ReconstructRoot.v ===== *)
(** * The reconstructed root is the Merkle root

    A balanced tree of height [h] is cut into layers: layer [d] holds the nodes
    [d] levels below the root.  Level [k] of the code is layer [h - k], and the
    numbers that [set_node_id] gives are the positions in the layer.  [fits]
    says which verification object and which maps of child numbers belong to the
    range of the strings [lo .. hi] of a tree.  With them [reconstruct_root]
    returns the hash [hashcompute] stores in the root, when the range spans
    several leaves; within one leaf, it does so exactly as if the leaf began
    with the range. *)

From S2P Require Import Prelude CMem Sha256 Hashmap Node NodeCodec Heap Merkle Vo Reconstruct ReconstructSpec.

(** ** Layers *)

Definition kids (t : mtree) : list mtree := match t with MLeaf _ _ => [] | MNode _ ts => ts end.

Fixpoint layer (d : nat) (t : mtree) : list mtree :=
  match d with O => [t] | S d' => concat (map kids (layer d' t)) end.

(** The group that holds piece [i]. *)
Fixpoint owner {A} (gs : list (list A)) (i : nat) : nat :=
  match gs with
  | [] => O
  | g :: gs => if decide (i < length g)%nat then O else S (owner gs (i - length g))
  end.

Lemma start_cons {A} (g : list A) gs j : start (g :: gs) (S j) = (length g + start gs j)%nat.
Proof. unfold start. simpl. by rewrite length_app. Qed.

Lemma owner_spec {A} (gs : list (list A)) i :
  (i < length (concat gs))%nat ->
  (owner gs i < length gs)%nat /\ (start gs (owner gs i) <= i < start gs (S (owner gs i)))%nat.
Proof.
  revert i. induction gs as [|g gs IH]; intros i Hi; simpl in *; [lia|].
  destruct (decide _) as [Hlt|Hge].
  - rewrite start_cons. unfold start. simpl. lia.
  - rewrite length_app in Hi. destruct (IH (i - length g)%nat) as [H1 H2]; [lia|].
    rewrite !start_cons. split; lia.
Qed.

Lemma owner_mono {A} (gs : list (list A)) i j : (i <= j)%nat -> (owner gs i <= owner gs j)%nat.
Proof.
  revert i j. induction gs as [|g gs IH]; intros i j Hij; simpl; [done|].
  repeat destruct (decide _); try lia. apply le_n_S, IH. lia.
Qed.

Lemma balanced_layer h t d : balanced h t -> (d <= h)%nat -> Forall (balanced (h - d)) (layer d t).
Proof.
  intros Hb. induction d as [|d IH]; intros Hd; simpl.
  - rewrite Nat.sub_0_r. by constructor.
  - specialize (IH ltac:(lia)). apply Forall_concat_2. apply Forall_forall.
    intros ts (n & <- & Hn)%list_elem_of_In%in_map_iff.
    rewrite Forall_forall in IH. specialize (IH n ltac:(by apply list_elem_of_In)).
    replace (h - d)%nat with (S (h - S d)) in IH by lia. by destruct n.
Qed.

Section Tree.
Context `{HashFn}.

(** What a node hashes. *)
Definition node_pieces (t : mtree) : list (list Z) :=
  match t with MLeaf _ ds => map H ds | MNode _ ts => map mhash ts end.

Lemma mhash_pieces t : mhash t = H (concat (node_pieces t)).
Proof. by destruct t. Qed.

Context (t : mtree) (h : nat).

(** Level [k] as the groups of its pieces. *)
Definition groups (k : nat) : list (list (list Z)) := map node_pieces (layer (h - k) t).

(** The node of level [k] above string [i], and the piece of this node. *)
Fixpoint at_level (k i : nat) : nat :=
  match k with O => owner (groups 0) i | S k' => owner (groups k) (at_level k' i) end.

Definition below (k i : nat) : nat := match k with O => i | S k' => at_level k' i end.

Lemma hashes_groups k : hashes (groups k) = map mhash (layer (h - k) t).
Proof.
  unfold hashes, groups. rewrite map_map. apply map_ext. intros n. by rewrite mhash_pieces.
Qed.

Context (Hbal : balanced h t).

(** The pieces of a level are the hashes of the level below. *)
Lemma groups_concat k : (k < h)%nat -> concat (groups (S k)) = hashes (groups k).
Proof.
  intros Hk. rewrite hashes_groups. unfold groups. replace (h - k)%nat with (S (h - S k)) by lia. simpl.
  pose proof (balanced_layer h t (h - S k) Hbal ltac:(lia)) as Hb.
  replace (h - (h - S k))%nat with (S k) in Hb by lia.
  rewrite concat_map, map_map. f_equal. apply map_ext_in. intros n Hn%list_elem_of_In.
  rewrite Forall_forall in Hb. specialize (Hb n Hn). by destruct n.
Qed.

Definition leaf_strings : list (list (list Z)) := map strings (layer h t).

Lemma groups_leaves : groups 0 = leaf_groups leaf_strings.
Proof.
  unfold groups, leaf_groups, leaf_strings. rewrite Nat.sub_0_r, map_map. apply map_ext_in.
  intros n Hn%list_elem_of_In. pose proof (balanced_layer h t h Hbal (Nat.le_refl _)) as Hb.
  rewrite Nat.sub_diag, Forall_forall in Hb. specialize (Hb n Hn). by destruct n.
Qed.

Lemma groups_top : groups h = [node_pieces t].
Proof. unfold groups. by rewrite Nat.sub_diag. Qed.

End Tree.

Lemma concat_concat {A} (l : list (list (list A))) : concat (concat l) = concat (map (@concat A) l).
Proof. induction l as [|x l IH]; simpl; [done|]. by rewrite concat_app, IH. Qed.

Lemma layer_strings t h d : balanced h t -> (d <= h)%nat -> concat (map strings (layer d t)) = strings t.
Proof.
  intros Hb. induction d as [|d IH]; intros Hd; simpl; [by rewrite app_nil_r|].
  rewrite <- IH by lia. rewrite concat_map, concat_concat, !map_map. f_equal. apply map_ext_in.
  intros n Hn%list_elem_of_In. pose proof (balanced_layer h t d Hb ltac:(lia)) as Hl.
  rewrite Forall_forall in Hl. specialize (Hl n Hn). replace (h - d)%nat with (S (h - S d)) in Hl by lia.
  by destruct n.
Qed.

(** ** Objects that fit *)

(** The bounds of the code: at most 50 pieces per node, at most 10 levels. *)
Record bounded (t : mtree) (h : nat) : Prop := {
  bd_bal : balanced h t;
  bd_height : (h < 10)%nat;
  bd_sizes d : (d <= h)%nat -> Forall (fun n => length (kids n) <= 50 /\ (d = h -> length (strings n) <= 50))%nat (layer d t);
  bd_few d : (d <= h)%nat -> Z.of_nat (length (layer d t)) < 2 ^ 31;
  bd_strings : Forall (fun x => Forall byteb x /\ zlen x < hash_limit) (strings t)
}.

Section Fits.
Context `{HashFn}.
Context (t : mtree) (h lo hi : nat).


(** The maps of child numbers: every node of a level has the numbers of its
    children in the level below, from left to right. *)
Definition fits_maps (hashp : list (Hashmap (list Z))) : Prop :=
  forall k m g, (0 < k <= h)%nat -> groups t h k !! m = Some g ->
    node_children hashp (Z.of_nat k) (Z.of_nat m) = Some (ids_of (start (groups t h k) m) (length g)).

(** Level [k] of the object: the numbers of the two boundary nodes, the hashes to
    the left of the range in the first and to the right of it in the second. *)
Definition fits_left (vo : rangevo) (k : nat) : Prop :=
  exists lv, aget (leftvo vo) (Z.of_nat (h - k)) = Some lv /\
    vo_node_id lv = Z.of_nat (at_level t h k lo) /\
    cats (nhash lv) (slice (start (groups t h k) (at_level t h k lo)) (below t h k lo) (concat (groups t h k))).

Definition fits_right (vo : rangevo) (k : nat) : Prop :=
  exists rv, aget (rightvo vo) (Z.of_nat (h - k)) = Some rv /\
    vo_node_id rv = Z.of_nat (at_level t h k hi) /\
    cats (nhash rv) (slice (S (below t h k hi)) (start (groups t h k) (S (at_level t h k hi))) (concat (groups t h k))).

(** The strings, leaf by leaf. *)
Definition fits_data (vo : rangevo) : Prop :=
  forall m, (at_level t h 0 lo <= m <= at_level t h 0 hi)%nat ->
    exists v, vdata vo !! (m - at_level t h 0 lo)%nat = Some v /\ cats v (in_range (leaf_strings t h) lo hi m).

(** The object fits; the left hashes of the leaf level are kept apart. *)
Record fits (hashp : list (Hashmap (list Z))) (vo : rangevo) : Prop := {
  ft_height : traverse_height vo = Z.of_nat h;
  ft_maps : fits_maps hashp;
  ft_data : fits_data vo;
  ft_left k : (0 < k <= h)%nat -> fits_left vo k;
  ft_right k : (k <= h)%nat -> fits_right vo k
}.

Context (Hok : bounded t h).

Lemma group_ok k : (k <= h)%nat -> pieces_ok (groups t h k).
Proof.
  intros Hk. destruct Hok as [Hb _ Hs Hf _]. split.
  - destruct k as [|k]; [rewrite groups_leaves, leaf_groups_concat by done; apply pieces_H|].
    rewrite groups_concat by (done || lia). apply hashes_pieces.
  - unfold groups. apply Forall_forall. intros g (n & <- & Hn)%list_elem_of_In%in_map_iff.
    apply list_elem_of_In in Hn. specialize (Hs (h - k)%nat ltac:(lia)).
    pose proof (balanced_layer h t (h - k) Hb ltac:(lia)) as Hl.
    rewrite Forall_forall in Hs, Hl. specialize (Hs n Hn) as [H1 H2]. specialize (Hl n Hn).
    destruct n; simpl in *; rewrite length_map; [|done].
    apply H2. destruct (h - (h - k))%nat eqn:E; [lia|done].
  - unfold groups. rewrite length_map. apply Hf. lia.
Qed.

Lemma leaves_total : length (concat (groups t h 0)) = length (strings t).
Proof.
  rewrite groups_leaves, leaf_groups_concat by apply Hok. rewrite length_map. unfold leaf_strings.
  by rewrite (layer_strings t h h (bd_bal _ _ Hok) (Nat.le_refl _)).
Qed.

Lemma below_lt k i : (i < length (strings t))%nat -> (k <= h)%nat -> (below t h k i < length (concat (groups t h k)))%nat.
Proof.
  intros Hi. induction k as [|k IH]; intros Hk; [by rewrite leaves_total|].
  rewrite groups_concat by (apply Hok || lia). unfold hashes. rewrite length_map.
  specialize (IH ltac:(lia)). simpl. destruct k as [|k]; simpl in *; by apply owner_spec.
Qed.

Lemma at_level_owner k i : at_level t h k i = owner (groups t h k) (below t h k i).
Proof. by destruct k. Qed.

Lemma at_level_spec k i : (i < length (strings t))%nat -> (k <= h)%nat ->
  (at_level t h k i < length (groups t h k))%nat /\
  (start (groups t h k) (at_level t h k i) <= below t h k i < start (groups t h k) (S (at_level t h k i)))%nat.
Proof. intros Hi Hk. rewrite at_level_owner. by apply owner_spec, below_lt. Qed.

Lemma leaf_strings_ok : Forall (Forall (fun x => Forall byteb x /\ zlen x < hash_limit)) (leaf_strings t h).
Proof.
  destruct Hok as [Hb _ _ _ Hs]. rewrite <- (layer_strings t h h Hb (Nat.le_refl _)) in Hs.
  unfold leaf_strings. revert Hs. induction (map strings (layer h t)) as [|x l IH]; simpl; [constructor|].
  intros [H1 H2]%Forall_app. constructor; auto.
Qed.

Lemma leaf_strings_sizes : Forall (fun x => length x <= 50)%nat (leaf_strings t h).
Proof.
  destruct Hok as [_ _ Hs _ _]. specialize (Hs h (Nat.le_refl _)). unfold leaf_strings.
  induction Hs as [|n l [_ Hn] _ IH]; simpl; constructor; auto.
Qed.

Lemma leaf_strings_few : Z.of_nat (length (leaf_strings t h)) < 2 ^ 31.
Proof. unfold leaf_strings. rewrite length_map. by apply Hok. Qed.

Lemma leaf_spec i : (i < length (strings t))%nat ->
  (at_level t h 0 i < length (leaf_strings t h))%nat /\ (start (leaf_strings t h) (at_level t h 0 i) <= i < start (leaf_strings t h) (S (at_level t h 0 i)))%nat.
Proof.
  intros Hi. pose proof (at_level_spec 0 i Hi ltac:(lia)) as Hs.
  rewrite groups_leaves in Hs by apply Hok. rewrite !leaf_groups_start in Hs.
  unfold leaf_groups in Hs. by rewrite length_map in Hs.
Qed.

(** The left hashes of the leaf level, as hashes of strings. *)
Lemma leaf_slice a b : slice a b (concat (groups t h 0)) = map H (slice a b (concat (leaf_strings t h))).
Proof.
  rewrite groups_leaves, leaf_groups_concat by apply Hok.
  change (map H ?l) with (H <$> l). by rewrite slice_fmap.
Qed.

Lemma leaf_right vo : traverse_height vo = Z.of_nat h -> fits_right vo 0 -> exists rv,
  aget (rightvo vo) (traverse_height vo) = Some rv /\ vo_node_id rv = Z.of_nat (at_level t h 0 hi) /\ cats (nhash rv) (map H (slice (S hi) (start (leaf_strings t h) (S (at_level t h 0 hi))) (concat (leaf_strings t h)))).
Proof.
  intros Fh (rv & Erv & Hrid & Hrh). exists rv. rewrite Nat.sub_0_r, <- Fh in Erv. split_and!; [done|done|].
  rewrite leaf_slice in Hrh. rewrite groups_leaves, leaf_groups_start in Hrh by apply Hok. exact Hrh.
Qed.

Context (Hrange : (lo <= hi < length (strings t))%nat).

Lemma below_le k : (below t h k lo <= below t h k hi)%nat.
Proof.
  induction k as [|k IH]; [simpl; lia|]. simpl. rewrite !at_level_owner. by apply owner_mono.
Qed.

Lemma at_level_le k : (at_level t h k lo <= at_level t h k hi)%nat.
Proof. rewrite !at_level_owner. apply owner_mono, below_le. Qed.

(** ** The levels *)

Lemma upper_step hashp vo k st :
  fits hashp vo -> (S k <= h)%nat ->
  ready st k (at_level t h k lo) (at_level t h k hi) (hashes (groups t h k)) ->
  yields (do lv <- aget (leftvo vo) (traverse_height vo - Z.of_nat (S k));
          do rv <- aget (rightvo vo) (traverse_height vo - Z.of_nat (S k));
          if negb (vo_node_id lv =? vo_node_id rv)
          then level_apart hashp lv rv (Z.of_nat (S k)) (Z.of_nat k) st
          else level_joined hashp lv rv (Z.of_nat (S k)) (Z.of_nat k) st)
    (fun st' => ready st' (S k) (at_level t h (S k) lo) (at_level t h (S k) hi) (hashes (groups t h (S k)))).
Proof.
  intros [Fh Fm _ Fl Fr] Hk Hr. pose proof (bd_height _ _ Hok) as Hh.
  destruct (Fl (S k) ltac:(lia)) as (lv & Elv & Hlid & Hlh). destruct (Fr (S k) Hk) as (rv & Erv & Hrid & Hrh).
  replace (traverse_height vo - Z.of_nat (S k)) with (Z.of_nat (h - S k)) by lia.
  eapply yields_bind, yields_eq; [exact Elv|]. eapply yields_bind, yields_eq; [exact Erv|].
  destruct (at_level_spec (S k) lo ltac:(lia) Hk) as [Hs Hs1].
  destruct (at_level_spec (S k) hi ltac:(lia) Hk) as [He He1].
  pose proof (at_level_le (S k)) as Hle. pose proof (below_le (S k)) as Hbl.
  rewrite <- groups_concat in Hr by (apply Hok || lia). rewrite Hlid, Hrid.
  assert (forall m g, (at_level t h (S k) lo <= m <= at_level t h (S k) hi)%nat -> groups t h (S k) !! m = Some g ->
    node_children hashp (Z.of_nat (S k)) (Z.of_nat m) = Some (ids_of (start (groups t h (S k)) m) (length g))) as Hch
    by (intros m g _; apply Fm; lia).
  assert (at_level t h (S k) lo <= at_level t h (S k) hi < length (groups t h (S k)))%nat as Hse by lia.
  assert (S k < 10)%nat as Hk10 by lia.
  destruct (Z.eqb_spec (Z.of_nat (at_level t h (S k) lo)) (Z.of_nat (at_level t h (S k) hi))) as [E|E].
  - apply (level_joined_yields _ (group_ok (S k) Hk) k _ _ _ _ Hbl Hse Hk10 Hs1 He1 lv rv hashp
      Hlid Hrid Hlh Hrh Hch); [lia|exact Hr].
  - apply (level_apart_yields _ (group_ok (S k) Hk) k _ _ _ _ Hbl Hse Hk10 Hs1 He1 lv rv hashp
      Hlid Hrid Hlh Hrh Hch); [lia|exact Hr].
Qed.

Lemma upper_levels_yields hashp vo st :
  fits hashp vo -> ready st 0 (at_level t h 0 lo) (at_level t h 0 hi) (hashes (groups t h 0)) ->
  yields (upper_levels hashp vo st) (fun st' => ready st' h 0 0 [mhash t]).
Proof.
  intros Hf Hr. pose proof (ft_height _ _ Hf) as Fh. unfold upper_levels.
  eapply (yields_for (fun k st => ready st (Z.to_nat (k - 1)) (at_level t h (Z.to_nat (k - 1)) lo)
    (at_level t h (Z.to_nat (k - 1)) hi) (hashes (groups t h (Z.to_nat (k - 1)))))); [lia|exact Hr| |].
  - intros k st' Hk Hr'. destruct (Z_of_nat_complete (k - 1) ltac:(lia)) as [q Hq].
    rewrite Hq, Nat2Z.id in *. replace (Z.to_nat (k + 1 - 1)) with (S q) by lia.
    replace k with (Z.of_nat (S q)) by lia. apply upper_step; [done|lia|done].
  - intros st' Hr'. replace (Z.to_nat (traverse_height vo + 1 - 1)) with h in Hr' by lia.
    assert (forall i, (i < length (strings t))%nat -> at_level t h h i = 0%nat) as Htop.
    { intros i Hi. destruct (at_level_spec h i Hi (Nat.le_refl _)) as [Hlt _].
      rewrite groups_top in Hlt. simpl in Hlt. lia. }
    rewrite !Htop in Hr' by lia. rewrite hashes_groups, Nat.sub_diag in Hr'. exact Hr'.
Qed.

(** ** The leaf level *)

Lemma leaf_ready hashp vo st :
  fits hashp vo -> fits_left vo 0 -> (at_level t h 0 lo < at_level t h 0 hi)%nat ->
  (forall i, (i < 10)%nat -> lmap st i ∅) ->
  yields (leaf_level vo st) (fun st' => ready st' 0 (at_level t h 0 lo) (at_level t h 0 hi) (hashes (groups t h 0))).
Proof.
  intros [Fh _ Fd _ Fr] (lv & Elv & Hlid & Hlh) Hlt Hmaps.
  destruct (leaf_right vo Fh (Fr 0%nat ltac:(lia))) as (rv & Erv & Hrid & Hrh).
  destruct (leaf_spec lo ltac:(lia)) as [Hs Hs1]. destruct (leaf_spec hi ltac:(lia)) as [He He1].
  rewrite Nat.sub_0_r, <- Fh in Elv. rewrite leaf_slice in Hlh.
  rewrite groups_leaves, leaf_groups_start in Hlh by apply Hok. rewrite (groups_leaves t h) by apply Hok.
  by eapply (leaf_level_yields _ leaf_strings_ok leaf_strings_sizes leaf_strings_few lo hi
    (at_level t h 0 lo) (at_level t h 0 hi)).
Qed.

End Fits.

(** ** The root *)

Section Root.
Context `{HashFn}.

Lemma new_maps_yields : yields new_maps (fun hms =>
  length hms = 10%nat /\ forall i hm, hms !! i = Some hm -> hm_rep hm ∅).
Proof.
  unfold new_maps.
  apply (yields_for (fun k hms => length hms = Z.to_nat k /\ forall i hm, hms !! i = Some hm -> hm_rep hm ∅)).
  - unfold BPLUS_MAX_LEVEL. lia.
  - done.
  - intros k hms Hk [Hl Hr]. unfold BPLUS_MAX_LEVEL in Hk.
    eapply yields_bind, yields_eq; [reflexivity|]. apply yields_ret. split; [rewrite length_app; simpl; lia|].
    intros i hm [Hi|[_ Hi]]%lookup_app_Some; [by apply (Hr i)|].
    apply list_lookup_singleton_Some in Hi as [_ <-].
    by apply (hashmap_new_rep NUM_BUCKETS _ _ _ myhash_compare_fns eq_refl eq_refl).
  - intros hms [Hl Hr]. split; [by rewrite Hl|done].
Qed.

(** The root is taken from the map of the top level, and the maps are freed. *)
Lemma root_read st k h0 root :
  ready st k 0 0 [h0] -> length h0 = 32%nat -> zlen root = 33 ->
  yields (do hm <- aget (tmp_hashes st) (Z.of_nat k);
          do p <- hashmap_get hm 0;
          do p <- p;
          do ss_temp <- strs (rstrs st) !! p;
          do root <- strcpy root ss_temp;
          do _ <- free_str (rstrs st) p;
          do _ <- for_range 0 BPLUS_MAX_LEVEL (fun i _ =>
            do hm <- aget (tmp_hashes st) i; do _ <- hashmap_free hm; Some tt) tt;
          Some root) (fun r => cstr r = Some h0).
Proof.
  intros (P & Hm & _ & Hdom & Hal & _ & _ & Hall) Hl Hroot.
  destruct (proj2 (Hdom 0) ltac:(lia)) as [p Hp]. destruct (Hal 0 p Hp I) as (buf & Hbuf & Cbuf).
  destruct (lmap_get st k P 0 Hm ltac:(unfold in_s; lia)) as (hm & Ek & Eg).
  eapply yields_bind, yields_aget; [lia|rewrite Nat2Z.id; exact Ek|].
  eapply yields_bind, yields_eq; [exact Eg|]. rewrite Hp.
  eapply yields_bind, yields_eq; [reflexivity|]. eapply yields_bind, yields_eq; [exact Hbuf|].
  change (hash_at [h0] 0) with h0 in Cbuf.
  destruct (strcpy_cstr root buf h0 Cbuf) as (r & Er & Cr & _); [unfold zlen at 1; lia|].
  eapply yields_bind, yields_eq; [exact Er|].
  eapply yields_bind, yields_eq; [unfold free_str; by rewrite Hbuf|].
  eapply yields_bind, (yields_for (fun _ _ => True)); [done|done| |by intros; apply yields_ret].
  intros i _ Hi _. destruct (Hall (Z.to_nat i)) as (P0 & hm' & Ei & Hrep); [unfold BPLUS_MAX_LEVEL in Hi; lia|].
  eapply yields_bind, yields_aget; [lia|exact Ei|]. unfold hashmap_free.
  rewrite (free_buckets_all hm') by apply Hrep. simpl. by apply yields_ret.
Qed.

(** From the leaf level to the root. *)
Lemma reconstruct_yields hashp vo root sh h0 (R : rstate -> Prop) k :
  zlen root = 33 -> length h0 = 32%nat -> traverse_height vo = Z.of_nat k ->
  (forall st, (forall i, (i < 10)%nat -> lmap st i ∅) -> yields (leaf_level vo st) R) ->
  (forall st, R st -> yields (upper_levels hashp vo st) (fun st' => ready st' k 0 0 [h0])) ->
  exists r, reconstruct_root hashp vo root sh = Some r /\ cstr r = Some h0.
Proof.
  intros Hroot Hl Hk Hleaf Hup. apply (yields_bind (memset root 0 0 33)).
  unfold memset. rewrite write_bytes_head by (rewrite zlen_replicate; lia).
  eapply yields_eq; [reflexivity|]. eapply yields_bind, yields_wand; [apply new_maps_yields|].
  intros hms [H10 Hrep]. eapply yields_bind, yields_wand; [apply Hleaf|].
  { intros i Hi. destruct (lookup_lt_is_Some_2 hms i) as [hm Hhm]; [lia|]. exists hm. split; [done|].
    rewrite fmap_empty. by apply (Hrep i). }
  intros st HR. eapply yields_bind, yields_wand; [by apply Hup|]. intros st' Hready. rewrite Hk.
  apply (root_read st' k h0); [done|done| ].
  rewrite zlen_app, zlen_replicate. unfold zlen in *. rewrite length_drop, length_replicate. lia.
Qed.

End Root.

(** ** An object that fits *)

Definition slot (s : list Z) : list Z := s ++ [0].

Lemma cats_slots ps : Forall chars ps -> cats (map slot ps) ps.
Proof. induction 1; constructor; [by apply cstr_app|done]. Qed.

Section Honest.
Context `{HashFn}.
Context (t : mtree) (h lo hi : nat).

(** The object a query should return, computed from the tree. *)
Definition honest_left (k : nat) : nodevo :=
  mkNodevo (Z.of_nat (at_level t h k lo)) 0
    (map slot (slice (start (groups t h k) (at_level t h k lo)) (below t h k lo) (concat (groups t h k)))).

Definition honest_right (k : nat) : nodevo :=
  mkNodevo (Z.of_nat (at_level t h k hi)) 0
    (map slot (slice (S (below t h k hi)) (start (groups t h k) (S (at_level t h k hi))) (concat (groups t h k)))).

Definition honest_vo : rangevo :=
  let s := at_level t h 0 lo in
  mkRangevo (Z.of_nat h)
    (map (fun i => honest_left (h - i)) (seq 0 10)) (map (fun i => honest_right (h - i)) (seq 0 10))
    (map (fun m => map slot (in_range (leaf_strings t h) lo hi m)) (seq s (S (at_level t h 0 hi - s))))
    [] [] 0.

Context (Hok : bounded t h) (Hch : Forall chars (strings t)).

Lemma groups_chars k a b : (k <= h)%nat -> Forall chars (slice a b (concat (groups t h k))).
Proof. intros Hk. unfold slice. apply Forall_take, Forall_drop. apply (lk_pieces _ (group_ok t h Hok k Hk)). Qed.

Lemma honest_entry (f : nat -> nodevo) k : (k <= h)%nat ->
  aget (map (fun i => f (h - i)%nat) (seq 0 10)) (Z.of_nat (h - k)) = Some (f k).
Proof.
  intros Hk. pose proof (bd_height _ _ Hok). apply aget_Some. split; [lia|]. rewrite Nat2Z.id.
  change (map ?g ?l) with (g <$> l). rewrite list_lookup_fmap, lookup_seq_lt by lia. simpl. do 2 f_equal. lia.
Qed.

Lemma honest_fits hashp : fits_maps t h hashp -> fits t h lo hi hashp honest_vo /\ fits_left t h lo honest_vo 0.
Proof.
  intros Hm. assert (forall k, (k <= h)%nat -> fits_left t h lo honest_vo k) as Hl.
  { intros k Hk. exists (honest_left k). split_and!; [by apply honest_entry|done|].
    by apply cats_slots, groups_chars. }
  split; [split|apply Hl; lia].
  - done.
  - done.
  - intros m Hm'. exists (map slot (in_range (leaf_strings t h) lo hi m)). split.
    + unfold honest_vo. cbn [vdata]. change (map ?g (seq ?a ?n)) with (g <$> seq a n). rewrite list_lookup_fmap, lookup_seq_lt by lia. cbn [fmap option_fmap option_map].
      by replace (at_level t h 0 lo + (m - at_level t h 0 lo))%nat with m by lia.
    + apply cats_slots. unfold in_range, slice. apply Forall_take, Forall_drop. unfold leaf_strings.
      by rewrite (layer_strings t h h (bd_bal _ _ Hok) (Nat.le_refl _)).
  - intros k Hk. apply Hl. lia.
  - intros k Hk. exists (honest_right k). split_and!; [by apply honest_entry|done|].
    by apply cats_slots, groups_chars.
Qed.

End Honest.

(** ** The theorems *)

Lemma root_of_fits `{HashFn} (t : mtree) (h lo hi : nat) (hashp : list (Hashmap (list Z)))
    (vo : rangevo) (root : list Z) (sh : strheap) :
  bounded t h -> (lo <= hi < length (strings t))%nat -> (at_level t h 0 lo < at_level t h 0 hi)%nat ->
  fits t h lo hi hashp vo -> fits_left t h lo vo 0 -> zlen root = 33 ->
  exists r, reconstruct_root hashp vo root sh = Some r /\ cstr r = Some (mhash t).
Proof.
  intros Hok Hrange Hlt Hf Hl Hroot.
  eapply (reconstruct_yields _ _ _ _ _ _ h); [done|apply mhash_length|by apply Hf| |].
  - intros st Hst. exact (leaf_ready t h lo hi Hok Hrange hashp vo st Hf Hl Hlt Hst).
  - intros st HR. exact (upper_levels_yields t h lo hi Hok Hrange hashp vo st Hf HR).
Qed.

(** C9. When the range of the strings [lo .. hi] of a balanced tree spans more
    than one leaf, and the object and the maps fit the range, [reconstruct_root]
    returns a string with the Merkle hash of the whole tree: what [hashcompute]
    stores in the root. *)
Theorem reconstruct_root_correct `{HashFn} (t : mtree) (h lo hi : nat) (hashp : list (Hashmap (list Z)))
    (vo : rangevo) (root : list Z) (sh : strheap) :
  bounded t h -> (lo <= hi < length (strings t))%nat -> (at_level t h 0 lo < at_level t h 0 hi)%nat ->
  fits t h lo hi hashp vo -> fits_left t h lo vo 0 -> zlen root = 33 ->
  exists r, reconstruct_root hashp vo root sh = Some r /\ cstr r = Some (mhash t).
Proof. apply root_of_fits. Qed.

(** C36. When the range lies within one leaf and begins with its first string, the
    hashes the object lists to the left of the range in this leaf have no effect,
    whatever they are: there should be none, but with any list of them
    [reconstruct_root] still returns the Merkle hash of the tree. *)
Theorem reconstruct_root_one_leaf `{HashFn} (t : mtree) (h lo hi : nat) (hashp : list (Hashmap (list Z)))
    (vo : rangevo) (root : list Z) (sh : strheap) (lv : nodevo) (ls : list (list Z)) :
  bounded t h -> (lo <= hi < length (strings t))%nat -> at_level t h 0 lo = at_level t h 0 hi ->
  lo = start (leaf_strings t h) (at_level t h 0 lo) ->
  fits t h lo hi hashp vo -> aget (leftvo vo) (traverse_height vo) = Some lv ->
  vo_node_id lv = Z.of_nat (at_level t h 0 lo) ->
  cats (nhash lv) ls -> Forall (Forall byteb) ls -> zlen (concat ls) <= 4096 -> zlen root = 33 ->
  exists r, reconstruct_root hashp vo root sh = Some r /\ cstr r = Some (mhash t).
Proof.
  intros Hok Hrange Heq Hlo Hf Elv Hlid Hls Hby Hshort Hroot.
  destruct (leaf_right t h hi Hok vo (ft_height _ _ _ _ _ _ Hf) (ft_right _ _ _ _ _ _ Hf 0%nat ltac:(lia)))
    as (rv & Erv & Hrid & Hrh). rewrite <- Heq in Hrid, Hrh.
  destruct (leaf_spec t h Hok hi ltac:(lia)) as [He He1]. rewrite <- Heq in He, He1.
  destruct (ft_data _ _ _ _ _ _ Hf (at_level t h 0 lo) ltac:(lia)) as (v & Hv & Cv).
  rewrite Nat.sub_diag in Hv. unfold in_range in Cv. rewrite Nat.max_l, Nat.min_r in Cv by lia.
  eapply (reconstruct_yields _ _ _ _ _ _ h); [done|apply mhash_length|by apply Hf| |].
  - intros st Hst. exact (leaf_single_yields _ hi _ ls (leaf_strings_ok t h Hok) (leaf_strings_sizes t h Hok)
      (leaf_strings_few t h Hok) He He1 vo lv rv v Elv Erv Hlid Hrid Hls Hby Hshort Hrh Hv Cv st Hst).
  - intros st HR. apply (upper_levels_yields t h lo hi Hok Hrange hashp vo st Hf).
    rewrite <- Heq, (groups_leaves t h) by apply Hok. exact HR.
Qed.

(** A node of which no child is in the range is hashed from the hashes of the
    object alone. *)
Lemma joined_alone `{HashFn} hashp lv rv k st lo hi hs ps :
  pieces ps -> (length ps <= 50)%nat -> cats (nhash lv) ps -> nhash rv = [] ->
  vo_node_id lv = 0 -> vo_node_id rv = 0 ->
  node_children hashp (Z.of_nat (S k)) 0 = Some [] -> (S k < 10)%nat -> ready st k lo hi hs ->
  yields (level_joined hashp lv rv (Z.of_nat (S k)) (Z.of_nat k) st)
    (fun st' => ready st' (S k) 0 0 [H (concat ps)]).
Proof.
  intros Hp Hsz Hl Hr Hlid Hrid Hch Hk (P & _ & _ & _ & _ & _ & Hup & Hall).
  unfold level_joined. rewrite Hlid, Hrid, Hr. eapply yields_bind, yields_wand.
  { apply (cat_all_yields _ _ _ [] Hl); [by apply cstr_zeros; unfold BUF; lia|].
    rewrite zlen_replicate. unfold zlen. rewrite (concat_length _ 32 (pc_len _ Hp)). unfold BUF. simpl length. lia. }
  intros buf [Cb Lb]. eapply yields_bind, yields_eq; [exact Hch|].
  eapply yields_bind, yields_eq; [reflexivity|]. eapply yields_bind, yields_eq; [reflexivity|].
  replace (Z.of_nat k + 1) with (Z.of_nat (S k)) by lia.
  apply (put_single_ready st (S k) 0 ∅ buf (concat ps)); try done.
  - apply Hup. lia.
  - by apply pieces_concat_bytes.
  - unfold zlen. rewrite (concat_length _ 32 (pc_len _ Hp)). unfold hash_limit. lia.
  - intros i Hi. apply Hup. lia.
Qed.

(** The maps of child numbers are part of what is to be verified, and a node
    is not checked to have any child in the range: for every tree and every list
    of strings there are an object that carries these strings and maps with
    which [reconstruct_root] returns the Merkle hash of the tree.  A root hash
    that matches does not authenticate the strings. *)
Theorem reconstruct_root_forgeable `{HashFn} (t : mtree) (h : nat) (v ds : list (list Z)) (root : list Z) (sh : strheap) :
  bounded t h -> cats v ds -> (0 < length ds <= 50)%nat ->
  Forall (fun x => Forall byteb x /\ zlen x < hash_limit) ds -> zlen root = 33 ->
  exists hashp vo r, vdata vo = [v] /\ reconstruct_root hashp vo root sh = Some r /\ cstr r = Some (mhash t).
Proof.
  intros Hok Cv Hds Hby Hroot.
  set (vo := mkRangevo 1 [mkNodevo 0 0 (map slot (node_pieces t)); mkNodevo 0 0 []]
                         [mkNodevo 0 0 []; mkNodevo 0 0 []] [v] [] [] 0).
  destruct (hashmap_new_rep (V := list Z) NUM_BUCKETS _ _ _ myhash_compare_fns eq_refl eq_refl) as [Hr0 _].
  destruct (hashmap_set_rep _ _ 0 (Some []) Hr0 ltac:(unfold in_s; lia)) as (hm & _ & Hr & _).
  pose proof (hashmap_get_rep _ _ 0 Hr ltac:(unfold in_s; lia)) as Hget. rewrite lookup_insert_eq in Hget.
  exists [hm; hm], vo.
  destruct (group_ok t h Hok h (Nat.le_refl _)) as [Hp Hsz _]. rewrite groups_top in Hp, Hsz. simpl in Hp.
  rewrite app_nil_r in Hp. apply Forall_cons in Hsz as [Hsz _].
  assert (exists r, reconstruct_root [hm; hm] vo root sh = Some r /\ cstr r = Some (mhash t)) as (r & E & Cr);
    [|by exists r].
  eapply (reconstruct_yields _ _ _ _ _ (fun st => ready st 0 0 0 (hashes (leaf_groups [ds]))) 1);
    [done|apply mhash_length|done| |].
  - intros st Hst. eapply (leaf_single_yields [ds] (length ds - 1) 0 []) with (v := v) (vo := vo);
      try reflexivity; try done.
    + by constructor.
    + constructor; [lia|done].
    + unfold start. simpl. lia.
    + unfold start. simpl. rewrite app_nil_r. lia.
    + constructor.
    + simpl. rewrite slice_nil; [constructor|]. unfold start. simpl. rewrite app_nil_r. lia.
    + simpl. unfold start, slice. simpl. rewrite app_nil_r, drop_0, take_ge by lia. exact Cv.
  - intros st Hst. unfold upper_levels.
    change (for_range 1 (traverse_height vo + 1) ?f st) with (f 1 st ≫= Some). cbv beta.
    apply yields_bind. apply yields_wand with (P := fun st' => ready st' 1 0 0 [mhash t]); [|intros; by apply yields_ret].
    cbn [aget vo leftvo rightvo traverse_height]. change (1 - 1) with 0.
    eapply yields_bind, yields_eq; [reflexivity|]. eapply yields_bind, yields_eq; [reflexivity|].
    cbn [vo_node_id]. rewrite Z.eqb_refl. simpl negb. cbv iota.
    rewrite mhash_pieces. eapply (joined_alone _ _ _ 0 st); [exact Hp|exact Hsz|by apply cats_slots, Hp|done|done|done| |lia|exact Hst].
    unfold node_children. simpl. by rewrite Hget.
Qed.

(** ** A tree with two leaves *)

Definition demo_word (c : Z) : list Z := [c; 98; 99].

Definition demo_two : mtree :=
  MNode 0 [MLeaf 1 [demo_word 97; demo_word 98]; MLeaf 2 [demo_word 99; demo_word 100]].

Definition demo_children : list (Hashmap (list Z)) :=
  let hm := init_buckets (mkHashmap NUM_BUCKETS [] myhash compare 0) in
  [hm; default hm (fst <$> hashmap_set true hm 0 (Some [0; 1]))].

Lemma demo_bounded : bounded demo_two 1.
Proof.
  split.
  - repeat constructor.
  - lia.
  - intros [|[|d]] Hd; [| |lia]; repeat constructor; simpl; lia.
  - intros [|[|d]] Hd; simpl; lia.
  - repeat constructor; unfold hash_limit, in_u, zlen; simpl; lia.
Qed.

Lemma demo_fits_maps `{HashFn} : fits_maps demo_two 1 demo_children.
Proof.
  intros k m g Hk Hg. assert (k = 1%nat) as -> by lia. destruct m as [|m]; [|by destruct m].
  injection Hg as <-. reflexivity.
Qed.

Lemma demo_chars : Forall chars (strings demo_two).
Proof. repeat constructor; done. Qed.

Lemma reconstruct_root_correct_witness :
  exists r, @reconstruct_root demo_hashfn demo_children (@honest_vo demo_hashfn demo_two 1 1 2)
      (replicate 33 7) (mkStrs ∅ 0) = Some r /\ cstr r = Some (@mhash demo_hashfn demo_two).
Proof.
  destruct (@honest_fits demo_hashfn demo_two 1 1 2 demo_bounded demo_chars demo_children) as [Hf Hl];
    [apply demo_fits_maps|].
  apply (@reconstruct_root_correct demo_hashfn demo_two 1 1 2);
    [exact demo_bounded|simpl; lia|apply Nat.ltb_lt; reflexivity|exact Hf|exact Hl|reflexivity].
Defined.

Lemma reconstruct_root_one_leaf_witness :
  exists r, @reconstruct_root demo_hashfn demo_children (@honest_vo demo_hashfn demo_two 1 2 2)
      (replicate 33 7) (mkStrs ∅ 0) = Some r /\ cstr r = Some (@mhash demo_hashfn demo_two).
Proof.
  destruct (@honest_fits demo_hashfn demo_two 1 2 2 demo_bounded demo_chars demo_children) as [Hf Hl];
    [apply demo_fits_maps|].
  apply (@reconstruct_root_one_leaf demo_hashfn demo_two 1 2 2 demo_children _ _ _
    (@honest_left demo_hashfn demo_two 1 2 0) []);
    [exact demo_bounded|simpl; lia|reflexivity|reflexivity|exact Hf|reflexivity|reflexivity
    |constructor|constructor|done|reflexivity].
Defined.

Lemma reconstruct_root_forgeable_witness :
  exists hashp vo r, vdata vo = [[slot (demo_word 120)]] /\
    @reconstruct_root demo_hashfn hashp vo (replicate 33 0) (mkStrs ∅ 0) = Some r /\
    cstr r = Some (@mhash demo_hashfn demo_two).
Proof.
  apply (@reconstruct_root_forgeable demo_hashfn demo_two 1 _ [demo_word 120]);
    [exact demo_bounded|repeat constructor|simpl; lia| |reflexivity].
  repeat constructor; unfold hash_limit, in_u, zlen; simpl; lia.
Defined.

(** A checksum in place of the hash function, for the evaluation. *)
Definition checksum (s : list Z) : list Z :=
  replicate 31 97 ++ [1 + foldl (fun a c => (31 * a + c) mod 251) 7 s].

Lemma checksum_last s : 1 <= 1 + foldl (fun a c => (31 * a + c) mod 251) 7 s < 252.
Proof.
  cut (0 <= foldl (fun a c => (31 * a + c) mod 251) 7 s < 251); [lia|].
  assert (0 <= 7 < 251) as H7 by lia. revert H7. generalize 7. induction s as [|c s IH]; intros a Ha; [done|].
  simpl. apply IH. apply Z.mod_pos_bound. lia.
Qed.

Definition checksum_into (input output : list Z) : option (list Z) :=
  do s <- cstr input; strcpy output (slot (checksum s)).

Lemma checksum_chars s : chars (checksum s).
Proof.
  pose proof (checksum_last s). apply Forall_app. split; [by apply Forall_replicate|].
  constructor; [lia|done].
Qed.

#[local, program] Instance demo_checksum : HashFn := {| hash_into := checksum_into; H := checksum |}.
Next Obligation. done. Qed.
Next Obligation. apply checksum_chars. Qed.
Next Obligation.
  intros s. pose proof (checksum_last s). apply Forall_app. unfold in_u.
  split; [apply Forall_replicate; lia|]. constructor; [lia|done].
Qed.
Next Obligation.
  intros input output msg _ Hc _ Ho. unfold checksum_into. rewrite Hc. simpl mbind.
  rewrite (strcpy_Some _ _ (checksum msg)); [done|apply cstr_app, checksum_chars|].
  unfold zlen in *. simpl length. lia.
Qed.

(** The object for the second string of the first leaf fits, and the string that
    is returned is not the root hash: the hash of the first string is lost. *)
Example reconstruct_root_one_leaf_wrong :
  (@fits demo_checksum demo_two 1 1 1 demo_children (@honest_vo demo_checksum demo_two 1 1 1) /\
   @fits_left demo_checksum demo_two 1 1 (@honest_vo demo_checksum demo_two 1 1 1) 0) /\
  match @reconstruct_root demo_checksum demo_children (@honest_vo demo_checksum demo_two 1 1 1)
      (replicate 33 0) (mkStrs ∅ 0) with
  | Some r => negb (bool_decide (cstr r = Some (@mhash demo_checksum demo_two)))
  | None => false
  end = true.
Proof.
  split; [apply honest_fits; [exact demo_bounded|exact demo_chars|apply demo_fits_maps]|].
  vm_compute. reflexivity.
Qed.
