(* ===== verification/QuerySpec.v ===== *)
(** * What the range query returns

    [indexed m t h K T] says that the memory [m] holds the balanced tree [t] with
    its hashes, with the keys [K] and the item pointers [T] in the order of the
    strings: the leaves are linked from left to right, every separator of a
    non-leaf splits the keys at the boundary of two children, and the nodes have
    the numbers that [set_node_id] gives.  For two keys of such a tree, the query
    returns the item pointers and keys of the range, and a verification object
    that fits the range. *)

From S2P Require Import Prelude CMem Hashmap Node Heap Ring Insert Store Merkle Vo RangeQuery.
From S2P Require Import Reconstruct ReconstructSpec ReconstructRoot.

(** ** Searching a non-leaf *)

Lemma nonzero_len_spec fuel keys ks rest u :
  keys = ks ++ 0 :: rest -> Forall (fun k => k <> 0) ks -> (u <= length ks < u + fuel)%nat ->
  Z.of_nat (length ks) < BPLUS_MAX_ORDER ->
  nonzero_len fuel keys (Z.of_nat u) = Some (zlen ks).
Proof.
  intros Hk Hnz. revert u. induction fuel as [|fuel IH]; intros u Hu Hlt; [lia|]. cbn [nonzero_len].
  destruct (Z.ltb_spec (Z.of_nat u) BPLUS_MAX_ORDER); [|lia]. rewrite aget_nat.
  destruct (decide (u = length ks)) as [->|Hne].
  - rewrite Hk, lookup_app_r, Nat.sub_diag by lia. done.
  - destruct (lookup_lt_is_Some_2 ks u) as [k Hku]; [lia|].
    rewrite Hk, lookup_app_l, Hku by lia. simpl.
    pose proof (Forall_lookup_1 _ _ _ _ Hnz Hku) as Hk0. cbv beta in Hk0.
    destruct (Z.eqb_spec k 0); [done|]. rewrite <- Hk.
    replace (Z.of_nat u + 1) with (Z.of_nat (S u)) by lia. apply IH; lia.
Qed.

Lemma tmp_len_spec keys ks rest :
  keys = ks ++ 0 :: rest -> Forall (fun k => k <> 0) ks -> Z.of_nat (length ks) < BPLUS_MAX_ORDER ->
  tmp_len keys = Some (zlen ks).
Proof.
  intros Hk Hnz Hlt. apply (nonzero_len_spec _ _ _ rest 0 Hk Hnz); [|done].
  unfold BPLUS_MAX_ORDER in *. lia.
Qed.

(** The child a search for [x] continues in: behind the separators up to [x]. *)
Definition child_of (ks : list Z) (x : Z) (c : nat) : Prop :=
  (c <= length ks)%nat /\ forall j k, ks !! j = Some k -> (k <= x <-> (j < c)%nat).

Lemma search_child keys ks rest x :
  keys = ks ++ rest -> increasing ks ->
  exists i c, key_binary_search keys (zlen ks) x = Some i /\ child_of ks x c /\
    (0 <= i /\ Z.of_nat c = i + 1 \/ i < 0 /\ Z.of_nat c = - i - 1).
Proof.
  intros Hk Hinc. assert (take (Z.to_nat (zlen ks)) keys = ks) as Ht.
  { unfold zlen. rewrite Nat2Z.id, Hk. apply take_app_length. }
  pose proof (increasing_le _ Hinc) as Hle. pose proof (rank_range ks x) as Hr.
  rewrite key_binary_search_rank; [|by rewrite Ht|rewrite Hk, zlen_app; pose proof (zlen_nonneg rest); pose proof (zlen_nonneg ks); lia].
  rewrite Ht. case_decide as Hd.
  - exists (rank ks x), (S (Z.to_nat (rank ks x))). split; [done|]. split; [|left; lia].
    pose proof (lookup_lt_Some _ _ _ Hd). split; [lia|]. intros j k Hj.
    pose proof (rank_split ks x j k Hle Hj) as Hs. split.
    + intros Hkx. destruct (decide (k < x)); [lia|]. assert (k = x) as -> by lia.
      destruct (decide (j < S (Z.to_nat (rank ks x)))%nat); [done|].
      pose proof (increasing_lookup ks (Z.to_nat (rank ks x)) j x x Hinc Hd Hj ltac:(lia)). lia.
    + intros Hlt. destruct (decide (j = Z.to_nat (rank ks x))) as [->|]; [simplify_eq; lia|].
      apply Z.lt_le_incl, Hs. lia.
  - exists (- rank ks x - 1), (Z.to_nat (rank ks x)). split; [done|]. split; [|right; lia].
    unfold zlen in Hr. split; [lia|]. intros j k Hj. pose proof (rank_split ks x j k Hle Hj) as Hs. split.
    + intros Hkx. destruct (decide (k = x)) as [->|]; [|lia]. exfalso. apply Hd.
      assert (~ Z.of_nat j < rank ks x) by (rewrite <- Hs; lia).
      destruct (decide (j = Z.to_nat (rank ks x))) as [->|]; [done|].
      destruct (lookup_lt_is_Some_2 ks (Z.to_nat (rank ks x))) as [y Hy]; [apply lookup_lt_Some in Hj; lia|].
      pose proof (rank_split ks x _ y Hle Hy) as Hsy.
      pose proof (increasing_lookup ks _ j y x Hinc Hy Hj ltac:(lia)). lia.
    + intros Hlt. apply Z.lt_le_incl, Hs. lia.
Qed.

(** ** Copying hashes *)

(** A slot of 33 bytes with the hash [p]. *)
Definition hslot (b p : list Z) : Prop := cstr b = Some p /\ zlen b = 33 /\ length p = 32%nat.

Lemma hslot_eq b p : hslot b p -> b = p ++ [0].
Proof.
  intros (Hc & Hl & Hp). destruct (cstr_inv _ _ Hc) as [rest ->]. f_equal.
  unfold zlen in Hl. rewrite length_app in Hl. simpl in Hl. destruct rest; [done|simpl in Hl; lia].
Qed.

Lemma hslots bs ps :
  Forall2 shows bs ps -> Forall (fun b => zlen b = 33) bs -> Forall (fun p => length p = 32%nat) ps ->
  Forall2 hslot bs ps.
Proof.
  intros Hs. induction Hs as [|b p bs ps [Hb _] _ IH]; intros Hw Hp; constructor;
    apply Forall_cons in Hw as [? ?]; apply Forall_cons in Hp as [? ?]; [done|auto].
Qed.

Lemma copy_loop (f : list Z -> option (list Z)) lo hi hs ps acc :
  (forall b p, hslot b p -> yields (f b) (fun b' => hslot b' p)) ->
  Forall2 hslot (take (length ps) hs) ps -> (lo <= hi <= length ps)%nat ->
  yields (for_range (Z.of_nat lo) (Z.of_nat hi) (fun p acc =>
      do h <- aget hs p; do x <- f h; Some (acc ++ [x])) acc)
    (fun r => exists l, r = acc ++ l /\ Forall2 hslot l (slice lo hi ps)).
Proof.
  intros Hf Hs Hr.
  apply (yields_for (fun j r => exists l, r = acc ++ l /\ Forall2 hslot l (slice lo (Z.to_nat j) ps))).
  - lia.
  - exists []. rewrite app_nil_r, Nat2Z.id, slice_nil by lia. split; [done|constructor].
  - intros j r Hj (l & -> & Hl). destruct (Z_of_nat_complete j ltac:(lia)) as [q ->].
    destruct (lookup_lt_is_Some_2 ps q) as [p Hp]; [lia|].
    destruct (Forall2_lookup_r _ _ _ _ _ Hs Hp) as (b & Hb & Hbp).
    rewrite lookup_take_lt in Hb by lia. eapply yields_bind, yields_aget; [lia|rewrite Nat2Z.id; exact Hb|].
    eapply yields_bind, yields_wand; [by apply Hf|]. intros b' Hb'. apply yields_ret.
    exists (l ++ [b']). rewrite app_assoc. split; [done|]. rewrite Nat2Z.id in Hl.
    replace (Z.to_nat (Z.of_nat q + 1)) with (S q) by lia. rewrite (slice_S_r lo q ps p) by (lia || done).
    apply Forall2_app; [exact Hl|]. by constructor.
  - intros r Hr'. by rewrite Nat2Z.id in Hr'.
Qed.

Section Copies.
Context `{Malloc}.
Context (hs ps : list (list Z)) (Hs : Forall2 hslot (take (length ps) hs) ps).

Lemma fresh_zlen : zlen (fresh_bytes 33) = 33.
Proof. unfold zlen. by rewrite fresh_bytes_length. Qed.

Lemma copied_hashes_spec lo hi acc : (lo <= hi <= length ps)%nat ->
  yields (copied_hashes (Z.of_nat lo) (Z.of_nat hi) hs acc) (fun r => exists l, r = acc ++ l /\ Forall2 hslot l (slice lo hi ps)).
Proof.
  apply copy_loop; [|done]. intros b p (Hc & _ & Hp).
  destruct (strcpy_cstr (fresh_bytes 33) b p Hc) as (d & E & Cd & Ld); [rewrite fresh_zlen; unfold zlen; lia|].
  exists d. rewrite fresh_zlen in Ld. done.
Qed.

Lemma pushed_hashes_spec lo hi acc : (lo <= hi <= length ps)%nat ->
  yields (pushed_hashes (Z.of_nat lo) (Z.of_nat hi) hs acc) (fun r => exists l, r = acc ++ l /\ Forall2 hslot l (slice lo hi ps)).
Proof.
  apply copy_loop; [|done]. intros b p Hb. exists b. split; [|done]. by apply read_bytes_all; destruct Hb as (_ & -> & _).
Qed.

Lemma strncpied_hashes_spec lo hi acc : (lo <= hi <= length ps)%nat ->
  yields (strncpied_hashes (Z.of_nat lo) (Z.of_nat hi) hs acc) (fun r => exists l, r = acc ++ l /\ Forall2 hslot l (slice lo hi ps)).
Proof.
  apply copy_loop; [|done]. intros b p Hb. pose proof (hslot_eq _ _ Hb) as ->. destruct Hb as (Hc & _ & Hp).
  pose proof (cstr_chars _ _ Hc) as Hch. unfold strncpy.
  rewrite (strncpy_bytes_pad p [] _ Hch) by lia. cbn [mbind option_bind].
  rewrite write_bytes_head; [|rewrite fresh_zlen, zlen_app, zlen_replicate; unfold zlen; lia].
  eexists. split; [done|]. change (Z.to_nat 33) with 33%nat. rewrite Hp, <- app_assoc. split_and!; [by apply cstr_app| |done].
  rewrite !zlen_app. unfold zlen. rewrite length_drop, fresh_bytes_length, length_app, Hp. done.
Qed.

End Copies.

(** ** Positions *)

Lemma concat_lookup {A} (gs : list (list A)) p g c :
  gs !! p = Some g -> (c < length g)%nat -> concat gs !! (start gs p + c)%nat = g !! c.
Proof.
  revert p. induction gs as [|g0 gs IH]; intros [|p] Hp Hc; try done; simpl in *.
  - simplify_eq. unfold start. simpl. by rewrite lookup_app_l.
  - rewrite start_cons, lookup_app_r by lia. rewrite <- (IH p Hp Hc). f_equal. lia.
Qed.

Lemma slice_slice {A} (l : list A) a b c d : (c + b <= d)%nat -> slice a b (slice c d l) = slice (c + a) (c + b) l.
Proof.
  intros Hd. unfold slice. rewrite skipn_firstn_comm, take_take, drop_drop.
  f_equal. lia.
Qed.

Lemma slice_group {A} (gs : list (list A)) p g a b :
  gs !! p = Some g -> (a <= b <= length g)%nat ->
  slice (start gs p + a) (start gs p + b) (concat gs) = slice a b g.
Proof.
  intros Hp Hab. rewrite <- (start_slice gs p g Hp). symmetry. apply slice_slice. rewrite (start_S gs p g Hp). lia.
Qed.

Lemma start_lengths {A B} (gs : list (list A)) (gs' : list (list B)) j :
  map (@length A) gs = map (@length B) gs' -> start gs j = start gs' j.
Proof.
  revert gs' j. induction gs as [|g gs IH]; intros [|g' gs'] j E; try done.
  - by destruct j.
  - injection E as E1 E2. destruct j as [|j]; [done|]. rewrite !start_cons, E1. f_equal. by apply IH.
Qed.

Lemma owner_unique {A} (gs : list (list A)) i p :
  (start gs p <= i < start gs (S p))%nat -> owner gs i = p.
Proof.
  intros Hp. assert (i < length (concat gs))%nat as Hi by (pose proof (start_le gs (S p)); lia).
  destruct (owner_spec gs i Hi) as [_ Ho].
  destruct (decide (owner gs i < p)%nat); [pose proof (start_mono gs (S (owner gs i)) p ltac:(lia)); lia|].
  destruct (decide (p < owner gs i)%nat); [pose proof (start_mono gs (S p) (owner gs i) ltac:(lia)); lia|]. lia.
Qed.

Section Positions.
Context `{HashFn}.
Context (t : mtree) (h : nat) (Hok : bounded t h).


(** The first string below node [p] of level [k]. *)
Fixpoint first (k p : nat) : nat :=
  match k with O => start (leaf_strings t h) p | S k' => first k' (start (groups t h k) p) end.

Lemma first_mono k p q : (p <= q)%nat -> (first k p <= first k q)%nat.
Proof.
  revert p q. induction k as [|k IH]; intros p q Hpq; simpl; [by apply start_mono|].
  apply IH. by apply start_mono.
Qed.

Lemma at_level_first k i : (i < length (strings t))%nat -> (k <= h)%nat ->
  (first k (at_level t h k i) <= i < first k (S (at_level t h k i)))%nat.
Proof.
  intros Hi. induction k as [|k IH]; intros Hk; [by apply leaf_spec|]. specialize (IH ltac:(lia)).
  destruct (at_level_spec t h Hok (S k) i Hi Hk) as [_ Hs]. simpl below in Hs. cbn [first].
  pose proof (first_mono k (start (groups t h (S k)) (at_level t h (S k) i)) (at_level t h k i) ltac:(lia)).
  pose proof (first_mono k (S (at_level t h k i)) (start (groups t h (S k)) (S (at_level t h (S k) i))) ltac:(lia)).
  lia.
Qed.

(** The separators of a node lead a search for the key at [i] to the child above
    string [i]. *)
Lemma child_at_level (K : list Z) ks k i x c :
  (i < length (strings t))%nat -> (S k <= h)%nat -> K !! i = Some x -> child_of ks x c ->
  (S (length ks) = start (groups t h (S k)) (S (at_level t h (S k) i)) - start (groups t h (S k)) (at_level t h (S k) i))%nat ->
  (forall j s, ks !! j = Some s ->
     forall i' y, K !! i' = Some y ->
       (y < s <-> (i' < first k (start (groups t h (S k)) (at_level t h (S k) i) + S j))%nat)) ->
  at_level t h k i = (start (groups t h (S k)) (at_level t h (S k) i) + c)%nat.
Proof.
  intros Hi Hk Hx [Hc Hch] Hlen Hsep. destruct (at_level_spec t h Hok (S k) i Hi Hk) as [_ Hs].
  simpl below in Hs. set (q := at_level t h k i) in *. set (p0 := start (groups t h (S k)) (at_level t h (S k) i)) in *.
  pose proof (at_level_first k i Hi ltac:(lia)) as Hq. fold q in Hq.
  assert (forall j s, ks !! j = Some s -> ((j < c)%nat <-> (j < q - p0)%nat)) as Hj.
  { intros j s Hjs. rewrite <- (Hch j s Hjs). specialize (Hsep j s Hjs i x Hx). split; intros Hlt.
    - destruct (decide (j < q - p0)%nat); [done|].
      pose proof (first_mono k (S q) (p0 + S j) ltac:(lia)). lia.
    - pose proof (first_mono k (p0 + S j) q ltac:(lia)). lia. }
  destruct (decide (c < q - p0)%nat) as [Hlt|].
  - destruct (lookup_lt_is_Some_2 ks c) as [s Hsc]; [lia|]. apply (Hj c s Hsc) in Hlt. lia.
  - destruct (decide (q - p0 < c)%nat) as [Hlt|]; [|lia].
    destruct (lookup_lt_is_Some_2 ks (q - p0)) as [s Hsc]; [lia|]. apply (Hj _ s Hsc) in Hlt. lia.
Qed.

(** The node of level [k] above string [i], and its child. *)
Lemma node_at k i : (i < length (strings t))%nat -> (S k <= h)%nat ->
  exists l ts, layer (h - S k) t !! at_level t h (S k) i = Some (MNode l ts) /\
    groups t h (S k) !! at_level t h (S k) i = Some (map mhash ts) /\
    forall c, (c < length ts)%nat ->
      layer (h - k) t !! (start (groups t h (S k)) (at_level t h (S k) i) + c)%nat = ts !! c.
Proof.
  intros Hi Hk. destruct (at_level_spec t h Hok (S k) i Hi Hk) as [Hlt _]. unfold groups in Hlt. rewrite length_map in Hlt.
  destruct (lookup_lt_is_Some_2 _ _ Hlt) as [n Hn].
  pose proof (balanced_layer h t (h - S k) (bd_bal _ _ Hok) ltac:(lia)) as Hb.
  pose proof (Forall_lookup_1 _ _ _ _ Hb Hn) as Hbn. replace (h - (h - S k))%nat with (S k) in Hbn by lia.
  destruct n as [|l ts]; [done|]. exists l, ts. split_and!; [done| |].
  - unfold groups. change (map ?f ?l) with (f <$> l). by rewrite list_lookup_fmap, Hn.
  - intros c Hc. replace (h - k)%nat with (S (h - S k)) by lia. simpl.
    rewrite <- (concat_lookup (map kids (layer (h - S k) t)) (at_level t h (S k) i) ts c); [|by change (map ?f ?l) with (f <$> l); rewrite list_lookup_fmap, Hn|done].
    do 2 f_equal. apply start_lengths. unfold groups. rewrite !map_map. apply map_ext_in.
    intros n Hin%list_elem_of_In. rewrite Forall_forall in Hb. specialize (Hb n Hin).
    replace (h - (h - S k))%nat with (S k) in Hb by lia. destruct n; [done|]. simpl. apply length_map.
Qed.

Lemma leaf_node_at i : (i < length (strings t))%nat ->
  exists l ds, layer h t !! at_level t h 0 i = Some (MLeaf l ds) /\ leaf_strings t h !! at_level t h 0 i = Some ds.
Proof.
  intros Hi. destruct (leaf_spec t h Hok i Hi) as [Hlt _]. unfold leaf_strings in Hlt. rewrite length_map in Hlt.
  destruct (lookup_lt_is_Some_2 _ _ Hlt) as [n Hn].
  pose proof (Forall_lookup_1 _ _ _ _ (balanced_layer h t h (bd_bal _ _ Hok) (Nat.le_refl _)) Hn) as Hb.
  rewrite Nat.sub_diag in Hb. destruct n as [l ds|]; [|done]. exists l, ds. split; [done|].
  unfold leaf_strings. change (map ?f ?l) with (f <$> l). by rewrite list_lookup_fmap, Hn.
Qed.

End Positions.

(** ** The tree in memory *)

Lemma layer_Forall (P : mtree -> Prop) t d :
  (forall l ts, P (MNode l ts) -> Forall P ts) -> P t -> Forall P (layer d t).
Proof.
  intros HP Ht. induction d as [|d IH]; simpl; [by constructor|]. apply Forall_concat_2.
  induction IH as [|n ns Hn _ IHn]; simpl; constructor; [|done].
  destruct n as [l ds|l ts]; simpl; [constructor|by apply (HP l)].
Qed.

Section Indexed.
Context `{HashFn}.

(** A leaf with its number, and its part of the keys and the item pointers. *)
Record leaf_index (m : mem) (t : mtree) (h : nat) (K : list Z) (T : list ItemPointerData)
    (p : nat) (n : bplus_leaf) : Prop := {
  li_id : lf_node_id n = Z.of_nat p;
  li_keys : take (Z.to_nat (entries n)) (lf_key n)
            = slice (start (leaf_strings t h) p) (start (leaf_strings t h) (S p)) K;
  li_tids j c : (j < start (leaf_strings t h) (S p) - start (leaf_strings t h) p)%nat ->
    T !! (start (leaf_strings t h) p + j)%nat = Some c ->
    exists q, tids (lf_node n) !! j = Some q /\ load_tid (tmem m) q = Some c
}.

(** A non-leaf of level [S k] with its number and its separators [ks]: fewer than
    49, none of them 0, in front of a slot that is 0; the separator in front of
    child [S j] is above the keys before this child and not above the others. *)
Record node_index (t : mtree) (h : nat) (K : list Z) (k p : nat) (ts : list mtree) (n : bplus_non_leaf)
    (ks : list Z) : Prop := {
  ni_id : nl_node_id n = Z.of_nat p;
  ni_keys : exists rest, nl_key n = ks ++ 0 :: rest;
  ni_len : length ts = S (length ks);
  ni_nonzero : Forall (fun s => s <> 0) ks;
  ni_sorted : increasing ks;
  ni_sep j s : ks !! j = Some s -> forall i y, K !! i = Some y ->
    (y < s <-> (i < first t h k (start (groups t h (S k)) p + S j))%nat)
}.

Record indexed (m : mem) (t : mtree) (h : nat) (K : list Z) (T : list ItemPointerData) : Prop := {
  ix_rep : rep (nodes m) t;
  ix_hashed : hashed (nodes m) t;
  ix_bounded : bounded t h;
  ix_level : level (tree m) = Z.of_nat h;
  ix_root : root (tree m) = Some (mloc t);
  ix_ring : ring m 0 (map mloc (layer h t));
  ix_K : increasing K;
  ix_lenK : length K = length (strings t);
  ix_lenT : length T = length (strings t);
  ix_nonempty : Forall (fun ds => ds <> []) (leaf_strings t h);
  ix_leaf p l ds n : layer h t !! p = Some (MLeaf l ds) -> nodes m !! l = Some (Leaf n) ->
    leaf_index m t h K T p n;
  ix_node k p l ts n : (S k <= h)%nat -> layer (h - S k) t !! p = Some (MNode l ts) ->
    nodes m !! l = Some (NonLeaf n) -> exists ks, node_index t h K k p ts n ks
}.

Context (m : mem) (t : mtree) (h : nat) (K : list Z) (T : list ItemPointerData).
Context (Hix : indexed m t h K T).

(** What the memory holds at a node of the tree. *)
Lemma leaf_struct p l ds : layer h t !! p = Some (MLeaf l ds) ->
  exists n, nodes m !! l = Some (Leaf n) /\ leaf_rep n ds /\ leaf_index m t h K T p n /\
    Forall2 hslot (take (length ds) (lf_childhash n)) (map H ds).
Proof.
  intros Hp.
  pose proof (layer_Forall (rep (nodes m)) t h) as Hr. pose proof (layer_Forall (hashed (nodes m)) t h) as Hh.
  pose proof (Forall_lookup_1 _ _ _ _ (Hr ltac:(by intros l' ts [_ Ha%all_Forall]) (ix_rep _ _ _ _ _ Hix)) Hp) as (n & E & Hn).
  pose proof (Forall_lookup_1 _ _ _ _ (Hh ltac:(by intros l' ts [_ Ha%all_Forall]) (ix_hashed _ _ _ _ _ Hix)) Hp) as (n' & E' & Hc & _).
  rewrite E in E'. simplify_eq. exists n'. split_and!; [done|done|by eapply ix_leaf|].
  destruct Hn as (_ & [_ _ _ _ _ Wcs _] & _).
  apply hslots; [exact Hc|by apply Forall_take|apply all32, H_length].
Qed.

Lemma node_struct k p l ts : (S k <= h)%nat -> layer (h - S k) t !! p = Some (MNode l ts) ->
  exists n ks, nodes m !! l = Some (NonLeaf n) /\ non_leaf_rep n (map mloc ts) /\ node_index t h K k p ts n ks /\
    Forall2 hslot (take (length ts) (nl_childhash n)) (map mhash ts).
Proof.
  intros Hk Hp.
  pose proof (layer_Forall (rep (nodes m)) t (h - S k)) as Hr.
  pose proof (layer_Forall (hashed (nodes m)) t (h - S k)) as Hh.
  pose proof (Forall_lookup_1 _ _ _ _ (Hr ltac:(by intros l' ts' [_ Ha%all_Forall]) (ix_rep _ _ _ _ _ Hix)) Hp) as [(n & E & Hn) _].
  pose proof (Forall_lookup_1 _ _ _ _ (Hh ltac:(by intros l' ts' [_ Ha%all_Forall]) (ix_hashed _ _ _ _ _ Hix)) Hp) as [(n' & E' & Hc & _) _].
  rewrite E in E'. simplify_eq. destruct (ix_node _ _ _ _ _ Hix k p l ts n' Hk Hp E) as [ks Hks].
  exists n', ks. split_and!; [done|done|done|].
  destruct Hn as (_ & [_ _ _ _ Wcs _ _] & _).
  apply hslots; [exact Hc|by apply Forall_take|apply all32, mhash_length].
Qed.

(** ** The two paths *)

(** The loop of both paths. *)
Fixpoint walk (step : bplus_non_leaf -> rangevo -> option (option loc * rangevo)) (levels : nat)
    (tmp leaf : option loc) (vo : rangevo) : M (option loc * rangevo) :=
  match levels with
  | O => mret (leaf, vo)
  | S levels' =>
      do l <- deref tmp;
      do n <- load_nl l;
      do ' (c, vo) <- lift (step n vo);
      let vo := set_height (traverse_height vo + 1) vo in
      match levels' with
      | O => walk step levels' tmp c vo
      | S _ => walk step levels' c leaf vo
      end
  end.

Lemma walk_runs step (I : nat -> rangevo -> Prop) i :
  (i < length (strings t))%nat ->
  (forall k l ts n ks vo, (S k <= h)%nat -> layer (h - S k) t !! at_level t h (S k) i = Some (MNode l ts) ->
     non_leaf_rep n (map mloc ts) -> node_index t h K k (at_level t h (S k) i) ts n ks ->
     Forall2 hslot (take (length ts) (nl_childhash n)) (map mhash ts) -> I (S k) vo ->
     yields (step n vo) (fun r => exists c vo', r = (Some (mloc c), vo') /\
       layer (h - k) t !! at_level t h k i = Some c /\ I k (set_height (traverse_height vo' + 1) vo'))) ->
  forall k node leaf vo, (S k <= h)%nat -> layer (h - S k) t !! at_level t h (S k) i = Some node -> I (S k) vo ->
    runs (walk step (S k) (Some (mloc node)) leaf vo) m (fun r m' => m' = m /\
      exists c, r.1 = Some (mloc c) /\ layer h t !! at_level t h 0 i = Some c /\ I 0%nat r.2).
Proof.
  intros Hi Hstep k. induction k as [|k IH]; intros node leaf vo Hk Hn HI;
    (destruct (node_at t h (ix_bounded _ _ _ _ _ Hix) _ i Hi Hk) as (l & ts & Hl & _); rewrite Hl in Hn;
     injection Hn as <-; destruct (node_struct _ _ l ts Hk Hl) as (n & ks & E & Hr & Hni & Hhs);
     eapply runs_bind, runs_lift; [reflexivity|]; eapply runs_bind, runs_load_nl; [exact E|];
     destruct (Hstep _ l ts n ks vo Hk Hl Hr Hni Hhs HI) as (x & Ex & c & vo' & -> & Hc & HI');
     eapply runs_bind, runs_lift; [exact Ex|]; cbv beta zeta iota).
  - apply runs_ret. split; [done|]. exists c. split_and!; [done| |done]. by rewrite Nat.sub_0_r in Hc.
  - by apply IH; [lia| |].
Qed.

(** One entry of the object. *)
Lemma on_nodevo_yields vs (i : nat) v id bound f (P : list (list Z) -> Prop) (Q : list nodevo -> Prop) :
  vs !! i = Some v -> yields (f (nhash v)) P ->
  (forall hs, P hs -> Q (<[i := mkNodevo id bound hs]> vs)) ->
  yields (on_nodevo vs (Z.of_nat i) id bound f) Q.
Proof.
  intros Hv Hf HQ. pose proof (lookup_lt_Some _ _ _ Hv).
  eapply yields_bind, yields_aget; [lia|rewrite Nat2Z.id; exact Hv|].
  eapply yields_bind, yields_wand; [exact Hf|]. intros hs Hhs.
  apply yields_aset; [unfold zlen; lia|]. rewrite Nat2Z.id. auto.
Qed.

End Indexed.

Lemma left_path_walk `{Malloc} levels : forall tmp leaf min vo m,
  left_path levels tmp leaf min vo m = walk (left_step min) levels tmp leaf vo m.
Proof.
  induction levels as [|k IH]; intros; [done|]. cbn [left_path walk]. unfold mbind, M_bind.
  destruct (deref tmp m) as [[l m1]|]; [|done]. destruct (load_nl l m1) as [[n m2]|]; [|done].
  destruct (lift _ m2) as [[[c vo'] m3]|]; [|done]. destruct k; apply IH.
Qed.

Lemma right_path_walk `{Malloc} levels : forall tmp leaf max vo m,
  right_path levels tmp leaf max vo m = walk (right_step max) levels tmp leaf vo m.
Proof.
  induction levels as [|k IH]; intros; [done|]. cbn [right_path walk]. unfold mbind, M_bind.
  destruct (deref tmp m) as [[l m1]|]; [|done]. destruct (load_nl l m1) as [[n m2]|]; [|done].
  destruct (lift _ m2) as [[[c vo'] m3]|]; [|done]. destruct k; apply IH.
Qed.

Section Sides.
Context `{HashFn} `{Malloc}.
Context (m : mem) (t : mtree) (h : nat) (K : list Z) (T : list ItemPointerData).
Context (Hix : indexed m t h K T).

(** Level [k] of one side of the object; the levels above [k] are done and the
    others have no hash yet. *)
Definition want_left (lo k : nat) (v : nodevo) : Prop :=
  vo_node_id v = Z.of_nat (at_level t h k lo) /\
  Forall2 hslot (nhash v) (slice (start (groups t h k) (at_level t h k lo)) (below t h k lo) (concat (groups t h k))).

Definition want_right (hi k : nat) (v : nodevo) : Prop :=
  vo_node_id v = Z.of_nat (at_level t h k hi) /\
  Forall2 hslot (nhash v) (slice (S (below t h k hi)) (start (groups t h k) (S (at_level t h k hi))) (concat (groups t h k))).

Record side_ok (want : nat -> nodevo -> Prop) (vs : list nodevo) (k : nat) : Prop := {
  sd_len : length vs = 10%nat;
  sd_ok : Forall nodevo_ok vs;
  sd_done j : (k < j <= h)%nat -> exists v, vs !! (h - j)%nat = Some v /\ want j v;
  sd_rest i v : (h - k <= i)%nat -> vs !! i = Some v -> nhash v = []
}.

(** An entry with a number of the tree and hashes in slots. *)
Lemma entry_ok k i bound hs ps :
  (i < length (strings t))%nat -> (k <= h)%nat -> 0 <= bound <= 50 ->
  Forall2 hslot hs ps -> (length ps <= 50)%nat -> nodevo_ok (mkNodevo (Z.of_nat (at_level t h k i)) bound hs).
Proof.
  intros Hi Hk Hb Hhs Hps. pose proof (ix_bounded _ _ _ _ _ Hix) as Hok.
  destruct (at_level_spec t h Hok k i Hi Hk) as [Hlt _]. unfold groups in Hlt. rewrite length_map in Hlt.
  pose proof (bd_few _ _ Hok (h - k) ltac:(lia)). pose proof (Forall2_length _ _ _ Hhs).
  split_and!; cbn [vo_node_id bound_node_childno nhash]; unfold in_s, in_u, zlen; try lia.
  clear -Hhs. induction Hhs as [|b p bs ps' Hb _ IH]; constructor; [|done].
  exists p. pose proof (hslot_eq _ _ Hb). destruct Hb as (Hc & _ & Hp). split_and!; [done|done|by eapply cstr_chars].
Qed.

Lemma side_ok_set want vs k v : side_ok want vs (S k) -> (S k <= h)%nat -> want (S k) v -> nodevo_ok v ->
  side_ok want (<[(h - S k)%nat := v]> vs) k.
Proof.
  intros [Hl Ho Hd Hr] Hk Hv Hvo. pose proof (bd_height _ _ (ix_bounded _ _ _ _ _ Hix)) as Hh. split.
  - by rewrite length_insert.
  - by apply Forall_insert.
  - intros j Hj. destruct (decide (j = S k)) as [->|Hne].
    + exists v. rewrite list_lookup_insert_eq by lia. done.
    + rewrite list_lookup_insert_ne by lia. apply Hd. lia.
  - intros i v' Hi. rewrite list_lookup_insert_ne by lia. apply Hr. lia.
Qed.

(** The leaf level is the last. *)
Definition side_done (want : nat -> nodevo -> Prop) (vs : list nodevo) : Prop :=
  length vs = 10%nat /\ Forall nodevo_ok vs /\
  forall k, (k <= h)%nat -> exists v, aget vs (Z.of_nat (h - k)) = Some v /\ want k v.

Lemma side_ok_leaf want vs v : side_ok want vs 0 -> want 0%nat v -> nodevo_ok v -> side_done want (<[h := v]> vs).
Proof.
  intros [Hl Ho Hd Hr] Hv Hvo. split; [by rewrite length_insert|]. split; [by apply Forall_insert|]. intros k Hk. pose proof (bd_height _ _ (ix_bounded _ _ _ _ _ Hix)) as Hh. rewrite aget_nat.
  destruct k as [|k].
  - exists v. rewrite Nat.sub_0_r, list_lookup_insert_eq by lia. done.
  - rewrite list_lookup_insert_ne by lia. apply Hd. lia.
Qed.

Lemma side_ok_entry want vs k : side_ok want vs k -> (k <= h)%nat ->
  exists v, vs !! (h - k)%nat = Some v /\ nhash v = [].
Proof.
  intros [Hl _ _ Hr] Hk. pose proof (bd_height _ _ (ix_bounded _ _ _ _ _ Hix)).
  destruct (lookup_lt_is_Some_2 vs (h - k)) as [v Hv]; [lia|]. exists v. split; [done|]. by apply (Hr (h - k)%nat).
Qed.

(** The child a step chooses. *)
Lemma step_child k i x l ts n ks :
  (i < length (strings t))%nat -> K !! i = Some x -> (S k <= h)%nat ->
  layer (h - S k) t !! at_level t h (S k) i = Some (MNode l ts) -> non_leaf_rep n (map mloc ts) ->
  node_index t h K k (at_level t h (S k) i) ts n ks ->
  exists idx c tc, tmp_len (nl_key n) = Some (zlen ks) /\ key_binary_search (nl_key n) (zlen ks) x = Some idx /\
    (0 <= idx /\ Z.of_nat c = idx + 1 \/ idx < 0 /\ Z.of_nat c = - idx - 1) /\ (c < length ts)%nat /\
    aget (sub_ptr n) (Z.of_nat c) = Some (Some (mloc tc)) /\ children n = zlen ts /\
    layer (h - k) t !! at_level t h k i = Some tc /\
    groups t h (S k) !! at_level t h (S k) i = Some (map mhash ts) /\
    at_level t h k i = (start (groups t h (S k)) (at_level t h (S k) i) + c)%nat.
Proof.
  intros Hi Hx Hk Hl (_ & [_ Wk _ _ _ _ _] & Hch & Hmax & Hsub) [Nid [rest Nk] Nlen Nnz Ns Nsep].
  pose proof (ix_bounded _ _ _ _ _ Hix) as Hok.
  destruct (node_at t h Hok k i Hi Hk) as (l' & ts' & Hl' & Hg & Hkid). rewrite Hl in Hl'. injection Hl' as <- <-.
  destruct (search_child (nl_key n) ks (0 :: rest) x Nk Ns) as (idx & c & Es & Hc & Hidx).
  assert (c < length ts)%nat as Hclt by (destruct Hc; lia).
  assert (at_level t h k i = (start (groups t h (S k)) (at_level t h (S k) i) + c)%nat) as Hat.
  { apply (child_at_level t h Hok K ks k i x c); try done.
    rewrite (start_S _ _ _ Hg), length_map. lia. }
  destruct (lookup_lt_is_Some_2 ts c Hclt) as [tc Htc].
  exists idx, c, tc. split_and!; try done.
  - apply (tmp_len_spec _ ks rest); [done|done|]. unfold zlen in Wk. rewrite Nk, length_app in Wk.
    simpl in Wk. unfold BPLUS_MAX_ORDER in *. lia.
  - rewrite aget_nat. change (map mloc ts) with (mloc <$> ts) in Hsub. rewrite length_fmap in Hsub.
    rewrite <- (lookup_take_lt _ (length ts)) by done. rewrite Hsub, !list_lookup_fmap, Htc. done.
  - rewrite Hch. unfold zlen. by rewrite length_map.
  - rewrite Hat. by rewrite Hkid.
Qed.

(** The object during the left path: only the left side and the height change. *)
Definition left_inv (lo : nat) (vo0 : rangevo) (k : nat) (vo : rangevo) : Prop :=
  exists vs, side_ok (want_left lo) vs k /\
    vo = set_height (Z.of_nat (h - k)) (set_leftvo vs vo0).

Definition right_inv (hi : nat) (vo0 : rangevo) (k : nat) (vo : rangevo) : Prop :=
  exists vs, side_ok (want_right hi) vs k /\
    vo = set_height (Z.of_nat (h - k)) (set_rightvo vs vo0).

Lemma left_step_yields lo x vo0 k l ts n ks vo :
  (lo < length (strings t))%nat -> K !! lo = Some x -> (S k <= h)%nat ->
  layer (h - S k) t !! at_level t h (S k) lo = Some (MNode l ts) -> non_leaf_rep n (map mloc ts) ->
  node_index t h K k (at_level t h (S k) lo) ts n ks ->
  Forall2 hslot (take (length ts) (nl_childhash n)) (map mhash ts) -> left_inv lo vo0 (S k) vo ->
  yields (left_step x n vo) (fun r => exists c vo', r = (Some (mloc c), vo') /\
    layer (h - k) t !! at_level t h k lo = Some c /\
    left_inv lo vo0 k (set_height (traverse_height vo' + 1) vo')).
Proof.
  intros Hi Hx Hk Hl Hr Hni Hhs (vs & Hsd & ->).
  destruct (step_child k lo x l ts n ks Hi Hx Hk Hl Hr Hni)
    as (idx & c & tc & Elen & Es & Hidx & Hc & Esub & Ech & Htc & Hg & Hat).
  assert (0 <= children n <= 50) as Hch50.
  { rewrite Ech. destruct Hr as (_ & _ & _ & Hmax & _). unfold BPLUS_MAX_ORDER, zlen in *. rewrite length_map in Hmax. lia. }
  destruct (side_ok_entry _ vs (S k) Hsd Hk) as (v & Hv & Hnil).
  unfold left_step. eapply yields_bind, yields_eq; [exact Elen|]. eapply yields_bind, yields_eq; [exact Es|].
  cbn [leftvo set_height set_leftvo traverse_height].
  assert (yields (on_nodevo vs (Z.of_nat (h - S k)) (nl_node_id n) (children n)
      (copied_hashes 0 (Z.of_nat c) (nl_childhash n))) (fun vs' => side_ok (want_left lo) vs' k)) as Hon.
  { eapply on_nodevo_yields; [exact Hv| |].
    - rewrite <- (length_map mhash ts) in Hhs. rewrite Hnil.
      apply (copied_hashes_spec _ _ Hhs 0 c). rewrite length_map. lia.
    - intros hs (l0 & -> & Hcs). rewrite (ni_id _ _ _ _ _ _ _ _ Hni). apply side_ok_set; [done|done| |].
      2: { apply (entry_ok (S k) lo _ _ _ Hi Hk Hch50 Hcs). rewrite slice_length by (rewrite length_map; lia). unfold zlen in Ech. lia. }
      split; [done|]. cbn [nhash app]. cbn [below]. rewrite Hat.
      rewrite <- (Nat.add_0_r (start (groups t h (S k)) (at_level t h (S k) lo))) at 1.
      rewrite (slice_group _ _ _ 0 c Hg); [exact Hcs|]. rewrite length_map. lia. }
  assert (forall vs', side_ok (want_left lo) vs' k -> left_inv lo vo0 k
    (set_height (Z.of_nat (h - S k) + 1) (set_height (Z.of_nat (h - S k)) (set_leftvo vs' vo0)))) as Hinv.
  { intros vs' Hvs'. exists vs'. split; [done|]. unfold set_height. cbn. f_equal. lia. }
  destruct Hidx as [[Hsg Hz]|[Hsg Hz]].
  - destruct (Z.leb_spec 0 idx); [|lia]. rewrite <- Hz. eapply yields_bind, yields_wand; [exact Hon|].
    intros vs' Hvs'. eapply yields_bind, yields_eq; [exact Esub|]. apply yields_ret.
    eexists _, _. split; [done|]. split; [done|]. exact (Hinv vs' Hvs').
  - destruct (Z.leb_spec 0 idx); [lia|]. cbv zeta. rewrite <- Hz. eapply yields_bind, yields_wand; [exact Hon|].
    intros vs' Hvs'. eapply yields_bind, yields_eq; [exact Esub|]. apply yields_ret.
    eexists _, _. split; [done|]. split; [done|]. exact (Hinv vs' Hvs').
Qed.

Lemma right_step_yields hi x vo0 k l ts n ks vo :
  (hi < length (strings t))%nat -> K !! hi = Some x -> (S k <= h)%nat ->
  layer (h - S k) t !! at_level t h (S k) hi = Some (MNode l ts) -> non_leaf_rep n (map mloc ts) ->
  node_index t h K k (at_level t h (S k) hi) ts n ks ->
  Forall2 hslot (take (length ts) (nl_childhash n)) (map mhash ts) -> right_inv hi vo0 (S k) vo ->
  yields (right_step x n vo) (fun r => exists c vo', r = (Some (mloc c), vo') /\
    layer (h - k) t !! at_level t h k hi = Some c /\
    right_inv hi vo0 k (set_height (traverse_height vo' + 1) vo')).
Proof.
  intros Hi Hx Hk Hl Hr Hni Hhs (vs & Hsd & ->).
  destruct (step_child k hi x l ts n ks Hi Hx Hk Hl Hr Hni)
    as (idx & c & tc & Elen & Es & Hidx & Hc & Esub & Ech & Htc & Hg & Hat).
  assert (0 <= children n <= 50) as Hch50.
  { rewrite Ech. destruct Hr as (_ & _ & _ & Hmax & _). unfold BPLUS_MAX_ORDER, zlen in *. rewrite length_map in Hmax. lia. }
  destruct (side_ok_entry _ vs (S k) Hsd Hk) as (v & Hv & Hnil).
  unfold right_step. eapply yields_bind, yields_eq; [exact Elen|]. eapply yields_bind, yields_eq; [exact Es|].
  cbn [rightvo set_height set_rightvo traverse_height].
  assert (forall f, yields (f []) (fun r => exists l, r = [] ++ l /\ Forall2 hslot l (slice (S c) (length ts) (map mhash ts))) ->
    yields (on_nodevo vs (Z.of_nat (h - S k)) (nl_node_id n) (children n) f)
      (fun vs' => side_ok (want_right hi) vs' k)) as Hon.
  { intros f Hf. eapply on_nodevo_yields; [exact Hv|rewrite Hnil; exact Hf|].
    intros hs (l0 & -> & Hcs). rewrite (ni_id _ _ _ _ _ _ _ _ Hni). apply side_ok_set; [done|done| |].
    2: { apply (entry_ok (S k) hi _ _ _ Hi Hk Hch50 Hcs). rewrite slice_length by (rewrite length_map; lia). unfold zlen in Ech. lia. }
    split; [done|]. cbn [nhash app]. cbn [below]. rewrite Hat, (start_S _ _ _ Hg), length_map, <- Nat.add_succ_r.
    rewrite (slice_group _ _ _ (S c) (length ts) Hg); [exact Hcs|]. rewrite length_map. lia. }
  assert (forall vs', side_ok (want_right hi) vs' k -> right_inv hi vo0 k
    (set_height (Z.of_nat (h - S k) + 1) (set_height (Z.of_nat (h - S k)) (set_rightvo vs' vo0)))) as Hinv.
  { intros vs' Hvs'. exists vs'. split; [done|]. unfold set_height. cbn. f_equal. lia. }
  rewrite <- (length_map mhash ts) in Hhs. rewrite Ech in Hon |- *. unfold zlen in Hon |- *.
  destruct Hidx as [[Hsg Hz]|[Hsg Hz]].
  - destruct (Z.leb_spec 0 idx); [|lia]. replace (idx + 2) with (Z.of_nat (S c)) by lia. rewrite <- Hz.
    eapply yields_bind, yields_wand; [apply Hon, (pushed_hashes_spec _ _ Hhs (S c) (length ts)); rewrite length_map; lia|].
    intros vs' Hvs'. eapply yields_bind, yields_eq; [exact Esub|]. apply yields_ret.
    eexists _, _. split; [done|]. split; [done|]. exact (Hinv vs' Hvs').
  - destruct (Z.leb_spec 0 idx); [lia|]. cbv zeta. replace (- idx - 1 + 1) with (Z.of_nat (S c)) by lia. rewrite <- Hz.
    eapply yields_bind, yields_wand; [apply Hon, (strncpied_hashes_spec _ _ Hhs (S c) (length ts)); rewrite length_map; lia|].
    intros vs' Hvs'. eapply yields_bind, yields_eq; [exact Esub|]. apply yields_ret.
    eexists _, _. split; [done|]. split; [done|]. exact (Hinv vs' Hvs').
Qed.

End Sides.

(** ** Leaves *)

Lemma rank_at ks j x : increasing ks -> ks !! j = Some x -> rank ks x = Z.of_nat j.
Proof.
  intros Hinc Hj. pose proof (increasing_le _ Hinc) as Hle. pose proof (rank_range ks x).
  pose proof (rank_split ks x j x Hle Hj) as Hs. pose proof (lookup_lt_Some _ _ _ Hj).
  destruct (decide (rank ks x < Z.of_nat j)) as [Hlt|]; [|lia].
  destruct (lookup_lt_is_Some_2 ks (Z.to_nat (rank ks x))) as [y Hy]; [lia|].
  pose proof (increasing_lookup ks _ j y x Hinc Hy Hj ltac:(lia)).
  pose proof (rank_split ks x _ y Hle Hy). lia.
Qed.

Lemma slice_lookup {A} a b (l : list A) i : (a + i < b)%nat -> slice a b l !! i = l !! (a + i)%nat.
Proof. intros Hi. unfold slice. rewrite lookup_take_lt by lia. by rewrite lookup_drop. Qed.

Lemma slice_increasing a b ks : increasing ks -> increasing (slice a b ks).
Proof.
  unfold increasing, slice. intros Hs.
  assert (StronglySorted Z.lt (drop a ks)) as Hd.
  { revert a. induction Hs as [|k ks Hs IH Hk]; intros [|a]; simpl; try constructor; auto. }
  revert Hd. generalize (drop a ks) as l, (b - a)%nat as n. clear. intros l n Hl. revert n.
  induction Hl as [|k ks Hs IH Hk]; intros [|n]; simpl; constructor; [apply IH|by apply Forall_take].
Qed.

Lemma linked_next m a rs p r r' :
  linked m a rs -> rs !! p = Some r -> rs !! S p = Some r' -> nxt m r = Some r'.
Proof.
  revert a p. induction rs as [|b rs IH]; intros a p Hl Hp Hp'; [done|]. destruct Hl as [_ Hl].
  destruct p as [|p]; [|by apply (IH b p)]. injection Hp as <-. destruct rs as [|c rs]; [done|].
  injection Hp' as <-. by destruct Hl as [[? _] _].
Qed.

Lemma ring_next m lv ls p l l' :
  ring m lv ls -> ls !! p = Some l -> ls !! S p = Some l' -> nxt m (LNode l) = Some (LNode l').
Proof.
  intros [_ Hr] Hl Hl'. apply (linked_next _ _ _ p _ _ Hr).
  - rewrite lookup_app_l, list_lookup_fmap, Hl by (rewrite length_fmap; by eapply lookup_lt_Some). done.
  - rewrite lookup_app_l, list_lookup_fmap, Hl' by (rewrite length_fmap; by eapply lookup_lt_Some). done.
Qed.

Lemma ring_last m lv ls p l : ring m lv ls -> ls !! p = Some l -> length ls = S p -> nxt m (LNode l) = Some (LHead lv).
Proof.
  intros [_ Hr] Hl Hlen. apply (linked_next _ _ _ p _ _ Hr).
  - rewrite lookup_app_l, list_lookup_fmap, Hl by (rewrite length_fmap; lia). done.
  - rewrite lookup_app_r; rewrite length_fmap; [|lia]. by rewrite Hlen, Nat.sub_diag.
Qed.

Lemma next_entry_eq m l r : nxt m (LNode l) = Some r -> list_next_entry l m = Some (list_entry r, m).
Proof.
  unfold nxt, link_of. intros Hn. destruct (nodes m !! l) as [n|] eqn:E; [|done]. simpl in Hn. injection Hn as <-.
  unfold list_next_entry, mbind, M_bind, load_hdr, load, mbind, M_bind. by rewrite E.
Qed.

Lemma runs_list_next_entry m l l' (Q : option loc -> mem -> Prop) :
  nxt m (LNode l) = Some (LNode l') -> Q (Some l') m -> runs (list_next_entry l) m Q.
Proof.
  unfold nxt, link_of. intros Hn HQ. destruct (nodes m !! l) as [n|] eqn:E; [|done].
  eapply runs_bind, runs_load_hdr; [exact E|]. apply runs_ret. simpl in Hn. by injection Hn as ->.
Qed.

Section Leaves.
Context `{HashFn} `{Malloc}.
Context (m : mem) (t : mtree) (h : nat) (K : list Z) (T : list ItemPointerData).
Context (Hix : indexed m t h K T).

Lemma strs_concat : concat (leaf_strings t h) = strings t.
Proof. apply (layer_strings t h h); [apply (ix_bounded _ _ _ _ _ Hix)|lia]. Qed.

(** The leaf above string [i]. *)
Record leaf_of_string (i : nat) (l : loc) (ds : list (list Z)) (n : bplus_leaf) : Prop := {
  ls_layer : layer h t !! at_level t h 0 i = Some (MLeaf l ds);
  ls_node : nodes m !! l = Some (Leaf n);
  ls_rep : leaf_rep n ds;
  ls_index : leaf_index m t h K T (at_level t h 0 i) n;
  ls_hashes : Forall2 hslot (take (length ds) (lf_childhash n)) (map H ds);
  ls_strs : (leaf_strings t h) !! at_level t h 0 i = Some ds;
  ls_range : (start (leaf_strings t h) (at_level t h 0 i) <= i < start (leaf_strings t h) (S (at_level t h 0 i)))%nat;
  ls_size : start (leaf_strings t h) (S (at_level t h 0 i)) = (start (leaf_strings t h) (at_level t h 0 i) + length ds)%nat;
  ls_entries : entries n = Z.of_nat (length ds)
}.

Lemma leaf_of_string_ex i : (i < length (strings t))%nat -> exists l ds n, leaf_of_string i l ds n.
Proof.
  intros Hi. pose proof (ix_bounded _ _ _ _ _ Hix) as Hok.
  destruct (leaf_node_at t h Hok i Hi) as (l & ds & Hl & Hs).
  destruct (leaf_struct m t h K T Hix _ _ _ Hl) as (n & E & Hr & Hli & Hhs).
  exists l, ds, n. split; try done; [by apply leaf_spec|by apply start_S|]. by destruct Hr as (_ & _ & -> & _).
Qed.

Lemma leaf_key i l ds n j : leaf_of_string i l ds n -> (j < length ds)%nat ->
  lf_key n !! j = K !! (start (leaf_strings t h) (at_level t h 0 i) + j)%nat.
Proof.
  intros [_ _ _ Hli _ _ _ Hsz He] Hj. pose proof (li_keys _ _ _ _ _ _ _ Hli) as Hk. rewrite He, Nat2Z.id in Hk.
  rewrite <- (slice_lookup _ (start (leaf_strings t h) (S (at_level t h 0 i)))) by lia.
  by rewrite <- Hk, lookup_take_lt.
Qed.

Lemma leaf_search i x l ds n : leaf_of_string i l ds n -> K !! i = Some x ->
  key_binary_search (lf_key n) (entries n) x = Some (Z.of_nat (i - start (leaf_strings t h) (at_level t h 0 i))).
Proof.
  intros Hl Hx. destruct Hl as [_ _ Hr Hli _ _ Hrg Hsz He]. pose proof (li_keys _ _ _ _ _ _ _ Hli) as Hk.
  pose proof (slice_increasing (start (leaf_strings t h) (at_level t h 0 i))
    (start (leaf_strings t h) (S (at_level t h 0 i))) K (ix_K _ _ _ _ _ Hix)) as Hinc.
  set (p := at_level t h 0 i) in *.
  assert (slice (start (leaf_strings t h) p) (start (leaf_strings t h) (S p)) K !! (i - start (leaf_strings t h) p)%nat = Some x) as Hxi.
  { rewrite slice_lookup by lia. by replace (start (leaf_strings t h) p + (i - start (leaf_strings t h) p))%nat with i by lia. }
  pose proof (rank_at _ _ _ Hinc Hxi) as Hrk.
  destruct Hr as (_ & [_ Wk _ _ _ _ _] & _ & Hmax & _).
  rewrite key_binary_search_rank; [rewrite Hk|rewrite Hk; by apply increasing_le|rewrite Wk, He; unfold zlen in Hmax; unfold BPLUS_MAX_ENTRIES in *; lia].
  rewrite Hrk, decide_True; [done|]. by rewrite Nat2Z.id.
Qed.

Lemma leaf_groups_slice i l ds n a b : leaf_of_string i l ds n -> (a <= b <= length ds)%nat ->
  slice (start (groups t h 0) (at_level t h 0 i) + a) (start (groups t h 0) (at_level t h 0 i) + b) (concat (groups t h 0))
  = slice a b (map H ds).
Proof.
  intros Hl Hab. apply slice_group; [|by rewrite length_map].
  rewrite groups_leaves by apply (ix_bounded _ _ _ _ _ Hix). unfold leaf_groups.
  change (map (map H) ?l) with (map H <$> l). by rewrite list_lookup_fmap, (ls_strs _ _ _ _ Hl).
Qed.

Lemma groups_start p : start (groups t h 0) p = start (leaf_strings t h) p.
Proof. rewrite groups_leaves by apply (ix_bounded _ _ _ _ _ Hix). apply leaf_groups_start. Qed.

Lemma left_leaf_yields lo x l ds n vo0 vo :
  (lo < length (strings t))%nat -> leaf_of_string lo l ds n -> K !! lo = Some x -> left_inv t h lo vo0 0 vo ->
  yields (left_leaf x n vo) (fun vo' => exists vs, vo' = set_height (Z.of_nat h) (set_leftvo vs vo0) /\
    side_done h (want_left t h lo) vs).
Proof.
  intros Hstr Hl Hx (vs & Hsd & ->). destruct (side_ok_entry m t h K T Hix _ vs 0 Hsd ltac:(lia)) as (v & Hv & Hnil).
  assert (length ds <= 50)%nat as Hds.
  { destruct (ls_rep _ _ _ _ Hl) as (_ & _ & _ & Hmax & _). unfold zlen, BPLUS_MAX_ENTRIES in Hmax. lia. }
  assert (0 <= entries n <= 50) as Hent by (rewrite (ls_entries _ _ _ _ Hl); lia).
  pose proof (ls_range _ _ _ _ Hl) as Hrg. pose proof (ls_size _ _ _ _ Hl) as Hsz.
  unfold left_leaf. eapply yields_bind, yields_eq; [by apply (leaf_search lo x l ds)|].
  destruct (Z.leb_spec 0 (Z.of_nat (lo - start (leaf_strings t h) (at_level t h 0 lo)))) as [_|]; [|lia]. cbv zeta.
  cbn [leftvo set_height set_leftvo traverse_height]. rewrite Nat.sub_0_r in Hv |- *.
  eapply yields_bind, yields_wand.
  { eapply on_nodevo_yields; [exact Hv| |].
    - pose proof (ls_hashes _ _ _ _ Hl) as Hhs. rewrite <- (length_map H ds) in Hhs. rewrite Hnil.
      apply (copied_hashes_spec _ _ Hhs 0 (lo - start (leaf_strings t h) (at_level t h 0 lo))). rewrite length_map. lia.
    - intros hs (l0 & -> & Hcs).
      instantiate (1 := fun vs' => side_done h (want_left t h lo) vs').
      cbv beta. rewrite (li_id _ _ _ _ _ _ _ (ls_index _ _ _ _ Hl)). apply (side_ok_leaf m t h K T Hix _ _ _ Hsd).
      2: { apply (entry_ok m t h K T Hix 0 lo _ _ _ Hstr ltac:(lia) Hent Hcs). rewrite slice_length by (rewrite length_map; lia). lia. }
      split; [done|]. cbn [nhash app below].
      rewrite <- (leaf_groups_slice lo l ds n) in Hcs by (done || lia). rewrite Nat.add_0_r, groups_start in Hcs.
      rewrite groups_start. by replace (start (leaf_strings t h) (at_level t h 0 lo) + (lo - start (leaf_strings t h) (at_level t h 0 lo)))%nat with lo in Hcs by lia. }
  intros vs' Hvs'. apply yields_ret. by exists vs'.
Qed.

Lemma right_leaf_yields hi x l ds n vo0 vo :
  (hi < length (strings t))%nat -> leaf_of_string hi l ds n -> K !! hi = Some x -> right_inv t h hi vo0 0 vo ->
  yields (right_leaf x n vo) (fun vo' => exists vs, vo' = set_height (Z.of_nat h) (set_rightvo vs vo0) /\
    side_done h (want_right t h hi) vs).
Proof.
  intros Hstr Hl Hx (vs & Hsd & ->). destruct (side_ok_entry m t h K T Hix _ vs 0 Hsd ltac:(lia)) as (v & Hv & Hnil).
  assert (length ds <= 50)%nat as Hds.
  { destruct (ls_rep _ _ _ _ Hl) as (_ & _ & _ & Hmax & _). unfold zlen, BPLUS_MAX_ENTRIES in Hmax. lia. }
  assert (0 <= entries n <= 50) as Hent by (rewrite (ls_entries _ _ _ _ Hl); lia).
  pose proof (ls_range _ _ _ _ Hl) as Hrg. pose proof (ls_size _ _ _ _ Hl) as Hsz.
  set (c := (hi - start (leaf_strings t h) (at_level t h 0 hi))%nat).
  unfold right_leaf. eapply yields_bind, yields_eq; [by apply (leaf_search hi x l ds)|].
  destruct (Z.leb_spec 0 (Z.of_nat (hi - start (leaf_strings t h) (at_level t h 0 hi)))) as [_|]; [|lia]. cbv zeta.
  cbn [rightvo set_height set_rightvo traverse_height]. rewrite Nat.sub_0_r in Hv |- *. fold c.
  rewrite (ls_entries _ _ _ _ Hl) in Hent |- *. replace (Z.of_nat c + 1) with (Z.of_nat (S c)) by lia.
  eapply yields_bind, yields_wand.
  { eapply on_nodevo_yields; [exact Hv| |].
    - pose proof (ls_hashes _ _ _ _ Hl) as Hhs. rewrite <- (length_map H ds) in Hhs. rewrite Hnil.
      apply (pushed_hashes_spec _ _ Hhs (S c) (length ds)). rewrite length_map. lia.
    - intros hs (l0 & -> & Hcs).
      instantiate (1 := fun vs' => side_done h (want_right t h hi) vs').
      cbv beta. rewrite (li_id _ _ _ _ _ _ _ (ls_index _ _ _ _ Hl)). apply (side_ok_leaf m t h K T Hix _ _ _ Hsd).
      2: { apply (entry_ok m t h K T Hix 0 hi _ _ _ Hstr ltac:(lia) Hent Hcs). rewrite slice_length by (rewrite length_map; lia). lia. }
      split; [done|]. cbn [nhash app below].
      rewrite <- (leaf_groups_slice hi l ds n) in Hcs by (done || lia). rewrite groups_start in Hcs.
      rewrite groups_start, Hsz. by replace (start (leaf_strings t h) (at_level t h 0 hi) + S c)%nat with (S hi) in Hcs by lia. }
  intros vs' Hvs'. apply yields_ret. by exists vs'.
Qed.

End Leaves.
