(* ===== verification/RangeSpec.v ===== *)
(** * The range query and its verification

    The scan over the leaves, the range query as a whole, and the way of its
    verification object to the root hash: through [vo_serialize] and
    [vo_deserialize] to [reconstruct_root]. *)

From S2P Require Import Prelude CMem Codec Hashmap Node NodeCodec Heap Ring Insert Store Merkle Vo RangeQuery.
From S2P Require Import Reconstruct ReconstructSpec ReconstructRoot QuerySpec.

(** Different nodes of the memory are at most as many as the memory has. *)
Lemma nodes_bound {A} (ns : gmap loc A) (ls : list loc) :
  NoDup ls -> Forall (fun l => is_Some (ns !! l)) ls -> (length ls <= base.size ns)%nat.
Proof.
  intros Hnd Hls. rewrite <- (size_dom (D := gset loc) ns), <- (size_list_to_set (C := gset loc) ls) by done.
  apply subseteq_size. intros l Hl%elem_of_list_to_set. rewrite Forall_forall in Hls.
  apply elem_of_dom. by apply Hls.
Qed.

Lemma concat_bound {A} (gs : list (list A)) n :
  Forall (fun g => length g <= n)%nat gs -> (length (concat gs) <= n * length gs)%nat.
Proof. induction 1 as [|g gs Hg _ IH]; simpl; [lia|]. rewrite length_app. lia. Qed.

Lemma bind_to {A B} (e : M A) (f : A -> M B) m x m' r : e m = Some (x, m') -> f x m' = r -> (e ≫= f) m = r.
Proof. intros E <-. unfold mbind, M_bind. by rewrite E. Qed.

Lemma load_lf_eq m l n : nodes m !! l = Some (Leaf n) -> load_lf l m = Some (n, m).
Proof. intros E. unfold load_lf, mbind, M_bind, load. by rewrite E. Qed.

Section Scan.
Context `{HashFn} `{Malloc}.
Context (m : mem) (t : mtree) (h : nat) (K : list Z) (T : list ItemPointerData).
Context (Hix : indexed m t h K T).
Lemma key_le i j x y : K !! i = Some x -> K !! j = Some y -> (i <= j)%nat -> x <= y.
Proof.
  intros Hx Hy Hij. destruct (decide (i = j)) as [->|]; [simplify_eq; lia|].
  pose proof (increasing_lookup K i j x y (ix_K _ _ _ _ _ Hix) Hx Hy ltac:(lia)). lia.
Qed.

(** The leaf of the next string. *)
Lemma next_leaf g l ds n : (S g < length (strings t))%nat -> leaf_of_string m t h K T g l ds n ->
  if decide (S g < start (leaf_strings t h) (S (at_level t h 0 g)))%nat
  then at_level t h 0 (S g) = at_level t h 0 g
  else at_level t h 0 (S g) = S (at_level t h 0 g) /\ start (leaf_strings t h) (S (at_level t h 0 g)) = S g /\
       exists l' ds' n', leaf_of_string m t h K T (S g) l' ds' n' /\ nxt m (LNode l) = Some (LNode l').
Proof.
  intros Hg Hl. pose proof (ix_bounded _ _ _ _ _ Hix) as Hok. pose proof (ls_range _ _ _ _ _ _ _ _ _ Hl) as Hrg.
  assert (forall i p, (start (leaf_strings t h) p <= i < start (leaf_strings t h) (S p))%nat -> at_level t h 0 i = p) as Hat.
  { intros i p Hp. simpl. rewrite groups_leaves by apply Hok. apply owner_unique. by rewrite !leaf_groups_start. }
  case_decide as Hd; [apply Hat; lia|].
  destruct (leaf_of_string_ex m t h K T Hix (S g) Hg) as (l' & ds' & n' & Hl').
  pose proof (ls_range _ _ _ _ _ _ _ _ _ Hl') as Hrg'.
  assert (at_level t h 0 (S g) = S (at_level t h 0 g)) as E.
  { apply Hat. split; [lia|].
    destruct (decide (S (at_level t h 0 g) < length (leaf_strings t h))%nat) as [Hlt|Hge].
    - destruct (lookup_lt_is_Some_2 _ _ Hlt) as [d Hd']. rewrite (start_S _ _ _ Hd').
      pose proof (Forall_lookup_1 _ _ _ _ (ix_nonempty _ _ _ _ _ Hix) Hd') as Hne. simpl in Hne.
      destruct d; [done|]. simpl length. lia.
    - assert (start (leaf_strings t h) (S (at_level t h 0 g)) = length (strings t)) as Hall; [|lia].
      rewrite <- (strs_concat m t h K T Hix), <- start_all. unfold start. rewrite !take_ge by lia. done. }
  split; [done|]. split; [rewrite E in Hrg'; lia|]. exists l', ds', n'. split; [done|].
  apply (ring_next m 0 (map mloc (layer h t)) (at_level t h 0 g)).
  - apply Hix.
  - change (map mloc ?x) with (mloc <$> x). by rewrite list_lookup_fmap, (ls_layer _ _ _ _ _ _ _ _ _ Hl).
  - rewrite <- E. change (map mloc ?x) with (mloc <$> x). by rewrite list_lookup_fmap, (ls_layer _ _ _ _ _ _ _ _ _ Hl').
Qed.

(** What the leaf holds for string [g]. *)
Lemma scan_entry g l ds n : (g < length (strings t))%nat -> leaf_of_string m t h K T g l ds n ->
  let j := (g - start (leaf_strings t h) (at_level t h 0 g))%nat in
  exists k d s c q, K !! g = Some k /\ lf_key n !! j = Some k /\ lf_data n !! j = Some d /\
    cstr d = Some s /\ zlen s < 33 /\ strings t !! g = Some s /\ T !! g = Some c /\
    tids (lf_node n) !! j = Some q /\ load_tid (tmem m) q = Some c.
Proof.
  intros Hg Hl j. pose proof (ls_range _ _ _ _ _ _ _ _ _ Hl) as Hrg. pose proof (ls_size _ _ _ _ _ _ _ _ _ Hl) as Hsz.
  assert (j < length ds)%nat as Hj by (unfold j; lia).
  assert (start (leaf_strings t h) (at_level t h 0 g) + j = g)%nat as Hgj by (unfold j; lia).
  destruct (lookup_lt_is_Some_2 K g) as [k Hk]; [by rewrite (ix_lenK _ _ _ _ _ Hix)|].
  destruct (lookup_lt_is_Some_2 T g) as [c Hc]; [by rewrite (ix_lenT _ _ _ _ _ Hix)|].
  destruct (lookup_lt_is_Some_2 ds j Hj) as [s Hs].
  destruct (ls_rep _ _ _ _ _ _ _ _ _ Hl) as (_ & [_ _ Wd Wds _ _ _] & _ & Hmax & Hd).
  destruct (Forall2_lookup_r _ _ _ _ _ Hd Hs) as (d & Hdj & Hds & _). rewrite lookup_take_lt in Hdj by done.
  pose proof (Forall_lookup_1 _ _ _ _ Wds Hdj) as Hd33. cbv beta in Hd33.
  destruct (li_tids _ _ _ _ _ _ _ (ls_index _ _ _ _ _ _ _ _ _ Hl) j c) as (q & Hq & Hqc); [lia|by rewrite Hgj|].
  exists k, d, s, c, q. split_and!; try done.
  - rewrite (leaf_key m t h K T g l ds n j Hl Hj), Hgj. done.
  - pose proof (cstr_fits _ _ Hds). lia.
  - rewrite <- (strs_concat m t h K T Hix), <- Hgj, (concat_lookup _ _ ds); [done|apply (ls_strs _ _ _ _ _ _ _ _ _ Hl)|done].
Qed.

Context (lo hi : nat) (key1 key2 : Z) (Hlohi : (lo <= hi)%nat) (Hhi : (S hi < length (strings t))%nat).
Context (HK1 : K !! lo = Some key1) (HK2 : K !! hi = Some key2).
Context (vo0 : rangevo) (Hpl : 24 <= past_local).

(** The scan is at string [g], in the leaf above it. *)
Record scan_inv (g : nat) (l : loc) (nodedata : list (list Z)) (q : qstate) : Prop := {
  si_range : (lo <= g <= S hi)%nat;
  si_leaf : exists ds n, leaf_of_string m t h K T g l ds n;
  si_node : cats nodedata (slice (Nat.max (start (leaf_strings t h) (at_level t h 0 g)) lo) g (strings t));
  si_vo : q_vo q = set_vdata (vdata (q_vo q)) vo0;
  si_len : length (vdata (q_vo q)) = (at_level t h 0 g - at_level t h 0 lo)%nat;
  si_data p : (at_level t h 0 lo <= p < at_level t h 0 g)%nat ->
    exists v, vdata (q_vo q) !! (p - at_level t h 0 lo)%nat = Some v /\
      cats v (in_range (leaf_strings t h) lo hi p);
  si_result : q_result q = slice lo g T;
  si_keys : q_keys q = slice lo g K
}.

(** One string further. *)
Lemma scan_advance g l ds n nodedata q d s c k :
  scan_inv g l nodedata q -> leaf_of_string m t h K T g l ds n -> (g <= hi)%nat ->
  cstr d = Some s -> strings t !! g = Some s -> T !! g = Some c -> K !! g = Some k ->
  let q' := mkQ (q_vo q) (q_result q ++ [c]) (q_keys q ++ [k]) in
  if decide (S g < start (leaf_strings t h) (S (at_level t h 0 g)))%nat
  then scan_inv (S g) l (nodedata ++ [d]) q'
  else exists l', nxt m (LNode l) = Some (LNode l') /\
    scan_inv (S g) l' [] (mkQ (set_vdata (vdata (q_vo q) ++ [nodedata ++ [d]]) (q_vo q)) (q_result q') (q_keys q')).
Proof.
  intros [Sr _ Sn Sv Sl Sd Sres Sk] Hl Hg Cd Hs Hc Hk q'. pose proof (ls_range _ _ _ _ _ _ _ _ _ Hl) as Hrg.
  pose proof (next_leaf g l ds n ltac:(lia) Hl) as Hnext.
  assert (cats (nodedata ++ [d]) (slice (Nat.max (start (leaf_strings t h) (at_level t h 0 g)) lo) (S g) (strings t))) as Hnd.
  { rewrite (slice_S_r _ g _ s) by (done || lia). apply Forall2_app; [done|]. by constructor. }
  assert (q_result q ++ [c] = slice lo (S g) T) as Hres by (rewrite Sres; symmetry; apply slice_S_r; [lia|done]).
  assert (q_keys q ++ [k] = slice lo (S g) K) as Hkeys by (rewrite Sk; symmetry; apply slice_S_r; [lia|done]).
  case_decide as Hd.
  - split; try done; cbn [q_vo q_result q_keys q']; try rewrite Hnext; try done; [lia|].
    destruct (leaf_of_string_ex m t h K T Hix (S g) ltac:(lia)) as (l' & ds' & n' & Hl').
    assert (l' = l) as ->; [|by exists ds', n'].
    pose proof (ls_layer _ _ _ _ _ _ _ _ _ Hl') as E'. rewrite Hnext, (ls_layer _ _ _ _ _ _ _ _ _ Hl) in E'. by simplify_eq.
  - destruct Hnext as (E & Hst & l' & ds' & n' & Hl' & Hnx). exists l'. split; [done|].
    assert (at_level t h 0 lo <= at_level t h 0 g)%nat as Hle by (simpl; apply owner_mono; lia).
    split; cbn [q_vo q_result q_keys q' vdata set_vdata]; try done.
    + lia.
    + by exists ds', n'.
    + rewrite E, Hst. rewrite Nat.max_l by lia. rewrite slice_nil by lia. constructor.
    + by rewrite Sv.
    + rewrite length_app, Sl, E. simpl length. lia.
    + intros p Hp. rewrite E in Hp. destruct (decide (p = at_level t h 0 g)) as [->|Hne].
      * exists (nodedata ++ [d]). rewrite lookup_app_r, Sl, Nat.sub_diag by lia. split; [done|].
        unfold in_range. rewrite (strs_concat m t h K T Hix), Hst, Nat.min_l by lia. done.
      * destruct (Sd p ltac:(lia)) as (v & Hv & Cv). exists v. split; [|done]. by apply lookup_app_l_Some.
Qed.

Lemma scan_runs fuel : forall g l nodedata q, scan_inv g l nodedata q -> (S hi - g <= fuel)%nat ->
  runs (scan fuel (Some l) (Z.of_nat (g - start (leaf_strings t h) (at_level t h 0 g))) key1 key2 key2 nodedata q) m
    (fun r m' => m' = m /\ exists l', scan_inv (S hi) l' r.1 r.2).
Proof.
  induction fuel as [|fuel IH]; intros g l nodedata q Hinv Hf;
    pose proof Hinv as [Sr (ds & n & Hl) _ _ _ _ _ _];
    (destruct (scan_entry g l ds n ltac:(lia) Hl) as (k & d & s & c & tq & Hk & Hkj & Hdj & Cd & Hs33 & Hs & Hc & Hq & Hqc);
     cbn [scan]; eapply runs_bind, runs_lift; [reflexivity|];
     eapply runs_bind, runs_load_lf; [apply (ls_node _ _ _ _ _ _ _ _ _ Hl)|];
     eapply runs_bind, runs_lift; [rewrite aget_nat; exact Hkj|]).
  - assert (g = S hi) as -> by lia.
    pose proof (increasing_lookup K hi (S hi) key2 k (ix_K _ _ _ _ _ Hix) HK2 Hk ltac:(lia)).
    destruct (Z.leb_spec k key2); [lia|]. apply runs_ret. split; [done|]. by exists l.
  - destruct (decide (g = S hi)) as [->|Hne].
    + pose proof (increasing_lookup K hi (S hi) key2 k (ix_K _ _ _ _ _ Hix) HK2 Hk ltac:(lia)).
      destruct (Z.leb_spec k key2); [lia|]. apply runs_ret. split; [done|]. by exists l.
    + pose proof (key_le g hi k key2 Hk HK2 ltac:(lia)). pose proof (key_le lo g key1 k HK1 Hk ltac:(lia)).
      destruct (Z.leb_spec k key2); [|lia]. eapply runs_bind, runs_lift; [rewrite aget_nat; exact Hdj|].
      destruct (strcpy_cstr (fresh_bytes 33) d s Cd) as (d1 & Ed1 & Cd1 & _); [rewrite fresh_zlen; lia|].
      eapply runs_bind, runs_lift; [exact Ed1|]. eapply runs_bind, runs_lift; [apply push_variable_ok; unfold SIZEOF_PGVECTOR; lia|]. cbv zeta.
      destruct (Z.leb_spec key1 k); [|lia]. cbn [andb].
      eapply runs_bind, runs_bind, runs_lift; [rewrite aget_nat; exact Hq|].
      apply runs_bind, runs_get_tm. eapply runs_bind, runs_lift; [exact Hqc|]. apply runs_ret.
      pose proof (scan_advance g l ds n nodedata q d1 s c k Hinv Hl ltac:(lia) Cd1 Hs Hc Hk) as Hadv. cbv zeta in Hadv.
      pose proof (ls_range _ _ _ _ _ _ _ _ _ Hl) as Hrg. pose proof (ls_size _ _ _ _ _ _ _ _ _ Hl) as Hsz.
      rewrite (ls_entries _ _ _ _ _ _ _ _ _ Hl). pose proof (next_leaf g l ds n ltac:(lia) Hl) as Hnext.
      case_decide as Hd.
      * destruct (Z.leb_spec (Z.of_nat (length ds)) (Z.of_nat (g - start (leaf_strings t h) (at_level t h 0 g)) + 1)); [lia|].
        replace (Z.of_nat (g - start (leaf_strings t h) (at_level t h 0 g)) + 1)
          with (Z.of_nat (S g - start (leaf_strings t h) (at_level t h 0 (S g)))) by (rewrite Hnext; lia).
        apply IH; [exact Hadv|lia].
      * destruct (Z.leb_spec (Z.of_nat (length ds)) (Z.of_nat (g - start (leaf_strings t h) (at_level t h 0 g)) + 1)); [|lia].
        destruct Hadv as (l' & Hnx & Hinv'). eapply runs_bind, runs_list_next_entry; [exact Hnx|].
        destruct Hnext as (E & Hst & _).
        replace 0 with (Z.of_nat (S g - start (leaf_strings t h) (at_level t h 0 (S g)))) by (rewrite E, Hst; lia).
        apply IH; [exact Hinv'|lia].
Qed.

End Scan.

(** ** Behind the last leaf *)

Section Limits.
Context `{HashFn} `{Malloc}.
Context (m : mem) (t : mtree) (h : nat) (K : list Z) (T : list ItemPointerData).
Context (Hix : indexed m t h K T) (key1 key2 : Z).

(** One string further without the invariant, for any bound on the keys. *)
Lemma scan_round (max : Z) fuel g l ds n nodedata q k : leaf_of_string m t h K T g l ds n -> (g < length (strings t))%nat ->
  K !! g = Some k -> k <= max -> 24 <= past_local ->
  exists nodedata' q', scan (S fuel) (Some l) (Z.of_nat (g - start (leaf_strings t h) (at_level t h 0 g))) key1 key2 max nodedata q m
    = (if entries n <=? Z.of_nat (g - start (leaf_strings t h) (at_level t h 0 g)) + 1 then
         (do nx <- list_next_entry l; scan fuel nx 0 key1 key2 max [] q') m
       else scan fuel (Some l) (Z.of_nat (g - start (leaf_strings t h) (at_level t h 0 g)) + 1) key1 key2 max nodedata' q' m).
Proof.
  intros Hl Hg Hk Hmax Hpl.
  destruct (scan_entry m t h K T Hix g l ds n Hg Hl) as (k' & d & s & c & tq & Hk' & Hkj & Hdj & Cd & Hs33 & Hs & Hc & Hq & Hqc).
  rewrite Hk in Hk'. injection Hk' as <-. destruct (strcpy_cstr (fresh_bytes 33) d s Cd) as (d1 & Ed1 & Cd1 & _); [rewrite fresh_zlen; lia|].
  set (i := Z.of_nat (g - start (leaf_strings t h) (at_level t h 0 g))) in *.
  assert (forall q0, exists q1, (if (key1 <=? k) && (k <=? key2) then
      do p <- lift (aget (tids (lf_node n)) i); do tm <- get_tm; do tid <- lift (load_tid tm p);
      mret (mkQ (q_vo q0) (q_result q0 ++ [tid]) (q_keys q0 ++ [k])) else mret q0) m = Some (q1, m)) as Hq1.
  { intros q0. destruct (_ && _); [|by eexists]. eexists. unfold i, mbind, M_bind, lift, get_tm. rewrite aget_nat, Hq. cbv beta iota. by rewrite Hqc. }
  destruct (Hq1 q) as [q1 E1]. eexists (nodedata ++ [d1]), (if entries n <=? i + 1 then _ else q1). cbn [scan].
  eapply bind_to; [reflexivity|]. eapply bind_to; [apply load_lf_eq, (ls_node _ _ _ _ _ _ _ _ _ Hl)|].
  eapply bind_to; [unfold lift, i; by rewrite aget_nat, Hkj|]. destruct (Z.leb_spec k max); [|lia].
  eapply bind_to; [unfold lift, i; by rewrite aget_nat, Hdj|]. eapply bind_to; [unfold lift; by rewrite Ed1|].
  eapply bind_to; [unfold lift; by rewrite push_variable_ok by (unfold SIZEOF_PGVECTOR; lia)|]. cbv zeta. eapply bind_to; [exact E1|].
  destruct (entries n <=? i + 1); reflexivity.
Qed.

(** When no key is larger than the bound, the scan goes on to what lies behind the last
    leaf. *)
Lemma scan_falls_off (max : Z) fuel : forall g l ds n nodedata q, (forall i k, K !! i = Some k -> k <= max) -> 24 <= past_local ->
  leaf_of_string m t h K T g l ds n -> (g < length (strings t))%nat -> (length (strings t) - g <= fuel)%nat ->
  exists fuel' q', scan fuel (Some l) (Z.of_nat (g - start (leaf_strings t h) (at_level t h 0 g))) key1 key2 max nodedata q m
    = scan fuel' None 0 key1 key2 max [] q' m.
Proof.
  induction fuel as [|fuel IH]; intros g l ds n nodedata q Hmax Hpl Hl Hg Hf; [lia|].
  destruct (lookup_lt_is_Some_2 K g) as [k Hk]; [by rewrite (ix_lenK _ _ _ _ _ Hix)|].
  destruct (scan_round max fuel g l ds n nodedata q k Hl Hg Hk (Hmax g k Hk) Hpl) as (nd' & q' & E). rewrite E. clear E.
  pose proof (ls_range _ _ _ _ _ _ _ _ _ Hl) as Hrg. pose proof (ls_size _ _ _ _ _ _ _ _ _ Hl) as Hsz.
  rewrite (ls_entries _ _ _ _ _ _ _ _ _ Hl). destruct (decide (S g < length (strings t))%nat) as [Hsg|Hsg].
  - pose proof (next_leaf m t h K T Hix g l ds n Hsg Hl) as Hnext. case_decide as Hd.
    + destruct (Z.leb_spec (Z.of_nat (length ds)) (Z.of_nat (g - start (leaf_strings t h) (at_level t h 0 g)) + 1)); [lia|].
      replace (Z.of_nat (g - start (leaf_strings t h) (at_level t h 0 g)) + 1)
        with (Z.of_nat (S g - start (leaf_strings t h) (at_level t h 0 (S g)))) by (rewrite Hnext; lia).
      destruct (leaf_of_string_ex m t h K T Hix (S g) Hsg) as (l' & ds' & n' & Hl').
      assert (l' = l) as ->; [|by eapply IH; try done; lia].
      pose proof (ls_layer _ _ _ _ _ _ _ _ _ Hl') as E'. rewrite Hnext, (ls_layer _ _ _ _ _ _ _ _ _ Hl) in E'. by simplify_eq.
    + destruct (Z.leb_spec (Z.of_nat (length ds)) (Z.of_nat (g - start (leaf_strings t h) (at_level t h 0 g)) + 1)); [|lia].
      destruct Hnext as (Ea & Hst & l' & ds' & n' & Hl' & Hnx).
      destruct (IH (S g) l' ds' n' [] q' Hmax Hpl Hl' Hsg ltac:(lia)) as (f' & q2 & E). exists f', q2. rewrite <- E.
      eapply bind_to; [by apply next_entry_eq|]. cbn [list_entry]. do 2 f_equal. rewrite Ea, Hst. lia.
  - assert (start (leaf_strings t h) (S (at_level t h 0 g)) <= length (strings t))%nat as Hle
      by (rewrite <- (strs_concat m t h K T Hix); apply start_le).
    destruct (Z.leb_spec (Z.of_nat (length ds)) (Z.of_nat (g - start (leaf_strings t h) (at_level t h 0 g)) + 1)); [|lia].
    exists fuel, q'. eapply bind_to; [|reflexivity]. rewrite (next_entry_eq m l (LHead 0)); [done|].
    apply (ring_last m 0 (map mloc (layer h t)) (at_level t h 0 g)); [apply Hix| |].
    + change (map mloc ?x) with (mloc <$> x). by rewrite list_lookup_fmap, (ls_layer _ _ _ _ _ _ _ _ _ Hl).
    + rewrite length_map. pose proof (lookup_lt_Some _ _ _ (ls_strs _ _ _ _ _ _ _ _ _ Hl)) as Hlt.
      assert (length (leaf_strings t h) = length (layer h t)) as Ell by (unfold leaf_strings; by rewrite length_map).
      destruct (decide (S (at_level t h 0 g) < length (leaf_strings t h))%nat) as [Hmore|]; [exfalso|lia].
      destruct (lookup_lt_is_Some_2 _ _ Hmore) as [d Hd]. pose proof (start_S _ _ _ Hd) as Es.
      pose proof (Forall_lookup_1 _ _ _ _ (ix_nonempty _ _ _ _ _ Hix) Hd) as Hne. simpl in Hne.
      pose proof (start_le (leaf_strings t h) (S (S (at_level t h 0 g)))) as Hs2. rewrite (strs_concat m t h K T Hix) in Hs2.
      destruct d; [done|]. simpl length in Es. lia.
Qed.

End Limits.

(** ** The query *)

(** An object as [rangevo_init] leaves it. *)
Record fresh_vo (vo : rangevo) : Prop := {
  fv_height : traverse_height vo = 0;
  fv_data : vdata vo = [];
  fv_left : length (leftvo vo) = 10%nat /\ Forall (fun v => nodevo_ok v /\ nhash v = []) (leftvo vo);
  fv_right : length (rightvo vo) = 10%nat /\ Forall (fun v => nodevo_ok v /\ nhash v = []) (rightvo vo)
}.

Lemma rangevo_init_fresh vo size :
  length (leftvo vo) = 10%nat -> length (rightvo vo) = 10%nat ->
  Forall (fun v => in_s 64 (vo_node_id v) /\ in_s 64 (bound_node_childno v)) (leftvo vo ++ rightvo vo) ->
  fresh_vo (rangevo_init vo size).
Proof.
  intros Hl Hr [H1 H2]%Forall_app.
  split; [done|done|split; cbn [rangevo_init leftvo]; [by rewrite length_fmap|]|split; cbn [rangevo_init rightvo]; [by rewrite length_fmap|]];
    apply Forall_fmap; (eapply Forall_impl; [eassumption|]); intros v [? ?]; cbv beta;
    (split; [|done]); split_and!; try done.
Qed.

Lemma fresh_side h vs (want : nat -> nodevo -> Prop) :
  length vs = 10%nat /\ Forall (fun v => nodevo_ok v /\ nhash v = []) vs -> side_ok h want vs h.
Proof.
  intros [Hl Hvs]. split; [done| | |].
  - eapply Forall_impl; [exact Hvs|]. by intros v [? _].
  - intros j Hj. lia.
  - intros i v _ Hv. by apply (Forall_lookup_1 _ _ _ _ Hvs Hv).
Qed.

Lemma runs_ext {A} (e e' : M A) m (Q : A -> mem -> Prop) : e m = e' m -> runs e' m Q -> runs e m Q.
Proof. intros E (x & m' & E' & HQ). exists x, m'. by rewrite E. Qed.

Section Paths.
Context `{HashFn} `{Malloc}.
Context (m : mem) (t : mtree) (h : nat) (K : list Z) (T : list ItemPointerData) (Hix : indexed m t h K T).

(** The scan has enough fuel. *)
Lemma scan_fuel_enough : (length (strings t) <= 51 * base.size (nodes m) + 51)%nat.
Proof.
  pose proof (ix_bounded _ _ _ _ _ Hix) as Hok.
  pose proof (concat_bound _ _ (leaf_strings_sizes t h Hok)) as Hc. rewrite (strs_concat m t h K T Hix) in Hc.
  assert (length (leaf_strings t h) <= base.size (nodes m))%nat as Hn; [|lia].
  unfold leaf_strings. rewrite length_map, <- (length_map mloc). apply nodes_bound; [apply (ix_ring _ _ _ _ _ Hix)|].
  apply Forall_lookup. intros p l Hl. change (map mloc ?x) with (mloc <$> x) in Hl.
  apply list_lookup_fmap_Some in Hl as (n & -> & Hn).
  pose proof (Forall_lookup_1 _ _ _ _ (balanced_layer h t h (bd_bal _ _ Hok) (Nat.le_refl _)) Hn) as Hb.
  rewrite Nat.sub_diag in Hb. destruct n as [l' ds|]; [|done].
  destruct (leaf_struct m t h K T Hix p l' ds Hn) as (n & E & _). by exists (Leaf n).
Qed.

Lemma top_node i : (i < length (strings t))%nat -> layer (h - h) t !! at_level t h h i = Some t.
Proof.
  intros Hi. destruct (at_level_spec t h (ix_bounded _ _ _ _ _ Hix) h i Hi (Nat.le_refl _)) as [Hlt _].
  rewrite groups_top in Hlt. simpl in Hlt. rewrite Nat.sub_diag. by destruct (at_level t h h i); [|lia].
Qed.

Context (Hh : (0 < h)%nat).

(** A path ends at the leaf above string [i]. *)
Lemma path_runs step (I : nat -> rangevo -> Prop) i vo : (i < length (strings t))%nat ->
  (forall k l ts n ks vo, (S k <= h)%nat -> layer (h - S k) t !! at_level t h (S k) i = Some (MNode l ts) ->
     non_leaf_rep n (map mloc ts) -> node_index t h K k (at_level t h (S k) i) ts n ks ->
     Forall2 hslot (take (length ts) (nl_childhash n)) (map mhash ts) -> I (S k) vo ->
     yields (step n vo) (fun r => exists c vo', r = (Some (mloc c), vo') /\
       layer (h - k) t !! at_level t h k i = Some c /\ I k (set_height (traverse_height vo' + 1) vo'))) ->
  I h vo ->
  runs (walk step h (Some (mloc t)) None vo) m (fun r m' => m' = m /\
    exists l ds n, r.1 = Some l /\ leaf_of_string m t h K T i l ds n /\ I 0%nat r.2).
Proof.
  intros Hi Hstep HI. assert (h = S (h - 1)) as E by lia.
  pose proof (walk_runs m t h K T Hix step I i Hi Hstep (h - 1) t None vo) as W. rewrite <- E in W.
  eapply runs_wand; [apply W; [done|by apply top_node|done]|].
  intros r m' (-> & c & Hr & Hc & HI0). split; [done|].
  destruct (leaf_of_string_ex m t h K T Hix i Hi) as (l & ds & n & Hl).
  rewrite (ls_layer _ _ _ _ _ _ _ _ _ Hl) in Hc. injection Hc as <-. by exists l, ds, n.
Qed.

End Paths.

Section Query.
Context `{HashFn} `{Malloc}.
Context (m : mem) (t : mtree) (h : nat) (K : list Z) (T : list ItemPointerData).
Context (Hix : indexed m t h K T) (Hh : (0 < h)%nat).
Context (lo hi : nat) (key1 key2 : Z) (Hlohi : (lo <= hi)%nat) (Hhi : (S hi < length (strings t))%nat).
Context (HK1 : K !! lo = Some key1) (HK2 : K !! hi = Some key2) (Hpl : 24 <= past_local).

(** The object of the answer. *)
Record answer (vo : rangevo) : Prop := {
  an_height : traverse_height vo = Z.of_nat h;
  an_left : side_done h (want_left t h lo) (leftvo vo);
  an_right : side_done h (want_right t h hi) (rightvo vo);
  an_data : fits_data t h lo hi vo;
  an_len : (length (vdata vo) <= length (layer h t))%nat;
  an_strings : Forall (fun v => (length v <= 50)%nat /\ exists a b, cats v (slice a b (strings t))) (vdata vo)
}.

Lemma scan_done l nodedata q vo0 :
  scan_inv m t h K T lo hi vo0 (S hi) l nodedata q ->
  fits_data t h lo hi (set_vdata (vdata (q_vo q) ++ [nodedata]) (q_vo q)) /\
  (length (vdata (q_vo q) ++ [nodedata]) <= length (layer h t))%nat /\
  Forall (fun v => (length v <= 50)%nat /\ exists a b, cats v (slice a b (strings t))) (vdata (q_vo q) ++ [nodedata]).
Proof.
  intros [Sr (ds & n & Hl) Sn Sv Sl Sd _ _]. pose proof (ix_bounded _ _ _ _ _ Hix) as Hok.
  destruct (leaf_of_string_ex m t h K T Hix hi ltac:(lia)) as (le & dse & ne & Hle).
  pose proof (next_leaf m t h K T Hix hi le dse ne Hhi Hle) as Hnext.
  pose proof (ls_range _ _ _ _ _ _ _ _ _ Hle) as Hrg.
  pose proof (leaf_spec t h Hok (S hi) Hhi) as [Hlt Hrg'].
  assert (at_level t h 0 lo <= at_level t h 0 hi)%nat as Hmono by (simpl; apply owner_mono; lia).
  assert (length (leaf_strings t h) = length (layer h t)) as Ell by (unfold leaf_strings; by rewrite length_map).
  assert (forall v a b p, cats v (slice a b (strings t)) -> (p < length (leaf_strings t h))%nat ->
    (start (leaf_strings t h) p <= a)%nat -> (b <= start (leaf_strings t h) (S p))%nat -> (length v <= 50)%nat) as H50.
  { intros v a b p Hv Hp Ha Hb. rewrite (Forall2_length _ _ _ Hv). unfold slice. rewrite length_take.
    destruct (lookup_lt_is_Some_2 _ _ Hp) as [d Hd]. rewrite (start_S _ _ _ Hd) in Hb.
    pose proof (Forall_lookup_1 _ _ _ _ (leaf_strings_sizes t h Hok) Hd) as Hd50. cbv beta in Hd50. lia. }
  split_and!.
  - intros p Hp. cbn [vdata set_vdata]. destruct (decide (p < at_level t h 0 (S hi))%nat) as [Hd|Hd].
    + destruct (Sd p ltac:(lia)) as (v & Hv & Cv). exists v. split; [|done]. by apply lookup_app_l_Some.
    + case_decide as Hdec; [|lia]. assert (p = at_level t h 0 (S hi)) as -> by lia.
      exists nodedata. rewrite lookup_app_r, Sl, Nat.sub_diag by lia. split; [done|].
      unfold in_range. rewrite (strs_concat m t h K T Hix). rewrite Nat.min_r by lia. done.
  - rewrite length_app, Sl. simpl length. lia.
  - apply Forall_app. split; [|constructor; [split; [eapply (H50 _ _ _ (at_level t h 0 (S hi))); try exact Sn; lia|by eexists _, _]|done]].
    apply Forall_lookup. intros i v Hv. pose proof (lookup_lt_Some _ _ _ Hv) as Hi.
    destruct (Sd (at_level t h 0 lo + i)%nat ltac:(lia)) as (v' & Hv' & Cv).
    replace (at_level t h 0 lo + i - at_level t h 0 lo)%nat with i in Hv' by lia. rewrite Hv in Hv'. injection Hv' as <-.
    unfold in_range in Cv. rewrite (strs_concat m t h K T Hix) in Cv. split; [|by eexists _, _].
    eapply (H50 _ _ _ (at_level t h 0 lo + i)%nat); [exact Cv|lia|lia|lia].
Qed.

Lemma left_inv_start vo : fresh_vo vo -> left_inv t h lo vo h vo.
Proof.
  intros [Fh _ Fl _]. exists (leftvo vo). split; [by apply fresh_side|]. rewrite Nat.sub_diag.
  destruct vo; simpl in *. by rewrite Fh.
Qed.

Lemma right_inv_start vo : length (rightvo vo) = 10%nat /\ Forall (fun v => nodevo_ok v /\ nhash v = []) (rightvo vo) ->
  right_inv t h hi vo h (set_height 0 vo).
Proof.
  intros Fr. exists (rightvo vo). split; [by apply fresh_side|]. rewrite Nat.sub_diag. by destruct vo.
Qed.

Lemma query_runs vo : fresh_vo vo ->
  runs (bplus_tree_get_range_disk_vo key1 key2 [] vo []) m (fun q m' => m' = m /\ answer (q_vo q) /\
    q_result q = slice lo (S hi) T /\ q_keys q = slice lo (S hi) K).
Proof.
  intros Hf. pose proof Hf as [Fh Fd Fl Fr]. assert (key1 <= key2) as Hkk by (by eapply (key_le m t h K T Hix lo hi)).
  unfold bplus_tree_get_range_disk_vo. apply runs_bind, runs_get_tree.
  destruct (Z.leb_spec key1 key2); [|lia]. cbv zeta. rewrite Z.eqb_refl.
  rewrite (ix_level _ _ _ _ _ Hix), (ix_root _ _ _ _ _ Hix), Nat2Z.id.
  (* the left path and its leaf *)
  apply runs_bind. eapply runs_ext; [apply left_path_walk|]. eapply runs_wand.
  { apply (path_runs m t h K T Hix Hh _ (left_inv t h lo vo) lo); [lia| |by apply left_inv_start].
    intros. by eapply (left_step_yields m t h K T Hix lo key1); try done; lia. }
  intros [tmp1 vo1] m1 (-> & l & ds & n & Ht & Hl & Hinv1).
  cbn [fst snd] in Ht, Hinv1. subst tmp1. eapply runs_bind, runs_lift; [reflexivity|].
  eapply runs_bind, runs_load_lf; [apply (ls_node _ _ _ _ _ _ _ _ _ Hl)|].
  destruct (left_leaf_yields m t h K T Hix lo key1 l ds n vo vo1 ltac:(lia) Hl HK1 Hinv1) as (vo2 & E2 & vs & -> & Hvs).
  eapply runs_bind, runs_lift; [exact E2|].
  (* the scan *)
  pose proof (leaf_search m t h K T Hix lo key1 l ds n Hl HK1) as Es.
  eapply runs_bind, runs_bind, runs_load_lf; [apply (ls_node _ _ _ _ _ _ _ _ _ Hl)|].
  eapply runs_bind, runs_lift; [exact Es|]. rewrite (proj2 (Z.ltb_ge _ _)) by lia. apply runs_ret.
  apply runs_bind. eexists _, m. split; [reflexivity|].
  apply runs_bind. eapply runs_wand.
  { apply (scan_runs m t h K T Hix lo hi key1 key2 Hlohi Hhi HK1 HK2 (set_height (Z.of_nat h) (set_leftvo vs vo)) Hpl);
      [|pose proof (scan_fuel_enough m t h K T Hix); lia].
    split; cbn [q_vo q_result q_keys vdata set_height set_leftvo].
    - lia.
    - by exists ds, n.
    - pose proof (ls_range _ _ _ _ _ _ _ _ _ Hl). rewrite Nat.max_r, slice_nil by lia. constructor.
    - done.
    - rewrite Fd. simpl length. lia.
    - intros p Hp. lia.
    - by rewrite slice_nil by lia.
    - by rewrite slice_nil by lia. }
  intros [nodedata q] m2 (-> & l' & Hs). cbn [fst snd] in Hs.
  destruct (scan_done _ _ _ _ Hs) as (Hdata & Hlen & Hstrs).
  destruct Hs as [_ _ _ Sv _ _ Sres Sk]. cbv zeta.
  (* the right path and its leaf *)
  set (vo3 := set_vdata (vdata (q_vo q) ++ [nodedata]) (q_vo q)).
  apply runs_bind. eapply runs_ext; [apply right_path_walk|]. eapply runs_wand.
  { apply (path_runs m t h K T Hix Hh _ (right_inv t h hi vo3) hi); [lia| |apply right_inv_start; unfold vo3; by rewrite Sv].
    intros. by eapply (right_step_yields m t h K T Hix hi key2); try done; lia. }
  intros [tmp3 vo4] m3 (-> & l2 & ds2 & n2 & Ht & Hl2 & Hinv4).
  cbn [fst snd] in Ht, Hinv4. subst tmp3. eapply runs_bind, runs_lift; [reflexivity|].
  eapply runs_bind, runs_load_lf; [apply (ls_node _ _ _ _ _ _ _ _ _ Hl2)|].
  destruct (right_leaf_yields m t h K T Hix hi key2 l2 ds2 n2 vo3 vo4 ltac:(lia) Hl2 HK2 Hinv4) as (vo5 & E5 & ws & -> & Hws).
  eapply runs_bind, runs_lift; [exact E5|]. apply runs_ret. split; [done|]. split; [|done].
  split; try done; cbn [q_vo]. unfold vo3. rewrite Sv. done.
Qed.

End Query.

(** ** Queries that are undefined *)

Section Undefined.
Context `{HashFn} `{Malloc}.
Context (m : mem) (t : mtree) (h : nat) (K : list Z) (T : list ItemPointerData) (Hix : indexed m t h K T).

(** A tree without non-leaf: the leaf the path ends at is the NULL pointer. *)
Lemma query_one_leaf vo key1 key2 : h = 0%nat -> bplus_tree_get_range_disk_vo key1 key2 [] vo [] m = None.
Proof.
  intros ->. unfold bplus_tree_get_range_disk_vo. eapply bind_to; [reflexivity|]. cbv zeta.
  rewrite (ix_level _ _ _ _ _ Hix). reflexivity.
Qed.

Context (Hh : (0 < h)%nat) (lo : nat) (key1 : Z) (Hlo : (lo < length (strings t))%nat) (HK1 : K !! lo = Some key1).

(** A query from a key of the tree comes to its scan. *)
Lemma query_stuck vo max : key1 <= max -> fresh_vo vo ->
  (forall l ds n q, leaf_of_string m t h K T lo l ds n ->
     scan (51 * base.size (nodes m) + 51) (Some l) (Z.of_nat (lo - start (leaf_strings t h) (at_level t h 0 lo))) key1 max max [] q m = None) ->
  bplus_tree_get_range_disk_vo key1 max [] vo [] m = None.
Proof.
  intros Hkk Hf Hscan. unfold bplus_tree_get_range_disk_vo. eapply bind_to; [reflexivity|].
  destruct (Z.leb_spec key1 max); [|lia]. cbv zeta. rewrite Z.eqb_refl.
  rewrite (ix_level _ _ _ _ _ Hix), (ix_root _ _ _ _ _ Hix), Nat2Z.id.
  destruct (path_runs m t h K T Hix Hh (left_step key1) (left_inv t h lo vo) lo vo Hlo) as ([tmp1 vo1] & m1 & E1 & -> & l & ds & n & Ht & Hl & Hinv).
  { intros. by eapply (left_step_yields m t h K T Hix lo key1). }
  { by apply left_inv_start. }
  rewrite <- left_path_walk in E1. cbn [fst snd] in Ht, Hinv. subst tmp1.
  eapply bind_to; [exact E1|]. eapply bind_to; [reflexivity|].
  eapply bind_to; [apply load_lf_eq, (ls_node _ _ _ _ _ _ _ _ _ Hl)|].
  destruct (left_leaf_yields m t h K T Hix lo key1 l ds n vo vo1 Hlo Hl HK1 Hinv) as (vo2 & E2 & _).
  eapply bind_to; [unfold lift; by rewrite E2|].
  eapply (bind_to (scan_start l key1) _ m (Some l, Z.of_nat (lo - start (leaf_strings t h) (at_level t h 0 lo)))).
  { unfold scan_start. eapply bind_to; [apply load_lf_eq, (ls_node _ _ _ _ _ _ _ _ _ Hl)|].
    eapply bind_to; [unfold lift; by rewrite (leaf_search m t h K T Hix lo key1 l ds n Hl HK1)|].
    by rewrite (proj2 (Z.ltb_ge _ _)) by lia. }
  eapply bind_to; [reflexivity|]. unfold mbind, M_bind. by rewrite (Hscan l ds n _ Hl).
Qed.

(** The bytes behind the variable [data1] are read with the first string. *)
Lemma query_strict vo max : key1 <= max -> fresh_vo vo -> past_local < 24 ->
  bplus_tree_get_range_disk_vo key1 max [] vo [] m = None.
Proof.
  intros Hkk Hf Hp. apply query_stuck; [done|done|]. intros l ds n q Hl.
  destruct (scan_entry m t h K T Hix lo l ds n Hlo Hl) as (k & d & s & c & tq & Hk & Hkj & Hdj & Cd & Hs33 & _).
  rewrite HK1 in Hk. injection Hk as <-. destruct (strcpy_cstr (fresh_bytes 33) d s Cd) as (d1 & Ed1 & _); [rewrite fresh_zlen; lia|].
  replace (51 * base.size (nodes m) + 51)%nat with (S (51 * base.size (nodes m) + 50)) by lia. cbn [scan].
  eapply bind_to; [reflexivity|]. eapply bind_to; [apply load_lf_eq, (ls_node _ _ _ _ _ _ _ _ _ Hl)|].
  eapply bind_to; [unfold lift; by rewrite aget_nat, Hkj|]. destruct (Z.leb_spec key1 max); [|lia].
  eapply bind_to; [unfold lift; by rewrite aget_nat, Hdj|]. eapply bind_to; [unfold lift; by rewrite Ed1|].
  unfold mbind, M_bind, lift, push_variable, SIZEOF_PGVECTOR. by rewrite (proj2 (Z.leb_gt _ _)) by lia.
Qed.

(** A bound that no key exceeds: the scan comes to the pointer behind the last leaf and
    reads the key it points to. *)
Lemma query_last vo max : (forall i k, K !! i = Some k -> k <= max) -> fresh_vo vo ->
  bplus_tree_get_range_disk_vo key1 max [] vo [] m = None.
Proof.
  intros Hmax Hf. pose proof (Hmax lo key1 HK1) as Hkk. destruct (decide (past_local < 24)) as [|Hp]; [by apply query_strict|].
  apply query_stuck; [done|done|]. intros l ds n q Hl. assert (24 <= past_local) as Hp' by lia.
  destruct (scan_falls_off m t h K T Hix key1 max max (51 * base.size (nodes m) + 51) lo l ds n [] q Hmax Hp' Hl Hlo)
    as (fuel' & q' & ->); [|by destruct fuel'].
  pose proof (scan_fuel_enough m t h K T Hix). lia.
Qed.

End Undefined.
