(* ===== verification/Pipeline.v ===== *)
(** * From the query to the root hash

    The whole way of an authenticated range query: the query on the tree, the
    verification object and the maps of child numbers on the wire, and the
    reconstruction of the root hash from what arrives. *)

From S2P Require Import Prelude CMem Codec Hashmap Node NodeCodec Heap Ring Insert Store LeafSpec Merkle Vo HmCodec.
From S2P Require Import RangeQuery Reconstruct ReconstructSpec ReconstructRoot QuerySpec RangeSpec.

(** ** The maps of child numbers *)

Section ChildMaps.
Context `{HashFn}.
Context (t : mtree) (h : nat).

(** The map of level [k]: the numbers of the children of every node. *)
Definition child_map (k : nat) : gmap Z (option (list Z)) :=
  match k with
  | O => ∅
  | S _ => if decide (k <= h)%nat
           then map_seqZ 0 (imap (fun p g => Some (ids_of (start (groups t h k) p) (length g))) (groups t h k))
           else ∅
  end.

Definition child_maps : list (gmap Z (option (list Z))) := map child_map (seq 0 10).

Lemma child_map_lookup k p g : (0 < k <= h)%nat -> groups t h k !! p = Some g ->
  child_map k !! Z.of_nat p = Some (Some (ids_of (start (groups t h k) p) (length g))).
Proof.
  intros Hk Hg. destruct k as [|k]; [lia|]. unfold child_map. rewrite decide_True by lia.
  rewrite lookup_map_seqZ, option_guard_True by lia. rewrite Z.sub_0_r, Nat2Z.id.
  by rewrite list_lookup_imap, Hg.
Qed.

Lemma child_maps_fit (hashp : list (Hashmap (list Z))) :
  bounded t h -> Forall2 hm_rep hashp child_maps -> fits_maps t h hashp.
Proof.
  intros Hok Hr k p g Hk Hg. pose proof (bd_height _ _ Hok). pose proof (bd_few _ _ Hok (h - k) ltac:(lia)) as Hfew.
  pose proof (lookup_lt_Some _ _ _ Hg) as Hp. unfold groups in Hp. rewrite length_map in Hp.
  assert (child_maps !! k = Some (child_map k)) as Hc.
  { unfold child_maps. change (map child_map ?l) with (child_map <$> l). by rewrite list_lookup_fmap, lookup_seq_lt by lia. }
  destruct (Forall2_lookup_r _ _ _ _ _ Hr Hc) as (hm & Hhm & Hrep).
  unfold node_children. rewrite aget_nat, Hhm. cbn [mbind option_bind].
  rewrite (hashmap_get_rep _ _ _ Hrep) by (unfold in_s; lia).
  by rewrite (child_map_lookup k p g Hk Hg).
Qed.

End ChildMaps.

(** ** The answer on the wire *)

Section Answer.
Context `{HashFn}.
Context (t : mtree) (h lo hi : nat).

Lemma answer_fits hashp vo : answer t h lo hi vo -> fits_maps t h hashp ->
  fits t h lo hi hashp vo /\ fits_left t h lo vo 0.
Proof.
  intros [Ah (_ & _ & Al) (_ & _ & Ar) Ad _ _] Hm.
  assert (forall bs ps, Forall2 hslot bs ps -> cats bs ps) as Hc.
  { intros bs ps Hbs. eapply Forall2_impl; [exact Hbs|]. by intros b p (? & _). }
  assert (forall k, (k <= h)%nat -> fits_left t h lo vo k) as Hl.
  { intros k Hk. destruct (Al k Hk) as (v & Hv & Hid & Hhs). exists v. auto. }
  split; [split|apply Hl; lia]; try done.
  - intros k Hk. apply Hl. lia.
  - intros k Hk. destruct (Ar k Hk) as (v & Hv & Hid & Hhs). exists v. auto.
Qed.

(** The object that arrives is as good. *)
Lemma answer_sent vo vo' : answer t h lo hi vo -> traverse_height vo' = traverse_height vo ->
  leftvo vo' = leftvo vo -> rightvo vo' = rightvo vo ->
  Forall2 (Forall2 (fun b' b => cstr b' = cstr b)) (vdata vo') (vdata vo) -> answer t h lo hi vo'.
Proof.
  intros [Ah Al Ar Ad Alen As] Eh El Er Ed.
  assert (forall v' v ps, Forall2 (fun b' b => cstr b' = cstr b) v' v -> cats v ps -> cats v' ps) as Hc.
  { intros v' v ps Hv. revert ps. induction Hv as [|b' b v' v Hb _ IH]; intros ps Hp; inversion Hp; subst.
    - constructor.
    - constructor; [congruence|by apply IH]. }
  split; try by rewrite ?Eh, ?El, ?Er.
  - intros p Hp. destruct (Ad p Hp) as (v & Hv & Cv).
    destruct (Forall2_lookup_r _ _ _ _ _ Ed Hv) as (v' & Hv' & Hvv). exists v'. split; [done|]. by eapply Hc.
  - by rewrite (Forall2_length _ _ _ Ed).
  - apply Forall_lookup. intros i v' Hv'. destruct (Forall2_lookup_l _ _ _ _ _ Ed Hv') as (v & Hv & Hvv).
    destruct (Forall_lookup_1 _ _ _ _ As Hv) as (L50 & a & b & Hab). rewrite (Forall2_length _ _ _ Hvv).
    split; [done|]. exists a, b. by eapply Hc.
Qed.

Context (Hok : bounded t h) (Hhi : (S hi < length (strings t))%nat).

Lemma strings_few : Z.of_nat (length (strings t)) < 2 ^ 40.
Proof.
  pose proof (concat_bound _ _ (leaf_strings_sizes t h Hok)) as Hc.
  unfold leaf_strings in Hc. rewrite (layer_strings t h h (bd_bal _ _ Hok) (Nat.le_refl _)), length_map in Hc.
  pose proof (bd_few _ _ Hok h (Nat.le_refl _)). lia.
Qed.

Lemma cats_slice_ok v a b : cats v (slice a b (strings t)) -> Forall string_ok v.
Proof.
  intros Hv.
  assert (Forall (fun x => Forall byteb x /\ zlen x < hash_limit) (slice a b (strings t))) as Hs
    by (unfold slice; apply Forall_take, Forall_drop, Hok).
  clear -Hv Hs. induction Hv as [|c s cs ss Hc _ IH]; constructor; apply Forall_cons in Hs as [[_ Hlim] Hs]; [|auto].
  exists s. split; [done|]. pose proof (zlen_nonneg s). unfold in_u, hash_limit in *. lia.
Qed.

Lemma answer_vo_ok vo : answer t h lo hi vo -> vo_ok vo.
Proof.
  intros [Ah (Ll & Lok & _) (Rl & Rok & _) _ Alen As]. pose proof (bd_height _ _ Hok). split; try done.
  - rewrite Ah. unfold in_s. lia.
  - pose proof (bd_few _ _ Hok h (Nat.le_refl _)). unfold zlen. lia.
  - eapply Forall_impl; [exact As|]. intros v (L50 & a & b & Hv). split; [unfold zlen; lia|by eapply cats_slice_ok].
  - unfold zlen. by rewrite Ll.
  - unfold zlen. by rewrite Rl.
Qed.

End Answer.

(** ** The theorems *)


(** C15. Where the range query is undefined although its keys are in the tree: on a tree that
    consists of one leaf (the path down ends at a NULL pointer); for an upper bound that
    no key exceeds, the last key included (the scan goes on to the pointer behind the
    last leaf, which is computed from the head of the list, and reads the key it points
    to); and for every range where fewer than 24 bytes behind a pointer variable can be
    read, as the C standard has it. *)
Theorem range_query_undefined `{HashFn} `{Malloc} (m : mem) (t : mtree) (h : nat) (K : list Z)
    (T : list ItemPointerData) (lo : nat) (key1 key2 : Z) (vo : rangevo) :
  indexed m t h K T -> fresh_vo vo -> K !! lo = Some key1 -> key1 <= key2 ->
  h = 0%nat \/ (forall i k, K !! i = Some k -> k <= key2) \/ past_local < 24 ->
  bplus_tree_get_range_disk_vo key1 key2 [] vo [] m = None.
Proof.
  intros Hix Hf HK1 Hkk Hc. destruct (decide (h = 0%nat)) as [E|Hne]; [by eapply query_one_leaf|].
  assert (lo < length (strings t))%nat as Hlo by (rewrite <- (ix_lenK _ _ _ _ _ Hix); by eapply lookup_lt_Some).
  assert (0 < h)%nat as Hh by lia.
  destruct Hc as [Hc|[Hc|Hc]]; [done|by eapply query_last|by eapply query_strict].
Qed.


(** ** A tree with two leaves to evaluate the properties on *)

Definition pad (n : nat) (l : list (list Z)) : list (list Z) :=
  map (fun s => s ++ zeros (33 - length s)) l ++ replicate (n - length l) (zeros 33).

(** A leaf with two entries; its item pointers are in the cells [c] and [S c]. *)
Definition two_leaf (lk : node_list_head) (c : nat) (k1 k2 : Z) (s1 s2 : list Z) (id : Z) : bplus_leaf :=
  mkLeaf (mkNode 0 0 (Some 0%nat) lk 2 (Some c :: Some (S c) :: replicate 48 None))
    (k1 :: k2 :: zeros 48) (pad 50 [s1; s2]) (pad 50 [checksum s1; checksum s2])
    (checksum (checksum s1 ++ checksum s2) ++ [0]) id 0.

Definition two_root : bplus_non_leaf :=
  let a := @mhash demo_checksum (MLeaf 1 [demo_word 97; demo_word 98]) in
  let b := @mhash demo_checksum (MLeaf 2 [demo_word 99; demo_word 100]) in
  mkNonLeaf (mkNode 1 (-1) None (mkLink (LHead 1) (LHead 1)) 2 (replicate 50 None))
    (30 :: zeros 48) (Some 1%nat :: Some 2%nat :: replicate 48 None) (pad 50 [a; b])
    (checksum (a ++ b) ++ [0]) (zeros 50) 0 0.

Definition two_T : list ItemPointerData := [mkTid 0 1 1; mkTid 0 1 2; mkTid 0 2 1; mkTid 0 2 2].

Definition two_mem : mem :=
  mkMem (mkTree 5 5 1 (Some 0%nat)
      (mkLink (LNode 2) (LNode 1) :: mkLink (LNode 0) (LNode 0) ::
       map (fun i => mkLink (LHead (Z.of_nat i)) (LHead (Z.of_nat i))) (seq 2 8)) 0 0)
    (<[0%nat := NonLeaf two_root]>
      (<[1%nat := Leaf (two_leaf (mkLink (LHead 0) (LNode 2)) 0 10 20 (demo_word 97) (demo_word 98) 0)]>
        (<[2%nat := Leaf (two_leaf (mkLink (LNode 1) (LHead 0)) 2 30 40 (demo_word 99) (demo_word 100) 1)]> ∅)))
    3 (mkTidMem (list_to_map (zip (seq 0 4) two_T)) 4) ∅.

Lemma two_node0 : nodes two_mem !! 0%nat = Some (NonLeaf two_root).
Proof. reflexivity. Qed.
Lemma two_node1 : nodes two_mem !! 1%nat
  = Some (Leaf (two_leaf (mkLink (LHead 0) (LNode 2)) 0 10 20 (demo_word 97) (demo_word 98) 0)).
Proof. reflexivity. Qed.
Lemma two_node2 : nodes two_mem !! 2%nat
  = Some (Leaf (two_leaf (mkLink (LNode 1) (LHead 0)) 2 30 40 (demo_word 99) (demo_word 100) 1)).
Proof. reflexivity. Qed.

Lemma two_rep : rep (nodes two_mem) demo_two.
Proof.
  split.
  - eexists. split; [reflexivity|]. split_and!; [done| |done|done|done]. split; reflexivity || eval_dec.
  - apply all_Forall. repeat constructor; (eexists; split; [reflexivity|]);
      (split_and!; [done|split; reflexivity || eval_dec|done|done|]); repeat constructor; eval_dec.
Qed.

Lemma two_hashed : @hashed demo_checksum (nodes two_mem) demo_two.
Proof.
  split.
  - eexists. split; [reflexivity|]. split; [repeat constructor; eval_dec|split; eval_dec].
  - apply all_Forall. repeat constructor; (eexists; split; [reflexivity|]);
      (split; [repeat constructor; eval_dec|split; eval_dec]).
Qed.

Lemma two_indexed : @indexed demo_checksum two_mem demo_two 1 [10; 20; 30; 40] two_T.
Proof.
  split; try reflexivity.
  - exact two_rep.
  - exact two_hashed.
  - exact demo_bounded.
  - split; [eval_dec|]. repeat split; reflexivity.
  - repeat constructor; lia.
  - repeat constructor; discriminate.
  - intros [|[|p]] l ds n Hl Hn; [| |by destruct p]; injection Hl as <- <-;
      [rewrite two_node1 in Hn|rewrite two_node2 in Hn]; injection Hn as <-; (split; [reflexivity|reflexivity|]);
      intros [|[|j]] c Hj Hc; try (exfalso; clear -Hj; vm_compute in Hj; lia); injection Hc as <-;
      eexists; split; reflexivity.
  - intros k p l ts n Hk Hl Hn. assert (k = 0%nat) as -> by lia. destruct p as [|p]; [|by destruct p].
    injection Hl as <- <-. rewrite two_node0 in Hn. injection Hn as <-. exists [30]. split; try reflexivity.
    + by eexists.
    + repeat constructor. discriminate.
    + repeat constructor.
    + intros [|j] s Hs; [|by destruct j]. injection Hs as <-.
      intros [|[|[|[|i]]]] y Hy; try (by destruct i); injection Hy as <-; vm_compute first; lia.
Qed.

Definition two_vo : rangevo := mkRangevo 3 (replicate 10 (mkNodevo 5 6 [])) (replicate 10 (mkNodevo 7 8 [])) [] [] [] 0.

Lemma two_fresh : fresh_vo (rangevo_init two_vo 8192).
Proof. apply rangevo_init_fresh; [done|done|eval_dec]. Qed.



(** Up to the last key of the tree; and a range inside it, where nothing behind a variable
    can be read. *)
#[local, refine] Instance strict_malloc : Malloc := {|
  malloc_platform := strict; fresh_leaf _ := blank_leaf; fresh_non_leaf _ := blank_non_leaf;
  fresh_tid _ := mkTid 0 0 0; fresh_bytes n := zeros n
|}.
Proof.
  - intros. exact blank_leaf_wf.
  - intros. exact blank_non_leaf_wf.
  - intros. apply length_replicate.
Defined.

Lemma range_query_undefined_witness :
  @bplus_tree_get_range_disk_vo demo_malloc 20 40 [] (rangevo_init two_vo 8192) [] two_mem = None /\
  @bplus_tree_get_range_disk_vo strict_malloc 20 30 [] (rangevo_init two_vo 8192) [] two_mem = None.
Proof.
  split.
  - apply (@range_query_undefined demo_checksum demo_malloc two_mem demo_two 1 [10; 20; 30; 40] two_T 1 20 40);
      [exact two_indexed|exact two_fresh|reflexivity|lia|].
    right. left. intros [|[|[|[|i]]]] k Hk; try (injection Hk as <-; lia). discriminate Hk.
  - apply (@range_query_undefined demo_checksum strict_malloc two_mem demo_two 1 [10; 20; 30; 40] two_T 1 20 30);
      [exact two_indexed|exact two_fresh|reflexivity|lia|]. right. right. reflexivity.
Defined.
