(* ===== verification/Numbering.v ===== *)
(** * What the numbering of the nodes computes

    [set_node_id] walks the ring of every level.  On a tree whose levels are
    linked from left to right, every node gets its position in its level, and
    the maps of child numbers are those the reconstruction needs.  Together with
    [hashcompute], this makes a tree with keys an [indexed] tree: what the server
    does before it answers queries. *)

From S2P Require Import Prelude CMem Codec Hashmap Node NodeCodec Heap Ring Insert Store Merkle Vo HmCodec.
From S2P Require Import Reconstruct ReconstructSpec ReconstructRoot QuerySpec RangeSpec Pipeline.

(** ** Walking a ring *)

(** The loop that all walks over a level share. *)
Fixpoint ring_walk {S} (step : loc -> S -> M S) (fuel : nat) (i : Z) (l : loc) (s : S) : M S :=
  match fuel with
  | O => ub
  | Datatypes.S fuel' =>
      do s <- step l s;
      do last <- is_last_of_level l i;
      if last : bool then mret s
      else
        do nx <- list_next_entry l;
        do nx <- deref nx;
        ring_walk step fuel' i nx s
  end.

Lemma ring_walk_S {S} (step : loc -> S -> M S) fuel i l s :
  ring_walk step (Datatypes.S fuel) i l s
  = (do s <- step l s;
     do last <- is_last_of_level l i;
     if last : bool then mret s
     else do nx <- list_next_entry l; do nx <- deref nx; ring_walk step fuel i nx s).
Proof. done. Qed.

(** The monad laws, memory by memory. *)
Lemma bind_cong {A B} (e : M A) (f g : A -> M B) m : (forall x m', f x m' = g x m') -> (e ≫= f) m = (e ≫= g) m.
Proof. intros Hfg. unfold mbind, M_bind. destruct (e m) as [[x m']|]; [apply Hfg|done]. Qed.

Lemma bind_assoc {A B C} (e : M A) (f : A -> M B) (g : B -> M C) m :
  ((e ≫= f) ≫= g) m = (e ≫= fun x => f x ≫= g) m.
Proof. unfold mbind, M_bind. by destruct (e m) as [[x m']|]. Qed.

Lemma ret_bind {A B} (x : A) (f : A -> M B) m : (mret x ≫= f) m = f x m.
Proof. done. Qed.

Ltac bind_norm := repeat first [rewrite bind_assoc | rewrite ret_bind].
Ltac bind_step := bind_norm; apply bind_cong; intros ? ?.
(** The end of a round of a walk. *)
Ltac walk_end IH := bind_norm; apply bind_cong; intros [] ?; [done|]; bind_step; bind_step; apply IH.

Lemma runs_is_last m lv ls p l (Q : bool -> mem -> Prop) : ring m lv ls -> ls !! p = Some l ->
  Q (bool_decide (length ls = S p)) m -> runs (is_last_of_level l lv) m Q.
Proof.
  intros Hr Hl HQ. assert (exists r, nxt m (LNode l) = Some r /\ (r = LHead lv <-> length ls = S p)) as (r & Hn & Hiff).
  { pose proof (lookup_lt_Some _ _ _ Hl). destruct (decide (length ls = S p)) as [E|Hne].
    - exists (LHead lv). split; [by eapply ring_last|done].
    - destruct (lookup_lt_is_Some_2 ls (S p)) as [l' Hl']; [lia|]. exists (LNode l').
      split; [by eapply ring_next|done]. }
  unfold nxt in Hn. apply fmap_Some in Hn as (k & Hk & ->).
  eapply runs_bind, runs_load_link; [exact Hk|]. apply runs_ret. by rewrite (bool_decide_ext _ _ Hiff).
Qed.

Lemma ring_walk_runs {S} (step : loc -> S -> M S) i ls (Inv : nat -> S -> mem -> Prop) :
  (forall p s m, Inv p s m -> ring m i ls) ->
  (forall p l s m, ls !! p = Some l -> Inv p s m -> runs (step l s) m (Inv (Datatypes.S p))) ->
  forall fuel p l s m, ls !! p = Some l -> Inv p s m -> (length ls - p <= fuel)%nat ->
    runs (ring_walk step fuel i l s) m (Inv (length ls)).
Proof.
  intros Hring Hstep. induction fuel as [|fuel IH]; intros p l s m Hl Hi Hf;
    pose proof (lookup_lt_Some _ _ _ Hl); [lia|].
  cbn [ring_walk]. eapply runs_bind, runs_wand; [by eapply Hstep|]. intros s1 m1 H1.
  pose proof (Hring _ _ _ H1) as Hr. eapply runs_bind, runs_is_last; [exact Hr|exact Hl|].
  case_bool_decide as Hlast; [apply runs_ret; by rewrite Hlast|].
  destruct (lookup_lt_is_Some_2 ls (Datatypes.S p)) as [l' Hl']; [lia|].
  eapply runs_bind, runs_list_next_entry; [by eapply ring_next|]. eapply runs_bind, runs_lift; [reflexivity|].
  apply (IH (Datatypes.S p)); [done|done|lia].
Qed.

(** ** Layers *)

Lemma layer_S d t : layer (S d) t = concat (map (layer d) (kids t)).
Proof.
  induction d as [|d IH].
  - simpl. rewrite app_nil_r. induction (kids t) as [|x l IHl]; simpl; [done|]. by rewrite <- IHl.
  - change (layer (S (S d)) t) with (concat (map kids (layer (S d) t))). rewrite IH.
    rewrite concat_map, concat_concat, !map_map. done.
Qed.

Lemma layer_below d t l : l ∈ map mloc (layer (S d) t) -> exists c, c ∈ kids t /\ l ∈ map mloc (layer d c).
Proof.
  rewrite layer_S, concat_map, map_map. intros (x & Hx & Hl)%list_elem_of_In%in_concat.
  apply in_map_iff in Hx as (c & <- & Hc). apply list_elem_of_In in Hc, Hl. by exists c.
Qed.

Lemma layer_mlocs d t l : l ∈ map mloc (layer d t) -> l ∈ mlocs t.
Proof.
  revert t l. induction d as [|d IH]; intros t l.
  - simpl. intros ->%list_elem_of_singleton. destruct t; left.
  - intros (c & Hc & Hl)%layer_below. destruct t as [l0 ds|l0 ts]; [by apply elem_of_nil in Hc|].
    eapply mlocs_child; [exact Hc|]. by apply IH.
Qed.

Lemma layer_NoDup d t : NoDup (mlocs t) -> NoDup (map mloc (layer d t)).
Proof.
  revert t. induction d as [|d IH]; intros t Hnd; [apply NoDup_singleton|].
  rewrite layer_S, concat_map, map_map. destruct t as [l0 ds|l0 ts]; [constructor|].
  apply NoDup_cons in Hnd as [_ Hnd]. simpl kids. induction ts as [|c ts IHts]; simpl in *; [constructor|].
  apply NoDup_app in Hnd as (H1 & H2 & H3). apply NoDup_app. split_and!; [by apply IH| |by apply IHts].
  intros x Hx (y & Hy & Hxy)%list_elem_of_In%in_concat. apply in_map_iff in Hy as (c' & <- & Hc').
  apply list_elem_of_In in Hc', Hxy. apply (H2 x); [by eapply layer_mlocs|].
  eapply mlocs_concat; [exact Hc'|]. by eapply layer_mlocs.
Qed.

(** Different layers have different nodes. *)
Lemma root_not_below d t : NoDup (mlocs t) -> ~ mloc t ∈ map mloc (layer (S d) t).
Proof.
  intros Hnd (c & Hc & Hl)%layer_below. destruct t as [l0 ds|l0 ts]; [by apply elem_of_nil in Hc|].
  apply NoDup_cons in Hnd as [Hn _]. apply Hn. eapply mlocs_concat; [exact Hc|]. by eapply layer_mlocs.
Qed.

Lemma layer_disjoint d d' t l :
  NoDup (mlocs t) -> l ∈ map mloc (layer d t) -> l ∈ map mloc (layer d' t) -> d = d'.
Proof.
  revert d' t. induction d as [|d IH]; intros [|d'] t Hnd Hl Hl'; [done| | |f_equal].
  - simpl in Hl. apply list_elem_of_singleton in Hl as ->. by destruct (root_not_below d' t).
  - simpl in Hl'. apply list_elem_of_singleton in Hl' as ->. by destruct (root_not_below d t).
  - apply layer_below in Hl as (c & Hc & Hl), Hl' as (c' & Hc' & Hl').
    destruct t as [l0 ds|l0 ts]; [by apply elem_of_nil in Hc|]. apply NoDup_cons in Hnd as [_ Hnd]. simpl kids in *.
    apply list_elem_of_lookup in Hc as [i Hi], Hc' as [j Hj].
    assert (i = j) as -> by (eapply (mlocs_disjoint ts); [done|exact Hi|exact Hj|by eapply layer_mlocs|by eapply layer_mlocs]).
    rewrite Hi in Hj. injection Hj as <-. apply (IH d' c); [by eapply mlocs_child_NoDup|done|done].
Qed.

Lemma layer_child d t p l ts c : layer d t !! p = Some (MNode l ts) -> (c < length ts)%nat ->
  layer (S d) t !! (start (map kids (layer d t)) p + c)%nat = ts !! c.
Proof.
  intros Hp Hc. simpl. apply concat_lookup; [|done].
  change (map kids ?x) with (kids <$> x). by rewrite list_lookup_fmap, Hp.
Qed.

(** ** Memories that differ in numbers *)

Definition set_id (id pid : Z) (n : node) : node :=
  match n with NonLeaf n => NonLeaf (set_nl_ids id pid n) | Leaf n => Leaf (set_lf_ids id pid n) end.

Definition node_id (n : node) : Z := match n with NonLeaf n => nl_node_id n | Leaf n => lf_node_id n end.

Definition parent_id (n : node) : Z := match n with NonLeaf n => nl_parent_id n | Leaf n => lf_parent_id n end.

(** All numbers are 64-bit integers. *)
Definition ids_ok (m : mem) : Prop :=
  forall l n, nodes m !! l = Some n -> in_s 64 (node_id n) /\ in_s 64 (parent_id n).

Lemma ids_ok_store m l n id pid : ids_ok m -> in_s 64 id -> in_s 64 pid ->
  ids_ok (set_nodes (<[l := set_id id pid n]> (nodes m)) m).
Proof.
  intros Hok Hid Hpid l' n' Hn'. simpl in Hn'. destruct (decide (l = l')) as [<-|Hne].
  - rewrite lookup_insert_eq in Hn'. injection Hn' as <-. by destruct n.
  - rewrite lookup_insert_ne in Hn' by done. by eapply Hok.
Qed.

Definition renumbered (n n' : node) : Prop := exists id pid, n' = set_id id pid n.

Lemma renumbered_refl n : renumbered n n.
Proof. destruct n as [[]|[]]; by eexists _, _. Qed.

Lemma renumbered_trans n1 n2 n3 : renumbered n1 n2 -> renumbered n2 n3 -> renumbered n1 n3.
Proof. intros (a & b & ->) (c & d & ->). exists c, d. by destruct n1. Qed.

Record ids_only (m m' : mem) : Prop := {
  io_tree : tree m' = tree m;
  io_next : next_loc m' = next_loc m;
  io_tmem : tmem m' = tmem m;
  io_disk : disk m' = disk m;
  io_nodes l : option_Forall2 renumbered (nodes m !! l) (nodes m' !! l)
}.

Lemma ids_only_refl m : ids_only m m.
Proof. split; try done. intros l. destruct (nodes m !! l); constructor. apply renumbered_refl. Qed.

Lemma ids_only_trans m1 m2 m3 : ids_only m1 m2 -> ids_only m2 m3 -> ids_only m1 m3.
Proof.
  intros [? ? ? ? N1] [? ? ? ? N2]. split; [congruence..|]. intros l. specialize (N1 l). specialize (N2 l).
  destruct N1 as [n1 n2 H12|]; inversion N2; constructor. by eapply renumbered_trans.
Qed.

Lemma ids_only_store m l n id pid : nodes m !! l = Some n ->
  ids_only m (set_nodes (<[l := set_id id pid n]> (nodes m)) m).
Proof.
  intros E. split; try done. intros l'. simpl. destruct (decide (l = l')) as [<-|Hne].
  - rewrite lookup_insert_eq, E. constructor. by exists id, pid.
  - rewrite lookup_insert_ne by done. apply (io_nodes _ _ (ids_only_refl m)).
Qed.

Lemma ids_only_lookup m m' l n : ids_only m m' -> nodes m !! l = Some n ->
  exists id pid, nodes m' !! l = Some (set_id id pid n).
Proof.
  intros [_ _ _ _ Hn] E. specialize (Hn l). rewrite E in Hn. inversion Hn as [? n' (id & pid & ->)|]; subst. by exists id, pid.
Qed.

Lemma ids_only_hdr m m' l : ids_only m m' -> node_hdr <$> nodes m' !! l = node_hdr <$> nodes m !! l.
Proof.
  intros [_ _ _ _ Hn]. destruct (Hn l) as [n n' (id & pid & ->)|]; [|done]. by destruct n.
Qed.

Lemma ids_only_link m m' r : ids_only m m' -> link_of m' r = link_of m r.
Proof.
  intros Hio. destruct r as [lv|l]; simpl; [by rewrite (io_tree _ _ Hio)|].
  pose proof (ids_only_hdr _ _ l Hio) as E. destruct (nodes m !! l), (nodes m' !! l); simpl in *; congruence.
Qed.

Lemma linked_same m m' a rs : (forall r, link_of m' r = link_of m r) -> linked m a rs -> linked m' a rs.
Proof.
  intros Hl. revert a. induction rs as [|b rs IH]; intros a; simpl; [done|]. unfold nxt, prv. rewrite !Hl.
  intros [? ?]. auto.
Qed.

Lemma ring_ids_only m m' lv ls : ids_only m m' -> ring m lv ls -> ring m' lv ls.
Proof. intros Hio [Hnd Hl]. split; [done|]. eapply linked_same; [|exact Hl]. intros r. by apply ids_only_link. Qed.

Lemma leaf_wf_ids n id pid : leaf_wf n -> leaf_wf (set_lf_ids id pid n).
Proof. by intros []. Qed.

Lemma non_leaf_wf_ids n id pid : non_leaf_wf n -> non_leaf_wf (set_nl_ids id pid n).
Proof. by intros []. Qed.

Lemma rep_ids_only m m' t : ids_only m m' -> rep (nodes m) t -> rep (nodes m') t.
Proof.
  intros Hio. induction t as [l ds|l ts IH] using mtree_ind'; simpl.
  - intros (n & E & Ht & Hw & Hr). destruct (ids_only_lookup _ _ _ _ Hio E) as (id & pid & E').
    exists (set_lf_ids id pid n). split; [exact E'|]. split; [exact Ht|]. split; [by apply leaf_wf_ids|exact Hr].
  - intros [(n & E & Ht & Hw & Hr) Hts]. destruct (ids_only_lookup _ _ _ _ Hio E) as (id & pid & E'). split.
    + exists (set_nl_ids id pid n). split; [exact E'|]. split; [exact Ht|]. split; [by apply non_leaf_wf_ids|exact Hr].
    + rewrite all_Forall, Forall_forall in *. auto.
Qed.

Lemma hashed_ids_only `{HashFn} m m' t : ids_only m m' -> hashed (nodes m) t -> hashed (nodes m') t.
Proof.
  intros Hio. induction t as [l ds|l ts IH] using mtree_ind'; simpl.
  - intros (n & E & Hr). destruct (ids_only_lookup _ _ _ _ Hio E) as (id & pid & E').
    exists (set_lf_ids id pid n). split; [exact E'|exact Hr].
  - intros [(n & E & Hr) Hts]. destruct (ids_only_lookup _ _ _ _ Hio E) as (id & pid & E'). split.
    + exists (set_nl_ids id pid n). split; [exact E'|exact Hr].
    + rewrite all_Forall, Forall_forall in *. auto.
Qed.

Lemma layer_rep_leaf ns t d p l ds : rep ns t -> layer d t !! p = Some (MLeaf l ds) ->
  exists n, ns !! l = Some (Leaf n) /\ leaf_rep n ds.
Proof.
  intros Hr Hp. by apply (Forall_lookup_1 _ _ _ _ (layer_Forall (rep ns) t d ltac:(by intros l' ts' [_ Ha%all_Forall]) Hr) Hp).
Qed.

Lemma layer_rep_node ns t d p l ts : rep ns t -> layer d t !! p = Some (MNode l ts) ->
  exists n, ns !! l = Some (NonLeaf n) /\ non_leaf_rep n (map mloc ts).
Proof.
  intros Hr Hp.
  by destruct (Forall_lookup_1 _ _ _ _ (layer_Forall (rep ns) t d ltac:(by intros l' ts' [_ Ha%all_Forall]) Hr) Hp) as [? _].
Qed.

(** ** Labelling a level *)

(** One round of the two loops. *)
Definition label_leaf (l : loc) (id : Z) : M Z :=
  do n <- load_lf l;
  do _ <- store_lf l (set_lf_ids id (lf_parent_id n) n);
  do _ <- match parent (lf_node n) with
          | Some p =>
              do pn <- load_nl p;
              do n <- load_lf l;
              store_lf l (set_lf_ids (lf_node_id n) (nl_node_id pn) n)
          | None => mret tt
          end;
  mret (id + 1).

Definition label_non_leaf (l : loc) (id : Z) : M Z :=
  do n <- load_nl l;
  do _ <- store_nl l (set_nl_ids id (nl_parent_id n) n);
  do _ <- match parent (nl_node n) with
          | Some p =>
              do pn <- load_nl p;
              do n <- load_nl l;
              store_nl l (set_nl_ids (nl_node_id n) (nl_node_id pn) n)
          | None => mret tt
          end;
  mret (id + 1).

Lemma label_leaves_walk fuel : forall i l id m,
  label_leaves fuel i l id m = (ring_walk label_leaf fuel i l id ≫= fun _ => mret tt) m.
Proof.
  induction fuel as [|fuel IH]; intros i l id m; [done|]. rewrite ring_walk_S. cbn [label_leaves]. unfold label_leaf at 2.
  bind_step. bind_step. destruct (parent (lf_node _)); [do 3 bind_step|]; walk_end IH.
Qed.

Lemma label_non_leaves_walk fuel : forall i l id m,
  label_non_leaves fuel i l id m = (ring_walk label_non_leaf fuel i l id ≫= fun _ => mret tt) m.
Proof.
  induction fuel as [|fuel IH]; intros i l id m; [done|]. rewrite ring_walk_S. cbn [label_non_leaves]. unfold label_non_leaf at 2.
  bind_step. bind_step. destruct (parent (nl_node _)); [do 3 bind_step|]; walk_end IH.
Qed.

(** The parent of a node is a non-leaf. *)
Definition parent_ok (m : mem) (n : node) : Prop :=
  forall q, parent (node_hdr n) = Some q -> exists pn, nodes m !! q = Some (NonLeaf pn).

Lemma label_leaf_runs m l n id (Q : Z -> mem -> Prop) :
  nodes m !! l = Some (Leaf n) -> parent_ok m (Leaf n) ->
  (forall pid, (ids_ok m -> in_s 64 pid) -> Q (id + 1) (set_nodes (<[l := set_id id pid (Leaf n)]> (nodes m)) m)) -> runs (label_leaf l id) m Q.
Proof.
  intros E Hp HQ. eapply runs_bind, runs_load_lf; [exact E|]. eapply runs_bind, runs_store; [exact E|].
  destruct (parent (lf_node n)) as [q|] eqn:Eq; [|apply runs_bind, runs_ret, runs_ret, HQ; intros Hok; by destruct (Hok l _ E)].
  destruct (Hp q Eq) as [pn Epn]. assert (l <> q) as Hne by (intros ->; congruence).
  eapply runs_bind, runs_bind, runs_load_nl; [simpl; by rewrite lookup_insert_ne|].
  eapply runs_bind, runs_load_lf; [simpl; by rewrite lookup_insert_eq|].
  eapply runs_store; [simpl; by rewrite lookup_insert_eq|]. apply runs_ret. unfold set_nodes. simpl.
  rewrite insert_insert_eq. apply (HQ (nl_node_id pn)). intros Hok. by destruct (Hok q _ Epn).
Qed.

Lemma label_non_leaf_runs m l n id (Q : Z -> mem -> Prop) :
  nodes m !! l = Some (NonLeaf n) -> parent_ok m (NonLeaf n) ->
  (forall pid, (ids_ok m -> in_s 64 id -> in_s 64 pid) -> Q (id + 1) (set_nodes (<[l := set_id id pid (NonLeaf n)]> (nodes m)) m)) -> runs (label_non_leaf l id) m Q.
Proof.
  intros E Hp HQ. eapply runs_bind, runs_load_nl; [exact E|]. eapply runs_bind, runs_store; [exact E|].
  destruct (parent (nl_node n)) as [q|] eqn:Eq; [|apply runs_bind, runs_ret, runs_ret, HQ; intros Hok _; by destruct (Hok l _ E)].
  destruct (Hp q Eq) as [pn Epn].
  assert (exists pn', <[l := NonLeaf (set_nl_ids id (nl_parent_id n) n)]> (nodes m) !! q = Some (NonLeaf pn')) as [pn' Epn'].
  { destruct (decide (l = q)) as [->|Hne]; [rewrite lookup_insert_eq|rewrite lookup_insert_ne by done]; by eexists. }
  eapply runs_bind, runs_bind, runs_load_nl; [exact Epn'|].
  eapply runs_bind, runs_load_nl; [simpl; by rewrite lookup_insert_eq|].
  eapply runs_store; [simpl; by rewrite lookup_insert_eq|]. apply runs_ret. unfold set_nodes. simpl.
  rewrite insert_insert_eq. apply (HQ (nl_node_id pn')). intros Hok Hid. destruct (decide (l = q)) as [->|Hne].
  - rewrite lookup_insert_eq in Epn'. by injection Epn' as <-.
  - rewrite lookup_insert_ne in Epn' by done. by destruct (Hok q _ Epn').
Qed.

(** The first [p] nodes of a level have their numbers; nothing else changed. *)
Record labelled (m0 : mem) (ls : list loc) (p : nat) (id : Z) (m : mem) : Prop := {
  lb_id : id = Z.of_nat p;
  lb_only : ids_only m0 m;
  lb_done q l : (q < p)%nat -> ls !! q = Some l -> node_id <$> nodes m !! l = Some (Z.of_nat q);
  lb_out l : ~ l ∈ ls -> nodes m !! l = nodes m0 !! l;
  lb_ids : ids_ok m0 -> Z.of_nat (length ls) < 2 ^ 63 -> ids_ok m
}.

Lemma labelled_step m0 ls p id m l n pid : NoDup ls -> labelled m0 ls p id m -> ls !! p = Some l ->
  nodes m !! l = Some n -> (ids_ok m -> in_s 64 id -> in_s 64 pid) ->
  labelled m0 ls (S p) (id + 1) (set_nodes (<[l := set_id id pid n]> (nodes m)) m).
Proof.
  intros Hnd [-> Ho Hd Hout Hids] Hl E Hpid. split.
  - lia.
  - eapply ids_only_trans; [exact Ho|]. by apply ids_only_store.
  - intros q l' Hq Hl'. simpl. destruct (decide (l = l')) as [<-|Hne].
    + rewrite lookup_insert_eq. rewrite (NoDup_lookup _ _ _ _ Hnd Hl' Hl). by destruct n.
    + rewrite lookup_insert_ne by done. apply Hd; [|done]. destruct (decide (q = p)) as [->|]; [congruence|lia].
  - intros l' Hl'. simpl. rewrite lookup_insert_ne; [by apply Hout|]. intros <-. apply Hl'. by eapply list_elem_of_lookup_2.
  - intros H0 H63. specialize (Hids H0 H63). apply lookup_lt_Some in Hl. assert (in_s 64 (Z.of_nat p)) by (unfold in_s; lia).
    apply ids_ok_store; auto.
Qed.

(** ** Labelling the levels *)

(** A balanced tree whose levels are rings of different nodes, with parents that
    are non-leaves. *)
Record leveled (m : mem) (t : mtree) (h : nat) : Prop := {
  lv_rep : rep (nodes m) t;
  lv_bal : balanced h t;
  lv_nodup : NoDup (mlocs t);
  lv_strings : strings t <> [];
  lv_level : level (tree m) = Z.of_nat h;
  lv_rings d : (d <= h)%nat -> ring m (Z.of_nat (h - d)) (map mloc (layer d t));
  lv_parents d p c n : layer d t !! p = Some c -> nodes m !! mloc c = Some n -> parent_ok m n
}.

Lemma leveled_ids_only m m' t h : ids_only m m' -> leveled m t h -> leveled m' t h.
Proof.
  intros Hio [Hr Hb Hn Hs Hl Hri Hp]. split; try done.
  - by eapply rep_ids_only.
  - by rewrite (io_tree _ _ Hio).
  - intros d Hd. by eapply ring_ids_only; [|apply Hri].
  - intros d p c n' Hc Hn' q Hq. pose proof (io_nodes _ _ Hio (mloc c)) as Hc'. rewrite Hn' in Hc'.
    inversion Hc' as [n n'' (id & pid & ->) En|]; subst. symmetry in En.
    destruct (Hp d p c n Hc En q) as [pn Epn]; [by destruct n|].
    destruct (ids_only_lookup _ _ _ _ Hio Epn) as (a & b & E). simpl in E. by eexists.
Qed.

Definition numbered (m : mem) (t : mtree) (d : nat) : Prop :=
  forall p c, layer d t !! p = Some c -> node_id <$> nodes m !! mloc c = Some (Z.of_nat p).

Lemma ring_first m lv l ls : ring m lv (l :: ls) -> nxt m (LHead lv) = Some (LNode l).
Proof. by intros [_ [[H _] _]]. Qed.

Lemma runs_first_of_level m lv l ls (Q : loc -> mem -> Prop) :
  ring m lv (l :: ls) -> Q l m -> runs (first_of_level lv) m Q.
Proof.
  intros Hr HQ. pose proof (ring_first _ _ _ _ Hr) as Hn. unfold nxt in Hn. apply fmap_Some in Hn as (k & Hk & Ek).
  eapply runs_bind, runs_load_link; [exact Hk|]. by eapply runs_lift; [rewrite <- Ek|].
Qed.

Section Levels.
Context (t : mtree) (h : nat).

Lemma layer_nonempty m d : leveled m t h -> (d <= h)%nat -> exists c cs, layer d t = c :: cs.
Proof.
  intros Hlv Hd. pose proof (layer_strings t h d (lv_bal _ _ _ Hlv) Hd) as Hs. pose proof (lv_strings _ _ _ Hlv).
  destruct (layer d t) as [|c cs]; [by rewrite <- Hs in *|by exists c, cs].
Qed.

(** The node at a position of a layer. *)
Lemma layer_node m d p l : leveled m t h -> map mloc (layer d t) !! p = Some l ->
  exists c n, layer d t !! p = Some c /\ l = mloc c /\ nodes m !! l = Some n /\ parent_ok m n /\
    (if decide (d = h) then exists n', n = Leaf n' else (d < h)%nat -> exists n', n = NonLeaf n').
Proof.
  intros Hlv Hl. change (map mloc ?x) with (mloc <$> x) in Hl. apply list_lookup_fmap_Some in Hl as (c & -> & Hc).
  assert (d <= h -> balanced (h - d) c)%nat as Hb.
  { intros Hd. apply (Forall_lookup_1 _ _ _ _ (balanced_layer h t d (lv_bal _ _ _ Hlv) Hd) Hc). }
  exists c. destruct c as [l ds|l ts].
  - destruct (layer_rep_leaf _ _ _ _ _ _ (lv_rep _ _ _ Hlv) Hc) as (n & E & _). exists (Leaf n).
    split_and!; [done|done|done|by eapply lv_parents|]. case_decide; [by eexists|]. intros Hlt.
    specialize (Hb ltac:(lia)). by destruct (h - d)%nat eqn:Eq; [lia|].
  - destruct (layer_rep_node _ _ _ _ _ _ (lv_rep _ _ _ Hlv) Hc) as (n & E & _). exists (NonLeaf n).
    split_and!; [done|done|done|by eapply lv_parents|]. case_decide as Hd; [|by eexists].
    subst d. specialize (Hb ltac:(lia)). rewrite Nat.sub_diag in Hb. done.
Qed.

Lemma layer_fuel m d : leveled m t h -> (length (map mloc (layer d t)) <= S (base.size (nodes m)))%nat.
Proof.
  intros Hlv. apply Nat.le_le_succ_r, nodes_bound; [by apply layer_NoDup, (lv_nodup _ _ _ Hlv)|].
  apply Forall_lookup. intros p l Hl. destruct (layer_node m d p l Hlv Hl) as (c & n & _ & _ & E & _). by exists n.
Qed.

Lemma label_level_runs m0 d : leveled m0 t h -> (d <= h)%nat ->
  runs (do n <- first_of_level (Z.of_nat (h - d));
        if Z.of_nat (h - d) =? 0 then label_leaves (S (base.size (nodes m0))) (Z.of_nat (h - d)) n 0
        else label_non_leaves (S (base.size (nodes m0))) (Z.of_nat (h - d)) n 0) m0
    (fun _ m => labelled m0 (map mloc (layer d t)) (length (layer d t)) (Z.of_nat (length (layer d t))) m).
Proof.
  intros Hlv Hd. set (ls := map mloc (layer d t)). pose proof (lv_rings _ _ _ Hlv d Hd) as Hring. fold ls in Hring.
  destruct (layer_nonempty m0 d Hlv Hd) as (c & cs & Ec).
  assert (ls !! 0%nat = Some (mloc c)) as H0 by (unfold ls; by rewrite Ec).
  assert (length ls = length (layer d t)) as Hlen by (unfold ls; apply length_map).
  pose proof (layer_NoDup d t (lv_nodup _ _ _ Hlv)) as Hnd. fold ls in Hnd.
  pose proof (layer_fuel m0 d Hlv) as Hfuel. fold ls in Hfuel.
  assert (labelled m0 ls 0 0 m0) as Hinit by (split; [done|apply ids_only_refl|intros; lia|done|done]).
  assert (forall p s m, labelled m0 ls p s m -> ring m (Z.of_nat (h - d)) ls) as Hr
    by (intros p s m [_ Ho _ _ _]; by eapply ring_ids_only).
  eapply runs_bind, (runs_first_of_level _ _ (mloc c) (map mloc cs)); [unfold ls in Hring; by rewrite Ec in Hring|].
  destruct (Z.eqb_spec (Z.of_nat (h - d)) 0) as [Ez|Ez].
  - eapply runs_ext; [apply label_leaves_walk|]. apply runs_bind. eapply runs_wand.
    { apply (ring_walk_runs label_leaf _ ls (labelled m0 ls) Hr) with (p := 0%nat); [|done|done|lia].
      intros p l s m Hl Hi. pose proof (leveled_ids_only _ _ _ _ (lb_only _ _ _ _ _ Hi) Hlv) as Hlv'.
      destruct (layer_node m d p l Hlv' Hl) as (c' & n & _ & _ & E & Hp & Hty).
      rewrite decide_True in Hty by lia. destruct Hty as [n' ->].
      eapply label_leaf_runs; [exact E|exact Hp|]. intros pid Hpid. apply labelled_step; auto. }
    intros s m Hm. apply runs_ret. rewrite <- Hlen. destruct Hm. by split.
  - eapply runs_ext; [apply label_non_leaves_walk|]. apply runs_bind. eapply runs_wand.
    { apply (ring_walk_runs label_non_leaf _ ls (labelled m0 ls) Hr) with (p := 0%nat); [|done|done|lia].
      intros p l s m Hl Hi. pose proof (leveled_ids_only _ _ _ _ (lb_only _ _ _ _ _ Hi) Hlv) as Hlv'.
      destruct (layer_node m d p l Hlv' Hl) as (c' & n & _ & _ & E & Hp & Hty).
      rewrite decide_False in Hty by lia. destruct Hty as [n' ->]; [lia|].
      eapply label_non_leaf_runs; [exact E|exact Hp|]. intros pid Hpid. by apply labelled_step. }
    intros s m Hm. apply runs_ret. rewrite <- Hlen. destruct Hm. by split.
Qed.

Lemma label_levels_runs m0 : leveled m0 t h ->
  runs label_levels m0 (fun _ m => ids_only m0 m /\ (forall d, (d <= h)%nat -> numbered m t d) /\
    (ids_ok m0 -> (forall d, (d <= h)%nat -> Z.of_nat (length (layer d t)) < 2 ^ 63) -> ids_ok m)).
Proof.
  intros Hlv. unfold label_levels. apply runs_bind, runs_get_tree. rewrite (lv_level _ _ _ Hlv).
  apply runs_bind. eexists _, m0. split; [reflexivity|].
  eapply runs_wand.
  - apply (mfor_down_rule (fun i _ m => ids_only m0 m /\ (forall d, (d <= h)%nat -> i < Z.of_nat (h - d) -> numbered m t d) /\
      (ids_ok m0 -> (forall d, (d <= h)%nat -> Z.of_nat (length (layer d t)) < 2 ^ 63) -> ids_ok m))).
    + lia.
    + split_and!; [apply ids_only_refl|intros d Hd Hi; lia|done].
    + intros i [] m Hi (Ho & Hnum & Hids). assert (exists d, (d <= h)%nat /\ i = Z.of_nat (h - d)) as (d & Hd & ->)
        by (exists (h - Z.to_nat i)%nat; lia).
      pose proof (leveled_ids_only _ _ _ _ Ho Hlv) as Hlv'.
      assert (base.size (nodes m) = base.size (nodes m0)) as Hsz.
      { rewrite <- !(size_dom (D := gset loc)). f_equal. apply set_eq. intros l. rewrite !elem_of_dom.
        destruct (io_nodes _ _ Ho l); split; intros []; by eexists. }
      rewrite <- Hsz. eapply runs_wand; [by apply label_level_runs|]. intros [] m' [_ Lo Ld Lout Lids].
      split_and!; [by eapply ids_only_trans| |intros H0 H63; apply Lids; [by apply Hids|rewrite length_map; by apply H63]].
      intros d' Hd' Hlt p c Hc.
      assert (map mloc (layer d' t) !! p = Some (mloc c)) as Hp
        by (change (map mloc ?x) with (mloc <$> x); by rewrite list_lookup_fmap, Hc).
      destruct (decide (d' = d)) as [->|Hne].
      * apply Ld; [by eapply lookup_lt_Some|done].
      * rewrite Lout; [apply (Hnum d'); [done|lia|done]|]. intros Hin. apply Hne.
        eapply (layer_disjoint d' d t); [apply (lv_nodup _ _ _ Hlv)|by eapply list_elem_of_lookup_2|done].
  - intros [] m (Ho & Hnum & Hids). split_and!; [done| |done]. intros d Hd. apply Hnum; [done|lia].
Qed.

End Levels.

(** ** The maps of child numbers *)

Lemma ids_of_S a n : ids_of a (S n) = ids_of a n ++ [Z.of_nat (a + n)].
Proof. unfold ids_of. by rewrite seq_S, fmap_app. Qed.

Lemma omap_app_length {A B} (f : A -> option B) l1 l2 : length (omap f (l1 ++ l2)) = (length (omap f l1) + length (omap f l2))%nat.
Proof. by rewrite omap_app, length_app. Qed.

(** One more entry of a map is one more mark, unless its number had one. *)
Lemma entries_upto_insert (n p : nat) pv (M : gmap Z (option (list Z))) : (p < n)%nat ->
  (forall v, M !! Z.of_nat p = Some v -> is_Some v) ->
  length (entries_upto n (<[Z.of_nat p := Some pv]> M)) =
    (length (entries_upto n M) + if M !! Z.of_nat p is Some _ then 0 else 1)%nat.
Proof.
  intros Hp Hv. unfold entries_upto. replace n with (p + S (n - S p))%nat by lia.
  rewrite seq_app, !omap_app_length. simpl. rewrite lookup_insert_eq. simpl.
  assert (forall l : list nat, p ∉ l ->
    omap (fun j => pv0 ← mjoin (<[Z.of_nat p := Some pv]> M !! Z.of_nat j); Some (Z.of_nat j, pv0)) l =
    omap (fun j => pv0 ← mjoin (M !! Z.of_nat j); Some (Z.of_nat j, pv0)) l) as Hother.
  { intros l Hl. apply list_omap_ext, Forall_Forall2_diag, Forall_forall. intros j Hj.
    rewrite lookup_insert_ne; [done|]. intros E%Nat2Z.inj. by subst j. }
  rewrite !Hother by (rewrite elem_of_seq; lia).
  destruct (M !! Z.of_nat p) as [v|]; [destruct (Hv v eq_refl) as [? ->]|]; simpl; change (list_omap _ _ ?f ?l) with (omap f l); lia.
Qed.

(** A value [hashmap_serialize] can send. *)
Definition entry_ok (v : option (list Z)) : Prop := exists pv, v = Some pv /\ in_u 64 (zlen pv) /\ Forall (in_s 64) pv.

(** A map of child numbers: its content and its [size]. *)
Record map_ok (hp : Hashmap.Hashmap (list Z)) (M : gmap Z (option (list Z))) : Prop := {
  mo_rep : hm_rep hp M;
  mo_vals k v : M !! k = Some v -> 0 <= k < ID_LIMIT /\ entry_ok v;
  mo_size : size hp = Z.of_nat (length (entries_upto (Z.to_nat ID_LIMIT) M))
}.

Lemma map_ok_size hp M : map_ok hp M -> 0 <= size hp <= 500.
Proof.
  intros Hl. rewrite (mo_size _ _ Hl). unfold entries_upto. change (Z.to_nat ID_LIMIT) with 500%nat.
  assert (forall (f : nat -> option (Z * list Z)) l, (length (omap f l) <= length l)%nat) as Hle.
  { intros f l. induction l as [|x l IH]; [done|]. simpl. change (list_omap _ _ ?f ?l) with (omap f l). destruct (f x); simpl; lia. }
  specialize (Hle (fun j => pv ← mjoin (M !! Z.of_nat j); Some (Z.of_nat j, pv)) (seq 0 500)). rewrite length_seq in Hle. lia.
Qed.

(** Setting an entry keeps a map in order, whether the number is new or not. *)
Lemma map_ok_set hp M p v : map_ok hp M -> (p < 500)%nat -> entry_ok v ->
  exists hp', Hashmap.hashmap_set true hp (Z.of_nat p) v = Some (hp', 1) /\
    map_ok hp' (<[Z.of_nat p := v]> M) /\ Hashmap.hashmap_get hp' (Z.of_nat p) = Some v.
Proof.
  intros Hl Hp Hv. pose proof (map_ok_size _ _ Hl) as Hsz. destruct Hl as [Hr Hd Hs].
  destruct (hashmap_set_rep hp _ (Z.of_nat p) v Hr ltac:(unfold in_s; lia)) as (hp' & E & Hr' & Hs').
  destruct Hv as (pv & -> & Hpv).
  exists hp'. split; [done|]. split; [|by rewrite (hashmap_get_rep _ _ _ Hr'), lookup_insert_eq by (unfold in_s; lia)].
  split; [done| |].
  - intros k v [[<- <-]|[_ Hk]]%lookup_insert_Some; [unfold ID_LIMIT; split; [lia|by exists pv]|by apply Hd].
  - rewrite Hs', entries_upto_insert; [|change (Z.to_nat ID_LIMIT) with 500%nat; lia|].
    + destruct (M !! Z.of_nat p); rewrite Hs in *; [lia|]. rewrite wraps_small; [lia|lia|unfold in_s; lia].
    + intros v Hv. destruct (Hd (Z.of_nat p) v Hv) as [_ (pv' & -> & _)]. by eexists.
Qed.

(** A level after [p] of the entries [es], starting from the map [M0] of an
    earlier numbering and from marks below the number of entries. *)
Record mapped (es : list (option (list Z))) (M0 : gmap Z (option (list Z))) (p : nat)
    (hp : Hashmap.Hashmap (list Z)) (marks : list Z) : Prop := {
  mp_map : map_ok hp (map_seqZ 0 (take p es) ∪ M0);
  mp_len : zlen marks = ID_LIMIT;
  mp_set j x : aget marks j = Some x -> j < Z.of_nat p -> x <> 0;
  mp_below j x : aget marks j = Some x -> x <> 0 -> j < Z.of_nat (length es)
}.

Lemma mapped_step es M0 p hp marks v : mapped es M0 p hp marks -> es !! p = Some v -> entry_ok v -> (p < 500)%nat ->
  exists hp', Hashmap.hashmap_set true hp (Z.of_nat p) v = Some (hp', 1) /\
    mapped es M0 (S p) hp' (<[p := 1]> marks) /\ Hashmap.hashmap_get hp' (Z.of_nat p) = Some v.
Proof.
  intros [Hm Hlen Hset Hbel] Hv Hok Hp. destruct (map_ok_set _ _ p v Hm Hp Hok) as (hp' & E & Hm' & Hg).
  exists hp'. split_and!; [done| |done]. pose proof (lookup_lt_Some _ _ _ Hv) as Hlt.
  assert (p < length marks)%nat as Hpm by (unfold zlen, ID_LIMIT in Hlen; lia).
  assert (forall j x, aget (<[p := 1]> marks) j = Some x -> j = Z.of_nat p /\ x = 1 \/ j <> Z.of_nat p /\ aget marks j = Some x) as Hins.
  { intros j x [Hj Hx]%aget_Some. destruct (decide (j = Z.of_nat p)) as [->|Hne].
    - rewrite Nat2Z.id, list_lookup_insert_eq in Hx by done. injection Hx as <-. by left.
    - rewrite list_lookup_insert_ne in Hx by lia. right. split; [done|]. by apply aget_Some. }
  split.
  - rewrite (take_S_r _ _ _ Hv), map_seqZ_snoc, length_take, Nat.min_l by lia. by rewrite <- insert_union_l.
  - unfold zlen in *. by rewrite length_insert.
  - intros j x [[-> ->]|[Hne Hx]]%Hins Hj; [lia|]. apply (Hset j x Hx). lia.
  - intros j x [[-> ->]|[Hne Hx]]%Hins Hx0; [lia|]. by apply (Hbel j x).
Qed.

(** The entries of the earlier numbering have all been replaced. *)
Lemma mapped_level_ok es M0 hp marks : mapped es M0 (length es) hp marks ->
  (forall k v, M0 !! k = Some v -> k < Z.of_nat (length es)) ->
  level_ok hp marks (map_seqZ 0 es) /\ in_s 32 (size hp).
Proof.
  intros [Hm Hlen Hset Hbel] Hd. rewrite firstn_all in Hm. pose proof (map_ok_size _ _ Hm) as Hsz.
  assert (forall k, 0 <= k -> (map_seqZ 0 es : gmap Z (option (list Z))) !! k = es !! Z.to_nat k) as Hlk.
  { intros k Hk. by rewrite lookup_map_seqZ, option_guard_True, Z.sub_0_r by lia. }
  assert ((map_seqZ 0 es : gmap Z (option (list Z))) ∪ M0 = map_seqZ 0 es) as E.
  { apply map_eq. intros k. destruct ((map_seqZ 0 es : gmap Z (option (list Z))) !! k) as [v|] eqn:E;
      [by apply lookup_union_Some_l|]. rewrite lookup_union_r by done.
    destruct (M0 !! k) as [v|] eqn:E0; [|done]. assert (0 <= k) by (eapply (mo_vals _ _ Hm); by rewrite lookup_union_r).
    apply Hd in E0. rewrite Hlk in E by done. apply lookup_ge_None in E. lia. }
  rewrite E in Hm. destruct Hm as [Hr Hv Hs]. split; [|unfold in_s; lia]. split; try done.
  - intros j x Hx. pose proof (aget_lt _ _ _ Hx). split.
    + intros Hx0. pose proof (Hbel j x Hx Hx0). destruct (lookup_lt_is_Some_2 es (Z.to_nat j)) as [v Hes]; [lia|].
      rewrite <- Hlk in Hes by lia. destruct (Hv _ _ Hes) as [_ (pv & -> & _)]. by exists pv.
    + intros [pv Hpv]. apply (Hset j x Hx). rewrite Hlk in Hpv by lia. apply lookup_lt_Some in Hpv. lia.
  - intros k v Hk. destruct (Hv k v Hk) as [? (pv & -> & _)]. split; [done|by eexists].
  - intros k pv Hk. by destruct (Hv k _ Hk) as [_ (pv' & [= ->] & ?)].
Qed.

(** One round of the second step. *)
Definition map_node (i : Z) (non_leaf : loc) (s : hashmaps * list (list Z)) : M (hashmaps * list (list Z)) :=
  let '(hashp, temp_node_id) := s in
  do children_id <- children_ids i non_leaf;
  do n <- load_nl non_leaf;
  do hp <- lift (aget hashp i);
  do ' (hp, _) <- lift (Hashmap.hashmap_set true hp (nl_node_id n) (Some children_id));
  do hashp <- lift (aset hashp i hp);
  do row <- lift (aget temp_node_id i);
  do row <- lift (aset row (nl_node_id n) 1);
  do temp_node_id <- lift (aset temp_node_id i row);
  do _ <- (if (i =? 1) && (nl_node_id n =? 0) then
             do hp1 <- lift (aget hashp 1);
             do pv <- lift (Hashmap.hashmap_get hp1 0);
             do _ <- lift pv;
             mret tt
           else mret tt);
  mret (hashp, temp_node_id).

Lemma map_level_walk fuel : forall i l hashp temp m,
  map_level fuel i l hashp temp m = ring_walk (map_node i) fuel i l (hashp, temp) m.
Proof.
  induction fuel as [|fuel IH]; intros i l hashp temp m; [done|]. rewrite ring_walk_S. cbn [map_level]. unfold map_node at 2.
  bind_step. bind_step. bind_step. bind_norm. apply bind_cong. intros [hp r] ?. do 4 bind_step.
  destruct ((i =? 1) && _); [do 3 bind_step|]; walk_end IH.
Qed.

Section Maps.
Context `{HashFn}.
Context (m : mem) (t : mtree) (h : nat) (Hlv : leveled m t h) (Hnum : forall d, (d <= h)%nat -> numbered m t d).

(** The entries of the map of level [k]. *)
Definition child_entries (k : nat) : list (option (list Z)) :=
  imap (fun p g => Some (ids_of (start (groups t h k) p) (length g))) (groups t h k).

Lemma child_entries_at k p l ts : (0 < k <= h)%nat -> layer (h - k) t !! p = Some (MNode l ts) ->
  child_entries k !! p = Some (Some (ids_of (start (map kids (layer (h - k) t)) p) (length ts))).
Proof.
  intros Hk Hp. assert (groups t h k !! p = Some (map mhash ts)) as Hg
    by (unfold groups; change (map node_pieces ?x) with (node_pieces <$> x); by rewrite list_lookup_fmap, Hp).
  unfold child_entries. rewrite list_lookup_imap, Hg. simpl. rewrite length_map.
  do 3 f_equal. apply start_lengths. unfold groups. rewrite !map_map. apply map_ext_in. intros n Hin%list_elem_of_In.
  pose proof (balanced_layer h t (h - k) (lv_bal _ _ _ Hlv) ltac:(lia)) as Hb. rewrite Forall_forall in Hb.
  specialize (Hb n Hin). destruct n; simpl; [|by rewrite length_map].
  destruct (h - (h - k))%nat eqn:E; [lia|done].
Qed.

Lemma children_ids_runs k p l ts (Q : list Z -> mem -> Prop) :
  (0 < k <= h)%nat -> layer (h - k) t !! p = Some (MNode l ts) ->
  Q (ids_of (start (map kids (layer (h - k) t)) p) (length ts)) m -> runs (children_ids (Z.of_nat k) l) m Q.
Proof.
  intros Hk Hp HQ. destruct (layer_rep_node _ _ _ _ _ _ (lv_rep _ _ _ Hlv) Hp) as (n & E & (_ & _ & Hc & _ & Hsub)).
  unfold children_ids. eapply runs_bind, runs_get_children; [exact E|]. rewrite Hc.
  set (a := start (map kids (layer (h - k) t)) p).
  eapply runs_wand.
  - apply (mfor_up_rule (fun j r m' => m' = m /\ r = ids_of a (Z.to_nat j))); [apply zlen_nonneg|done|].
    intros j r m' Hj [-> ->]. unfold zlen in Hj. rewrite length_map in Hj.
    destruct (lookup_lt_is_Some_2 ts (Z.to_nat j)) as [c Hcj]; [lia|].
    assert (aget (sub_ptr n) j = Some (Some (mloc c))) as Hs.
    { apply aget_Some. split; [lia|]. rewrite length_map in Hsub. rewrite <- (lookup_take_lt _ (length ts)) by lia.
      rewrite Hsub. change (map mloc ts) with (mloc <$> ts). by rewrite !list_lookup_fmap, Hcj. }
    eapply runs_bind, runs_get_sub; [exact E|exact Hs|]. eapply runs_bind, runs_lift; [reflexivity|].
    pose proof (layer_child (h - k) t p l ts (Z.to_nat j) Hp ltac:(lia)) as Hlc. rewrite Hcj in Hlc. fold a in Hlc.
    replace (S (h - k)) with (h - (k - 1))%nat in Hlc by lia.
    pose proof (Hnum (h - (k - 1)) ltac:(lia) _ _ Hlc) as Hid.
    assert (map mloc (layer (h - (k - 1)) t) !! (a + Z.to_nat j)%nat = Some (mloc c)) as Hml
      by (change (map mloc ?x) with (mloc <$> x); by rewrite list_lookup_fmap, Hlc).
    destruct (layer_node t h m _ _ _ Hlv Hml) as (c' & nc & _ & _ & Ec & _ & Hty). rewrite Ec in Hid. injection Hid as Hid.
    replace (Z.to_nat (j + 1)) with (S (Z.to_nat j)) by lia. rewrite ids_of_S.
    destruct (Z.ltb_spec 1 (Z.of_nat k)).
    + rewrite decide_False in Hty by lia. destruct Hty as [n' ->]; [lia|].
      eapply runs_bind, runs_load_nl; [exact Ec|]. apply runs_ret. split; [done|]. simpl in Hid. by rewrite Hid.
    + rewrite decide_True in Hty by lia. destruct Hty as [n' ->].
      eapply runs_bind, runs_load_lf; [exact Ec|]. apply runs_ret. split; [done|]. simpl in Hid. by rewrite Hid.
  - intros r m' [-> ->]. unfold zlen. by rewrite length_map, Nat2Z.id.
Qed.

Lemma layer_inner k p l : (0 < k <= h)%nat -> map mloc (layer (h - k) t) !! p = Some l ->
  exists ts n, layer (h - k) t !! p = Some (MNode l ts) /\ nodes m !! l = Some (NonLeaf n) /\ nl_node_id n = Z.of_nat p.
Proof.
  intros Hk Hl. destruct (layer_node t h m _ p l Hlv Hl) as (c & n & Hc & -> & E & _ & Hty).
  rewrite decide_False in Hty by lia. destruct Hty as [n' ->]; [lia|].
  pose proof (Hnum (h - k) ltac:(lia) p c Hc) as Hid. rewrite E in Hid. injection Hid as Hid.
  pose proof (Forall_lookup_1 _ _ _ _ (balanced_layer h t (h - k) (lv_bal _ _ _ Hlv) ltac:(lia)) Hc) as Hb.
  destruct c as [l ds|l ts]; [destruct (h - (h - k))%nat eqn:Eq; [lia|done]|]. by exists ts, n'.
Qed.

(** The state after [p] nodes of level [k]. *)
Definition level_inv (k : nat) (M0 : gmap Z (option (list Z))) (hashp : list (Hashmap.Hashmap (list Z))) (temp : list (list Z))
    (p : nat) (s : list (Hashmap.Hashmap (list Z)) * list (list Z)) (m' : mem) : Prop :=
  m' = m /\ exists hp marks, s = (<[k := hp]> hashp, <[k := marks]> temp) /\ mapped (child_entries k) M0 p hp marks.

Lemma map_node_runs k M0 (hashp : list (Hashmap.Hashmap (list Z))) temp p l s :
  (0 < k <= h)%nat -> Forall entry_ok (child_entries k) -> (k < length hashp)%nat -> (k < length temp)%nat -> (length (layer (h - k) t) <= 500)%nat ->
  map mloc (layer (h - k) t) !! p = Some l -> level_inv k M0 hashp temp p s m ->
  runs (map_node (Z.of_nat k) l s) m (level_inv k M0 hashp temp (S p)).
Proof.
  intros Hk Hall Hlh Hlt H500 Hl (_ & hp & marks & -> & Hmp).
  destruct (layer_inner k p l Hk Hl) as (ts & n & Hp & E & Hid).
  pose proof (child_entries_at k p l ts Hk Hp) as Hes. pose proof (lookup_lt_Some _ _ _ Hp) as Hplt.
  destruct (mapped_step _ _ _ _ _ _ Hmp Hes (Forall_lookup_1 _ _ _ _ Hall Hes) ltac:(lia)) as (hp' & Eset & Hmp' & Eget).
  unfold map_node. eapply runs_bind, children_ids_runs; [done|exact Hp|].
  eapply runs_bind, runs_load_nl; [exact E|]. rewrite Hid.
  eapply runs_bind, runs_lift; [rewrite aget_nat; by apply list_lookup_insert_eq|].
  eapply runs_bind, runs_lift; [exact Eset|]. cbv beta iota.
  eapply runs_bind, runs_lift; [apply aset_Some; unfold zlen; rewrite length_insert; lia|].
  eapply runs_bind, runs_lift; [rewrite aget_nat; by apply list_lookup_insert_eq|].
  eapply runs_bind, runs_lift.
  { apply aset_Some. rewrite (mp_len _ _ _ _ _ Hmp). unfold ID_LIMIT. lia. }
  eapply runs_bind, runs_lift; [apply aset_Some; unfold zlen; rewrite length_insert; lia|].
  rewrite !Nat2Z.id, !list_insert_insert_eq.
  assert (forall b, runs (if b && (Z.of_nat p =? 0) then
      do hp1 <- lift (aget (<[k:=hp']> hashp) (Z.of_nat k)); do pv <- lift (Hashmap.hashmap_get hp1 0); do _ <- lift pv; mret tt
    else mret tt) m (fun _ m' => m' = m)) as Hread.
  { intros b. destruct b; [|by apply runs_ret]. destruct (Z.eqb_spec (Z.of_nat p) 0) as [Ez|]; [|by apply runs_ret]. simpl andb.
    eapply runs_bind, runs_lift; [rewrite aget_nat; by apply list_lookup_insert_eq|].
    rewrite Ez in Eget. eapply runs_bind, runs_lift; [exact Eget|]. eapply runs_bind, runs_lift; [reflexivity|]. by apply runs_ret. }
  eapply runs_bind, runs_wand.
  { specialize (Hread (Z.of_nat k =? 1)). destruct (Z.eqb_spec (Z.of_nat k) 1) as [Ek|]; [rewrite Ek in Hread|]; exact Hread. }
  intros [] m' ->. apply runs_ret. split; [done|]. by exists hp', (<[p := 1]> marks).
Qed.

Lemma map_level_runs k M0 hp marks (hashp : list (Hashmap.Hashmap (list Z))) temp fuel :
  (0 < k <= h)%nat -> Forall entry_ok (child_entries k) -> (length (layer (h - k) t) <= 500)%nat -> (length (layer (h - k) t) <= fuel)%nat ->
  hashp !! k = Some hp -> temp !! k = Some marks -> mapped (child_entries k) M0 0 hp marks ->
  runs (do n <- first_of_level (Z.of_nat k); map_level fuel (Z.of_nat k) n hashp temp) m
    (level_inv k M0 hashp temp (length (child_entries k))).
Proof.
  intros Hk Hall H500 Hfuel Ehp Etemp Hlo.
  destruct (layer_nonempty t h m (h - k) Hlv ltac:(lia)) as (c & cs & Ec).
  set (ls := map mloc (layer (h - k) t)).
  pose proof (lv_rings _ _ _ Hlv (h - k) ltac:(lia)) as Hring. replace (h - (h - k))%nat with k in Hring by lia. fold ls in Hring.
  assert (ls !! 0%nat = Some (mloc c)) as Hl0 by (unfold ls; by rewrite Ec).
  assert (length ls = length (layer (h - k) t)) as Hlen by (unfold ls; apply length_map).
  assert (length (child_entries k) = length ls) as Hle
    by (unfold child_entries, groups; by rewrite length_imap, length_map, Hlen).
  eapply runs_bind, (runs_first_of_level _ _ (mloc c) (map mloc cs)); [unfold ls in Hring; by rewrite Ec in Hring|].
  eapply runs_ext; [apply map_level_walk|]. rewrite Hle.
  apply (ring_walk_runs _ _ ls (level_inv k M0 hashp temp)) with (p := 0%nat); [| |done| |lia].
  - by intros p s m' [-> _].
  - intros p l s m' Hl Hi. pose proof Hi as [-> _]. apply map_node_runs; try done; by eapply lookup_lt_Some.
  - split; [done|]. exists hp, marks. rewrite !list_insert_id by done. split; [done|exact Hlo].
Qed.

End Maps.

(** ** All levels *)

Definition fresh_level (hp : Hashmap.Hashmap (list Z)) (marks : list Z) : Prop :=
  hm_rep hp ∅ /\ size hp = 0 /\ marks = replicate 500 0.

(** A level that can be numbered for [n] nodes: its map and its marks may be those
    of an earlier numbering, of this or of another tree, or the marks may be older
    than the map, since a build replaces the maps only.  Neither is cleared, so
    every number in use must get a new entry. *)
Definition reusable_level (n : nat) (hp : Hashmap.Hashmap (list Z)) (marks : list Z) : Prop :=
  exists M0, map_ok hp M0 /\ (forall k v, M0 !! k = Some v -> k < Z.of_nat n) /\
    zlen marks = ID_LIMIT /\ (forall j x, aget marks j = Some x -> x <> 0 -> j < Z.of_nat n).

(** The number of nodes that level [j] of the tree has in the maps. *)
Definition level_nodes (t : mtree) (h j : nat) : nat := if decide (0 < j <= h)%nat then length (layer (h - j) t) else 0%nat.

Lemma level_ok_map hp marks M : level_ok hp marks M -> map_ok hp M.
Proof.
  intros [Hr Hm Hmk Hd Hs Hv]. split; try done. intros k v Hk. destruct (Hd k v Hk) as [? [pv ->]]. split; [done|].
  exists pv. split; [done|by eapply Hv].
Qed.

Lemma level_ok_reusable n hp marks M : level_ok hp marks M -> (forall k v, M !! k = Some v -> k < Z.of_nat n) ->
  reusable_level n hp marks.
Proof.
  intros Hl Hd. exists M. split_and!; [by eapply level_ok_map|done|apply Hl|].
  intros j x Hx Hx0. apply (lo_mark _ _ _ Hl j x Hx) in Hx0 as [pv Hpv]. by eapply Hd.
Qed.

Lemma reusable_level_mono n n' hp marks : (n <= n')%nat -> reusable_level n hp marks -> reusable_level n' hp marks.
Proof.
  intros Hn (M0 & Hm & Hd & Hl & Hx). exists M0. split_and!; try done.
  - intros k v Hk. specialize (Hd k v Hk). lia.
  - intros j x Hj Hx0. specialize (Hx j x Hj Hx0). lia.
Qed.

Lemma fresh_reusable n hp marks : fresh_level hp marks -> reusable_level n hp marks.
Proof.
  intros (Hr & Hs & ->). exists ∅. split_and!; [by split|by intros|done|].
  intros j x [Hj Hx]%aget_Some. by apply lookup_replicate in Hx as [-> _].
Qed.

Lemma reusable_mapped es hp marks : reusable_level (length es) hp marks ->
  exists M0, mapped es M0 0 hp marks /\ forall k v, M0 !! k = Some v -> k < Z.of_nat (length es).
Proof.
  intros (M0 & Hm & Hd & Hl & Hx). exists M0. split; [|done]. split; try done.
  - simpl. by rewrite (left_id_L ∅ (∪)).
  - intros j x Hj%aget_lt Hlt. lia.
Qed.

Lemma reusable_level_0 hp marks : reusable_level 0 hp marks -> level_ok hp marks ∅ /\ in_s 32 (size hp).
Proof. intros (M0 & Hm & Hd)%(reusable_mapped []). by apply (mapped_level_ok [] M0). Qed.

Section Numbers.
Context `{HashFn}.
Context (t : mtree) (h : nat) (Hok : bounded t h).

(** The levels below [i] are mapped, the others reusable. *)
Definition maps_upto (i : nat) (hashp : list (Hashmap.Hashmap (list Z))) (temp : list (list Z)) : Prop :=
  length hashp = 10%nat /\ length temp = 10%nat /\
  forall j hp marks, hashp !! j = Some hp -> temp !! j = Some marks ->
    if decide (j < i)%nat then level_ok hp marks (child_map t h j) /\ in_s 32 (size hp) else reusable_level (level_nodes t h j) hp marks.

Lemma child_entries_ok k : (0 < k <= h)%nat ->
  Forall entry_ok (child_entries t h k).
Proof.
  intros Hk. apply Forall_lookup. intros p v Hv. unfold child_entries in Hv. rewrite list_lookup_imap in Hv.
  apply fmap_Some in Hv as (g & Hg & ->). eexists. split; [done|].
  destruct (group_pieces _ _ _ (group_ok t h Hok k ltac:(lia)) Hg) as [_ Hg50]. rewrite ids_of_zlen.
  split; [unfold in_u; lia|]. apply Forall_forall. intros id Hid%ids_of_elem.
  pose proof (start_S _ _ _ Hg). pose proof (start_le (groups t h k) (S p)) as Hle.
  destruct k as [|k]; [lia|]. rewrite groups_concat in Hle by (apply Hok || lia). rewrite hashes_groups in Hle.
  rewrite length_map in Hle. pose proof (bd_few _ _ Hok (h - k) ltac:(lia)). unfold in_s. lia.
Qed.

Lemma map_levels_runs m hashp temp : leveled m t h -> (forall d, (d <= h)%nat -> numbered m t d) ->
  (forall d, (d < h)%nat -> length (layer d t) <= 500)%nat -> maps_upto 0 hashp temp ->
  runs (map_levels hashp temp) m (fun r m' => m' = m /\ maps_upto 10 r.1 r.2).
Proof.
  intros Hlv Hnum H500 Hinit. pose proof (bd_height _ _ Hok) as Hh10.
  unfold map_levels. apply runs_bind, runs_get_tree. rewrite (lv_level _ _ _ Hlv).
  apply runs_bind. eexists _, m. split; [reflexivity|]. eapply runs_wand.
  - apply (mfor_up_rule (fun i s m' => m' = m /\ maps_upto (Z.to_nat i) s.1 s.2)); [lia| |].
    + split; [done|]. destruct Hinit as (L1 & L2 & Hi). split_and!; [done|done|]. intros j hp marks Hj Hm.
      specialize (Hi j hp marks Hj Hm). rewrite decide_False in Hi by lia. case_decide as Hd; [|done].
      assert (j = 0%nat) as -> by (simpl in Hd; lia). by apply reusable_level_0.
    + intros i [hp0 tm0] m' Hi [-> (L1 & L2 & Hs)]. destruct (Z_of_nat_complete i ltac:(lia)) as [k ->].
      cbn [fst snd] in *. rewrite Nat2Z.id in Hs.
      destruct (lookup_lt_is_Some_2 hp0 k) as [hp Ehp]; [lia|]. destruct (lookup_lt_is_Some_2 tm0 k) as [mk Emk]; [lia|].
      pose proof (Hs k hp mk Ehp Emk) as Hfr. rewrite decide_False in Hfr by lia. unfold level_nodes in Hfr. rewrite decide_True in Hfr by lia.
      assert (length (child_entries t h k) = length (layer (h - k) t)) as Hce
        by (unfold child_entries, groups; by rewrite length_imap, length_map).
      rewrite <- Hce in Hfr. destruct (reusable_mapped _ _ _ Hfr) as (M0 & Hlo & Hd0).
      eapply runs_wand.
      { apply (map_level_runs m t h Hlv Hnum k M0 hp mk); [lia|apply child_entries_ok; lia|apply H500; lia| |done..].
        pose proof (layer_fuel t h m (h - k) Hlv) as Hf. rewrite length_map in Hf. lia. }
      intros r m' (-> & hp' & mk' & -> & Hmp). split; [done|]. cbn [fst snd].
      split_and!; [by rewrite length_insert|by rewrite length_insert|]. intros j hpj mkj Hj Hm.
      replace (Z.to_nat (Z.of_nat k + 1)) with (S k) by lia. destruct (decide (j = k)) as [->|Hne].
      * rewrite list_lookup_insert_eq in Hj by lia. rewrite list_lookup_insert_eq in Hm by lia. simplify_eq. rewrite decide_True by lia.
        apply mapped_level_ok in Hmp.
        -- unfold child_map. destruct k as [|k]; [lia|]. rewrite decide_True by lia. exact Hmp.
        -- exact Hd0.
      * rewrite list_lookup_insert_ne in Hj by done. rewrite list_lookup_insert_ne in Hm by done. specialize (Hs j hpj mkj Hj Hm).
        destruct (decide (j < k)%nat); [by rewrite decide_True by lia|by rewrite decide_False by lia].
  - intros [hp0 tm0] m' [-> (L1 & L2 & Hs)]. cbn [fst snd] in *. split; [done|]. split_and!; [done|done|].
    intros j hp mk Hj Hm. specialize (Hs j hp mk Hj Hm). pose proof (lookup_lt_Some _ _ _ Hj).
    rewrite decide_True by lia. case_decide as Hd; [done|]. unfold child_map.
    destruct j as [|j]; [lia|]. rewrite decide_False by lia. apply reusable_level_0.
    unfold level_nodes in Hs. by rewrite decide_False in Hs by lia.
Qed.

Lemma maps_upto_all hashp temp : maps_upto 10 hashp temp ->
  forall i hp marks M, hashp !! i = Some hp -> temp !! i = Some marks -> child_maps t h !! i = Some M ->
    level_ok hp marks M /\ in_s 32 (size hp).
Proof.
  intros (L1 & _ & Hm) i hp marks M Hhp Hmk HM. pose proof (lookup_lt_Some _ _ _ Hhp) as Hlt.
  specialize (Hm i hp marks Hhp Hmk). rewrite decide_True in Hm by lia. unfold child_maps in HM.
  change (map (child_map t h) ?l) with (child_map t h <$> l) in HM.
  rewrite list_lookup_fmap, lookup_seq_lt in HM by lia. by injection HM as <-.
Qed.

Lemma set_node_id_runs m hashp temp : leveled m t h -> (forall d, (d < h)%nat -> length (layer d t) <= 500)%nat ->
  maps_upto 0 hashp temp ->
  runs (set_node_id hashp temp) m (fun r m' => ids_only m m' /\ (forall d, (d <= h)%nat -> numbered m' t d) /\
    maps_upto 10 r.1 r.2 /\ (ids_ok m -> ids_ok m')).
Proof.
  intros Hlv H500 Hinit. unfold set_node_id. eapply runs_bind, runs_wand; [by apply label_levels_runs|].
  intros [] m1 (Ho & Hnum & Hids). eapply runs_wand; [eapply map_levels_runs; try done; by eapply leveled_ids_only|].
  intros r m' (-> & Hm). split_and!; try done. intros Hok0. apply Hids; [done|]. intros d Hd. pose proof (bd_few _ _ Hok d Hd). lia.
Qed.

End Numbers.

(** ** The index *)

(** A tree with keys and item pointers before it is hashed and numbered: the
    leaves and non-leaves are what [indexed] wants of them, once they have their
    numbers. *)
Record keyed (m : mem) (t : mtree) (h : nat) (K : list Z) (T : list ItemPointerData) : Prop := {
  kd_leveled : leveled m t h;
  kd_bounded : bounded t h;
  kd_root : root (tree m) = Some (mloc t);
  kd_K : increasing K;
  kd_lenK : length K = length (strings t);
  kd_lenT : length T = length (strings t);
  kd_nonempty : Forall (fun ds => ds <> []) (leaf_strings t h);
  kd_leaf p l ds n : layer h t !! p = Some (MLeaf l ds) -> nodes m !! l = Some (Leaf n) ->
    leaf_index m t h K T p (set_lf_ids (Z.of_nat p) 0 n)
}.

(** The separators; their positions are counted in pieces, whatever the hash. *)
Definition separated `{HashFn} (m : mem) (t : mtree) (h : nat) (K : list Z) : Prop :=
  forall k p l ts n, (S k <= h)%nat -> layer (h - S k) t !! p = Some (MNode l ts) ->
    nodes m !! l = Some (NonLeaf n) ->
    exists ks, node_index t h K k p ts (set_nl_ids (Z.of_nat p) 0 n) ks.

Lemma hashes_only_hdr ls m m' l : hashes_only ls m m' -> node_hdr <$> nodes m' !! l = node_hdr <$> nodes m !! l.
Proof.
  intros [_ _ _ _ _ Hi]. specialize (Hi l). destruct (nodes m !! l) as [n|], (nodes m' !! l) as [n'|]; try done.
  injection Hi as Hu. simpl. f_equal. destruct n, n'; simpl in Hu; try done; injection Hu; simpl; congruence.
Qed.

Lemma hashes_only_link ls m m' r : hashes_only ls m m' -> link_of m' r = link_of m r.
Proof.
  intros Ho. destruct r as [lv|l]; simpl; [by rewrite (ho_tree _ _ _ Ho)|].
  pose proof (hashes_only_hdr _ _ _ l Ho) as E. destruct (nodes m !! l), (nodes m' !! l); simpl in *; congruence.
Qed.

Lemma leveled_hashes_only ls m m' t h : hashes_only ls m m' -> rep (nodes m') t -> leveled m t h -> leveled m' t h.
Proof.
  intros Ho Hrep [_ Hb Hn Hs Hl Hri Hp]. split; try done.
  - by rewrite (ho_tree _ _ _ Ho).
  - intros d Hd. destruct (Hri d Hd) as [Hnd Hlk]. split; [done|]. eapply linked_same; [|exact Hlk].
    intros r. by eapply hashes_only_link.
  - intros d p c n' Hc Hn' q Hq. pose proof (hashes_only_hdr _ _ _ (mloc c) Ho) as Hh. rewrite Hn' in Hh.
    destruct (nodes m !! mloc c) as [n|] eqn:En; [|done]. injection Hh as Hh.
    destruct (Hp d p c n Hc En q) as [pn Epn]; [congruence|].
    pose proof (ho_in _ _ _ Ho q) as Hi. rewrite Epn in Hi. destruct (nodes m' !! q) as [[pn'|]|]; [by eexists|done|done].
Qed.

(** What hashing and numbering leave alone: the kind of a node, its header and its keys. *)
Definition skeleton (n : node) : bool * bplus_node * list Z :=
  match n with NonLeaf n => (false, nl_node n, nl_key n) | Leaf n => (true, lf_node n, lf_key n) end.

Lemma ids_only_skeleton m m' l : ids_only m m' -> skeleton <$> nodes m' !! l = skeleton <$> nodes m !! l.
Proof. intros [_ _ _ _ Hn]. destruct (Hn l) as [n n' (id & pid & ->)|]; [|done]. by destruct n. Qed.

Lemma hashes_only_skeleton ls m m' l : hashes_only ls m m' -> skeleton <$> nodes m' !! l = skeleton <$> nodes m !! l.
Proof.
  intros [_ _ _ _ _ Hi]. specialize (Hi l). destruct (nodes m !! l) as [n|], (nodes m' !! l) as [n'|]; try done.
  injection Hi as Hu. apply (f_equal skeleton) in Hu. simpl. f_equal. by destruct n, n'.
Qed.

Section Build.
Context `{HashFn}.

Lemma leaf_index_same m m' t h K T p n n' :
  leaf_index m t h K T p (set_lf_ids (Z.of_nat p) 0 n) -> skeleton (Leaf n') = skeleton (Leaf n) ->
  lf_node_id n' = Z.of_nat p -> tmem m' = tmem m -> leaf_index m' t h K T p n'.
Proof.
  intros [_ Lk Lt] Hs Hid Htm. injection Hs as Eh Ek. split; [done| |].
  - unfold entries in *. rewrite Eh, Ek. exact Lk.
  - rewrite Eh, Htm. exact Lt.
Qed.

Lemma node_index_same t h K k p ts n n' ks :
  node_index t h K k p ts (set_nl_ids (Z.of_nat p) 0 n) ks -> skeleton (NonLeaf n') = skeleton (NonLeaf n) ->
  nl_node_id n' = Z.of_nat p -> node_index t h K k p ts n' ks.
Proof. intros [_ Nk Nl Nz Ns Np] Hs Hid. injection Hs as _ Ek. split; try done. by rewrite Ek. Qed.

(** Hashing and then numbering a tree with keys gives the index. *)
Lemma keyed_indexed m m1 m2 t h K T : keyed m t h K T -> separated m t h K ->
  rep (nodes m1) t -> hashed (nodes m1) t -> hashes_only (mlocs t) m m1 -> ids_only m1 m2 ->
  (forall d, (d <= h)%nat -> numbered m2 t d) -> indexed m2 t h K T.
Proof.
  intros [Hlv Hb Hro HK HlK HlT Hne Hlf] Hsep Hr Hh Ho Hi Hnum.
  assert (forall l, skeleton <$> nodes m2 !! l = skeleton <$> nodes m !! l) as Hsk.
  { intros l. by rewrite (ids_only_skeleton _ _ _ Hi), (hashes_only_skeleton _ _ _ _ Ho). }
  assert (forall d p c n, (d <= h)%nat -> layer d t !! p = Some c -> nodes m2 !! mloc c = Some n -> node_id n = Z.of_nat p) as Hid.
  { intros d p c n Hd Hc Hn. specialize (Hnum d Hd p c Hc). rewrite Hn in Hnum. by injection Hnum. }
  pose proof (leveled_ids_only _ _ _ _ Hi (leveled_hashes_only _ _ _ _ _ Ho Hr Hlv)) as Hlv2.
  split; try done.
  - by eapply rep_ids_only.
  - by eapply hashed_ids_only.
  - apply Hlv2.
  - by rewrite (io_tree _ _ Hi), (ho_tree _ _ _ Ho).
  - pose proof (lv_rings _ _ _ Hlv2 h (Nat.le_refl _)) as Hring. by rewrite Nat.sub_diag in Hring.
  - intros p l ds n Hp Hn. pose proof (Hsk l) as E. rewrite Hn in E.
    destruct (nodes m !! l) as [[n0|n0]|] eqn:E0; [done| |done]. injection E as Eh Ek.
    eapply leaf_index_same; [by eapply Hlf|simpl; by rewrite Eh, Ek| |by rewrite (io_tmem _ _ Hi), (ho_tmem _ _ _ Ho)].
    apply (Hid h p (MLeaf l ds) (Leaf n)); done || lia.
  - intros k p l ts n Hk Hp Hn. pose proof (Hsk l) as E. rewrite Hn in E.
    destruct (nodes m !! l) as [[n0|n0]|] eqn:E0; [|done|done]. injection E as Eh Ek.
    destruct (Hsep k p l ts n0 Hk Hp E0) as [ks Hks]. exists ks.
    eapply node_index_same; [exact Hks|simpl; by rewrite Eh, Ek|].
    apply (Hid (h - S k)%nat p (MNode l ts) (NonLeaf n)); done || lia.
Qed.

(** [set_node_id] on a balanced tree with linked levels, of which those above
    the leaves have at most 500 nodes, and with empty maps: it is defined, changes
    nothing but the numbers of the nodes, numbers every level from left to right
    from 0, and fills the map of each level with the numbers of the children of
    each of its nodes, in the form that [hashmap_serialize] sends. *)
Theorem set_node_id_numbers (m : mem) (t : mtree) (h : nat) (hashp : hashmaps) (temp : list (list Z)) :
  leveled m t h -> bounded t h -> (forall d, (d < h)%nat -> length (layer d t) <= 500)%nat ->
  length hashp = 10%nat -> length temp = 10%nat ->
  (forall i hp marks, hashp !! i = Some hp -> temp !! i = Some marks -> fresh_level hp marks) ->
  exists hashp' temp' m', set_node_id hashp temp m = Some ((hashp', temp'), m') /\
    ids_only m m' /\ (forall d, (d <= h)%nat -> numbered m' t d) /\
    length hashp' = 10%nat /\ length temp' = 10%nat /\
    forall i hp marks M, hashp' !! i = Some hp -> temp' !! i = Some marks -> child_maps t h !! i = Some M ->
      level_ok hp marks M /\ in_s 32 (size hp).
Proof.
  intros Hlv Hb H500 L1 L2 Hf. destruct (set_node_id_runs t h Hb m hashp temp Hlv H500) as ([hp' tm'] & m' & E & Ho & Hn & Hm & _).
  { split_and!; [done..|]. intros j hp marks. rewrite decide_False by lia. intros Hj Hm. by eapply fresh_reusable, Hf. }
  exists hp', tm', m'. split_and!; [done..|apply Hm|apply Hm|]. by apply maps_upto_all.
Qed.


End Build.

(** ** The tree with two leaves *)

Definition no_marks : list (list Z) := replicate 10 (replicate 500 0).

Lemma two_leveled : leveled two_mem demo_two 1.
Proof.
  split; try reflexivity.
  - exact two_rep.
  - apply demo_bounded.
  - eval_dec.
  - discriminate.
  - intros [|[|d]] Hd; [| |lia]; (split; [eval_dec|]); repeat split; reflexivity.
  - intros d p c n Hc Hn q Hq. exists two_root. rewrite <- two_node0. f_equal.
    assert (mloc c ∈ mlocs demo_two) as Hin.
    { apply (layer_mlocs d). apply list_elem_of_fmap. exists c. split; [done|]. by eapply list_elem_of_lookup_2. }
    apply list_elem_of_In in Hin. destruct Hin as [E|[E|[E|[]]]]; rewrite <- E in Hn;
      [rewrite two_node0 in Hn|rewrite two_node1 in Hn|rewrite two_node2 in Hn]; injection Hn as <-;
      first [discriminate Hq | by injection Hq as <-].
Qed.

Lemma two_keyed : keyed two_mem demo_two 1 [10; 20; 30; 40] two_T.
Proof.
  pose proof two_indexed as Hix. split; try apply Hix; [exact two_leveled|].
  intros p l ds n Hp Hn. pose proof (ix_leaf _ _ _ _ _ Hix p l ds n Hp Hn) as [Li Lk Lt]. by split.
Qed.

Lemma two_separated : @separated demo_checksum two_mem demo_two 1 [10; 20; 30; 40].
Proof.
  intros k p l ts n Hk Hp Hn. destruct (ix_node _ _ _ _ _ two_indexed k p l ts n Hk Hp Hn) as [ks Hks].
  exists ks. assert (p = 0%nat) as -> by (assert (k = 0%nat) as -> by lia; apply lookup_lt_Some in Hp; simpl in Hp; lia).
  destruct Hks. by split.
Qed.

Lemma no_marks_fresh i hp marks :
  replicate 10 empty_map !! i = Some hp -> no_marks !! i = Some marks -> fresh_level hp marks.
Proof.
  intros [-> _]%lookup_replicate [-> _]%lookup_replicate. split_and!; [apply empty_map_rep|done|done].
Qed.

Lemma demo_few d : (d < 1)%nat -> (length (layer d demo_two) <= 500)%nat.
Proof. intros Hd. assert (d = 0%nat) as -> by lia. simpl. lia. Qed.

Lemma set_node_id_numbers_witness :
  exists hashp' temp' m', set_node_id (replicate 10 empty_map) no_marks two_mem = Some ((hashp', temp'), m') /\
    (forall d, (d <= 1)%nat -> numbered m' demo_two d).
Proof.
  destruct (@set_node_id_numbers demo_checksum two_mem demo_two 1 (replicate 10 empty_map) no_marks)
    as (hp' & tm' & m' & E & _ & Hn & _);
    [exact two_leveled|exact demo_bounded|exact demo_few|reflexivity|reflexivity|exact no_marks_fresh|].
  exists hp', tm', m'. split; [exact E|exact Hn].
Defined.

