(* ===== verification/StoreSpec.v ===== *)
(** * What bplus_tree_store writes

    [bplus_tree_store] writes the nodes level by level from the leaves up, from
    left to right, one page after the other, and records the offset of each page
    in the parent of its node.  The index of a node among the children of its
    parent is counted along the ring, with a counter that starts again at the
    next parent.  On a tree with linked levels and correct parents, every page
    holds its node, the offsets in every non-leaf are those of its children's
    pages, and the function returns the offset of the root. *)

From S2P Require Import Prelude CMem Codec Hashmap Node NodeCodec Heap Ring Insert Store LeafSpec Merkle Vo HmCodec.
From S2P Require Import Reconstruct ReconstructSpec ReconstructRoot QuerySpec RangeSpec Pipeline Numbering.

(** ** Only offsets change *)

Definition reoffset (n n' : node) : Prop :=
  match n, n' with
  | Leaf a, Leaf b => a = b
  | NonLeaf a, NonLeaf b => exists os, b = set_chindrenoffset os a /\ length os = length (chindrenoffset a) /\
      (Forall (in_s 64) (chindrenoffset a) -> Forall (in_s 64) os)
  | _, _ => False
  end.

Lemma set_chindrenoffset_id n : set_chindrenoffset (chindrenoffset n) n = n.
Proof. by destruct n. Qed.

Lemma reoffset_refl n : reoffset n n.
Proof. destruct n as [n|n]; simpl; [|done]. exists (chindrenoffset n). by rewrite set_chindrenoffset_id. Qed.

Lemma reoffset_trans n1 n2 n3 : reoffset n1 n2 -> reoffset n2 n3 -> reoffset n1 n3.
Proof.
  destruct n1, n2, n3; simpl; try done; [|congruence]. intros (os1 & -> & L1 & R1) (os2 & -> & L2 & R2). simpl in *.
  exists os2. split_and!; [done|congruence|auto].
Qed.

Record offsets_only (m m' : mem) : Prop := {
  oo_tree : set_offset 0 (tree m') = set_offset 0 (tree m);
  oo_next : next_loc m' = next_loc m;
  oo_tmem : tmem m' = tmem m;
  oo_nodes l : option_Forall2 reoffset (nodes m !! l) (nodes m' !! l)
}.

Lemma offsets_only_refl m : offsets_only m m.
Proof. split; try done. intros l. destruct (nodes m !! l); constructor. apply reoffset_refl. Qed.

Lemma offsets_only_trans m1 m2 m3 : offsets_only m1 m2 -> offsets_only m2 m3 -> offsets_only m1 m3.
Proof.
  intros [? ? ? N1] [? ? ? N2]. split; [congruence..|]. intros l. specialize (N1 l). specialize (N2 l).
  destruct N1 as [n1 n2 H12|]; inversion N2; constructor. by eapply reoffset_trans.
Qed.

Lemma offsets_only_lookup m m' l n : offsets_only m m' -> nodes m !! l = Some n ->
  exists n', nodes m' !! l = Some n' /\ reoffset n n'.
Proof. intros [_ _ _ Hn] E. specialize (Hn l). rewrite E in Hn. inversion Hn as [? n' Hr|]; subst. by exists n'. Qed.

Lemma offsets_only_back m m' l n' : offsets_only m m' -> nodes m' !! l = Some n' ->
  exists n, nodes m !! l = Some n /\ reoffset n n'.
Proof. intros [_ _ _ Hn] E. specialize (Hn l). rewrite E in Hn. inversion Hn as [n ? Hr E1|]; subst. by exists n. Qed.

Lemma reoffset_hdr n n' : reoffset n n' -> node_hdr n' = node_hdr n.
Proof. destruct n, n'; simpl; try done; [|congruence]. by intros (os & -> & _). Qed.

Lemma offsets_only_link m m' r : offsets_only m m' -> link_of m' r = link_of m r.
Proof.
  intros Ho. destruct r as [lv|l]; simpl.
  - pose proof (f_equal tlist (oo_tree _ _ Ho)) as E. simpl in E. by rewrite E.
  - pose proof (oo_nodes _ _ Ho l) as Hl. destruct Hl as [n n' Hr|]; [|done]. simpl. by rewrite (reoffset_hdr _ _ Hr).
Qed.

Lemma non_leaf_rep_offsets n os ps : length os = length (chindrenoffset n) ->
  non_leaf_rep n ps -> non_leaf_rep (set_chindrenoffset os n) ps.
Proof.
  intros Hl (Ht & [] & Hr). split; [exact Ht|]. split; [|exact Hr]. split; try done. simpl. unfold zlen in *. congruence.
Qed.

Lemma rep_offsets_only m m' t : offsets_only m m' -> rep (nodes m) t -> rep (nodes m') t.
Proof.
  intros Ho. induction t as [l ds|l ts IH] using mtree_ind'; simpl.
  - intros (n & E & Hr). destruct (offsets_only_lookup _ _ _ _ Ho E) as ([|n'] & E' & Hn); [done|]. simpl in Hn. subst n'. by exists n.
  - intros [(n & E & Hr) Hts]. destruct (offsets_only_lookup _ _ _ _ Ho E) as ([n'|] & E' & Hn); [|done].
    destruct Hn as (os & -> & L & _). split; [eexists; split; [exact E'|by apply non_leaf_rep_offsets]|].
    rewrite all_Forall, Forall_forall in *. auto.
Qed.

Lemma hashed_offsets_only `{HashFn} m m' t : offsets_only m m' -> hashed (nodes m) t -> hashed (nodes m') t.
Proof.
  intros Ho. induction t as [l ds|l ts IH] using mtree_ind'; simpl.
  - intros (n & E & Hr). destruct (offsets_only_lookup _ _ _ _ Ho E) as ([|n'] & E' & Hn); [done|]. simpl in Hn. subst n'. by exists n.
  - intros [(n & E & Hr) Hts]. destruct (offsets_only_lookup _ _ _ _ Ho E) as ([n'|] & E' & Hn); [|done].
    destruct Hn as (os & -> & L & _). split; [eexists; split; [exact E'|exact Hr]|].
    rewrite all_Forall, Forall_forall in *. auto.
Qed.

Lemma leveled_offsets_only m m' t h : offsets_only m m' -> leveled m t h -> leveled m' t h.
Proof.
  intros Ho [Hr Hb Hn Hs Hl Hri Hp]. split; try done.
  - by eapply rep_offsets_only.
  - pose proof (f_equal level (oo_tree _ _ Ho)) as E. simpl in E. by rewrite E.
  - intros d Hd. destruct (Hri d Hd) as [Hnd Hlk]. split; [done|]. eapply linked_same; [|exact Hlk].
    intros r. by apply offsets_only_link.
  - intros d p c n' Hc Hn' q Hq. destruct (offsets_only_back _ _ _ _ Ho Hn') as (n & En & Hrn).
    rewrite (reoffset_hdr _ _ Hrn) in Hq. destruct (Hp d p c n Hc En q Hq) as [pn Epn].
    destruct (offsets_only_lookup _ _ _ _ Ho Epn) as ([pn'|] & E & Hpn); [by eexists|done].
Qed.

(** ** Trees that can be stored *)

Section Storable.
Context {PF : Platform} (t : mtree) (h : nat).

(** Linked levels, every node knows its parent, every non-leaf has 1 to 49
    children, and every node holds what a page can carry. *)
Record storable (m : mem) : Prop := {
  sb_leveled : leveled m t h;
  sb_parent d q l ts c n : layer d t !! q = Some (MNode l ts) -> c ∈ ts -> nodes m !! mloc c = Some n ->
    parent (node_hdr n) = Some l;
  sb_root n : nodes m !! mloc t = Some n -> parent (node_hdr n) = None;
  sb_kids d q l ts : layer d t !! q = Some (MNode l ts) -> (0 < length ts < 50)%nat;
  sb_leaf q l ds n : layer h t !! q = Some (MLeaf l ds) -> nodes m !! l = Some (Leaf n) ->
    exists ks ss hs nh cs, leaf_shows (tmem m) n ks ss hs nh cs;
  sb_node d q l ts n : layer d t !! q = Some (MNode l ts) -> nodes m !! l = Some (NonLeaf n) ->
    Forall (in_s 64) (chindrenoffset n) /\ exists ks hs nh os, non_leaf_shows n ks hs nh os
}.

Lemma non_leaf_shows_offsets n ks hs nh os os' :
  non_leaf_shows n ks hs nh os -> Forall (in_s 64) os' ->
  non_leaf_shows (set_chindrenoffset os' n) ks hs nh (take (length ks) os').
Proof. intros [Ni Nc Nk Nr Nh Nn _ _] Hos. split; try done. by apply Forall_take. Qed.

Lemma storable_offsets_only m m' : offsets_only m m' -> storable m -> storable m'.
Proof.
  intros Ho [Hlv Hp Hr Hk Hlf Hnd]. split; try done.
  - by eapply leveled_offsets_only.
  - intros d q l ts c n' Hq Hc Hn'. destruct (offsets_only_back _ _ _ _ Ho Hn') as (n & En & Hn).
    rewrite (reoffset_hdr _ _ Hn). by eapply Hp.
  - intros n' Hn'. destruct (offsets_only_back _ _ _ _ Ho Hn') as (n & En & Hn). rewrite (reoffset_hdr _ _ Hn). by apply Hr.
  - intros q l ds n' Hq Hn'. destruct (offsets_only_back _ _ _ _ Ho Hn') as ([|n] & En & Hn); [done|]. simpl in Hn. subst n'.
    rewrite (oo_tmem _ _ Ho). by eapply Hlf.
  - intros d q l ts n' Hq Hn'. destruct (offsets_only_back _ _ _ _ Ho Hn') as ([n|] & En & Hn); [|done].
    destruct Hn as (os & -> & L & R). destruct (Hnd d q l ts n Hq En) as [Hf (ks & hs & nh & os0 & Hs)]. split; [by apply R|].
    eexists ks, hs, nh, _. eapply non_leaf_shows_offsets; [exact Hs|by apply R].
Qed.

(** ** Pages *)

(** The page of a node of the tree. *)
Definition page_of (m : mem) (c : mtree) (pg : list Z) : Prop :=
  match c with
  | MLeaf l _ => exists n ks ss hs nh cs, nodes m !! l = Some (Leaf n) /\ leaf_shows (tmem m) n ks ss hs nh cs /\
      leaf_page n ks ss hs nh cs pg
  | MNode l _ => exists n ks hs nh os, nodes m !! l = Some (NonLeaf n) /\ non_leaf_shows n ks hs nh os /\
      non_leaf_page n ks hs nh os pg
  end.

Lemma page_of_zlen m c pg : page_of m c pg -> zlen pg = PAGESIZE.
Proof.
  destruct c as [l ds|l ts]; simpl.
  - by intros (? & ? & ? & ? & ? & ? & _ & _ & ? & _).
  - by intros (? & ? & ? & ? & ? & _ & _ & ? & _).
Qed.

Lemma page_of_same m m' c pg : nodes m' !! mloc c = nodes m !! mloc c -> tmem m' = tmem m -> page_of m c pg -> page_of m' c pg.
Proof. intros E1 E2. destruct c; simpl in *; by rewrite E1, ?E2. Qed.

Lemma serialize_leaf_runs m q l ds buf (Q : list Z -> mem -> Prop) :
  storable m -> layer h t !! q = Some (MLeaf l ds) -> zlen buf = PAGESIZE ->
  (forall pg, page_of m (MLeaf l ds) pg -> Q pg m) -> runs (serialize_leaf_at l buf) m Q.
Proof.
  intros Hst Hq Hb HQ. destruct (layer_rep_leaf _ _ _ _ _ _ (lv_rep _ _ _ (sb_leveled _ Hst)) Hq) as (n & E & Ht & Hw & He & Hm & _).
  destruct (sb_leaf _ Hst q l ds n Hq E) as (ks & ss & hs & nh & cs & Hs).
  destruct (leaf_written (tmem m) n buf ks ss hs nh cs Hw Hs) as (pg & Ew & Hpg); [by rewrite <- (ls_count _ _ _ _ _ _ _ Hs), He|done|].
  eapply runs_bind, runs_load_lf; [exact E|]. apply runs_bind, runs_get_tm. eapply runs_lift; [exact Ew|].
  apply HQ. by exists n, ks, ss, hs, nh, cs.
Qed.

Lemma serialize_non_leaf_runs m d q l ts buf (Q : list Z -> mem -> Prop) :
  storable m -> layer d t !! q = Some (MNode l ts) -> zlen buf = PAGESIZE ->
  (forall pg, page_of m (MNode l ts) pg -> Q pg m) -> runs (serialize_non_leaf_at l buf) m Q.
Proof.
  intros Hst Hq Hb HQ. destruct (layer_rep_node _ _ _ _ _ _ (lv_rep _ _ _ (sb_leveled _ Hst)) Hq) as (n & E & Ht & Hw & Hc & Hm & _).
  destruct (sb_node _ Hst d q l ts n Hq E) as [_ (ks & hs & nh & os & Hs)].
  destruct (non_leaf_written n buf ks hs nh os Hw Hs) as (pg & Ew & Hpg); [|done|].
  { rewrite <- (ns_count _ _ _ _ _ Hs), Hc. unfold zlen, BPLUS_MAX_ORDER. rewrite length_map. pose proof (sb_kids _ Hst d q l ts Hq). lia. }
  eapply runs_bind, runs_load_nl; [exact E|]. eapply runs_lift; [exact Ew|]. apply HQ. by exists n, ks, hs, nh, os.
Qed.

(** ** Where a page goes *)

Fixpoint nodes_below (k : nat) : nat :=
  match k with O => O | S k' => (nodes_below k' + length (layer (h - k') t))%nat end.

Lemma nodes_below_mono j k : (j <= k)%nat -> (nodes_below j <= nodes_below k)%nat.
Proof. induction 1; simpl; lia. Qed.

Context (m0 : mem).

(** The offset of the page of node [p] of level [k]. *)
Definition page_at (k p : nat) : Z := offset (tree m0) + PAGESIZE * Z.of_nat (nodes_below k + p).

(** Node [q] of level [j] comes before node [p] of level [k]. *)
Definition before (j q k p : nat) : Prop := (j < k)%nat \/ j = k /\ (q < p)%nat.

Lemma page_at_before j q k p : before j q k p -> (q < length (layer (h - j) t))%nat -> page_at j q < page_at k p.
Proof.
  intros Hb Hq. unfold page_at, PAGESIZE. assert (nodes_below j + q < nodes_below k + p)%nat; [|lia].
  destruct Hb as [Hlt|[-> Hlt]]; [|lia]. pose proof (nodes_below_mono (S j) k ltac:(lia)). simpl in *. lia.
Qed.

(** The file is open and [pwrite] writes whole pages. *)
Definition pages_written : Prop :=
  0 <= fd (tree m0) /\ 0 <= offset (tree m0) /\ forall o, (Z.to_nat PAGESIZE <= pwritten o)%nat.

(** [pwrite] on the memory of the walk. *)
Lemma pwrite_eq m pg : exists d, pwrite pg m = Some (tt, mkMem (tree m) (nodes m) (next_loc m) (tmem m) d) /\
  (pages_written -> offsets_only m0 m -> 0 <= offset (tree m) -> zlen pg = PAGESIZE ->
   d = <[offset (tree m) := pg]> (disk m)).
Proof.
  unfold pwrite. match goal with |- context [decide (?n = O)] => set (k := n) end. destruct (decide (k = O)) as [Ek|Ek].
  - exists (disk m). split; [by destruct m|]. intros (Hfd & _ & Hw) Ho Hoff Hpg. exfalso.
    pose proof (f_equal fd (oo_tree _ _ Ho)) as E. simpl in E. specialize (Hw (offset (tree m))). unfold PAGESIZE, zlen in *.
    subst k. destruct (Z.leb_spec 0 (fd (tree m))), (Z.leb_spec 0 (offset (tree m))); simpl in Ek; lia.
  - eexists. split; [reflexivity|]. intros (_ & _ & Hw) _ _ Hpg. specialize (Hw (offset (tree m))).
    assert (k = length pg) as ->.
    { subst k. unfold PAGESIZE, zlen in *. destruct ((0 <=? fd (tree m)) && (0 <=? offset (tree m))); [lia|done]. }
    f_equal. rewrite firstn_all, take_app_le, take_ge; [done|..]; unfold PAGESIZE, zlen in *; lia.
Qed.

(** Everything before node [p] of level [k] is stored. *)
Record stored (k p : nat) (m : mem) : Prop := {
  sd_only : offsets_only m0 m;
  sd_offset : offset (tree m) = page_at k p;
  sd_pages j q c : pages_written -> before j q k p -> (j <= h)%nat -> layer (h - j) t !! q = Some c ->
    exists pg, disk m !! page_at j q = Some pg /\ page_of m c pg;
  sd_links j q i l ts n : before j (start (map kids (layer (h - S j) t)) q + i) k p -> (S j <= h)%nat ->
    layer (h - S j) t !! q = Some (MNode l ts) -> (i < length ts)%nat -> nodes m !! l = Some (NonLeaf n) ->
    chindrenoffset n !! i = Some (page_at j (start (map kids (layer (h - S j) t)) q + i))
}.

Lemma stored_level k p m : p = length (layer (h - k) t) -> stored k p m -> stored (S k) 0 m.
Proof.
  intros -> [Ho Hoff Hpg Hln]. assert (page_at (S k) 0 = page_at k (length (layer (h - k) t))) as E
    by (unfold page_at; do 3 f_equal; simpl; lia).
  assert (forall j q c, before j q (S k) 0 -> layer (h - j) t !! q = Some c -> before j q k (length (layer (h - k) t))) as Hb.
  { intros j q c [Hlt|[_ Hlt]] Hc; [|lia]. destruct (decide (j < k)%nat); [by left|]. assert (j = k) as -> by lia.
    right. split; [done|by eapply lookup_lt_Some]. }
  split; [done|by rewrite E|intros j q c Hw Hq Hj Hc; by eapply Hpg; [done|eapply Hb|..]|].
  intros j q i l ts n Hq Hj Hl Hi Hn. eapply Hln; try done. 
  destruct (lookup_lt_is_Some_2 ts i Hi) as [c Hc]. pose proof (layer_child (h - S j) t q l ts i Hl Hi) as Hlc.
  rewrite Hc in Hlc. replace (S (h - S j)) with (h - j)%nat in Hlc by lia. by eapply Hb.
Qed.

(** ** One node *)

(** The counters at node [p] of level [k]: its index among its parent's children,
    and their number. *)
Definition counted (k p : nat) (child_count children_number : Z) : Prop :=
  if decide (k = h) then child_count = 0 /\ children_number = 0
  else exists q l ts i, layer (h - S k) t !! q = Some (MNode l ts) /\
    p = (start (map kids (layer (h - S k) t)) q + i)%nat /\ (i < length ts)%nat /\
    child_count = zlen ts /\ children_number = Z.of_nat i.

Lemma layer_mloc d q c : layer d t !! q = Some c -> mloc c ∈ map mloc (layer d t).
Proof. intros Hc. apply list_elem_of_fmap. exists c. split; [done|]. by eapply list_elem_of_lookup_2. Qed.

Lemma stored_step k p m m' c pg :
  storable m -> stored k p m -> (k <= h)%nat -> layer (h - k) t !! p = Some c -> page_of m c pg ->
  offsets_only m m' -> (pages_written -> disk m' = <[page_at k p := pg]> (disk m)) -> offset (tree m') = page_at k (S p) ->
  (forall l, (k <> h -> ~ l ∈ map mloc (layer (h - S k) t)) -> nodes m' !! l = nodes m !! l) ->
  (forall q l ts i n, (k < h)%nat -> layer (h - S k) t !! q = Some (MNode l ts) -> (i < length ts)%nat ->
     nodes m' !! l = Some (NonLeaf n) -> exists n0, nodes m !! l = Some (NonLeaf n0) /\
       chindrenoffset n !! i = if decide (start (map kids (layer (h - S k) t)) q + i = p)%nat then Some (page_at k p)
                               else chindrenoffset n0 !! i) ->
  stored k (S p) m'.
Proof.
  intros Hst [Ho Hoff Hpg Hln] Hk Hc Hp Ho' Hd Hoff' Hsame Hpar.
  pose proof (lv_nodup _ _ _ (sb_leveled _ Hst)) as Hnd.
  assert (forall j q c', (j <= k)%nat -> layer (h - j) t !! q = Some c' -> nodes m' !! mloc c' = nodes m !! mloc c') as Hlow.
  { intros j q c' Hj Hc'. apply Hsame. intros Hne Hin.
    pose proof (layer_disjoint (h - j) (h - S k) t _ Hnd (layer_mloc _ _ _ Hc') Hin). lia. }
  assert (forall j q, before j q k (S p) -> before j q k p \/ j = k /\ q = p) as Hcase.
  { intros j q [Hlt|[-> Hlt]]; [by left; left|]. destruct (decide (q = p)); [by right|]. left. right. split; [done|lia]. }
  split.
  - by eapply offsets_only_trans.
  - done.
  - intros j q c' Hw Hb Hj Hc'. assert (j <= k)%nat as Hjk by (destruct Hb as [|[-> _]]; lia). rewrite (Hd Hw). destruct (Hcase j q Hb) as [Hb'|[-> ->]].
    + pose proof (page_at_before j q k p Hb' ltac:(by eapply lookup_lt_Some)) as Hlt.
      destruct (Hpg j q c' Hw Hb' Hj Hc') as (pg' & Ed & Hpg'). exists pg'. rewrite lookup_insert_ne by lia. split; [done|].
      eapply page_of_same; [by eapply Hlow|apply (oo_tmem _ _ Ho')|done].
    + rewrite Hc in Hc'. injection Hc' as <-. exists pg. rewrite lookup_insert_eq. split; [done|].
      eapply page_of_same; [by eapply Hlow|apply (oo_tmem _ _ Ho')|done].
  - intros j q i l ts n Hb Hj Hl Hi Hn. destruct (decide (j = k)) as [->|Hne].
    + destruct (Hpar q l ts i n ltac:(lia) Hl Hi Hn) as (n0 & En0 & E). rewrite E. case_decide as Hd'; [by rewrite Hd'|].
      destruct (Hcase _ _ Hb) as [Hb'|[_ Hq]]; [|done]. by eapply Hln.
    + destruct (Hcase _ _ Hb) as [Hb'|[-> _]]; [|done]. eapply Hln; try done.
      assert (S j <= k)%nat as Hjk by (destruct Hb' as [|[-> _]]; [lia|done]). pose proof (Hlow (S j) q (MNode l ts) Hjk Hl) as El. simpl in El. by rewrite <- El.
Qed.

(** Steps 1 and 2 of a round, behind the serialiser. *)
Lemma store_node_runs {A} k p m c pg cc cn (rest : M A) (Q : A -> mem -> Prop) :
  storable m -> stored k p m -> (k <= h)%nat -> layer (h - k) t !! p = Some c -> page_of m c pg -> counted k p cc cn ->
  in_s 64 (page_at k p) ->
  (forall m', storable m' -> stored k (S p) m' -> runs rest m' Q) ->
  runs (do _ <- pwrite pg; do hd <- load_hdr (mloc c); do _ <- record_offset (parent hd) cn;
        do _ <- on_tree (fun t => set_offset (offset t + PAGESIZE) t); rest) m Q.
Proof.
  intros Hst Hsd Hk Hc Hp Hcnt Hr64 HQ. pose proof (sd_offset _ _ _ Hsd) as Hoff.
  assert (page_at k p + PAGESIZE = page_at k (S p)) as Hnext by (unfold page_at; lia).
  destruct (layer_node t h m (h - k) p (mloc c) (sb_leveled _ Hst)) as (c' & n & Hc' & _ & En & _ & _).
  { change (map mloc ?x) with (mloc <$> x). by rewrite list_lookup_fmap, Hc. }
  destruct (pwrite_eq m pg) as (d & Epw & Hd).
  assert (pages_written -> d = <[page_at k p := pg]> (disk m)) as Hdisk.
  { intros Hw. rewrite <- Hoff. apply Hd; [done|apply Hsd| |by eapply page_of_zlen].
    destruct Hw as (_ & Hge & _). rewrite Hoff. unfold page_at, PAGESIZE. lia. }
  apply runs_bind. eexists tt, _. split; [exact Epw|]. eapply runs_bind, runs_load_hdr; [exact En|].
  unfold counted in Hcnt. case_decide as Hkh.
  - subst k. rewrite Nat.sub_diag in Hc. destruct p as [|p]; [|by destruct p]. injection Hc as <-. rewrite (sb_root _ Hst n En).
    apply runs_bind, runs_ret, runs_bind, runs_on_tree.
    match goal with |- runs rest ?mm Q => assert (offsets_only m mm) as Ho by
      (split; [by destruct (tree m)|done|done|intros l; simpl; destruct (nodes m !! l); constructor; apply reoffset_refl]) end.
    apply HQ; [by eapply storable_offsets_only|].
    apply (stored_step h 0 m _ t pg); try done; simpl.
    + by rewrite Nat.sub_diag.
    + rewrite <- Hnext, <- Hoff. done.
    + intros; lia.
  - destruct Hcnt as (q & l & ts & i & Hl & Hpi & Hi & -> & ->).
    destruct (lookup_lt_is_Some_2 ts i Hi) as [x Hx]. pose proof (layer_child (h - S k) t q l ts i Hl Hi) as Hlc.
    rewrite <- Hpi, Hx in Hlc. replace (S (h - S k)) with (h - k)%nat in Hlc by lia. rewrite Hc in Hlc. injection Hlc as <-.
    rewrite (sb_parent _ Hst _ q l ts c n Hl ltac:(by eapply list_elem_of_lookup_2) En).
    destruct (layer_rep_node _ _ _ _ _ _ (lv_rep _ _ _ (sb_leveled _ Hst)) Hl) as (pn & Epn & _ & Hw & _).
    destruct (sb_node _ Hst _ q l ts pn Hl Epn) as [Hrange _]. pose proof (sb_kids _ Hst _ q l ts Hl) as H50.
    pose proof (nlw_off _ Hw) as Hlen. unfold BPLUS_MAX_ORDER in Hlen.
    eapply runs_bind. simpl record_offset. apply runs_bind, runs_get_tree. eapply runs_bind, runs_load_nl; [exact Epn|].
    eapply runs_bind, runs_lift; [apply aset_Some; lia|]. eapply runs_store; [exact Epn|].
    apply runs_bind, runs_on_tree. rewrite Nat2Z.id. simpl. rewrite Hoff.
    match goal with |- runs rest ?mm Q => assert (offsets_only m mm) as Ho end.
    { split; [by destruct (tree m)|done|done|]. intros l'. simpl. destruct (decide (l = l')) as [<-|Hne].
      - rewrite lookup_insert_eq, Epn. constructor. simpl. eexists. split; [done|]. rewrite length_insert. split; [done|].
        intros HF. by apply Forall_insert.
      - rewrite lookup_insert_ne by done. destruct (nodes m !! l'); constructor; apply reoffset_refl. }
    apply HQ; [by eapply storable_offsets_only|]. apply (stored_step k p m _ c pg); try done; simpl.
    + intros l' Hl'. apply lookup_insert_ne. intros <-. apply (Hl' Hkh). by apply (layer_mloc (h - S k) q (MNode l ts)).
    + intros q' l' ts' i' n' Hlt Hl' Hi' Hn'. destruct (decide (l = l')) as [<-|Hne].
      * assert (q' = q) as ->.
        { eapply (NoDup_lookup _ _ _ _ (layer_NoDup (h - S k) t (lv_nodup _ _ _ (sb_leveled _ Hst))));
            change (map mloc ?x) with (mloc <$> x); rewrite list_lookup_fmap, ?Hl', ?Hl; done. }
        rewrite Hl in Hl'. injection Hl' as <-. rewrite lookup_insert_eq in Hn'. injection Hn' as <-. exists pn. split; [done|]. simpl.
        rewrite Hpi. case_decide as Hd'.
        -- assert (i' = i) as -> by lia. rewrite list_lookup_insert_eq by (unfold zlen in Hlen; lia). done.
        -- apply list_lookup_insert_ne. lia.
      * rewrite lookup_insert_ne in Hn' by done. exists n'. split; [done|]. rewrite decide_False; [done|]. intros E.
        apply Hne. rewrite Hpi in E.
        assert (forall q0 i0 l0 ts0, layer (h - S k) t !! q0 = Some (MNode l0 ts0) -> (i0 < length ts0)%nat ->
          owner (map kids (layer (h - S k) t)) (start (map kids (layer (h - S k) t)) q0 + i0) = q0) as Hown.
        { intros q0 i0 l0 ts0 H0 Hi0. apply owner_unique. rewrite (start_S _ q0 ts0); [lia|].
          change (map kids ?x) with (kids <$> x). by rewrite list_lookup_fmap, H0. }
        assert (q' = q) as -> by (rewrite <- (Hown q' i' l' ts' Hl' Hi'), E; by eapply Hown).
        rewrite Hl in Hl'. by injection Hl'.
Qed.

(** ** One level *)

Lemma layer_mnode m d q c : leveled m t h -> (d < h)%nat -> layer d t !! q = Some c -> exists l ts, c = MNode l ts.
Proof.
  intros Hlv Hd Hc. pose proof (Forall_lookup_1 _ _ _ _ (balanced_layer h t d (lv_bal _ _ _ Hlv) ltac:(lia)) Hc) as Hb.
  destruct c as [|l ts]; [|by exists l, ts]. by destruct (h - d)%nat eqn:E; [lia|].
Qed.

(** The first node behind a family starts the next one. *)
Lemma next_family m d q l ts x : storable m -> (d < h)%nat -> layer d t !! q = Some (MNode l ts) ->
  layer (S d) t !! start (map kids (layer d t)) (S q) = Some x ->
  exists l' ts', layer d t !! S q = Some (MNode l' ts') /\ ts' !! 0%nat = Some x /\ (0 < length ts')%nat.
Proof.
  intros Hst Hd Hq Hx. destruct (layer d t !! S q) as [c|] eqn:Ec.
  - destruct (layer_mnode m d (S q) c (sb_leveled _ Hst) Hd Ec) as (l' & ts' & ->). exists l', ts'.
    pose proof (sb_kids _ Hst d (S q) l' ts' Ec) as Hk. split_and!; [done| |lia].
    rewrite <- (layer_child d t (S q) l' ts' 0 Ec ltac:(lia)), Nat.add_0_r. done.
  - apply lookup_lt_Some in Hx. simpl in Hx. apply lookup_ge_None in Ec. unfold start in Hx.
    rewrite take_ge in Hx by (rewrite length_map; lia). lia.
Qed.

Lemma counted_next m k p cc cn c' : storable m -> (k < h)%nat -> counted k p cc cn -> layer (h - k) t !! S p = Some c' ->
  cn + 1 <= cc /\
  (cn + 1 < cc -> counted k (S p) cc (cn + 1)) /\
  (cn + 1 = cc -> forall (Q : Z -> mem -> Prop), (forall cc', counted k (S p) cc' 0 -> Q cc' m) ->
     runs (parent_children (mloc c') cc) m Q).
Proof.
  intros Hst Hk Hcnt Hc'. unfold counted in *. rewrite decide_False in * by lia.
  destruct Hcnt as (q & l & ts & i & Hl & Hpi & Hi & -> & ->). unfold zlen. split_and!; [lia| |].
  - intros Hlt. exists q, l, ts, (S i). split_and!; [done|lia|lia|done|lia].
  - intros Hlast Q HQ.
    assert (S p = start (map kids (layer (h - S k) t)) (S q)) as Hsp.
    { rewrite (start_S _ q ts); [lia|]. change (map kids ?x) with (kids <$> x). by rewrite list_lookup_fmap, Hl. }
    rewrite Hsp in Hc'. replace (h - k)%nat with (S (h - S k)) in Hc' by lia.
    destruct (next_family m (h - S k) q l ts c' Hst ltac:(lia) Hl Hc') as (l' & ts' & Hl' & Hx & Hpos).
    replace (S (h - S k)) with (h - k)%nat in Hc' by lia.
    destruct (layer_node t h m (h - k) (S p) (mloc c') (sb_leveled _ Hst)) as (c2 & n & _ & _ & En & _).
    { change (map mloc ?x) with (mloc <$> x). by rewrite list_lookup_fmap, Hsp, Hc'. }
    destruct (layer_rep_node _ _ _ _ _ _ (lv_rep _ _ _ (sb_leveled _ Hst)) Hl') as (pn & Epn & _ & _ & Hch & _).
    eapply runs_bind, runs_load_hdr; [exact En|].
    rewrite (sb_parent _ Hst _ (S q) l' ts' c' n Hl' (list_elem_of_lookup_2 _ _ _ Hx) En).
    eapply runs_get_children; [exact Epn|]. apply HQ. rewrite decide_False by lia. exists (S q), l', ts', 0%nat.
    split_and!; [done|by rewrite Hsp, Nat.add_0_r|done| |done]. rewrite Hch. unfold zlen. by rewrite length_map.
Qed.

Section Level.
Context (k : nat) (Hk : (k <= h)%nat) (serialize : loc -> list Z -> M (list Z)) (full : Z -> Z -> bool).
Context (Hser : forall m p c buf (Q : list Z -> mem -> Prop), storable m -> layer (h - k) t !! p = Some c -> zlen buf = PAGESIZE ->
  (forall pg, page_of m c pg -> Q pg m) -> runs (serialize (mloc c) buf) m Q).
Context (Hfull : forall a b, a <= b -> full a b = (a =? b)).
Context (Hrange : forall p, (p < length (layer (h - k) t))%nat -> in_s 64 (page_at k p)).

Lemma store_level_runs fuel : forall p c m buf cc cn,
  layer (h - k) t !! p = Some c -> storable m -> stored k p m -> zlen buf = PAGESIZE -> counted k p cc cn ->
  (length (layer (h - k) t) - p <= fuel)%nat ->
  runs (store_level serialize full fuel (Z.of_nat k) (mloc c) buf cc cn) m (fun buf' m' =>
    zlen buf' = PAGESIZE /\ storable m' /\ stored (S k) 0 m').
Proof.
  induction fuel as [|fuel IH]; intros p c m buf cc cn Hc Hst Hsd Hb Hcnt Hf; pose proof (lookup_lt_Some _ _ _ Hc) as Hp; [lia|].
  cbn [store_level]. apply runs_bind. apply (Hser m p c); [done|done|done|]. intros pg Hpg.
  eapply store_node_runs; try done; [by apply Hrange|]. intros m' Hst' Hsd'.
  pose proof (page_of_zlen _ _ _ Hpg) as Hzp. clear m Hst Hsd Hpg.
  pose proof (lv_rings _ _ _ (sb_leveled _ Hst') (h - k) ltac:(lia)) as Hring. replace (h - (h - k))%nat with k in Hring by lia.
  assert (map mloc (layer (h - k) t) !! p = Some (mloc c)) as Hl
    by (change (map mloc ?x) with (mloc <$> x); by rewrite list_lookup_fmap, Hc).
  eapply runs_bind, runs_is_last; [exact Hring|exact Hl|]. rewrite length_map. case_bool_decide as Hlast.
  - apply runs_ret. split_and!; [done|done|]. by apply (stored_level k (S p)).
  - destruct (lookup_lt_is_Some_2 (layer (h - k) t) (S p)) as [c' Hc']; [lia|].
    assert (map mloc (layer (h - k) t) !! S p = Some (mloc c')) as Hl'
      by (change (map mloc ?x) with (mloc <$> x); by rewrite list_lookup_fmap, Hc').
    eapply runs_bind, runs_list_next_entry; [by eapply ring_next|]. eapply runs_bind, runs_lift; [reflexivity|].
    assert (k < h)%nat as Hkh.
    { destruct (decide (k = h)) as [->|]; [|lia]. rewrite Nat.sub_diag in Hc'. by destruct p. }
    destruct (counted_next m' k p cc cn c' Hst' Hkh Hcnt Hc') as (Hle & Hmore & Hnew). rewrite Hfull by done.
    destruct (Z.eqb_spec (cn + 1) cc) as [E|E].
    + apply runs_bind. apply (Hnew E). intros cc' Hcnt'. apply (IH (S p)); try done; lia.
    + apply (IH (S p)); try done; [apply Hmore; lia|lia].
Qed.

End Level.

(** ** All levels *)

Lemma first_counted m k c (Q : Z -> mem -> Prop) : storable m -> (k <= h)%nat -> layer (h - k) t !! 0%nat = Some c ->
  (forall cc, counted k 0 cc 0 -> Q cc m) -> runs (parent_children (mloc c) 0) m Q.
Proof.
  intros Hst Hk Hc HQ. destruct (layer_node t h m (h - k) 0 (mloc c) (sb_leveled _ Hst)) as (c2 & n & _ & _ & En & _).
  { change (map mloc ?x) with (mloc <$> x). by rewrite list_lookup_fmap, Hc. }
  eapply runs_bind, runs_load_hdr; [exact En|]. unfold counted in HQ. destruct (decide (k = h)) as [->|Hne].
  - rewrite Nat.sub_diag in Hc. injection Hc as <-. rewrite (sb_root _ Hst n En). apply runs_ret. by apply HQ.
  - destruct (layer_nonempty t h m (h - S k) (sb_leveled _ Hst) ltac:(lia)) as (f & fs & Ef).
    assert (layer (h - S k) t !! 0%nat = Some f) as Hf0 by (by rewrite Ef).
    destruct (layer_mnode m (h - S k) 0 f (sb_leveled _ Hst) ltac:(lia) Hf0) as (l & ts & ->).
    pose proof (sb_kids _ Hst _ _ l ts Hf0) as Hts. pose proof (layer_child (h - S k) t 0 l ts 0 Hf0 ltac:(lia)) as Hx.
    replace (S (h - S k)) with (h - k)%nat in Hx by lia. simpl in Hx. rewrite Hc in Hx. symmetry in Hx.
    rewrite (sb_parent _ Hst _ 0 l ts c n Hf0 (list_elem_of_lookup_2 _ _ _ Hx) En).
    destruct (layer_rep_node _ _ _ _ _ _ (lv_rep _ _ _ (sb_leveled _ Hst)) Hf0) as (pn & Epn & _ & _ & Hch & _).
    eapply runs_get_children; [exact Epn|]. apply HQ. exists 0%nat, l, ts, 0%nat.
    split_and!; [done|done|lia| |done]. rewrite Hch. unfold zlen. by rewrite length_map.
Qed.

Lemma store_runs : storable m0 -> 0 <= offset (tree m0) -> page_at (S h) 0 < 2 ^ 63 ->
  runs bplus_tree_store m0 (fun r m => r = page_at h 0 /\ storable m /\ stored (S h) 0 m).
Proof.
  intros Hst0 Hoff0 Hmax. assert (forall k p, (k <= h)%nat -> (p < length (layer (h - k) t))%nat -> in_s 64 (page_at k p)) as Hrange.
  { intros k p Hk Hp. pose proof (page_at_before k p (S h) 0 ltac:(left; lia) Hp). unfold in_s, page_at, PAGESIZE in *. lia. }
  unfold bplus_tree_store. apply runs_bind, runs_get_tree. rewrite (lv_level _ _ _ (sb_leveled _ Hst0)).
  apply runs_bind. eexists _, m0. split; [reflexivity|]. apply runs_bind. eapply runs_wand.
  - apply (mfor_up_rule (fun i s m => zlen s.1 = PAGESIZE /\ storable m /\ stored (Z.to_nat i) 0 m /\
      (i = Z.of_nat h + 1 -> s.2 = page_at h 0))).
    + lia.
    + split_and!; [done|done| |lia]. split; [apply offsets_only_refl|unfold page_at; simpl; lia| |];
        intros; exfalso; by match goal with Hb : before _ _ _ _ |- _ => destruct Hb as [|[_ ?]]; lia end.
    + intros i [buf ro] m Hi (Hb & Hst & Hsd & _). destruct (Z_of_nat_complete i ltac:(lia)) as [k ->].
      rewrite Nat2Z.id in Hsd. cbn [fst snd] in *. apply runs_bind, runs_get_tree. rewrite (lv_level _ _ _ (sb_leveled _ Hst)), (sd_offset _ _ _ Hsd).
      destruct (layer_nonempty t h m (h - k) (sb_leveled _ Hst) ltac:(lia)) as (c & cs & Ec).
      pose proof (lv_rings _ _ _ (sb_leveled _ Hst) (h - k) ltac:(lia)) as Hring. replace (h - (h - k))%nat with k in Hring by lia.
      rewrite Ec in Hring. assert (layer (h - k) t !! 0%nat = Some c) as Hc by (by rewrite Ec).
      eapply runs_bind, runs_first_of_level; [exact Hring|]. apply runs_bind. apply (first_counted m k c); [done|lia|done|].
      intros cc Hcnt. pose proof (layer_fuel t h m0 (h - k) (sb_leveled _ Hst0)) as Hfuel. rewrite length_map in Hfuel.
      apply runs_bind. eapply runs_wand.
      { destruct (Z.eqb_spec (Z.of_nat k) 0) as [Ek|Ek].
        - apply (store_level_runs k ltac:(lia) serialize_leaf_at) with (p := 0%nat); try done; [| |intros p Hp; apply Hrange; lia|lia].
          + intros m1 p1 c1 buf1 Q1 Hst1 Hc1 Hb1 HQ1. replace (h - k)%nat with h in Hc1 by lia.
            pose proof (Forall_lookup_1 _ _ _ _ (balanced_layer h t h (lv_bal _ _ _ (sb_leveled _ Hst1)) (Nat.le_refl _)) Hc1) as Hbal.
            rewrite Nat.sub_diag in Hbal. destruct c1 as [l1 ds1|]; [|done]. by eapply serialize_leaf_runs.
          + intros a b Hab. destruct (Z.leb_spec b a), (Z.eqb_spec a b); done || lia.
        - apply (store_level_runs k ltac:(lia) serialize_non_leaf_at) with (p := 0%nat); try done; [|intros p Hp; apply Hrange; lia|lia].
          intros m1 p1 c1 buf1 Q1 Hst1 Hc1 Hb1 HQ1. destruct (layer_mnode m1 (h - k) p1 c1 (sb_leveled _ Hst1) ltac:(lia) Hc1) as (l1 & ts1 & ->).
          by eapply serialize_non_leaf_runs. }
      intros buf' m' (Hb' & Hst' & Hsd'). apply runs_ret. replace (Z.to_nat (Z.of_nat k + 1)) with (S k) by lia.
      split_and!; try done. intros Hlast. simpl. assert (k = h) as -> by lia. by rewrite Z.eqb_refl.
  - intros [buf ro] m (_ & Hst & Hsd & Hro). apply runs_ret. replace (Z.to_nat (Z.of_nat h + 1)) with (S h) in Hsd by lia.
    split_and!; [by apply Hro|done|done].
Qed.

End Storable.

(** ** What hashing and numbering leave to be stored *)

Lemma hashes_only_proj {A} (f : node -> A) ls m m' l : (forall n, f (unhashed n) = f n) -> hashes_only ls m m' ->
  f <$> nodes m' !! l = f <$> nodes m !! l.
Proof.
  intros Hf [_ _ _ _ _ Hi]. specialize (Hi l). destruct (nodes m !! l) as [n|], (nodes m' !! l) as [n'|]; try done.
  injection Hi as Hu. simpl. f_equal. by rewrite <- (Hf n), <- (Hf n'), Hu.
Qed.

Lemma ids_only_proj {A} (f : node -> A) m m' l : (forall id pid n, f (set_id id pid n) = f n) -> ids_only m m' ->
  f <$> nodes m' !! l = f <$> nodes m !! l.
Proof. intros Hf [_ _ _ _ Hn]. destruct (Hn l) as [n n' (id & pid & ->)|]; [|done]. simpl. by rewrite Hf. Qed.

Lemma hashes_only_ids_ok ls m m' : hashes_only ls m m' -> ids_ok m -> ids_ok m'.
Proof.
  intros Ho Hok l n' Hn'. pose proof (hashes_only_proj (fun n => (node_id n, parent_id n)) ls m m' l ltac:(by intros []) Ho) as E.
  rewrite Hn' in E. destruct (nodes m !! l) as [n|] eqn:En; [|done]. injection E as -> ->. by eapply Hok.
Qed.

(** The offsets of a node. *)
Definition offsets_of (n : node) : list Z := match n with NonLeaf n => chindrenoffset n | Leaf _ => [] end.

(** A tree with keys whose numbers fit their fields, with correct parents. *)
Record writable (m : mem) (t : mtree) (h : nat) (K : list Z) (T : list ItemPointerData) : Prop := {
  wr_parent d q l ts c n : layer d t !! q = Some (MNode l ts) -> c ∈ ts -> nodes m !! mloc c = Some n ->
    parent (node_hdr n) = Some l;
  wr_root n : nodes m !! mloc t = Some n -> parent (node_hdr n) = None;
  wr_kids d q l ts : layer d t !! q = Some (MNode l ts) -> (0 < length ts < 50)%nat;
  wr_ids : ids_ok m;
  wr_hdr l n : nodes m !! l = Some n -> in_s 64 (type (node_hdr n)) /\ in_s 64 (parent_key_idx (node_hdr n));
  wr_keys : Forall (in_s 64) K;
  wr_tids : Forall tid_ok T;
  wr_node d q l ts n : layer d t !! q = Some (MNode l ts) -> nodes m !! l = Some (NonLeaf n) ->
    Forall (in_s 64) (nl_key n) /\ Forall (in_s 64) (chindrenoffset n)
}.

Lemma shows_holds b s : shows b s -> zlen b = 33 -> holds 32 33 b s.
Proof.
  intros [Hc _] Hb. split; [done|]. split; [|done]. destruct (cstr_inv _ _ Hc) as [rest ->].
  unfold zlen in Hb. rewrite length_app in Hb. simpl in Hb. lia.
Qed.

Lemma shows_all_hold bs ss : Forall2 shows bs ss -> Forall (fun b => zlen b = 33) bs -> Forall2 (holds 32 33) bs ss.
Proof.
  intros Hs. induction Hs as [|b s bs ss Hb _ IH]; intros Hw; constructor; apply Forall_cons in Hw as [? ?];
    [by apply shows_holds|by apply IH].
Qed.

Section Built.
Context `{HashFn}.
Context (m m1 m2 : mem) (t : mtree) (h : nat) (K : list Z) (T : list ItemPointerData).
Context (Hky : keyed m t h K T) (Hwr : writable m t h K T).
Context (Hrep1 : rep (nodes m1) t) (Ho : hashes_only (mlocs t) m m1) (Hi : ids_only m1 m2).
Context (Hix : indexed m2 t h K T) (Hids : ids_ok m2).

Lemma built_proj {A} (f : node -> A) l : (forall n, f (unhashed n) = f n) -> (forall id pid n, f (set_id id pid n) = f n) ->
  f <$> nodes m2 !! l = f <$> nodes m !! l.
Proof. intros Hf Hg. by rewrite (ids_only_proj f m1 m2 l Hg Hi), (hashes_only_proj f _ m m1 l Hf Ho). Qed.

Lemma built_hdr l n2 : nodes m2 !! l = Some n2 -> exists n, nodes m !! l = Some n /\ node_hdr n2 = node_hdr n.
Proof.
  intros E2. pose proof (built_proj node_hdr l ltac:(by intros []) ltac:(by intros ? ? [])) as E. rewrite E2 in E.
  destruct (nodes m !! l) as [n|]; [|done]. injection E as E. by exists n.
Qed.

Lemma built_leaf q l ds n : layer h t !! q = Some (MLeaf l ds) -> nodes m2 !! l = Some (Leaf n) ->
  exists ks ss hs nh cs, leaf_shows (tmem m2) n ks ss hs nh cs.
Proof.
  intros Hq En. destruct (leaf_struct m2 t h K T Hix q l ds Hq) as (n' & E' & (Ht & [Wt Wk Wd Wds Wc Wcs Wn] & He & Hm & Hsh) & [Lid Lk Lt] & _).
  rewrite En in E'. injection E' as <-. destruct (built_hdr l _ En) as (n0 & En0 & Ehdr). simpl in Ehdr.
  destruct (wr_hdr _ _ _ _ _ Hwr l n0 En0) as [Hty Hpk]. rewrite <- Ehdr in Hty, Hpk. destruct (Hids l _ En) as [Hid Hpid]. simpl in Hid, Hpid.
  pose proof (layer_Forall (hashed (nodes m2)) t h) as Hh.
  pose proof (Forall_lookup_1 _ _ _ _ (Hh ltac:(by intros l' ts [_ Ha%all_Forall]) (ix_hashed _ _ _ _ _ Hix)) Hq) as (n' & E' & Hch & Hnh).
  rewrite En in E'. injection E' as <-.
  assert (start (leaf_strings t h) (S q) = start (leaf_strings t h) q + length ds)%nat as Hstart.
  { apply start_S. unfold leaf_strings. change (map ?f ?l) with (f <$> l). by rewrite list_lookup_fmap, Hq. }
  assert (start (leaf_strings t h) (S q) <= length T)%nat as HT.
  { rewrite (ix_lenT _ _ _ _ _ Hix), <- (layer_strings t h h (bd_bal _ _ (ix_bounded _ _ _ _ _ Hix)) (Nat.le_refl _)). apply start_le. }
  rewrite He in Lk. unfold zlen in Lk. rewrite Nat2Z.id in Lk.
  unfold BPLUS_MAX_ENTRIES, zlen in *.
  assert (length (take (length ds) (lf_key n)) = length ds) as Lks by (rewrite length_take; lia).
  exists (take (length ds) (lf_key n)), ds, (map H ds), (mhash (MLeaf l ds)),
    (slice (start (leaf_strings t h) q) (start (leaf_strings t h) (S q)) T).
  split; rewrite ?Lks; try done.
  - rewrite He. repeat (apply Forall_cons; split); try apply Forall_nil; try done. unfold in_s. lia.
  - rewrite He. unfold zlen. by rewrite Lks.
  - rewrite Lk. unfold slice. apply Forall_take, Forall_drop, Hwr.
  - apply shows_all_hold; [exact Hsh|by apply Forall_take].
  - apply shows_all_hold; [exact Hch|by apply Forall_take].
  - apply shows_holds; [exact Hnh|exact Wn].
  - apply Forall2_same_length_lookup_2.
    + rewrite length_take, slice_length by lia. lia.
    + intros j p c Hp Hc. assert (j < length ds)%nat as Hj by (apply lookup_lt_Some in Hp; rewrite length_take in Hp; lia).
      unfold slice in Hc. rewrite lookup_take_lt, lookup_drop in Hc by lia.
      destruct (Lt j c ltac:(lia) Hc) as (p' & Hp' & Hl). rewrite lookup_take_lt in Hp by lia. rewrite Hp in Hp'. by injection Hp' as <-.
  - unfold slice. apply Forall_take, Forall_drop, Hwr.
Qed.

Lemma built_node d q l ts n : (d < h)%nat -> layer d t !! q = Some (MNode l ts) -> nodes m2 !! l = Some (NonLeaf n) ->
  Forall (in_s 64) (chindrenoffset n) /\ exists ks hs nh os, non_leaf_shows n ks hs nh os.
Proof.
  intros Hd Hq En. pose proof (built_proj skeleton l ltac:(by intros []) ltac:(by intros ? ? [])) as Esk.
  pose proof (built_proj offsets_of l ltac:(by intros []) ltac:(by intros ? ? [])) as Eof. rewrite En in Esk, Eof.
  destruct (nodes m !! l) as [[n0|n0]|] eqn:En0; [|done|done]. injection Esk as Eh Ek. injection Eof as Eo.
  destruct (wr_node _ _ _ _ _ Hwr d q l ts n0 Hq En0) as [Hkr Hor]. rewrite <- Ek in Hkr. simpl in Eo. rewrite <- Eo in Hor.
  destruct (wr_hdr _ _ _ _ _ Hwr l _ En0) as [Hty Hpk]. simpl in Hty, Hpk. rewrite <- Eh in Hty, Hpk.
  destruct (Hids l _ En) as [Hid Hpid]. simpl in Hid, Hpid. pose proof (wr_kids _ _ _ _ _ Hwr d q l ts Hq) as H50.
  destruct (layer_rep_node _ _ _ _ _ _ (ix_rep _ _ _ _ _ Hix) Hq) as (n' & E' & Ht & [Wt Wk Wsub Wc Wcs Wn Wo] & Hc & Hm & _).
  rewrite En in E'. injection E' as <-.
  pose proof (layer_Forall (hashed (nodes m2)) t d) as Hh.
  pose proof (Forall_lookup_1 _ _ _ _ (Hh ltac:(by intros l' ts' [_ Ha%all_Forall]) (ix_hashed _ _ _ _ _ Hix)) Hq) as [(n' & E' & Hch & Hnh) _].
  rewrite En in E'. injection E' as <-. split; [done|]. unfold BPLUS_MAX_ORDER, zlen in *. rewrite length_map in Hc.
  assert (length (take (length ts) (nl_key n)) = length ts) as Lks by (rewrite length_take; lia).
  exists (take (length ts) (nl_key n)), (map mhash ts), (mhash (MNode l ts)), (take (length ts) (chindrenoffset n)).
  split; rewrite ?Lks; try done.
  - rewrite Hc. repeat (apply Forall_cons; split); try apply Forall_nil; try done. unfold in_s. lia.
  - rewrite Hc. unfold zlen. by rewrite Lks.
  - by apply Forall_take.
  - apply shows_all_hold; [exact Hch|by apply Forall_take].
  - apply shows_holds; [exact Hnh|exact Wn].
  - by apply Forall_take.
Qed.

Lemma layer_node_depth d q l ts : layer d t !! q = Some (MNode l ts) -> (d < h)%nat.
Proof.
  intros Hq. destruct (decide (d < h)%nat) as [|Hge]; [done|exfalso].
  pose proof (balanced_layer h t h (bd_bal _ _ (ix_bounded _ _ _ _ _ Hix)) (Nat.le_refl _)) as Hb. rewrite Nat.sub_diag in Hb.
  assert (Forall (balanced 0) (layer d t)) as Hd.
  { replace d with (h + (d - h))%nat by lia. generalize (d - h)%nat as e. clear Hq. intros e. induction e as [|e IH]; [by rewrite Nat.add_0_r|].
    rewrite Nat.add_succ_r. simpl. apply Forall_concat_2, Forall_forall. intros cs Hcs. apply list_elem_of_fmap in Hcs as (c & -> & Hc).
    rewrite Forall_forall in IH. specialize (IH c Hc). destruct c; [constructor|done]. }
  exact (Forall_lookup_1 _ _ _ _ Hd Hq).
Qed.

Lemma built_storable : storable t h m2.
Proof.
  split.
  - apply (leveled_ids_only _ _ _ _ Hi), (leveled_hashes_only _ _ _ _ _ Ho Hrep1), Hky.
  - intros d q l ts c n2 Hq Hc E2. destruct (built_hdr _ _ E2) as (n & En & ->). by eapply wr_parent.
  - intros n2 E2. destruct (built_hdr _ _ E2) as (n & En & ->). by eapply wr_root.
  - intros d q l ts. apply (wr_kids _ _ _ _ _ Hwr).
  - apply built_leaf.
  - intros d q l ts n Hq En. eapply built_node; [by eapply layer_node_depth|done..].
Qed.

End Built.

Lemma indexed_offsets_only `{HashFn} m m' t h K T : offsets_only m m' -> indexed m t h K T -> indexed m' t h K T.
Proof.
  intros Ho Hix. pose proof (oo_tree _ _ Ho) as Et. split; try apply Hix.
  - eapply rep_offsets_only, Hix. done.
  - eapply hashed_offsets_only, Hix. done.
  - rewrite <- (ix_level _ _ _ _ _ Hix). by apply (f_equal level) in Et.
  - rewrite <- (ix_root _ _ _ _ _ Hix). by apply (f_equal root) in Et.
  - destruct (ix_ring _ _ _ _ _ Hix) as [Hnd Hlk]. split; [done|]. eapply linked_same; [|exact Hlk].
    intros r. by apply offsets_only_link.
  - intros p l ds n' Hp Hn'. destruct (offsets_only_back _ _ _ _ Ho Hn') as ([|n] & En & Hr); [done|]. simpl in Hr. subst n'.
    destruct (ix_leaf _ _ _ _ _ Hix p l ds n Hp En). split; try done. by rewrite (oo_tmem _ _ Ho).
  - intros k p l ts n' Hk Hp Hn'. destruct (offsets_only_back _ _ _ _ Ho Hn') as ([n|] & En & Hr); [|done].
    destruct Hr as (os & -> & _). destruct (ix_node _ _ _ _ _ Hix k p l ts n Hk Hp En) as [ks []]. by exists ks.
Qed.

(** ** The theorem *)

(** C14. [bplus_tree_store] on a tree with linked levels, correct parents, 1 to 49
    children per non-leaf and contents that fit the fields: it is defined and
    returns the offset of the root's page.  Counting the nodes level by level from
    the leaves up and from left to right, the page of node [q] of level [j] lies
    at the start offset plus [PAGESIZE] for each node before it, and its offset is
    that of the child in its parent.  When the file is open and [pwrite] writes
    whole pages, which the function does not test, every page holds its node, with
    the offsets of the children.  Nothing but the offsets in the nodes changes. *)
Theorem bplus_tree_store_correct {PF : Platform} (t : mtree) (h : nat) (m : mem) :
  storable t h m -> 0 <= offset (tree m) -> page_at t h m (S h) 0 < 2 ^ 63 ->
  exists m', bplus_tree_store m = Some (page_at t h m h 0, m') /\
    (0 <= fd (tree m) -> (forall o, (4096 <= pwritten o)%nat) -> forall j q c, (j <= h)%nat -> layer (h - j) t !! q = Some c ->
       exists pg, disk m' !! page_at t h m j q = Some pg /\ page_of m' c pg) /\
    (forall j q i l ts n, (S j <= h)%nat -> layer (h - S j) t !! q = Some (MNode l ts) -> (i < length ts)%nat ->
       nodes m' !! l = Some (NonLeaf n) ->
       chindrenoffset n !! i = Some (page_at t h m j (start (map kids (layer (h - S j) t)) q + i))) /\
    offset (tree m') = page_at t h m (S h) 0 /\ offsets_only m m'.
Proof.
  intros Hst Hoff Hmax. destruct (store_runs t h m Hst Hoff Hmax) as (r & m' & E & -> & _ & [So Sf Sp Sl]).
  exists m'. split; [exact E|]. split_and!; try done.
  - intros Hfd Hw j q c Hj Hc. apply (Sp j q c); [done|left; lia|done..].
  - intros j q i l ts n Hj Hq Hi Hn. apply (Sl j q i l ts n); [left; lia|done..].
Qed.

(** ** The tree with two leaves *)

Lemma two_node_cases l n : nodes two_mem !! l = Some n ->
  l = 0%nat /\ n = NonLeaf two_root \/
  exists lk c k1 k2 s1 s2 id, n = Leaf (two_leaf lk c k1 k2 s1 s2 id) /\ (id = 0 \/ id = 1) /\ (l = 1 \/ l = 2)%nat.
Proof.
  intros E. destruct (decide (l = 0%nat)) as [->|N0]; [left; rewrite two_node0 in E; by injection E|right].
  destruct (decide (l = 1%nat)) as [->|N1]; [rewrite two_node1 in E; injection E as <-; repeat eexists; by left|].
  destruct (decide (l = 2%nat)) as [->|N2]; [rewrite two_node2 in E; injection E as <-; repeat eexists; by right|].
  exfalso. unfold two_mem in E. cbn [nodes] in E. by rewrite !lookup_insert_ne in E by done.
Qed.

Lemma two_layer_node d q l ts : layer d demo_two !! q = Some (MNode l ts) ->
  l = 0%nat /\ map mloc ts = [1%nat; 2%nat].
Proof.
  destruct d as [|[|[|d]]].
  - destruct q; [|done]. by injection 1 as <- <-.
  - by destruct q as [|[|q]].
  - by destruct q.
  - intros Hq. exfalso. assert (layer (S (S (S d))) demo_two = []) as E; [|by rewrite E in Hq].
    clear Hq. induction d as [|d IH]; [done|]. simpl in *. by rewrite IH.
Qed.

Lemma two_writable : writable two_mem demo_two 1 [10; 20; 30; 40] two_T.
Proof.
  split.
  - intros d q l ts c n Hq Hc Hn. destruct (two_layer_node _ _ _ _ Hq) as [-> Hts].
    apply (list_elem_of_fmap_2 mloc) in Hc. change (mloc <$> ts) with (map mloc ts) in Hc. rewrite Hts in Hc.
    destruct (two_node_cases _ _ Hn) as [[E _]|(? & ? & ? & ? & ? & ? & ? & -> & _)]; [|done].
    rewrite E in Hc. exfalso. revert Hc. eval_dec.
  - by intros n [= <-].
  - intros d q l ts Hq. destruct (two_layer_node _ _ _ _ Hq) as [_ Hts]. apply (f_equal length) in Hts.
    rewrite length_map in Hts. rewrite Hts. simpl. lia.
  - intros l n Hn. destruct (two_node_cases _ _ Hn) as [[_ ->]|(? & ? & ? & ? & ? & ? & ? & -> & [-> | ->] & _)]; split; eval_dec.
  - intros l n Hn. destruct (two_node_cases _ _ Hn) as [[_ ->]|(? & ? & ? & ? & ? & ? & ? & -> & _)]; split; eval_dec.
  - eval_dec.
  - eval_dec.
  - intros d q l ts n Hq Hn. destruct (two_layer_node _ _ _ _ Hq) as [-> _]. injection Hn as <-. split; eval_dec.
Qed.

Lemma two_storable : storable demo_two 1 two_mem.
Proof.
  apply (@built_storable demo_checksum two_mem two_mem two_mem demo_two 1 [10; 20; 30; 40] two_T);
    [exact two_keyed|exact two_writable|exact two_rep|apply hashes_only_refl|apply ids_only_refl
    |exact two_indexed|apply two_writable].
Qed.

(** The leaves go to the first two pages, the root to the third. *)
Lemma bplus_tree_store_correct_witness :
  exists m', @bplus_tree_store demo_platform two_mem = Some (2 * PAGESIZE, m') /\
    (exists pg, disk m' !! (2 * PAGESIZE) = Some pg /\ page_of m' demo_two pg) /\
    offset (tree m') = 3 * PAGESIZE.
Proof.
  destruct (@bplus_tree_store_correct demo_platform demo_two 1 two_mem) as (m' & E & Hp & _ & Ho & _);
    [exact two_storable|simpl; lia|vm_compute; reflexivity|].
  exists m'. split; [exact E|]. split; [|exact Ho].
  apply (Hp ltac:(vm_compute; discriminate) ltac:(intros o; apply Nat.le_refl) 1%nat 0%nat demo_two (Nat.le_refl _) eq_refl).
Defined.
