(* ===== verification/IndexAm.v ===== *)
(** * The index access method (mbtbuild, mbtinsert and mbtgettuple in
    src/src/backend/access/mbtree/mbtree.c; AuthRangeQuery and StoreBtree in
    src/src/include/mbt/testtree.h)

    The access method keeps its state in global variables: a map from the number
    of an index to its tree, and the maps of child numbers, the marks, the offset
    of the root page and the number of insertions, which all indexes share.

    A pointer to a tree is a key of [am_trees]; the memory of a tree is that of
    Heap.v.  All trees write the same file, which these functions never read; the
    model keeps the pages per tree.  Before the first build the array of maps
    holds NULL pointers, here the empty list. *)

From S2P Require Import Prelude CMem Codec Hashmap Node NodeCodec Heap Ring Insert Delete LeafSpec Store Merkle.
From S2P Require Import Vo HmCodec RangeQuery.
From S2P Require Import Reconstruct ReconstructSpec ReconstructRoot QuerySpec RangeSpec Pipeline Numbering.

Record am := mkAm {
  key_hashp : option (Hashmap nat);
  am_trees : gmap nat mem;
  am_next : nat;
  am_hashp : hashmaps;
  am_temp_node_id : list (list Z);
  am_root_offset : Z;
  mbt_entries_count : Z
}.

(** [hashmap_new(NUM_BUCKETS, myhash, compare)] for every level. *)
Definition level_maps : option hashmaps :=
  for_range 0 BPLUS_MAX_LEVEL (fun _ hms =>
    do hm <- hashmap_new true true NUM_BUCKETS myhash compare; Some (hms ++ [hm])) [].

(** Only the maps are new; marks, offset and counter keep their values.  The
    block of the tree and the result of [open] are arguments.  [relNode] is an
    unsigned number and becomes an [int]. *)
Definition mbtbuild (fresh : bplus_tree) (opened relNode : Z) (st : am) : option am :=
  let index_oid := s32 relNode in
  do kh <- match key_hashp st with
           | None => hashmap_new true true NUM_BUCKETS myhash compare
           | Some kh => Some kh
           end;
  do hashp <- level_maps;
  do tree <- bplus_tree_init true fresh 10 10;
  do tree <- tree;
  let tree := mybplus_tree_init opened tree in
  let p := am_next st in
  do ' (kh, _) <- hashmap_set true kh index_oid (Some p);
  Some (mkAm (Some kh) (<[p := mkMem tree ∅ 0 (mkTidMem ∅ 0) ∅]> (am_trees st)) (S p) hashp
          (am_temp_node_id st) (am_root_offset st) (mbt_entries_count st)).

(** [hashmap_get(key_hashp, rel->rd_node.relNode)]: here the unsigned number is the
    key. *)
Definition tree_of (relNode : Z) (st : am) : option (option nat) :=
  do kh <- key_hashp st; hashmap_get kh relNode.

(** A function called on the tree behind a pointer. *)
Definition at_tree {A} (p : option nat) (e : M A) (st : am) : option (A * am) :=
  do p <- p;
  do m <- am_trees st !! p;
  do ' (x, m') <- e m;
  Some (x, mkAm (key_hashp st) (<[p := m']> (am_trees st)) (am_next st) (am_hashp st)
             (am_temp_node_id st) (am_root_offset st) (mbt_entries_count st)).

Definition StoreBtree `{Platform} : M Z :=
  do root_offset <- bplus_tree_store;
  do _ <- on_tree (set_offset 0);
  mret root_offset.

Definition set_entries_count (n : Z) (st : am) : am :=
  mkAm (key_hashp st) (am_trees st) (am_next st) (am_hashp st) (am_temp_node_id st) (am_root_offset st) n.
Definition set_maps (hashp : hashmaps) (temp : list (list Z)) (st : am) : am :=
  mkAm (key_hashp st) (am_trees st) (am_next st) hashp temp (am_root_offset st) (mbt_entries_count st).
Definition set_root_offset (o : Z) (st : am) : am :=
  mkAm (key_hashp st) (am_trees st) (am_next st) (am_hashp st) (am_temp_node_id st) o (mbt_entries_count st).

Section Insertion.
Context `{HashFn} `{Malloc}.

(** The result is the new [info->root_str] when it was assigned. *)
Definition mbtinsert (relNode value : Z) (str : list Z) (ht_ctid : ItemPointerData) (st : am)
  : option (option (option (list Z)) * am) :=
  do p <- tree_of relNode st;
  do ' (_, st) <- at_tree p (bplus_tree_put value str ht_ctid) st;
  let st := set_entries_count (mbt_entries_count st + 1) st in
  if 998 <=? mbt_entries_count st then
    do ' (root_str, st) <- at_tree p (do t <- get_tree; hashcompute depth_fuel (root t)) st;
    do ' (maps, st) <- at_tree p (set_node_id (am_hashp st) (am_temp_node_id st)) st;
    let st := set_maps maps.1 maps.2 st in
    do ' (root_offset, st) <- at_tree p StoreBtree st;
    Some (Some root_str, set_root_offset (s32 root_offset) st)
  else Some (None, st).

End Insertion.

(** ** The range query of the access method *)

Definition set_itemdata (ts : list ItemPointerData) (vo : rangevo) : rangevo :=
  mkRangevo (traverse_height vo) (leftvo vo) (rightvo vo) (vdata vo) ts (vo_hashmap vo) (mbtree_size vo).
Definition set_vo_hashmap (buf : list Z) (vo : rangevo) : rangevo :=
  mkRangevo (traverse_height vo) (leftvo vo) (rightvo vo) (vdata vo) (itemdata vo) buf (mbtree_size vo).

(** [for(i=0;i<result.size-1;i++)] over the array [data]; the bound is a
    [size_t], which is huge for an empty result. *)
Fixpoint keep_changes (fuel : nat) (data : list ItemPointerData) (size i size_count : Z)
  : option (list ItemPointerData * Z) :=
  if i <? u64 (size - 1) then
    match fuel with
    | O => None
    | S fuel' =>
        do a <- aget data i;
        do b <- aget data (i + 1);
        if negb (ip_posid a =? ip_posid b) then
          do data <- aset data size_count a;
          keep_changes fuel' data size (i + 1) (size_count + 1)
        else keep_changes fuel' data size (i + 1) size_count
    end
  else Some (data, size_count).

(** What is kept is pushed into [vo->itemdata], whose elements have the size of a
    [pgvector], from the block [data] of pointers. *)
Definition keep_items `{Platform} (data : list ItemPointerData) : option (list ItemPointerData) :=
  let size := zlen data in
  do ' (data, size_count) <- keep_changes (S (length data)) data size 0 0;
  do last <- aget data (size - 1);
  do ' (data, size_count) <-
    (if ip_posid last <? 100 then
       do data <- aset data size_count last; Some (data, size_count + 1)
     else Some (data, size_count));
  for_range 0 size_count (fun i acc =>
    do x <- aget data i;
    do _ <- push_entry SIZEOF_PGVECTOR size i;
    Some (acc ++ [x])) [].

Section Queries.
Context `{Malloc}.

Definition AuthRangeQuery (start end_ : Z) (vo : rangevo) : M rangevo :=
  do q <- bplus_tree_get_range_disk_vo start end_ [] vo [];
  do items <- lift (keep_items (q_result q));
  mret (set_itemdata (itemdata (q_vo q) ++ items) (q_vo q)).

(** The size of the buffers for a range, in [int] arithmetic. *)
Definition hashmap_size (left right : Z) : option Z :=
  let sizes := right - left + 1 in
  let size := (Z.quot sizes 400 + 1) * 8192 in
  if bool_decide (in_s 32 (right - left) /\ in_s 32 sizes /\ in_s 32 size /\ 0 <= size) then Some size else None.

(** [block] is the object as [malloc] returns it; a negative size makes [memset]
    leave the block. *)
Definition mbtgettuple (block : rangevo) (relNode left right : Z) (st : am) : option rangevo :=
  do size <- hashmap_size left right;
  let vo := rangevo_init block size in
  do p <- tree_of relNode st;
  do buf <- hashmap_serialize (am_hashp st) (am_temp_node_id st) (vo_hashmap vo);
  let vo := set_vo_hashmap buf vo in
  do ' (vo, _) <- at_tree p (AuthRangeQuery left right vo) st;
  Some vo.

End Queries.

(** ** What is kept *)

(** The entries whose [ip_posid] is not that of the next one. *)
Fixpoint changes (l : list ItemPointerData) : list ItemPointerData :=
  match l with
  | a :: (b :: _) as l' => if ip_posid a =? ip_posid b then changes l' else a :: changes l'
  | _ => []
  end.

Definition kept (l : list ItemPointerData) : list ItemPointerData :=
  changes l ++ match last l with Some x => if ip_posid x <? 100 then [x] else [] | None => [] end.

Lemma keep_changes_spec fuel size : 0 < size < 2 ^ 63 -> forall (data : list ItemPointerData) (i sc : nat),
  zlen data = size -> (sc <= i)%nat -> Z.of_nat i <= size - 1 -> size - Z.of_nat i < Z.of_nat fuel ->
  exists data' sc' : _, keep_changes fuel data size (Z.of_nat i) (Z.of_nat sc) = Some (data', Z.of_nat sc') /\
    length data' = length data /\ Z.of_nat sc' <= size - 1 /\ take sc' data' = take sc data ++ changes (drop i data) /\
    data' !! Z.to_nat (size - 1) = data !! Z.to_nat (size - 1).
Proof.
  intros Hsz. induction fuel as [|fuel IH]; intros data i sc Hlen Hsc Hi Hf; [lia|]. cbn [keep_changes].
  unfold u64, wrapu. rewrite Z.mod_small by lia. unfold zlen in Hlen.
  destruct (lookup_lt_is_Some_2 data i) as [a Ha]; [lia|].
  destruct (Z.ltb_spec (Z.of_nat i) (size - 1)).
  - destruct (lookup_lt_is_Some_2 data (S i)) as [b Hb]; [lia|].
    rewrite !aget_nat, Ha. replace (Z.of_nat i + 1) with (Z.of_nat (S i)) by lia. rewrite aget_nat, Hb. cbn [mbind option_bind].
    assert (drop i data = a :: b :: drop (S (S i)) data) as Ed by (by rewrite (drop_S _ _ _ Ha), (drop_S _ _ _ Hb)).
    destruct (Z.eqb_spec (ip_posid a) (ip_posid b)) as [E|E]; simpl negb; cbv iota.
    + destruct (IH data (S i) sc) as (d' & sc' & E' & L' & B' & T' & Last'); [done|lia..|].
      exists d', sc'. split_and!; [done..| |done]. rewrite T', Ed. f_equal. cbn [changes]. rewrite E, Z.eqb_refl.
      by rewrite (drop_S _ _ _ Hb).
    + rewrite aset_Some by (unfold zlen; lia). cbn [mbind option_bind]. rewrite Nat2Z.id.
      replace (Z.of_nat sc + 1) with (Z.of_nat (S sc)) by lia.
      destruct (IH (<[sc := a]> data) (S i) (S sc)) as (d' & sc' & E' & L' & B' & T' & Last');
        [unfold zlen; rewrite length_insert; lia|lia..|].
      exists d', sc'. rewrite length_insert in L'. split_and!; [done..| |rewrite Last'; apply list_lookup_insert_ne; lia].
      rewrite T', Ed. cbn [changes]. destruct (Z.eqb_spec (ip_posid a) (ip_posid b)); [done|].
      rewrite drop_insert_lt by lia. rewrite (drop_S _ _ _ Hb).
      rewrite (take_S_r _ _ a) by (apply list_lookup_insert_eq; lia). rewrite take_insert_ge by lia. by rewrite <- app_assoc.
  - exists data, sc. split_and!; [done..|lia| |done]. rewrite (drop_S _ _ _ Ha), (drop_ge data (S i)) by lia.
    simpl. by rewrite app_nil_r.
Qed.

Lemma push_entry_ok `{Platform} es n i : 8 * i + es <= 8 * n + past_block -> push_entry es n i = Some tt.
Proof. intros Hi. unfold push_entry. by rewrite (proj2 (Z.leb_le _ _) Hi). Qed.

Lemma for_copy `{Platform} {A} (d : list A) (n : nat) : 24 <= past_block -> (n <= length d)%nat ->
  for_range 0 (Z.of_nat n) (fun i acc => do x <- aget d i; do _ <- push_entry SIZEOF_PGVECTOR (zlen d) i; Some (acc ++ [x])) []
  = Some (take n d).
Proof.
  intros Hpb Hn. destruct (for_range_rule (fun i acc => acc = take (Z.to_nat i) d) 0 (Z.of_nat n)
    (fun i acc => do x <- aget d i; do _ <- push_entry SIZEOF_PGVECTOR (zlen d) i; Some (acc ++ [x])) [])
    as (r & -> & ->); [lia|done| |by rewrite Nat2Z.id].
  intros i s Hi ->. rewrite push_entry_ok by (unfold SIZEOF_PGVECTOR, zlen; lia). destruct (lookup_lt_is_Some_2 d (Z.to_nat i)) as [y Hy]; [lia|].
  destruct (Z_of_nat_complete i ltac:(lia)) as [k ->]. rewrite Nat2Z.id in Hy. rewrite aget_nat, Hy.
  eexists. split; [done|]. replace (Z.to_nat (Z.of_nat k + 1)) with (S k) by lia. by rewrite Nat2Z.id, (take_S_r _ _ y).
Qed.

Lemma keep_items_spec `{Platform} data : 24 <= past_block -> data <> [] -> zlen data < 2 ^ 63 -> keep_items data = Some (kept data).
Proof.
  intros Hpb Hne Hl. assert (0 < zlen data) as Hpos by (destruct data; [done|unfold zlen; simpl; lia]).
  unfold keep_items. destruct (keep_changes_spec (S (length data)) (zlen data) ltac:(lia) data 0 0) as (d & sc & E & L & B & T & La);
    [done|lia|lia|unfold zlen; lia|]. change (Z.of_nat 0) with 0 in E. rewrite E. cbn [mbind option_bind]. cbv beta iota.
  destruct (lookup_lt_is_Some_2 data (Z.to_nat (zlen data - 1))) as [x Hx]; [unfold zlen in *; lia|].
  assert (last data = Some x) as Hlast.
  { rewrite last_lookup. rewrite <- Hx. f_equal. unfold zlen. lia. }
  assert (aget d (zlen data - 1) = Some x) as Eg.
  { unfold aget. destruct (Z.leb_spec 0 (zlen data - 1)); [|lia]. by rewrite La. }
  rewrite Eg. cbn [mbind option_bind].
  assert (zlen data = zlen d) as Ez by (unfold zlen; by rewrite L).
  unfold kept. rewrite Hlast. simpl in T. destruct (Z.ltb_spec (ip_posid x) 100).
  - rewrite aset_Some by (unfold zlen in *; lia). cbn [mbind option_bind]. rewrite Nat2Z.id.
    replace (Z.of_nat sc + 1) with (Z.of_nat (S sc)) by lia.
    replace (zlen data) with (zlen (<[sc := x]> d)) by (rewrite Ez; unfold zlen; by rewrite length_insert).
    unfold zlen in Ez, B. rewrite for_copy by (rewrite ?length_insert; lia).
    rewrite (take_S_r _ _ x) by (apply list_lookup_insert_eq; lia). by rewrite take_insert_ge, T by lia.
  - cbn [mbind option_bind]. rewrite Ez. unfold zlen in Ez, B. rewrite for_copy by lia. by rewrite T, app_nil_r.
Qed.

(** Neighbours differ and the last entry is below 100: nothing is lost. *)
Fixpoint all_kept (l : list ItemPointerData) : bool :=
  match l with
  | a :: (b :: _) as l' => negb (ip_posid a =? ip_posid b) && all_kept l'
  | [a] => ip_posid a <? 100
  | [] => true
  end.

Lemma nothing_lost l : all_kept l = true -> kept l = l.
Proof.
  unfold kept. induction l as [|a l IH]; [done|]. destruct l as [|b l]; cbn [all_kept].
  - simpl. by intros ->.
  - intros [Hab Hl]%andb_true_iff. cbn [changes]. destruct (ip_posid a =? ip_posid b); [done|].
    rewrite <- app_comm_cons. f_equal. exact (IH Hl).
Qed.

(** Nothing is added, and the order stays. *)
Lemma kept_sublist l : sublist (kept l) l.
Proof.
  unfold kept. induction l as [|a l IH]; [done|]. destruct l as [|b l].
  - simpl. destruct (ip_posid a <? 100); repeat constructor.
  - cbn [changes]. change (last (a :: b :: l)) with (last (b :: l)).
    destruct (ip_posid a =? ip_posid b); [by apply sublist_cons|]. rewrite <- app_comm_cons. apply sublist_skip, IH.
Qed.

(** ** The query leaves the rest of the object alone *)

Definition side_fields (vo : rangevo) : list ItemPointerData * list Z * Z :=
  (itemdata vo, vo_hashmap vo, mbtree_size vo).

Lemma bind_inv {A B} (e : M A) (f : A -> M B) m r m' : (e ≫= f) m = Some (r, m') ->
  exists x m1, e m = Some (x, m1) /\ f x m1 = Some (r, m').
Proof. unfold mbind, M_bind. destruct (e m) as [[x m1]|]; [|done]. by exists x, m1. Qed.

Lemma lift_inv {A} (o : option A) m r m' : lift o m = Some (r, m') -> o = Some r /\ m' = m.
Proof. unfold lift. destruct o; [|done]. by intros [= -> ->]. Qed.

Section Kept.
Context `{Malloc}.

Lemma left_step_side min n vo c vo' : left_step min n vo = Some (c, vo') -> side_fields vo' = side_fields vo.
Proof. unfold left_step. intros E. repeat (case_match || inv_some); done. Qed.

Lemma right_step_side max n vo c vo' : right_step max n vo = Some (c, vo') -> side_fields vo' = side_fields vo.
Proof. unfold right_step. intros E. repeat (case_match || inv_some); done. Qed.

Lemma left_path_side levels : forall tmp leaf min vo m r m',
  left_path levels tmp leaf min vo m = Some (r, m') -> side_fields r.2 = side_fields vo.
Proof.
  induction levels as [|k IH]; intros tmp leaf min vo m r m' E; cbn [left_path] in E; [by injection E as <- _|].
  apply bind_inv in E as (l & m1 & _ & E). apply bind_inv in E as (n & m2 & _ & E).
  apply bind_inv in E as ([c vo1] & m3 & Es & E). apply lift_inv in Es as [Es _]. apply left_step_side in Es.
  cbv zeta in E. destruct k; apply IH in E; rewrite E, <- Es; done.
Qed.

Lemma right_path_side levels : forall tmp leaf max vo m r m',
  right_path levels tmp leaf max vo m = Some (r, m') -> side_fields r.2 = side_fields vo.
Proof.
  induction levels as [|k IH]; intros tmp leaf max vo m r m' E; cbn [right_path] in E; [by injection E as <- _|].
  apply bind_inv in E as (l & m1 & _ & E). apply bind_inv in E as (n & m2 & _ & E).
  apply bind_inv in E as ([c vo1] & m3 & Es & E). apply lift_inv in Es as [Es _]. apply right_step_side in Es.
  cbv zeta in E. destruct k; apply IH in E; rewrite E, <- Es; done.
Qed.

Lemma scan_side fuel : forall ln i key1 key2 max nodedata q m r m',
  scan fuel ln i key1 key2 max nodedata q m = Some (r, m') -> side_fields (q_vo r.2) = side_fields (q_vo q).
Proof.
  induction fuel as [|fuel IH]; intros ln i key1 key2 max nodedata q m r m' E; cbn [scan] in E;
    apply bind_inv in E as (l & m1 & _ & E); apply bind_inv in E as (n & m2 & _ & E);
    apply bind_inv in E as (k & m3 & _ & E); destruct (k <=? max); try (by injection E as <- _); [done|].
  apply bind_inv in E as (d & m4 & _ & E). apply bind_inv in E as (d1 & m5 & _ & E).
  apply bind_inv in E as (u & m5' & _ & E). cbv zeta in E.
  apply bind_inv in E as (q1 & m6 & Eq & E).
  assert (side_fields (q_vo q1) = side_fields (q_vo q)) as Hq.
  { destruct (_ && _); [|by injection Eq as <- _]. apply bind_inv in Eq as (p & m7 & _ & Eq).
    apply bind_inv in Eq as (tm & m8 & _ & Eq). apply bind_inv in Eq as (tid & m9 & _ & Eq). by injection Eq as <- _. }
  rewrite <- Hq. destruct (entries n <=? i + 1); [|by apply IH in E].
  apply bind_inv in E as (nx & m7 & _ & E). by apply IH in E.
Qed.

Lemma query_side key1 key2 vo m q m' : bplus_tree_get_range_disk_vo key1 key2 [] vo [] m = Some (q, m') ->
  side_fields (q_vo q) = side_fields vo.
Proof.
  unfold bplus_tree_get_range_disk_vo. intros E. apply bind_inv in E as (t & m1 & _ & E). cbv zeta in E.
  apply bind_inv in E as ([tmp1 vo1] & m2 & E1 & E). apply left_path_side in E1.
  apply bind_inv in E as (lf & m3 & _ & E). apply bind_inv in E as (n & m4 & _ & E).
  apply bind_inv in E as (vo2 & m5 & E2 & E). apply lift_inv in E2 as [E2 _].
  assert (side_fields vo2 = side_fields vo1) as H2 by (unfold left_leaf in E2; inv_some; done).
  apply bind_inv in E as ([ln i] & m6 & _ & E). apply bind_inv in E as (fu & m7 & _ & E).
  apply bind_inv in E as ([nd q1] & m8 & E3 & E). apply scan_side in E3.
  apply bind_inv in E as ([tmp3 vo3] & m9 & E4 & E). apply right_path_side in E4.
  apply bind_inv in E as (lf2 & m10 & _ & E). apply bind_inv in E as (n2 & m11 & _ & E).
  apply bind_inv in E as (vo4 & m12 & E5 & E). apply lift_inv in E5 as [E5 _].
  assert (side_fields vo4 = side_fields vo3) as H4 by (unfold right_leaf in E5; inv_some; done).
  injection E as <- _. simpl in *. rewrite H4, E4. change (side_fields (q_vo q1) = side_fields vo). rewrite E3, <- E1, <- H2. done.
Qed.

End Kept.

(** ** The theorems *)

Lemma keep_items_empty `{Platform} : keep_items [] = None.
Proof. reflexivity. Qed.

Lemma slice_nonempty {A} (l : list A) lo hi : (lo <= hi)%nat -> (hi < length l)%nat -> slice lo (S hi) l <> [].
Proof.
  intros Hlo Hhi E. apply (f_equal length) in E. unfold slice in E. rewrite length_take, length_drop in E. simpl in E. lia.
Qed.

Section Range.
Context `{HashFn} `{Malloc}.

Lemma auth_range_runs (m : mem) (t : mtree) (h : nat) (K : list Z) (T : list ItemPointerData) (lo hi : nat)
    (key1 key2 : Z) (vo : rangevo) :
  24 <= past_local -> 24 <= past_block ->
  indexed m t h K T -> (0 < h)%nat -> (lo <= hi)%nat -> (S hi < length (strings t))%nat ->
  K !! lo = Some key1 -> K !! hi = Some key2 -> fresh_vo vo ->
  runs (AuthRangeQuery key1 key2 vo) m (fun vo' m' => m' = m /\ answer t h lo hi vo' /\
    side_fields vo' = (itemdata vo ++ kept (slice lo (S hi) T), vo_hashmap vo, mbtree_size vo)).
Proof.
  intros Hpl Hpb Hix Hh Hlh Hhi HK1 HK2 Hf.
  destruct (query_runs m t h K T Hix Hh lo hi key1 key2 Hlh Hhi HK1 HK2 Hpl vo Hf) as (q & m' & E & -> & Ha & Hr & _).
  pose proof (query_side _ _ _ _ _ _ E) as Hside.
  pose proof (ix_lenT _ _ _ _ _ Hix) as HT. pose proof (strings_few t h hi (ix_bounded _ _ _ _ _ Hix) Hhi).
  apply runs_bind. exists q, m. split; [exact E|]. eapply runs_bind, runs_lift.
  { rewrite Hr. apply keep_items_spec; [done|apply slice_nonempty; lia|].
    unfold zlen, slice. rewrite length_take, length_drop. lia. }
  apply runs_ret. split; [done|]. split; [by destruct Ha|]. unfold side_fields in *. simpl. by injection Hside as -> -> ->.
Qed.


(** A range without entries makes [AuthRangeQuery] leave its array: when the
    query finds nothing, [result.size - 1] is the largest [size_t] and the loop
    reads [data[0]] of an empty array. *)
Theorem auth_range_query_empty (key1 key2 : Z) (vo : rangevo) (m : mem) (q : qstate) (m' : mem) :
  bplus_tree_get_range_disk_vo key1 key2 [] vo [] m = Some (q, m') -> q_result q = [] ->
  AuthRangeQuery key1 key2 vo m = None.
Proof.
  intros E Hq. unfold AuthRangeQuery, mbind, M_bind. rewrite E, Hq. unfold lift. by rewrite keep_items_empty.
Qed.

End Range.

(** ** The tree with two leaves *)


Lemma two_backwards : (fun r => q_result r.1) <$>
  @bplus_tree_get_range_disk_vo demo_malloc 30 20 [] (rangevo_init two_vo 0) [] two_mem = Some [].
Proof. vm_compute. reflexivity. Qed.

Lemma auth_range_query_empty_witness :
  @AuthRangeQuery demo_malloc 30 20 (rangevo_init two_vo 0) two_mem = None.
Proof.
  pose proof two_backwards as Hb.
  destruct (bplus_tree_get_range_disk_vo 30 20 [] (rangevo_init two_vo 0) [] two_mem) as [[q m']|] eqn:E; [|discriminate Hb].
  apply (@auth_range_query_empty demo_malloc 30 20 (rangevo_init two_vo 0) two_mem q m' E). by injection Hb.
Defined.

(** The row at the same position of the next page hides this one. *)
Example keep_items_drops : @keep_items demo_platform [mkTid 0 1 7; mkTid 0 2 7; mkTid 0 2 100] = Some [mkTid 0 2 7].
Proof. reflexivity. Qed.

(** With no byte behind the block the push of the last pointer leaves it. *)
Example keep_items_strict : @keep_items strict [mkTid 0 1 7] = None.
Proof. reflexivity. Qed.

(** A tree is found again when its number is an [int]; above, it was entered under
    another key. *)
Definition no_index : am := mkAm None ∅ 0 [] [] 0 0.
Example built_found : (mbtbuild (mkTree 0 0 0 None [] 0 0) 3 7 no_index ≫= tree_of 7) = Some (Some 0%nat).
Proof. vm_compute. reflexivity. Qed.
Example built_lost : (mbtbuild (mkTree 0 0 0 None [] 0 0) 3 (2 ^ 31 + 7) no_index ≫= tree_of (2 ^ 31 + 7)) = Some None.
Proof. vm_compute. reflexivity. Qed.
