(* ===== verification/Scan.v ===== *)
(** * The authenticated index scan (AuthIndexNext in
    src/src/backend/executor/nodeIndexscan.c, auth_index_getnext in
    src/src/backend/access/index/indexam.c, ExecScan in
    src/src/backend/executor/execScan.c, ExecutePlan in
    src/src/backend/executor/execMain.c, printVO in
    src/src/backend/access/common/printtup.c)

    The executor calls [ExecScan] for one row after the other, which calls
    [AuthIndexNext].  The first call takes the range from the condition of the
    query, runs the range query and serialises the verification object; the
    following calls return the rows of the item pointers; the call behind the last
    row clears the slot of the scan and leaves the two buffers in it, which
    [ExecutePlan] sends in messages of two chunks of 8192 bytes each, if it is the
    slot that [ExecScan] returns: with a projection that is another one.

    The position in the scan is kept in static variables, so there is one scan at
    a time.  The rows come from the buffer manager: [fetch] gives the tuple of a
    block number and an offset number.  The fields [flag], [hashmap_num] and the
    two strings of a new slot are not initialised: they are part of the state.
    The plan has the scan at its top, no junk filter, no limit and a target list
    without functions that return sets. *)

From stdpp Require Import strings.
From S2P Require Import Prelude CMem Codec Node Vo IndexAm.

Definition DEFAULTSIZE : Z := 8192.

(** ** Outcomes *)

(** An error raised for the statement, undefined behaviour, a loop that has not
    ended within its fuel, or a result. *)
Inductive outcome (A : Type) :=
  | Refused
  | Undefined
  | OutOfFuel
  | Done (a : A).
Arguments Refused {A}.
Arguments Undefined {A}.
Arguments OutOfFuel {A}.
Arguments Done {A} a.

#[export] Instance outcome_bind : MBind outcome := fun A B f o =>
  match o with
  | Refused => Refused
  | Undefined => Undefined
  | OutOfFuel => OutOfFuel
  | Done a => f a
  end.

(** A computation that is only defined or not. *)
Definition defined {A} (o : option A) : outcome A := match o with Some a => Done a | None => Undefined end.

(** ** The condition of the query *)

(** [column op constant]; the column is not looked at. *)
Record comparison := mkCmp { opName : string; constvalue : Z }.

Inductive Auth_Expr :=
  | Auth_Op_Expr (lexpr rexpr : comparison)
  | Auth_Comparison (c : comparison).

(** [strcmp(a, b)] as a condition: true when the strings differ. *)
Definition strcmp (a b : string) : bool := bool_decide (a <> b).

(** The local variables [left] and [right] of type [int], if they are assigned. *)
Definition range_of (authexpr : Auth_Expr) : option Z * option Z :=
  match authexpr with
  | Auth_Op_Expr lexpr rexpr =>
      let v1 := s32 (constvalue lexpr) in
      let v2 := s32 (constvalue rexpr) in
      let r := (None, None) in
      let r := if strcmp (opName lexpr) "<" && strcmp (opName rexpr) ">" then (Some v1, Some v2) else r in
      if strcmp (opName lexpr) ">" && strcmp (opName rexpr) "<" then (Some v2, Some v1) else r
  | Auth_Comparison c =>
      let v := s32 (constvalue c) in
      let left := if strcmp (opName c) ">" then Some v else None in
      let right := if strcmp (opName c) "<" then Some v else None in
      if strcmp (opName c) "=" then (Some v, Some v) else (left, right)
  end.

(** What the serialiser leaves in a buffer of its own. *)
Lemma vo_written vo (n : Z) : vo_ok vo -> zlen (vo_bytes vo) <= n ->
  exists vs, vo_serialize vo (replicate (Z.to_nat n) 0) = Some vs /\ zlen vs = n.
Proof.
  intros Hok Hfit. assert (0 <= n) by (pose proof (zlen_nonneg (vo_bytes vo)); lia).
  assert (zlen (vo_bytes vo) <= zlen (replicate (Z.to_nat n) 0)) as Hf by (rewrite zlen_replicate; lia).
  destruct (vo_serialize vo (replicate (Z.to_nat n) 0)) as [vs|] eqn:E.
  - exists vs. split; [done|]. rewrite (emits_zlen _ _ _ _ (vo_writer_emits vo Hok) Hf E), zlen_replicate. lia.
  - unfold vo_serialize in E. by rewrite (emits_run _ _ _ (vo_writer_emits vo Hok) Hf) in E.
Qed.

(** ** The scan *)

(** The access method of an index: the one of the tree, whose [amgettuple] is
    [mbtgettuple], or another one. *)
Inductive access_method := AM_mbtree | AM_other.

(** What the procedure [amgettuple] of an access method returns: [mbtgettuple] the
    pointer to an object, the others a boolean. *)
Inductive datum := PointerDatum (vo : rangevo) | BoolDatum (b : bool).

Definition auth_index_getnext (am : access_method) (mbtgettuple : Z -> Z -> option rangevo) (amgettuple : Z -> Z -> option bool)
  (left right : Z) : option datum :=
  match am with
  | AM_mbtree => do vo <- mbtgettuple left right; Some (PointerDatum vo)
  | AM_other => do b <- amgettuple left right; Some (BoolDatum b)
  end.

(** [myvo->field] for the result as a pointer: a boolean is no address. *)
Definition object_at (d : datum) : option rangevo :=
  match d with PointerDatum vo => Some vo | BoolDatum _ => None end.

(** [malloc(mbtree_size*DEFAULTSIZE*sizeof(char))]: an [int] that becomes a [size_t]. *)
Definition buffer_size (myvo : rangevo) : option Z :=
  do n <- int_mul (mbtree_size myvo) DEFAULTSIZE;
  check 0 <=? n;
  Some n.

Section Scan.
Context {HeapTuple : Type} (fetch : Z -> Z -> HeapTuple).

Record TupleTableSlot := mkSlot {
  tts_tuple : option HeapTuple;
  slot_flag : bool;
  hashmap_num : Z;
  slot_hashmap_str : list Z;
  slot_vo_str : list Z
}.

(** The static variables and the two slots of the scan. *)
Record scan_state := mkScan {
  ss_flag : bool;
  ss_vo_str : option (list Z);
  ss_hashpmap_str : option (list Z);
  ss_myvo : option rangevo;
  vector_index : Z;
  ss_slot : TupleTableSlot;
  ps_result : TupleTableSlot
}.

(** [ExecStoreTuple] and [ExecClearTuple]. *)
Definition store_tuple (t : option HeapTuple) (s : TupleTableSlot) : TupleTableSlot :=
  mkSlot t (slot_flag s) (hashmap_num s) (slot_hashmap_str s) (slot_vo_str s).

Definition set_result (s : TupleTableSlot) (st : scan_state) : scan_state :=
  mkScan (ss_flag st) (ss_vo_str st) (ss_hashpmap_str st) (ss_myvo st) (vector_index st) (ss_slot st) s.

Definition ItemPointerGetBlockNumber (tid : ItemPointerData) : Z :=
  Z.lor (Z.shiftl (bi_hi tid) 16) (bi_lo tid).

Context (getnext : Z -> Z -> option datum) (authexpr : option Auth_Expr).

(** The part under [if(flag)]: only here the condition of the plan is read, which
    is [None] when it is no comparison.  The two buffers are zeroed blocks; the
    bytes of [myvo->hashmap] are copied one by one. *)
Definition auth_start (st : scan_state) : option scan_state :=
  do e <- authexpr;
  do l <- (range_of e).1;
  do r <- (range_of e).2;
  do d <- getnext l r;
  do myvo <- object_at d;
  do n <- buffer_size myvo;
  do vo_str <- vo_serialize myvo (replicate (Z.to_nat n) 0);
  do hashpmap_str <- read_bytes (vo_hashmap myvo) 0 n;
  Some (mkScan false (Some vo_str) (Some hashpmap_str) (Some myvo) 0 (ss_slot st) (ps_result st)).

(** What the last call leaves in the slot. *)
Definition slot_end (myvo : rangevo) (hashpmap_str vo_str : list Z) : option TupleTableSlot :=
  do n <- buffer_size myvo;
  do hs <- read_bytes hashpmap_str 0 n;
  do vs <- read_bytes vo_str 0 n;
  Some (mkSlot None true (mbtree_size myvo) hs vs).

Definition AuthIndexNext (st : scan_state) : option scan_state :=
  do st <- (if ss_flag st then auth_start st else Some st);
  do myvo <- ss_myvo st;
  if zlen (itemdata myvo) =? vector_index st then
    do hs <- ss_hashpmap_str st;
    do vs <- ss_vo_str st;
    do slot <- slot_end myvo hs vs;
    Some (mkScan true (ss_vo_str st) (ss_hashpmap_str st) None (vector_index st) slot (ps_result st))
  else if vector_index st <? zlen (itemdata myvo) then
    do tid <- aget (itemdata myvo) (vector_index st);
    let tuple := fetch (ItemPointerGetBlockNumber tid) (ip_posid tid) in
    Some (mkScan (ss_flag st) (ss_vo_str st) (ss_hashpmap_str st) (Some myvo) (vector_index st + 1)
            (store_tuple (Some tuple) (ss_slot st)) (ps_result st))
  else None.

(** A pointer to one of the two slots. *)
Inductive slot_ref := ScanTupleSlot | pi_slot.

Definition slot_at (r : slot_ref) (st : scan_state) : TupleTableSlot :=
  match r with ScanTupleSlot => ss_slot st | pi_slot => ps_result st end.

(** [node->ps.qual] and [node->ps.ps_ProjInfo]. *)
Context (qual : option (HeapTuple -> bool)) (projInfo : option (HeapTuple -> HeapTuple)).

(** The loop [for(;;)]. *)
Fixpoint scan_loop (fuel : nat) (st : scan_state) : outcome (slot_ref * scan_state) :=
  match fuel with
  | O => OutOfFuel
  | S fuel' =>
      do st <- defined (AuthIndexNext st);
      match tts_tuple (ss_slot st) with
      | None =>
          match projInfo with
          | Some _ => Done (pi_slot, set_result (store_tuple None (ps_result st)) st)
          | None => Done (ScanTupleSlot, st)
          end
      | Some slot =>
          if match qual with Some ExecQual => ExecQual slot | None => true end then
            match projInfo with
            | Some ExecProject => Done (pi_slot, set_result (store_tuple (Some (ExecProject slot)) (ps_result st)) st)
            | None => Done (ScanTupleSlot, st)
            end
          else scan_loop fuel' st
      end
  end.

Definition ExecScan (fuel : nat) (st : scan_state) : outcome (slot_ref * scan_state) :=
  match qual, projInfo with
  | None, None => do st <- defined (AuthIndexNext st); Done (ScanTupleSlot, st)
  | _, _ => scan_loop fuel st
  end.

(** The loop of [ExecutePlan] for a [SELECT]: the rows that are sent until the slot
    is empty, and the local variables [planSlot] and [slot], of which the second is
    only assigned for a row. *)
Fixpoint execute_rows (fuel : nat) (st : scan_state) (slot : option slot_ref) (rows : list HeapTuple)
  : outcome (list HeapTuple * slot_ref * option slot_ref * scan_state) :=
  match fuel with
  | O => OutOfFuel
  | S fuel' =>
      do ' (planSlot, st) <- ExecScan fuel st;
      match tts_tuple (slot_at planSlot st) with
      | None => Done (rows, planSlot, slot, st)
      | Some t => execute_rows fuel' st (Some planSlot) (rows ++ [t])
      end
  end.

(** ** The messages *)

(** [pq_sendint]: most significant byte first. *)
Definition pq_sendint (z : Z) (n : nat) : list Z := reverse (le_split n z).

(** The body of a message of type ['U']. *)
Definition printVO (slot : TupleTableSlot) (sequence_num : Z) : option (list Z) :=
  let natts := 2 in
  do at_ <- int_mul sequence_num DEFAULTSIZE;
  do hs <- read_bytes (slot_hashmap_str slot) at_ DEFAULTSIZE;
  do vs <- read_bytes (slot_vo_str slot) at_ DEFAULTSIZE;
  Some (pq_sendint (hashmap_num slot) 4 ++ pq_sendint natts 2 ++ hs ++ vs).

(** The end of [ExecutePlan]: [planSlot] has the flag, [slot] what is sent. *)
Definition send_vo (planSlot : TupleTableSlot) (slot : option TupleTableSlot) : option (list (list Z)) :=
  if slot_flag planSlot then
    do slot <- slot;
    for_range 0 (hashmap_num slot) (fun count msgs =>
      do msg <- printVO slot count; Some (msgs ++ [msg])) []
  else Some [].

Definition ExecutePlan (fuel : nat) (st : scan_state) : outcome (list HeapTuple * list (list Z) * scan_state) :=
  do ' (rows, planSlot, slot, st) <- execute_rows fuel st None [];
  do msgs <- defined (send_vo (slot_at planSlot st) (do r <- slot; Some (slot_at r st)));
  Done (rows, msgs, st).

(** ** What a scan returns *)

Definition fetch_tid (tid : ItemPointerData) : HeapTuple := fetch (ItemPointerGetBlockNumber tid) (ip_posid tid).

(** The tuple that is sent for a tuple of the table, and the slot it is in. *)
Definition shown (t : HeapTuple) : HeapTuple := match projInfo with Some f => f t | None => t end.
Definition out_slot : slot_ref := match projInfo with Some _ => pi_slot | None => ScanTupleSlot end.

(** The state between two calls of one scan. *)
Definition scanning (vo : rangevo) (hs vs : list Z) (i : nat) (st : scan_state) : Prop :=
  ss_flag st = false /\ ss_myvo st = Some vo /\ ss_hashpmap_str st = Some hs /\ ss_vo_str st = Some vs /\
  vector_index st = Z.of_nat i.

(** The state behind the last row: ready for the next scan. *)
Definition scanned (vo : rangevo) (hs vs : list Z) (st : scan_state) : Prop :=
  ss_flag st = true /\ ss_myvo st = None /\ ss_slot st = mkSlot None true (mbtree_size vo) hs vs.

Lemma buffer_size_eq vo (n : nat) : mbtree_size vo = Z.of_nat n -> Z.of_nat n * DEFAULTSIZE < 2 ^ 31 ->
  buffer_size vo = Some (Z.of_nat n * DEFAULTSIZE).
Proof.
  clear. intros En Hn. unfold buffer_size. rewrite En, int_mul_Some by (unfold in_s, DEFAULTSIZE in *; lia).
  cbn [mbind option_bind]. by rewrite (proj2 (Z.leb_le 0 _)) by (unfold DEFAULTSIZE; lia).
Qed.

Section Rows.
Context (vo : rangevo) (hs vs : list Z) (n : nat).
Context (Hsize : mbtree_size vo = Z.of_nat n) (H31 : Z.of_nat n * DEFAULTSIZE < 2 ^ 31).
Context (Hhs : zlen hs = Z.of_nat n * DEFAULTSIZE) (Hvs : zlen vs = Z.of_nat n * DEFAULTSIZE).

Lemma next_row i st tid : scanning vo hs vs i st -> itemdata vo !! i = Some tid ->
  exists st', AuthIndexNext st = Some st' /\ scanning vo hs vs (S i) st' /\
    tts_tuple (ss_slot st') = Some (fetch_tid tid) /\ ps_result st' = ps_result st.
Proof.
  intros (Hf & Hv & Hh & Hs & Hi) Ht. pose proof (lookup_lt_Some _ _ _ Ht) as Hlt. unfold AuthIndexNext.
  rewrite Hf. cbn [mbind option_bind]. rewrite Hv. cbn [mbind option_bind]. rewrite Hi. unfold zlen.
  destruct (Z.eqb_spec (Z.of_nat (length (itemdata vo))) (Z.of_nat i)); [lia|].
  destruct (Z.ltb_spec (Z.of_nat i) (Z.of_nat (length (itemdata vo)))); [|lia]. rewrite aget_nat, Ht.
  eexists. split; [reflexivity|]. split_and!; try done. split_and!; try done. simpl. lia.
Qed.

Lemma next_end st : scanning vo hs vs (length (itemdata vo)) st ->
  exists st', AuthIndexNext st = Some st' /\ scanned vo hs vs st' /\ ps_result st' = ps_result st.
Proof.
  intros (Hf & Hv & Hh & Hs & Hi). unfold AuthIndexNext. rewrite Hf. cbn [mbind option_bind]. rewrite Hv. cbn [mbind option_bind].
  rewrite Hi. unfold zlen. rewrite Z.eqb_refl, Hh, Hs. cbn [mbind option_bind]. unfold slot_end.
  rewrite (buffer_size_eq vo n) by done. cbn [mbind option_bind]. rewrite !read_bytes_all by done. by eexists.
Qed.

Context (Hq : qual = None).

(** [ExecScan] without condition calls [AuthIndexNext] once. *)
Lemma exec_scan_row fuel st st' t : AuthIndexNext st = Some st' -> tts_tuple (ss_slot st') = Some t ->
  exists st2, ExecScan (S fuel) st = Done (out_slot, st2) /\ tts_tuple (slot_at out_slot st2) = Some (shown t) /\
    (forall i, scanning vo hs vs i st' -> scanning vo hs vs i st2) /\ slot_flag (ps_result st2) = slot_flag (ps_result st').
Proof.
  intros E Et. unfold ExecScan, out_slot, shown. rewrite Hq. destruct projInfo as [f|] eqn:Hp.
  - cbn [scan_loop]. rewrite E. cbn [defined mbind outcome_bind]. rewrite Et, Hq, Hp. eexists. by split_and!.
  - rewrite E. eexists. by split_and!.
Qed.

Lemma exec_scan_end fuel st st' : AuthIndexNext st = Some st' -> scanned vo hs vs st' ->
  exists st2, ExecScan (S fuel) st = Done (out_slot, st2) /\ tts_tuple (slot_at out_slot st2) = None /\
    scanned vo hs vs st2 /\ slot_flag (ps_result st2) = slot_flag (ps_result st').
Proof.
  intros E (Hf & Hm & Hs). unfold ExecScan, out_slot. rewrite Hq. destruct projInfo as [f|] eqn:Hp.
  - cbn [scan_loop]. rewrite E. cbn [defined mbind outcome_bind]. rewrite Hs, Hp. eexists. by split_and!.
  - rewrite E. eexists. split_and!; try done. simpl. by rewrite Hs.
Qed.

Lemma rows_from k : forall i fuel st slot rows, scanning vo hs vs i st -> (i + k = length (itemdata vo))%nat -> (k < fuel)%nat ->
  exists st', execute_rows fuel st slot rows
      = Done (rows ++ (shown ∘ fetch_tid <$> drop i (itemdata vo)), out_slot, (if decide (k = 0%nat) then slot else Some out_slot), st') /\
    scanned vo hs vs st' /\ slot_flag (ps_result st') = slot_flag (ps_result st).
Proof.
  induction k as [|k IH]; intros i fuel st slot rows Hsc Hk Hfuel; (destruct fuel as [|fuel]; [lia|]); cbn [execute_rows].
  - assert (i = length (itemdata vo)) as -> by lia. destruct (next_end st Hsc) as (st1 & E1 & Hd1 & Hr1).
    destruct (exec_scan_end fuel st st1 E1 Hd1) as (st2 & -> & Et & Hd2 & Hr2). cbn [mbind outcome_bind]. rewrite Et.
    exists st2. split_and!; [|done|by rewrite Hr2, Hr1]. by rewrite drop_all, app_nil_r.
  - destruct (lookup_lt_is_Some_2 (itemdata vo) i) as [tid Ht]; [lia|].
    destruct (next_row i st tid Hsc Ht) as (st1 & E1 & Hsc1 & Ht1 & Hr1).
    destruct (exec_scan_row fuel st st1 _ E1 Ht1) as (st2 & -> & Et & Hsc2 & Hr2). cbn [mbind outcome_bind]. rewrite Et.
    destruct (IH (S i) fuel st2 (Some out_slot) (rows ++ [shown (fetch_tid tid)]) (Hsc2 _ Hsc1)) as (st' & E & Hd & Hr); [lia|lia|].
    exists st'. split_and!; [|done|by rewrite Hr, Hr2, Hr1]. rewrite E, (drop_S _ _ _ Ht), <- app_assoc. by case_decide.
Qed.

End Rows.

(** The first call of a scan. *)
Lemma scan_starts e l r vo vs (n : nat) st :
  authexpr = Some e -> range_of e = (Some l, Some r) -> getnext l r = Some (PointerDatum vo) ->
  mbtree_size vo = Z.of_nat n -> Z.of_nat n * DEFAULTSIZE < 2 ^ 31 ->
  vo_serialize vo (replicate (Z.to_nat (Z.of_nat n * DEFAULTSIZE)) 0) = Some vs ->
  zlen (vo_hashmap vo) = Z.of_nat n * DEFAULTSIZE -> ss_flag st = true ->
  exists st0, scanning vo (vo_hashmap vo) vs 0 st0 /\ ps_result st0 = ps_result st /\ AuthIndexNext st = AuthIndexNext st0.
Proof.
  intros He Hr Hg Hn H31 Hs Hh Hf.
  exists (mkScan false (Some vs) (Some (vo_hashmap vo)) (Some vo) 0 (ss_slot st) (ps_result st)). split_and!; try done.
  unfold AuthIndexNext. rewrite Hf. unfold auth_start. rewrite He. cbn [mbind option_bind]. rewrite Hr. cbn [fst snd mbind option_bind].
  rewrite Hg. cbn [object_at mbind option_bind]. rewrite (buffer_size_eq vo n) by done. cbn [mbind option_bind].
  rewrite Hs. cbn [mbind option_bind]. by rewrite read_bytes_all.
Qed.

(** [ExecScan] depends on the state through its first call only. *)
Lemma exec_scan_ext fuel st st0 : AuthIndexNext st = AuthIndexNext st0 -> ExecScan fuel st = ExecScan fuel st0.
Proof.
  intros E. unfold ExecScan. destruct fuel; destruct qual, projInfo; cbn [scan_loop]; rewrite ?E; reflexivity.
Qed.

(** ** What is sent *)

(** Chunk [j] of a buffer, and the message that carries it. *)
Definition chunk (j : nat) (s : list Z) : list Z :=
  take (Z.to_nat DEFAULTSIZE) (drop (Z.to_nat (Z.of_nat j * DEFAULTSIZE)) s).

Definition vo_msg (n : Z) (hs vs : list Z) (j : nat) : list Z :=
  pq_sendint n 4 ++ pq_sendint 2 2 ++ chunk j hs ++ chunk j vs.

Definition vo_msgs (n : nat) (hs vs : list Z) : list (list Z) := vo_msg (Z.of_nat n) hs vs <$> seq 0 n.

Lemma read_chunk s (n j : nat) : zlen s = Z.of_nat n * DEFAULTSIZE -> (j < n)%nat ->
  read_bytes s (Z.of_nat j * DEFAULTSIZE) DEFAULTSIZE = Some (chunk j s).
Proof.
  clear. unfold DEFAULTSIZE. intros Hs Hj. by rewrite read_bytes_Some by lia.
Qed.

Lemma send_vo_msgs (n : nat) hs vs : Z.of_nat n * DEFAULTSIZE < 2 ^ 31 ->
  zlen hs = Z.of_nat n * DEFAULTSIZE -> zlen vs = Z.of_nat n * DEFAULTSIZE ->
  let slot := mkSlot None true (Z.of_nat n) hs vs in send_vo slot (Some slot) = Some (vo_msgs n hs vs).
Proof.
  clear. intros H31 Hhs Hvs. unfold send_vo. cbn [slot_flag hashmap_num mbind option_bind].
  destruct (for_range_rule (fun i msgs => msgs = vo_msg (Z.of_nat n) hs vs <$> seq 0 (Z.to_nat i)) 0 (Z.of_nat n)
    (fun count msgs => do msg <- printVO (mkSlot None true (Z.of_nat n) hs vs) count; Some (msgs ++ [msg])) [])
    as (r & -> & ->); [lia|done| |by rewrite Nat2Z.id].
  intros i msgs Hi ->. destruct (Z_of_nat_complete i ltac:(lia)) as [j ->].
  unfold printVO. cbn [slot_hashmap_str slot_vo_str hashmap_num].
  rewrite int_mul_Some by (unfold in_s, DEFAULTSIZE in *; lia). cbn [mbind option_bind].
  rewrite (read_chunk hs n j), (read_chunk vs n j) by (done || lia). cbn [mbind option_bind]. eexists. split; [done|].
  replace (Z.to_nat (Z.of_nat j + 1)) with (S j) by lia. rewrite Nat2Z.id, seq_S, fmap_app. done.
Qed.

(** An authenticated scan ends and returns every row: from the state in which
    the previous scan left the static variables, with a condition that gives a
    range and an object that fits its buffers, the executor gets the rows of the
    item pointers of the object, projected if there is a projection, each once and
    in order, then an empty slot, and the scan is ready to start again.  Without
    projection the executor sends the two buffers in as many messages as the
    object announces; with one it looks at the slot of the projection, whose flag
    nobody sets, and sends nothing when the flag happens to be false. *)
Theorem auth_scan_completes (e : Auth_Expr) (l r : Z) (vo : rangevo) (n fuel : nat) (st : scan_state) :
  qual = None -> authexpr = Some e -> range_of e = (Some l, Some r) -> getnext l r = Some (PointerDatum vo) -> vo_ok vo ->
  mbtree_size vo = Z.of_nat n -> Z.of_nat n * DEFAULTSIZE < 2 ^ 31 -> zlen (vo_bytes vo) <= Z.of_nat n * DEFAULTSIZE ->
  zlen (vo_hashmap vo) = Z.of_nat n * DEFAULTSIZE ->
  itemdata vo <> [] -> ss_flag st = true -> (length (itemdata vo) < fuel)%nat ->
  exists vs st', vo_serialize vo (replicate (Z.to_nat (Z.of_nat n * DEFAULTSIZE)) 0) = Some vs /\
    ss_flag st' = true /\ ss_myvo st' = None /\
    (projInfo = None -> ExecutePlan fuel st = Done (fetch_tid <$> itemdata vo, vo_msgs n (vo_hashmap vo) vs, st')) /\
    (forall f, projInfo = Some f -> slot_flag (ps_result st) = false ->
      ExecutePlan fuel st = Done (f ∘ fetch_tid <$> itemdata vo, [], st')).
Proof.
  intros Hq He Hr Hg Hok Hn H31 Hfit Hh Hne Hf Hfuel. destruct (vo_written vo _ Hok Hfit) as (vs & Ev & Lv).
  destruct (scan_starts e l r vo vs n st) as (st0 & Hsc & Hr0 & Enext); try done.
  destruct (rows_from vo (vo_hashmap vo) vs n Hn H31 Hh Lv Hq (length (itemdata vo)) 0 fuel st0 None []) as (st' & E & (Hfl & Hm & Hsl) & Hres);
    [done|lia|lia|].
  assert (execute_rows fuel st None [] = execute_rows fuel st0 None []) as Est.
  { destruct fuel as [|fuel]; [lia|]. cbn [execute_rows]. by rewrite (exec_scan_ext _ _ _ Enext). }
  rewrite decide_False in E by (by destruct (itemdata vo)). rewrite drop_0 in E. cbn [app] in E.
  exists vs, st'. split_and!; try done.
  - intros Hp. unfold ExecutePlan. rewrite Est, E. cbn [mbind outcome_bind option_bind]. unfold out_slot, shown. rewrite Hp.
    cbn [slot_at]. rewrite Hsl, Hn. rewrite send_vo_msgs by done. done.
  - intros f Hp Hfalse. unfold ExecutePlan. rewrite Est, E. cbn [mbind outcome_bind option_bind]. unfold out_slot, shown. rewrite Hp.
    cbn [slot_at]. unfold send_vo. rewrite Hres, Hr0, Hfalse. done.
Qed.

(** A scan that starts is undefined when the condition is no comparison or the
    access method returns no object. *)
Lemma auth_scan_undefined (fuel : nat) (st : scan_state) : ss_flag st = true ->
  (authexpr = None \/ exists e l r, authexpr = Some e /\ range_of e = (Some l, Some r) /\ (getnext l r ≫= object_at) = None) ->
  ExecutePlan (S fuel) st = Undefined.
Proof.
  intros Hf Hc. assert (AuthIndexNext st = None) as E.
  { unfold AuthIndexNext. rewrite Hf. unfold auth_start. destruct Hc as [->|(e & l & r & -> & Hr & Hg)]; [done|].
    cbn [mbind option_bind]. rewrite Hr. cbn [fst snd mbind option_bind]. destruct (getnext l r) as [d|]; [|done].
    cbn [mbind option_bind] in *. by rewrite Hg. }
  unfold ExecutePlan. cbn [execute_rows]. assert (ExecScan (S fuel) st = Undefined) as ->; [|done].
  unfold ExecScan. destruct qual, projInfo; cbn [scan_loop]; by rewrite E.
Qed.

End Scan.

(** The range of a condition: a conjunction of [>] and [<] gives its two
    constants in order and one of [<] and [>] exchanges them, but the inclusive
    operators [>=] and [<=] give the constants exchanged, and a single comparison
    gives a point whatever its operator, so [a > c] asks for [a = c]. *)
Theorem range_of_condition (c1 c2 : Z) (op : string) :
  range_of (Auth_Op_Expr (mkCmp ">" c1) (mkCmp "<" c2)) = (Some (s32 c1), Some (s32 c2)) /\
  range_of (Auth_Op_Expr (mkCmp "<" c1) (mkCmp ">" c2)) = (Some (s32 c2), Some (s32 c1)) /\
  range_of (Auth_Op_Expr (mkCmp ">=" c1) (mkCmp "<=" c2)) = (Some (s32 c2), Some (s32 c1)) /\
  range_of (Auth_Comparison (mkCmp op c1)) = (Some (s32 c1), Some (s32 c1)).
Proof.
  split_and!; [done..|]. unfold range_of, strcmp. cbn [opName constvalue].
  destruct (decide (op = "=")) as [->|Hne]; [done|]. by rewrite (bool_decide_eq_true_2 (op <> "=")).
Qed.

(** ** A scan to evaluate the property on *)

Definition demo_scan_vo : rangevo :=
  mkRangevo 1 (replicate 10 (mkNodevo 0 2 [])) (replicate 10 (mkNodevo 1 2 [])) [] [mkTid 0 1 2; mkTid 0 2 1]
    (replicate (Z.to_nat DEFAULTSIZE) 0) 1.

Definition demo_slot : @TupleTableSlot (Z * Z) := mkSlot None false 0 [] [].
Definition demo_scan_state : @scan_state (Z * Z) := mkScan true None None None 0 demo_slot demo_slot.

Lemma demo_scan_vo_ok : vo_ok demo_scan_vo.
Proof.
  split; try reflexivity; try done; try (apply Forall_replicate; split_and!; done).
Qed.

Definition demo_next (l r : Z) : option datum := Some (PointerDatum demo_scan_vo).

Lemma auth_scan_completes_witness :
  exists vs st', ExecutePlan pair demo_next (Some (Auth_Op_Expr (mkCmp ">" 20) (mkCmp "<" 30))) None None 3 demo_scan_state
      = Done ([(1, 2); (2, 1)], vo_msgs 1 (vo_hashmap demo_scan_vo) vs, st') /\ ss_flag st' = true.
Proof.
  destruct (@auth_scan_completes (Z * Z) pair demo_next (Some (Auth_Op_Expr (mkCmp ">" 20) (mkCmp "<" 30))) None None
    (Auth_Op_Expr (mkCmp ">" 20) (mkCmp "<" 30)) 20 30 demo_scan_vo 1 3 demo_scan_state) as (vs & st' & _ & Hf & _ & E & _);
    [reflexivity|reflexivity|reflexivity|reflexivity|exact demo_scan_vo_ok|reflexivity|reflexivity|vm_compute; discriminate|reflexivity
    |discriminate|reflexivity|simpl; lia|].
  exists vs, st'. split; [exact (E eq_refl)|exact Hf].
Defined.
