(* ===== verification/Wire.v ===== *)
(** * Receiving the verification object (the cases ['U'], ['C'] and ['L'] of
    pqParseInput3 in src/src/interfaces/libpq/fe-protocol3.c)

    The messages of one answer are collected in two buffers that are allocated
    when the first of them arrives; [mbt_count] counts the messages that are
    still to come.  The completion tag of an insertion carries the root hash
    behind a dollar sign.

    A message is the list of the bytes behind its length word.  What the client does
    with the complete buffers is in Client.v. *)

From S2P Require Import Prelude CMem Codec Node NodeCodec Vo IndexAm Scan.

(** The static variables of the file. *)
Record libpq := mkLibpq {
  mbt_count : Z;
  vo_object : list (option (list Z));
  mbroot : option (list Z)
}.

(** [pqGetInt]: most significant byte first; two bytes are unsigned. *)
Definition pqGetInt (bytes : Z) (body : list Z) (pos : Z) : option (Z * Z) :=
  do bs <- read_bytes body pos bytes;
  let z := le_combine (reverse bs) in
  Some (if bytes =? 2 then z else s32 z, pos + bytes).

(** The part under [if(mbt_count == 0)]: new buffers for [nfields] objects, of
    which both must be there for [MemSet].  The size is an [int] that becomes a
    [size_t]. *)
Definition new_objects (count nfields : Z) : option (list (option (list Z))) :=
  do size <- int_mul count DEFAULTSIZE;
  check 0 <=? size;
  do objs <- for_range 0 nfields (fun i objs =>
    aset objs i (Some (replicate (Z.to_nat size) 0))) [None; None];
  do a <- aget objs 0; do _ <- a;
  do b <- aget objs 1; do _ <- b;
  Some objs.

(** One round of the loop that copies the chunks, and the loop. *)
Definition copy_chunk (body : list Z) (count todo i : Z) (s : list (option (list Z)) * Z)
  : option (list (option (list Z)) * Z) :=
  let inCursor := s.2 + i * DEFAULTSIZE in
  do bs <- read_bytes body inCursor DEFAULTSIZE;
  do o <- aget s.1 i;
  do o <- o;
  do at_ <- int_mul (count - todo) DEFAULTSIZE;
  do o <- write_bytes o at_ bs;
  do objs <- aset s.1 i (Some o);
  Some (objs, inCursor).

Definition copy_chunks (body : list Z) (cursor count todo nfields : Z) (objs : list (option (list Z)))
  : option (list (option (list Z)) * Z) :=
  for_range 0 nfields (copy_chunk body count todo) (objs, cursor).

(** A message of type ['U'] up to [mbt_count--]; the second result tells whether
    it was the last one, with its [count]. *)
Definition collect_U (body : list Z) (st : libpq) : option (libpq * option Z) :=
  do ' (count, pos) <- pqGetInt 4 body 0;
  do ' (nfields, pos) <- pqGetInt 2 body pos;
  do ' (todo, objs) <-
    (if mbt_count st =? 0 then
       do objs <- new_objects count nfields; Some (count, objs)
     else Some (mbt_count st, vo_object st));
  do ' (objs, _) <- copy_chunks body pos count todo nfields objs;
  let todo := todo - 1 in
  Some (mkLibpq todo objs (mbroot st), if todo <=? 0 then Some count else None).

(** All messages of an answer, up to the one that is the last. *)
Fixpoint collect_all (msgs : list (list Z)) (st : libpq) : option (libpq * option Z * list (list Z)) :=
  match msgs with
  | [] => Some (st, None, [])
  | msg :: msgs' =>
      do ' (st, fin) <- collect_U msg st;
      match fin with
      | Some count => Some (st, Some count, msgs')
      | None => collect_all msgs' st
      end
  end.

(** ** The root hash in the completion tag *)

Definition CMDSTATUS_LEN : Z := 64.

(** [for(; i <= CMDSTATUS_LEN; i++)]: the position behind the dollar sign. *)
Fixpoint find_dollar (fuel : nat) (cmdStatus : list Z) (i : Z) : option (option Z) :=
  if i <=? CMDSTATUS_LEN then
    match fuel with
    | O => None
    | S fuel' =>
        do c <- aget cmdStatus i;
        if c =? 36 then Some (Some (i + 1)) else find_dollar fuel' cmdStatus (i + 1)
    end
  else Some None.

(** The end of case ['C']; [cmdStatus] is an array of [CMDSTATUS_LEN] bytes and
    [fresh] the block of 33 bytes that [malloc] returns. *)
Definition receive_C (tag cmdStatus fresh : list Z) (st : libpq) : option libpq :=
  do cmdStatus <- strncpy cmdStatus tag (Z.to_nat CMDSTATUS_LEN);
  do at_dollar <- find_dollar (S (Z.to_nat (CMDSTATUS_LEN + 1))) cmdStatus 0;
  let root := default fresh (mbroot st) in
  do root <-
    match at_dollar with
    | Some i =>
        do root <- memset root 0 0 33;
        strncpy root (drop (Z.to_nat i) cmdStatus) 33
    | None => Some root
    end;
  Some (mkLibpq (mbt_count st) (vo_object st) (Some root)).

(** Case ['L']: [StrNCpy] of 32 bytes ends the string in the last of them. *)
Definition StrNCpy (dst src : list Z) (len : Z) : option (list Z) :=
  if 0 <? len then do dst <- strncpy dst src (Z.to_nat len); aset dst (len - 1) 0 else Some dst.

Definition receive_L (root : list Z) (st : libpq) : option libpq :=
  let old := default (replicate 32 0) (mbroot st) in
  do new <- StrNCpy old root 32;
  Some (mkLibpq (mbt_count st) (vo_object st) (Some new)).

(** ** What arrives *)

(** A buffer of [n] chunks of which the first [j] have arrived. *)
Definition arrived (n j : nat) (s : list Z) : list Z :=
  take (Z.to_nat (Z.of_nat j * DEFAULTSIZE)) s ++ replicate (Z.to_nat (Z.of_nat (n - j) * DEFAULTSIZE)) 0.

Lemma arrived_none n s : arrived n 0 s = replicate (Z.to_nat (Z.of_nat n * DEFAULTSIZE)) 0.
Proof. unfold arrived. by rewrite Nat.sub_0_r. Qed.

Lemma arrived_all n s : zlen s = Z.of_nat n * DEFAULTSIZE -> arrived n n s = s.
Proof.
  intros Hs. unfold arrived. rewrite Nat.sub_diag. simpl replicate. rewrite app_nil_r. apply take_ge. unfold zlen in Hs. lia.
Qed.

Lemma chunk_zlen n j s : zlen s = Z.of_nat n * DEFAULTSIZE -> (j < n)%nat -> zlen (chunk j s) = DEFAULTSIZE.
Proof.
  intros Hs Hj. unfold chunk, zlen in *. rewrite length_take, length_drop. unfold DEFAULTSIZE in *. lia.
Qed.

Lemma arrived_S n j s : zlen s = Z.of_nat n * DEFAULTSIZE -> (j < n)%nat ->
  write_bytes (arrived n j s) (Z.of_nat j * DEFAULTSIZE) (chunk j s) = Some (arrived n (S j) s).
Proof.
  intros Hs Hj. unfold arrived. pose proof (chunk_zlen n j s Hs Hj) as Hc.
  assert (zlen (take (Z.to_nat (Z.of_nat j * DEFAULTSIZE)) s) = Z.of_nat j * DEFAULTSIZE) as Hp.
  { unfold zlen in *. rewrite length_take. unfold DEFAULTSIZE in *. lia. }
  rewrite <- Hp at 2. rewrite write_bytes_prefix by (rewrite Hc, zlen_replicate; unfold DEFAULTSIZE; lia).
  f_equal. rewrite app_assoc. f_equal.
  - unfold chunk. rewrite take_take_drop. f_equal. unfold DEFAULTSIZE. lia.
  - rewrite drop_replicate. f_equal. unfold zlen in Hc. unfold DEFAULTSIZE in *. lia.
Qed.

Lemma get_sent_int z rest : 0 <= z < 2 ^ 31 -> pqGetInt 4 (pq_sendint z 4 ++ rest) 0 = Some (z, 4).
Proof.
  intros Hz. unfold pqGetInt, pq_sendint. rewrite read_bytes_head by (unfold zlen; by rewrite length_reverse, le_split_length).
  cbn [mbind option_bind]. rewrite reverse_involutive, le_combine_split. simpl Z.eqb. cbv iota. do 2 f_equal.
  unfold s32, wraps, wrapu. rewrite !Z.mod_small; lia || (rewrite ?Z.mod_small; lia).
Qed.

Lemma read_after (a b rest : list Z) pos n : pos = zlen a -> n = zlen b -> read_bytes (a ++ b ++ rest) pos n = Some b.
Proof. intros -> ->. by apply read_bytes_prefix. Qed.

Section Answer.
Context (n : nat) (hs vs : list Z).
Context (Hn : Z.of_nat n * DEFAULTSIZE < 2 ^ 31) (Hhs : zlen hs = Z.of_nat n * DEFAULTSIZE) (Hvs : zlen vs = Z.of_nat n * DEFAULTSIZE).

Definition objects (j : nat) : list (option (list Z)) := [Some (arrived n j hs); Some (arrived n j vs)].

Lemma new_objects_two : new_objects (Z.of_nat n) 2 = Some (objects 0).
Proof.
  unfold objects, new_objects. rewrite int_mul_Some by (unfold in_s, DEFAULTSIZE in *; lia). cbn [mbind option_bind].
  rewrite (proj2 (Z.leb_le 0 _)) by (unfold DEFAULTSIZE; lia). rewrite !arrived_none. reflexivity.
Qed.

Lemma copy_chunks_two j : (j < n)%nat ->
  copy_chunks (vo_msg (Z.of_nat n) hs vs j) 6 (Z.of_nat n) (Z.of_nat (n - j)) 2 (objects j)
  = Some (objects (S j), 6 + DEFAULTSIZE).
Proof.
  intros Hj. pose proof (chunk_zlen n j hs Hhs Hj) as H1. pose proof (chunk_zlen n j vs Hvs Hj) as H2.
  assert (read_bytes (vo_msg (Z.of_nat n) hs vs j) 6 DEFAULTSIZE = Some (chunk j hs)) as R1.
  { unfold vo_msg. rewrite (app_assoc (pq_sendint _ 4)). by apply read_after. }
  assert (read_bytes (vo_msg (Z.of_nat n) hs vs j) (6 + DEFAULTSIZE) DEFAULTSIZE = Some (chunk j vs)) as R2.
  { unfold vo_msg. rewrite !(app_assoc _ _ (chunk j vs)). rewrite <- (app_nil_r (_ ++ chunk j vs)), <- app_assoc.
    apply read_after; [|done]. rewrite !zlen_app, H1. done. }
  assert (forall i o o' objs cursor s, aget objs i = Some (Some o) -> 0 <= i < zlen objs ->
    read_bytes (vo_msg (Z.of_nat n) hs vs j) (cursor + i * DEFAULTSIZE) DEFAULTSIZE = Some (chunk j s) ->
    write_bytes o (Z.of_nat j * DEFAULTSIZE) (chunk j s) = Some o' ->
    copy_chunk (vo_msg (Z.of_nat n) hs vs j) (Z.of_nat n) (Z.of_nat (n - j)) i (objs, cursor)
    = Some (<[Z.to_nat i := Some o']> objs, cursor + i * DEFAULTSIZE)) as Hstep.
  { intros i o o' objs cursor s Eo Hi Er Ew. unfold copy_chunk. cbn [fst snd]. rewrite Er. cbn [mbind option_bind].
    rewrite Eo. cbn [mbind option_bind]. replace (Z.of_nat n - Z.of_nat (n - j)) with (Z.of_nat j) by lia.
    rewrite int_mul_Some by (unfold in_s, DEFAULTSIZE in *; lia). cbn [mbind option_bind]. rewrite Ew.
    cbn [mbind option_bind]. by rewrite aset_Some. }
  unfold copy_chunks, for_range. change (Z.to_nat (2 - 0)) with 2%nat. cbn [for_n].
  rewrite (Hstep 0 (arrived n j hs) (arrived n (S j) hs) _ _ hs); [|done|done|done|by apply arrived_S].
  cbn [mbind option_bind]. rewrite (Hstep (0 + 1) (arrived n j vs) (arrived n (S j) vs) _ _ vs); [|done|done|done|by apply arrived_S].
  reflexivity.
Qed.

(** Message [j], when [j] messages have arrived. *)
Lemma collect_msg j st : (j < n)%nat ->
  (j = 0%nat /\ mbt_count st = 0 \/ mbt_count st = Z.of_nat (n - j) /\ vo_object st = objects j) ->
  collect_U (vo_msg (Z.of_nat n) hs vs j) st
  = Some (mkLibpq (Z.of_nat (n - S j)) (objects (S j)) (mbroot st), if decide (S j = n) then Some (Z.of_nat n) else None).
Proof.
  intros Hj Hst. unfold collect_U.
  assert (pqGetInt 4 (vo_msg (Z.of_nat n) hs vs j) 0 = Some (Z.of_nat n, 4)) as -> by (apply get_sent_int; unfold DEFAULTSIZE in Hn; lia).
  cbn [mbind option_bind].
  assert (pqGetInt 2 (vo_msg (Z.of_nat n) hs vs j) 4 = Some (2, 6)) as ->.
  { unfold pqGetInt, vo_msg. rewrite (read_after (pq_sendint _ 4) (pq_sendint 2 2)) by done. reflexivity. }
  cbn [mbind option_bind].
  assert ((if mbt_count st =? 0 then do objs <- new_objects (Z.of_nat n) 2; Some (Z.of_nat n, objs)
           else Some (mbt_count st, vo_object st)) = Some (Z.of_nat (n - j), objects j)) as ->.
  { destruct Hst as [[-> ->]|[-> ->]].
    - rewrite new_objects_two, Nat.sub_0_r. done.
    - destruct (Z.eqb_spec (Z.of_nat (n - j)) 0); [lia|done]. }
  cbn [mbind option_bind]. rewrite copy_chunks_two by done. cbn [mbind option_bind].
  replace (Z.of_nat (n - j) - 1) with (Z.of_nat (n - S j)) by lia. do 2 f_equal.
  destruct (Z.leb_spec (Z.of_nat (n - S j)) 0), (decide (S j = n)); done || lia.
Qed.

Lemma collect_from k : forall j st, (0 < k)%nat -> (j + k = n)%nat ->
  (j = 0%nat /\ mbt_count st = 0 \/ mbt_count st = Z.of_nat (n - j) /\ vo_object st = objects j) ->
  collect_all (vo_msg (Z.of_nat n) hs vs <$> seq j k) st
  = Some (mkLibpq 0 [Some hs; Some vs] (mbroot st), Some (Z.of_nat n), []).
Proof.
  induction k as [|k IH]; intros j st Hk Hj Hst; [lia|]. cbn [seq fmap list_fmap collect_all].
  rewrite (collect_msg j st) by (done || lia). cbn [mbind option_bind]. case_decide as Hd.
  - assert (k = 0%nat) as -> by lia. rewrite Hd, Nat.sub_diag. unfold objects. rewrite !arrived_all by done. done.
  - rewrite IH; [done|lia|lia|]. right. done.
Qed.

End Answer.

(** C23. The answer arrives: for two buffers of [n] chunks, with [n] below 2^18, the
    server sends [n] messages, which, collected by a client that expects no other
    message, leave the two buffers byte for byte in [vo_object], are complete with
    the last of them and not before, and leave no message to wait for.  From 2^18
    chunks on the [int] product of the sizes overflows, at the first message. *)
Theorem answer_arrives {HeapTuple : Type} (n : nat) (hs vs : list Z) (st : libpq) :
  (0 < n)%nat -> Z.of_nat n < 2 ^ 31 -> zlen hs = Z.of_nat n * DEFAULTSIZE -> zlen vs = Z.of_nat n * DEFAULTSIZE -> mbt_count st = 0 ->
  (Z.of_nat n < 2 ^ 18 -> let slot := @mkSlot HeapTuple None true (Z.of_nat n) hs vs in
    exists msgs, send_vo slot (Some slot) = Some msgs /\ length msgs = n /\
      collect_all msgs st = Some (mkLibpq 0 [Some hs; Some vs] (mbroot st), Some (Z.of_nat n), [])) /\
  (2 ^ 18 <= Z.of_nat n -> forall j, collect_U (vo_msg (Z.of_nat n) hs vs j) st = None).
Proof.
  intros Hn H31 Hhs Hvs Hst. split.
  - intros H18 slot. assert (Z.of_nat n * DEFAULTSIZE < 2 ^ 31) by (unfold DEFAULTSIZE; lia).
    exists (vo_msgs n hs vs). split; [by apply send_vo_msgs|].
    split; [unfold vo_msgs; by rewrite length_fmap, length_seq|]. apply collect_from; (done || lia || by left).
  - intros H18 j. unfold collect_U.
    assert (pqGetInt 4 (vo_msg (Z.of_nat n) hs vs j) 0 = Some (Z.of_nat n, 4)) as -> by (apply get_sent_int; lia).
    cbn [mbind option_bind].
    assert (pqGetInt 2 (vo_msg (Z.of_nat n) hs vs j) 4 = Some (2, 6)) as ->.
    { unfold pqGetInt, vo_msg. rewrite (read_after (pq_sendint _ 4) (pq_sendint 2 2)) by done. reflexivity. }
    cbn [mbind option_bind]. rewrite Hst. unfold new_objects, int_mul. cbn [Z.eqb].
    rewrite bool_decide_eq_false_2; [done|]. unfold in_s, DEFAULTSIZE. lia.
Qed.

(** The number of chunks is taken from every message, the size of the buffers
    from the first one only: a later message that announces more chunks than
    there is room for is written behind the end of the buffer. *)
Theorem foreign_count_overflows (c : Z) (x y a b : list Z) (st : libpq) :
  0 <= c < 2 ^ 31 -> zlen x = DEFAULTSIZE -> mbt_count st <> 0 -> vo_object st = [Some a; Some b] ->
  zlen a < (c - mbt_count st + 1) * DEFAULTSIZE ->
  collect_U (pq_sendint c 4 ++ pq_sendint 2 2 ++ x ++ y) st = None.
Proof.
  intros Hc Hx Hm Ho Ha. unfold collect_U. rewrite get_sent_int by done. cbn [mbind option_bind].
  assert (pqGetInt 2 (pq_sendint c 4 ++ pq_sendint 2 2 ++ x ++ y) 4 = Some (2, 6)) as ->.
  { unfold pqGetInt. rewrite (read_after (pq_sendint _ 4) (pq_sendint 2 2)) by done. reflexivity. }
  cbn [mbind option_bind]. destruct (Z.eqb_spec (mbt_count st) 0); [done|]. cbn [mbind option_bind].
  unfold copy_chunks, for_range. change (Z.to_nat (2 - 0)) with 2%nat. cbn [for_n].
  assert (copy_chunk (pq_sendint c 4 ++ pq_sendint 2 2 ++ x ++ y) c (mbt_count st) 0 (vo_object st, 6) = None) as ->; [|done].
  unfold copy_chunk. cbn [fst snd]. rewrite Ho, (app_assoc (pq_sendint c 4)), (read_after _ x) by done.
  cbn [mbind option_bind]. change (aget [Some a; Some b] 0) with (Some (Some a)). cbn [mbind option_bind].
  unfold int_mul. case_bool_decide; [|done]. cbn [mbind option_bind]. unfold write_bytes. rewrite Hx. destruct (Z.leb_spec ((c - mbt_count st) * DEFAULTSIZE + DEFAULTSIZE) (zlen a)).
  - unfold DEFAULTSIZE in *. lia.
  - by rewrite andb_false_r.
Qed.

(** ** The completion tag *)

Definition no_dollar (s : list Z) : Prop := Forall (fun c => c <> 36) s.

Lemma find_dollar_at pre rest : no_dollar pre -> forall fuel (i : nat), (i <= length pre <= 64)%nat -> (64 < i + fuel)%nat ->
  find_dollar fuel (pre ++ 36 :: rest) (Z.of_nat i) = Some (Some (zlen pre + 1)).
Proof.
  intros Hnd. induction fuel as [|fuel IH]; intros i Hi Hf; [lia|]. cbn [find_dollar]. unfold CMDSTATUS_LEN.
  destruct (Z.leb_spec (Z.of_nat i) 64); [|lia]. rewrite aget_nat. destruct (decide (i = length pre)) as [->|Hne].
  - rewrite lookup_app_r, Nat.sub_diag by lia. done.
  - destruct (lookup_lt_is_Some_2 pre i) as [c Hc]; [lia|]. rewrite lookup_app_l, Hc by lia. cbn [mbind option_bind].
    pose proof (Forall_lookup_1 _ _ _ _ Hnd Hc) as Hc36. cbv beta in Hc36. destruct (Z.eqb_spec c 36); [done|].
    replace (Z.of_nat i + 1) with (Z.of_nat (S i)) by lia. apply IH; lia.
Qed.

Lemma find_dollar_none s : no_dollar s -> length s = 64%nat -> forall fuel (i : nat), (i <= 64)%nat ->
  find_dollar fuel s (Z.of_nat i) = None.
Proof.
  intros Hnd Hl. induction fuel as [|fuel IH]; intros i Hi; cbn [find_dollar]; unfold CMDSTATUS_LEN;
    (destruct (Z.leb_spec (Z.of_nat i) 64); [|lia]); [done|]. rewrite aget_nat. destruct (s !! i) as [c|] eqn:Hc; [|done].
  pose proof (Forall_lookup_1 _ _ _ _ Hnd Hc) as Hc36. cbv beta in Hc36. cbn [mbind option_bind]. destruct (Z.eqb_spec c 36); [done|].
  apply lookup_lt_Some in Hc. replace (Z.of_nat i + 1) with (Z.of_nat (S i)) by lia. apply IH; lia.
Qed.

Lemma cmd_status s old : chars s -> (length s <= 63)%nat -> length old = 64%nat ->
  strncpy old (s ++ [0]) (Z.to_nat CMDSTATUS_LEN) = Some (s ++ replicate (64 - length s) 0).
Proof.
  intros Hs Hl Ho. unfold strncpy. change (Z.to_nat CMDSTATUS_LEN) with 64%nat.
  rewrite (strncpy_bytes_pad s [] _ Hs) by lia. cbn [mbind option_bind].
  rewrite write_bytes_head by (rewrite zlen_app, zlen_replicate; unfold zlen; lia).
  rewrite drop_ge by (rewrite length_app, length_replicate; lia). by rewrite app_nil_r.
Qed.

(** The root hash in the completion tag: from a tag with a hash of 32
    characters behind its first dollar sign that fits the array of 64 bytes, the
    client takes exactly the hash; a tag without dollar sign makes the search read
    [cmdStatus[64]], behind the end of the array. *)
Theorem completion_tag_root (pre hash s cmdStatus fresh : list Z) (st : libpq) :
  chars pre -> no_dollar pre -> chars hash -> length hash = 32%nat -> (length pre <= 30)%nat ->
  chars s -> no_dollar s -> (length s <= 63)%nat ->
  length cmdStatus = 64%nat -> length (default fresh (mbroot st)) = 33%nat ->
  receive_C ((pre ++ 36 :: hash) ++ [0]) cmdStatus fresh st
    = Some (mkLibpq (mbt_count st) (vo_object st) (Some (hash ++ [0]))) /\
  receive_C (s ++ [0]) cmdStatus fresh st = None.
Proof.
  intros Hpre Hnd Hh Lh Lp Hs Hsd Ls Lc Lf. unfold receive_C. split.
  - rewrite cmd_status; [|by apply Forall_app; split; [|constructor]|rewrite length_app; simpl; lia|done].
    assert (exists k, (64 - length (pre ++ 36%Z :: hash))%nat = S k) as [k ->]
      by (rewrite length_app; simpl; rewrite Lh; exists (64 - (length pre + 33) - 1)%nat; lia).
    cbn [mbind option_bind]. rewrite <- app_assoc, <- app_comm_cons.
    pose proof (find_dollar_at pre (hash ++ replicate (S k) 0) Hnd (S (Z.to_nat (CMDSTATUS_LEN + 1))) 0) as E.
    change (Z.of_nat 0) with 0 in E. rewrite E by (unfold CMDSTATUS_LEN; lia). cbn [mbind option_bind].
    unfold memset. change (0 <=? 33) with true. rewrite write_bytes_Some; [|lia|rewrite zlen_replicate; unfold zlen; rewrite Lf; lia].
    cbn [mbind option_bind].
    assert (drop (Z.to_nat (zlen pre + 1)) (pre ++ 36 :: hash ++ replicate (S k) 0) = hash ++ 0 :: replicate k 0) as ->.
    { rewrite (app_assoc pre [36] (hash ++ replicate (S k) 0) : pre ++ 36 :: hash ++ replicate (S k) 0 = _). rewrite drop_app_ge by (rewrite length_app; unfold zlen; simpl; lia).
      rewrite length_app. unfold zlen. simpl length. by replace (Z.to_nat (Z.of_nat (length pre) + 1) - (length pre + 1))%nat with 0%nat by lia. }
    unfold strncpy. rewrite strncpy_bytes_pad by (done || lia). cbn [mbind option_bind].
    rewrite write_bytes_head, drop_ge, app_nil_r; [by rewrite Lh| |].
    + rewrite !length_app, !length_take, !length_drop, !length_replicate. lia.
    + unfold zlen. rewrite !length_app, !length_take, !length_drop, !length_replicate. lia.
  - rewrite cmd_status by done. cbn [mbind option_bind].
    assert (no_dollar (s ++ replicate (64 - length s) 0)) as Hd
      by (apply Forall_app; split; [done|by apply Forall_replicate]).
    pose proof (find_dollar_none _ Hd ltac:(rewrite length_app, length_replicate; lia) (S (Z.to_nat (CMDSTATUS_LEN + 1))) 0) as E.
    change (Z.of_nat 0) with 0 in E. rewrite E by lia. done.
Qed.

(** ** Concrete messages *)

Definition demo_libpq : libpq := mkLibpq 0 [None; None] None.

Lemma answer_arrives_witness :
  let slot := @mkSlot Z None true 1 (replicate (Z.to_nat DEFAULTSIZE) 7) (replicate (Z.to_nat DEFAULTSIZE) 8) in
  exists msgs, send_vo slot (Some slot) = Some msgs /\
    length msgs = 1%nat /\
    collect_all msgs demo_libpq
    = Some (mkLibpq 0 [Some (replicate (Z.to_nat DEFAULTSIZE) 7); Some (replicate (Z.to_nat DEFAULTSIZE) 8)] None, Some 1, []).
Proof. apply (@answer_arrives Z 1); [lia|lia|reflexivity|reflexivity|reflexivity|lia]. Defined.

Lemma foreign_count_overflows_witness :
  collect_U (pq_sendint 9 4 ++ pq_sendint 2 2 ++ replicate (Z.to_nat DEFAULTSIZE) 7 ++ [])
    (mkLibpq 1 [Some (zeros 64); Some (zeros 64)] None) = None.
Proof. apply (foreign_count_overflows 9 _ _ (zeros 64) (zeros 64)); [lia|reflexivity|discriminate|reflexivity|reflexivity]. Defined.

(** [INSERT 0 1 $aaaa...] and [SELECT]. *)
Lemma completion_tag_root_witness :
  receive_C (([73; 78; 83; 69; 82; 84; 32; 48; 32; 49; 32] ++ 36 :: replicate 32 97) ++ [0]) (zeros 64) (zeros 33) demo_libpq
    = Some (mkLibpq 0 [None; None] (Some (replicate 32 97 ++ [0]))) /\
  receive_C ([83; 69; 76; 69; 67; 84] ++ [0]) (zeros 64) (zeros 33) demo_libpq = None.
Proof. apply completion_tag_root; first [by repeat constructor | simpl; lia | reflexivity]. Defined.
