(* ===== verification/Threads.v ===== *)
(** * The two threads of the client's reconstruction (rr_leaf_node in
    src/src/interfaces/libpq/clientmbtree.c, hashmap_set in
    src/src/interfaces/libpq/clienthashmap.c)

    The client hashes the leaves between the two boundary leaves in two threads that
    share the hash map of the leaf level.  The mutex around the body of
    [rr_leaf_node] is commented out, so the accesses of the two calls of
    [hashmap_set] to the chains and to [size] interleave.  Here the map is what the
    threads see: an array of pointers to pairs and the pairs in memory.  One step is
    one access to it, in the order of the source; steps follow one another, which is
    the memory a processor with a single total order of accesses shows.  What a
    thread computes from its own blocks belongs to the step it comes before;
    [malloc] gives each thread addresses of its own. *)

From S2P Require Import Prelude CMem Codec Hashmap Node NodeCodec Heap Insert LeafSpec Merkle Store Vo HmCodec Reconstruct ReconstructSpec ReconstructRoot.

(** ** The shared map *)

(** An address of a pair: who allocated it, and a number. *)
Abbreviation ploc := (nat * nat)%type.

Record cell := mkCell { c_key : Z; c_value : option (list Z); c_next : option ploc }.

Record shared := mkShared {
  sh_buckets : list (option ploc);
  sh_pairs : gmap ploc cell;
  sh_size : Z
}.

(** [Pair **]: the address of an entry of the array or of a field [next]. *)
Inductive pair_ptr := Bucket (b : Z) | Next (l : ploc).

Definition read_ptr (s : shared) (p : pair_ptr) : option (option ploc) :=
  match p with
  | Bucket b => aget (sh_buckets s) b
  | Next l => do c <- sh_pairs s !! l; Some (c_next c)
  end.

Definition write_ptr (s : shared) (p : pair_ptr) (x : option ploc) : option shared :=
  match p with
  | Bucket b => do bs <- aset (sh_buckets s) b x; Some (mkShared bs (sh_pairs s) (sh_size s))
  | Next l =>
      do c <- sh_pairs s !! l;
      Some (mkShared (sh_buckets s) (<[l := mkCell (c_key c) (c_value c) x]> (sh_pairs s)) (sh_size s))
  end.

Definition bucket_of (key : Z) : Z := myhash key mod NUM_BUCKETS.

Section Threads.
Context `{HashFn} `{Malloc} (usable : Z -> Z).

(** ** One round of rr_leaf_node *)

(** [sha256_pg(tmp_id, result); strcat(buf, result)] for the strings of a leaf;
    [result] is a block of 33 bytes as [malloc] returns it. *)
Definition client_cat_hashed (ds : list (list Z)) (buf : list Z) : option (list Z) :=
  for_range 0 (zlen ds) (fun j buf =>
    do tmp_id <- aget ds j;
    do result <- hash_into tmp_id (block usable 33);
    strcat buf result) buf.

(** The hash of the leaf whose strings are entry [node_count]. *)
Definition rr_hash (vo : rangevo) (node_count : Z) : option (list Z) :=
  do mhash <- zeroed usable BUF BUF;
  do myvector2 <- aget (vdata vo) node_count;
  do mhash <- client_cat_hashed myvector2 mhash;
  hash_into mhash mhash.

(** The rounds of a thread: the leaf and the entry of each. *)
Definition rr_rounds (start_id end_id : Z) : list (Z * Z) :=
  let node_count := if start_id =? end_id then start_id else start_id + 1 in
  (fun i => (start_id + 1 + Z.of_nat i, node_count + Z.of_nat i)) <$> seq 0 (Z.to_nat (end_id - (start_id + 1))).

(** ** A thread *)

(** Where a thread is in [hashmap_set(map, key, value)]: before the access that is
    named. *)
Inductive pc :=
  | Idle
  | While (key : Z) (value : list Z) (p : pair_ptr)      (* while ( *pair_ptr != NULL) *)
  | CompareKey (key : Z) (value : list Z) (p : pair_ptr)    (* compare(( *pair_ptr)->key, key) *)
  | Advance (key : Z) (value : list Z) (p : pair_ptr)    (* pair_ptr = &( *pair_ptr)->next *)
  | IfNull (key : Z) (value : list Z) (p : pair_ptr)     (* if ( *pair_ptr == NULL) *)
  | Create (key : Z) (value : list Z) (p : pair_ptr)     (* *pair_ptr = pair_new(key, value) *)
  | Assign (key : Z) (value : list Z) (p : pair_ptr)     (* ( *pair_ptr)->value = value: the pointer *)
  | SetValue (key : Z) (value : list Z) (l : ploc)          (* and the field *)
  | Size                                                 (* hashmap->size++: the read *)
  | SizePlus (n : Z).                                    (* and the write *)

(** [th_next] numbers the blocks of the thread. *)
Record thread := mkThread { th_id : nat; th_rounds : list (Z * Z); th_pc : pc; th_next : nat }.

Definition at_pc (t : thread) (c : pc) : thread := mkThread (th_id t) (th_rounds t) c (th_next t).

Definition finished (t : thread) : bool :=
  match th_rounds t, th_pc t with [], Idle => true | _, _ => false end.

(** A step; a thread that has ended does nothing.  The result of [hashmap_set] is
    not used. *)
Definition tstep (vo : rangevo) (t : thread) (s : shared) : option (thread * shared) :=
  match th_pc t with
  | Idle =>
      match th_rounds t with
      | [] => Some (t, s)
      | (m, node_count) :: rounds =>
          do mhash <- rr_hash vo node_count;
          Some (mkThread (th_id t) rounds (While m mhash (Bucket (bucket_of m))) (th_next t), s)
      end
  | While key value p =>
      do q <- read_ptr s p;
      Some (at_pc t (match q with Some _ => CompareKey key value p | None => IfNull key value p end), s)
  | CompareKey key value p =>
      do q <- read_ptr s p;
      do l <- q;
      do c <- sh_pairs s !! l;
      Some (at_pc t (if compare (c_key c) key then IfNull key value p else Advance key value p), s)
  | Advance key value p =>
      do q <- read_ptr s p;
      do l <- q;
      Some (at_pc t (While key value (Next l)), s)
  | IfNull key value p =>
      do q <- read_ptr s p;
      Some (at_pc t (match q with None => Create key value p | Some _ => Assign key value p end), s)
  | Create key value p =>
      let l : ploc := (th_id t, th_next t) in
      let s := mkShared (sh_buckets s) (<[l := mkCell key (Some value) None]> (sh_pairs s)) (sh_size s) in
      do s <- write_ptr s p (Some l);
      Some (mkThread (th_id t) (th_rounds t) Size (S (th_next t)), s)
  | Assign key value p =>
      do q <- read_ptr s p;
      do l <- q;
      Some (at_pc t (SetValue key value l), s)
  | SetValue key value l =>
      do c <- sh_pairs s !! l;
      Some (at_pc t Idle, mkShared (sh_buckets s) (<[l := mkCell (c_key c) (Some value) (c_next c)]> (sh_pairs s)) (sh_size s))
  | Size => Some (at_pc t (SizePlus (sh_size s)), s)
  | SizePlus n => Some (at_pc t Idle, mkShared (sh_buckets s) (sh_pairs s) (s32 (n + 1)))
  end.

(** ** The two threads together *)

Record threads := mkThreads { thread1 : thread; thread2 : thread; memory : shared }.

(** [true] lets the first thread go on. *)
Definition rr_step (vo : rangevo) (w : bool) (st : threads) : option threads :=
  if w then do ' (t, s) <- tstep vo (thread1 st) (memory st); Some (mkThreads t (thread2 st) s)
  else do ' (t, s) <- tstep vo (thread2 st) (memory st); Some (mkThreads (thread1 st) t s).

Fixpoint run_schedule (vo : rangevo) (schedule : list bool) (st : threads) : option threads :=
  match schedule with
  | [] => Some st
  | w :: schedule' => do st <- rr_step vo w st; run_schedule vo schedule' st
  end.

Fixpoint run_thread (vo : rangevo) (w : bool) (fuel : nat) (st : threads) : option threads :=
  if finished (if w then thread1 st else thread2 st) then Some st
  else match fuel with O => None | S fuel' => do st <- rr_step vo w st; run_thread vo w fuel' st end.

(** [pthread_create] twice and [pthread_join] twice: the steps in the order of the
    schedule; behind its end the first thread runs to its end, then the second.  A
    walk passes through fewer pairs than there can be in all. *)
Definition all_pairs (rounds1 rounds2 : list (Z * Z)) (s : shared) : nat :=
  base.size (sh_pairs s) + length rounds1 + length rounds2.
Definition join_fuel (rounds1 rounds2 : list (Z * Z)) (s : shared) : nat :=
  S (length rounds1 + length rounds2) * (3 * all_pairs rounds1 rounds2 s + 8).

Definition run_threads (vo : rangevo) (schedule : list bool) (rounds1 rounds2 : list (Z * Z)) (s : shared) : option shared :=
  let fuel := join_fuel rounds1 rounds2 s in
  do st <- run_schedule vo schedule (mkThreads (mkThread 0 rounds1 Idle 0) (mkThread 1 rounds2 Idle 0) s);
  do st <- run_thread vo true fuel st;
  do st <- run_thread vo false fuel st;
  Some (memory st).

(** ** From the chains of a map to its memory and back *)

Definition bucket_cells (b : nat) (c : list (Pair (list Z))) : list (ploc * cell) :=
  imap (fun j p => ((S (S b), j), mkCell (pkey p) (pvalue p) (if decide (S j < length c)%nat then Some (S (S b), S j) else None))) c.

Definition share (hm : Hashmap (list Z)) : shared :=
  mkShared (imap (fun b c => match c with [] => None | _ => Some (S (S b), 0%nat) end) (buckets hm))
    (list_to_map (concat (imap bucket_cells (buckets hm)))) (Hashmap.size hm).

Fixpoint follow (pairs : gmap ploc cell) (fuel : nat) (p : option ploc) : option (list (Pair (list Z))) :=
  match p, fuel with
  | None, _ => Some []
  | Some _, O => None
  | Some l, S fuel' =>
      do c <- pairs !! l;
      do rest <- follow pairs fuel' (c_next c);
      Some (mkPair (c_key c) (c_value c) :: rest)
  end.

Definition unshare (hm : Hashmap (list Z)) (s : shared) : option (Hashmap (list Z)) :=
  do bs <- mapM (follow (sh_pairs s) (base.size (sh_pairs s))) (sh_buckets s);
  Some (mkHashmap (num_buckets hm) bs (hash hm) (hcompare hm) (sh_size s)).

(** The leaves between the boundary leaves, in the map of the leaf level. *)
Definition rr_threads (vo : rangevo) (schedule : list bool) (start_id end_id : Z) (hm : Hashmap (list Z))
  : option (Hashmap (list Z)) :=
  let mid := Z.quot (start_id + end_id) 2 in
  do s <- run_threads vo schedule (rr_rounds start_id mid) (rr_rounds mid end_id) (share hm);
  unshare hm s.
(** ** What the memory holds *)

(** A chain of pairs from a pointer on, with its addresses. *)
Fixpoint lseg (pairs : gmap ploc cell) (p : option ploc) (ls : list ploc) (c : list (Pair (list Z))) : Prop :=
  match ls, c with
  | [], [] => p = None
  | l :: ls', pr :: c' => p = Some l /\ exists nx, pairs !! l = Some (mkCell (pkey pr) (pvalue pr) nx) /\ lseg pairs nx ls' c'
  | _, _ => False
  end.

Lemma lseg_length pairs ls : forall p c, lseg pairs p ls c -> length ls = length c.
Proof.
  induction ls as [|l ls IH]; intros p [|pr c]; simpl; try done. intros (_ & nx & _ & Hs). f_equal. by eapply IH.
Qed.

Lemma lseg_frame pairs pairs' ls : forall p c, (forall l, l ∈ ls -> pairs' !! l = pairs !! l) -> lseg pairs p ls c -> lseg pairs' p ls c.
Proof.
  induction ls as [|l ls IH]; intros p [|pr c] Hf; simpl; try done. intros (-> & nx & El & Hs). split; [done|].
  exists nx. rewrite Hf by (by left). split; [done|]. apply IH; [|done]. intros l' Hl'. apply Hf. by right.
Qed.

(** The pair at a position, and the pointer there. *)
Lemma lseg_lookup pairs ls : forall p c j l pr, lseg pairs p ls c -> ls !! j = Some l -> c !! j = Some pr ->
  pairs !! l = Some (mkCell (pkey pr) (pvalue pr) (ls !! S j)).
Proof.
  induction ls as [|l0 ls IH]; intros p [|pr0 c] j l pr; simpl; try done. intros (-> & nx & El & Hs). destruct j as [|j]; simpl.
  - intros [= <-] [= <-]. rewrite El. do 2 f_equal. destruct ls as [|l1 ls], c as [|pr1 c]; simpl in Hs; try done. by destruct Hs.
  - intros Hl Hc. by eapply IH.
Qed.

Lemma lseg_head pairs p ls c : lseg pairs p ls c -> p = ls !! 0%nat.
Proof. destruct ls, c; simpl; try done. by intros [-> _]. Qed.

(** A new pair behind the last one. *)
Lemma lseg_append pairs ls new pr : forall p c, NoDup (ls ++ [new]) -> lseg pairs p ls c ->
  let pairs' := <[new := mkCell (pkey pr) (pvalue pr) None]> pairs in
  lseg (match last ls with
        | Some l => match pairs' !! l with Some k => <[l := mkCell (c_key k) (c_value k) (Some new)]> pairs' | None => pairs' end
        | None => pairs'
        end) (match ls with [] => Some new | _ => p end) (ls ++ [new]) (c ++ [pr]).
Proof.
  induction ls as [|l ls IH]; intros p [|pr0 c] Hnd Hs pairs'; subst pairs'; simpl in Hs; try done.
  - simpl. split; [done|]. exists None. by rewrite lookup_insert_eq.
  - destruct Hs as (-> & nx & El & Hs). apply NoDup_cons in Hnd as [Hni Hnd]. specialize (IH nx c Hnd Hs).
    assert (l <> new) as Hne by (intros ->; apply Hni, elem_of_app; right; by left).
    destruct ls as [|l1 ls].
    + destruct c as [|]; [|done]. simpl in Hs. subst nx. simpl. rewrite lookup_insert_ne, El by done. simpl.
      split; [done|]. exists (Some new). rewrite lookup_insert_eq. split; [done|]. split; [done|]. exists None.
      by rewrite lookup_insert_ne, lookup_insert_eq by done.
    + rewrite last_cons_cons. cbn [app]. split; [done|]. exists nx. split; [|exact IH].
      destruct (last (l1 :: ls)) as [x|] eqn:Ex; [|by apply last_None in Ex].
      assert (x <> l) as Hx. { intros ->. apply Hni. change (l ∈ (l1 :: ls) ++ [new]). apply elem_of_app. left. apply last_Some in Ex as [l' E]. rewrite E. apply elem_of_app. right. by left. }
      destruct ((<[new := _]> pairs) !! x); [rewrite lookup_insert_ne by done|]; by rewrite lookup_insert_ne.
Qed.

(** A new value in the pair at a position. *)
Lemma lseg_update pairs ls : forall p c j l pr v, NoDup ls -> lseg pairs p ls c -> ls !! j = Some l -> c !! j = Some pr ->
  lseg (<[l := mkCell (pkey pr) v (ls !! S j)]> pairs) p ls (<[j := mkPair (pkey pr) v]> c).
Proof.
  induction ls as [|l0 ls IH]; intros p [|pr0 c] j l pr v Hnd; simpl; try done. intros (-> & nx & El & Hs).
  apply NoDup_cons in Hnd as [Hni Hnd]. destruct j as [|j]; simpl.
  - intros [= <-] [= <-]. split; [done|]. rewrite (lseg_head _ _ _ _ Hs) in Hs. eexists. rewrite lookup_insert_eq. split; [done|].
    eapply lseg_frame; [|exact Hs]. intros l' Hl'. apply lookup_insert_ne. by intros ->.
  - intros Hl Hc. split; [done|]. exists nx. rewrite lookup_insert_ne; [|intros ->; apply Hni; by eapply list_elem_of_lookup_2].
    split; [done|]. by eapply IH.
Qed.

Lemma lseg_follow pairs fuel : forall p ls c, lseg pairs p ls c -> (length ls <= fuel)%nat -> follow pairs fuel p = Some c.
Proof.
  induction fuel as [|fuel IH]; intros p [|l ls] [|pr c]; simpl; try done; try lia.
  - by intros ->.
  - by intros -> _.
  - intros (-> & nx & El & Hs) Hle. rewrite El. cbn [mbind option_bind c_next c_key c_value].
    rewrite (IH nx ls c Hs) by lia. by destruct pr.
Qed.

(** The addresses of all chains; the pairs are in memory and belong to one chain. *)
Record shared_rep (s : shared) (L : list (list ploc)) (hm : Hashmap (list Z)) : Prop := {
  sr_len : length L = length (buckets hm);
  sr_lenb : length (sh_buckets s) = length (buckets hm);
  sr_seg b ls c p : L !! b = Some ls -> buckets hm !! b = Some c -> sh_buckets s !! b = Some p -> lseg (sh_pairs s) p ls c;
  sr_nodup : NoDup (concat L)
}.

(** Position [j] of the chain of bucket [b]. *)
Definition ptr_at (L : list (list ploc)) (b : Z) (j : nat) (p : pair_ptr) : Prop :=
  exists ls, L !! Z.to_nat b = Some ls /\ (j <= length ls)%nat /\
    match p with Bucket b' => b' = b /\ j = 0%nat | Next l => exists i, j = S i /\ ls !! i = Some l end.

Lemma in_chains (L : list (list ploc)) b ls l : L !! b = Some ls -> l ∈ ls -> l ∈ concat L.
Proof. intros Hb Hl. apply list_elem_of_In, in_concat. exists ls. split; apply list_elem_of_In; [by eapply list_elem_of_lookup_2|done]. Qed.

Lemma in_one_chain (L : list (list ploc)) b b' ls ls' l : NoDup (concat L) -> L !! b = Some ls -> L !! b' = Some ls' ->
  l ∈ ls -> l ∈ ls' -> b = b'.
Proof. intros Hnd Hb Hb' Hl Hl'. rewrite <- (map_id L) in Hnd. by eapply (concat_map_disjoint (fun x => x)). Qed.

Lemma chain_NoDup (L : list (list ploc)) b ls : NoDup (concat L) -> L !! b = Some ls -> NoDup ls.
Proof. intros Hnd Hb. rewrite <- (map_id L) in Hnd. by eapply (concat_map_NoDup (fun x => x)). Qed.

Section Rep.
Context (s : shared) (L : list (list ploc)) (hm : Hashmap (list Z)) (Hr : shared_rep s L hm).

Lemma rep_lookup b ch : buckets hm !! b = Some ch -> exists ls p, L !! b = Some ls /\ sh_buckets s !! b = Some p /\ lseg (sh_pairs s) p ls ch.
Proof.
  intros Hb. pose proof (lookup_lt_Some _ _ _ Hb) as Hlt. destruct (lookup_lt_is_Some_2 L b) as [ls Hl]; [by rewrite (sr_len _ _ _ Hr)|].
  destruct (lookup_lt_is_Some_2 (sh_buckets s) b) as [p Hp]; [by rewrite (sr_lenb _ _ _ Hr)|].
  exists ls, p. split_and!; [done..|]. by eapply sr_seg.
Qed.

Lemma read_at b j p ch : 0 <= b -> buckets hm !! Z.to_nat b = Some ch -> ptr_at L b j p ->
  exists ls, L !! Z.to_nat b = Some ls /\ length ls = length ch /\ read_ptr s p = Some (ls !! j).
Proof.
  intros Hb Hch (ls & Hls & Hj & Hp). destruct (rep_lookup _ _ Hch) as (ls' & q & Hls' & Hq & Hseg). rewrite Hls in Hls'. injection Hls' as <-.
  exists ls. pose proof (lseg_length _ _ _ _ Hseg) as Hlen. split_and!; [done|done|]. destruct p as [b'|l].
  - destruct Hp as [-> ->]. simpl. unfold aget. rewrite (proj2 (Z.leb_le 0 b) Hb), Hq. by rewrite <- (lseg_head _ _ _ _ Hseg).
  - destruct Hp as (i & -> & Hi). destruct (lookup_lt_is_Some_2 ch i) as [pr Hpr]; [apply lookup_lt_Some in Hi; lia|].
    simpl. by rewrite (lseg_lookup _ _ _ _ _ _ _ Hseg Hi Hpr).
Qed.

(** The pair at a position. *)
Lemma pair_at b ls ch j l pr : L !! b = Some ls -> buckets hm !! b = Some ch -> ls !! j = Some l -> ch !! j = Some pr ->
  sh_pairs s !! l = Some (mkCell (pkey pr) (pvalue pr) (ls !! S j)).
Proof.
  intros Hls Hch Hl Hpr. destruct (rep_lookup _ _ Hch) as (ls' & q & Hls' & Hq & Hseg). rewrite Hls in Hls'. injection Hls' as <-.
  by eapply lseg_lookup.
Qed.

(** A change of the pairs of one chain. *)
Lemma rep_changed (b : nat) ls ls' ch' q pairs' hm' n : L !! b = Some ls -> buckets hm' = <[b := ch']> (buckets hm) ->
  lseg pairs' q ls' ch' -> NoDup (concat (<[b := ls']> L)) ->
  (forall l, l ∈ concat L -> ~ l ∈ ls -> pairs' !! l = sh_pairs s !! l) ->
  shared_rep (mkShared (<[b := q]> (sh_buckets s)) pairs' n) (<[b := ls']> L) hm'.
Proof.
  intros Hls Eb Hseg Hnd Hsame. pose proof (lookup_lt_Some _ _ _ Hls) as Hlt. pose proof (sr_len _ _ _ Hr). pose proof (sr_lenb _ _ _ Hr).
  split; simpl; rewrite ?Eb, ?length_insert; try done. intros b' lsx c p. destruct (decide (b = b')) as [<-|Hne].
  - rewrite !list_lookup_insert_eq by lia. by intros [= <-] [= <-] [= <-].
  - rewrite !list_lookup_insert_ne by done. intros Hlx Hc Hp. eapply lseg_frame; [|by eapply sr_seg].
    intros l Hl. apply Hsame; [by eapply in_chains|]. intros Hl'. apply Hne. by eapply in_one_chain; [apply Hr|..].
Qed.

Lemma create_rep b p ch ls key v new n : 0 <= b -> buckets hm !! Z.to_nat b = Some ch -> L !! Z.to_nat b = Some ls ->
  ptr_at L b (length ch) p -> ~ new ∈ concat L ->
  exists s', write_ptr (mkShared (sh_buckets s) (<[new := mkCell key v None]> (sh_pairs s)) n) p (Some new) = Some s' /\
    forall hm', buckets hm' = <[Z.to_nat b := ch ++ [mkPair key v]]> (buckets hm) ->
      shared_rep s' (<[Z.to_nat b := ls ++ [new]]> L) hm'.
Proof.
  intros Hb Hch Hls (ls' & Hls' & _ & Hp) Hnew. rewrite Hls in Hls'. injection Hls' as <-.
  destruct (rep_lookup _ _ Hch) as (ls' & q & Hls' & Hq & Hseg). rewrite Hls in Hls'. injection Hls' as <-.
  pose proof (lseg_length _ _ _ _ Hseg) as Hlen.
  assert (~ new ∈ ls) as Hni by (intros Hin; apply Hnew; by eapply in_chains).
  assert (NoDup (ls ++ [new])) as Hnd1.
  { apply NoDup_app. split; [by eapply chain_NoDup; [apply Hr|]|]. split; [|apply NoDup_singleton]. by intros x Hx ->%list_elem_of_singleton. }
  assert (NoDup (concat (<[Z.to_nat b := ls ++ [new]]> L))) as Hnd.
  { pose proof (sr_nodup _ _ _ Hr) as Hn. pose proof (take_drop_middle _ _ _ Hls) as EL.
    rewrite insert_take_drop by (by eapply lookup_lt_Some). rewrite <- EL, concat_app in Hn. cbn [concat] in Hn.
    rewrite concat_app. cbn [concat]. rewrite <- EL, concat_app in Hnew. cbn [concat] in Hnew. rewrite <- (app_assoc ls).
    assert (concat (take (Z.to_nat b) L) ++ ls ++ [new] ++ concat (drop (S (Z.to_nat b)) L) ≡ₚ
      new :: concat (take (Z.to_nat b) L) ++ ls ++ concat (drop (S (Z.to_nat b)) L)) as ->; [solve_Permutation|].
    by apply NoDup_cons. }
  pose proof (lseg_append (sh_pairs s) ls new (mkPair key v) q ch Hnd1 Hseg) as Happ. cbv zeta in Happ. cbn [pkey pvalue] in Happ.
  pose proof (lookup_lt_Some _ _ _ Hq) as Hlt. destruct p as [b'|l].
  - destruct Hp as [-> Hz]. destruct ls as [|]; [|simpl in Hlen; lia]. cbn [last] in Happ. simpl write_ptr.
    rewrite aset_Some by (unfold zlen; lia). eexists. split; [reflexivity|]. intros hm' Eb.
    apply (rep_changed _ [] _ _ _ _ _ _ Hls Eb Happ Hnd). intros l Hl _. apply lookup_insert_ne. by intros ->.
  - destruct Hp as (i & Ei & Hi). assert (last ls = Some l) as El by (rewrite last_lookup, Hlen, Ei; exact Hi). rewrite El in Happ.
    destruct (lookup_lt_is_Some_2 ch i) as [pr Hpr]; [lia|]. pose proof (lseg_lookup _ _ _ _ _ _ _ Hseg Hi Hpr) as Ec.
    assert (l <> new) as Hne by (intros ->; apply Hni; by eapply list_elem_of_lookup_2).
    simpl write_ptr. rewrite lookup_insert_ne, Ec in * by done. cbn [mbind option_bind c_key c_value].
    eexists. split; [reflexivity|]. intros hm' Eb. rewrite <- (list_insert_id (sh_buckets s) (Z.to_nat b) q Hq).
    destruct ls as [|l0 ls]; [done|].
    apply (rep_changed _ (l0 :: ls) _ _ _ _ _ _ Hls Eb Happ Hnd). intros l' Hl' Hn'. rewrite !lookup_insert_ne; [done|by intros ->|].
    intros ->. apply Hn'. by eapply list_elem_of_lookup_2.
Qed.

Lemma update_rep b ls ch j l pr v hm' n : L !! b = Some ls -> buckets hm !! b = Some ch -> ls !! j = Some l -> ch !! j = Some pr ->
  buckets hm' = <[b := <[j := mkPair (pkey pr) v]> ch]> (buckets hm) ->
  shared_rep (mkShared (sh_buckets s) (<[l := mkCell (pkey pr) v (ls !! S j)]> (sh_pairs s)) n) L hm'.
Proof.
  intros Hls Hch Hl Hpr Eb. destruct (rep_lookup _ _ Hch) as (ls' & q & Hls' & Hq & Hseg). rewrite Hls in Hls'. injection Hls' as <-.
  pose proof (lseg_update (sh_pairs s) ls q ch j l pr v (chain_NoDup _ _ _ (sr_nodup _ _ _ Hr) Hls) Hseg Hl Hpr) as Hs.
  rewrite <- (list_insert_id (sh_buckets s) b q Hq). rewrite <- (list_insert_id L b ls Hls) at 1.
  apply (rep_changed _ ls _ _ _ _ _ _ Hls Eb Hs).
  - rewrite list_insert_id by done. apply Hr.
  - intros l' Hl' Hn. apply lookup_insert_ne. intros ->. apply Hn. by eapply list_elem_of_lookup_2.
Qed.

End Rep.

(** ** Where a walk is *)

Lemma chain_find_le (cmp : Z -> Z -> bool) (c : list (Pair (list Z))) k : (chain_find cmp c k <= length c)%nat.
Proof. induction c as [|p c IH]; simpl; [lia|]. destruct (cmp (pkey p) k); lia. Qed.

Lemma chain_find_cmp (cmp : Z -> Z -> bool) (c : list (Pair (list Z))) k : forall j p, (j <= chain_find cmp c k)%nat -> c !! j = Some p ->
  if cmp (pkey p) k then j = chain_find cmp c k else (S j <= chain_find cmp c k)%nat.
Proof.
  induction c as [|q c IH]; intros j p Hj Hp; simpl in *; [done|]. destruct j as [|j]; simpl in Hp.
  - injection Hp as ->. destruct (cmp (pkey p) k); lia.
  - destruct (cmp (pkey q) k); [lia|]. specialize (IH j p ltac:(lia) Hp). destruct (cmp (pkey p) k); lia.
Qed.

(** [hashmap_set] changes one chain. *)
Lemma set_as_chain (hm hm' : Hashmap (list Z)) k v r ch : hashmap_set true hm k v = Some (hm', r) ->
  num_buckets hm = NUM_BUCKETS -> hash hm = myhash -> hcompare hm = compare -> aget (buckets hm) (bucket_of k) = Some ch ->
  num_buckets hm' = NUM_BUCKETS /\ hash hm' = myhash /\ hcompare hm' = compare /\
  buckets hm' = <[Z.to_nat (bucket_of k) :=
    match ch !! chain_find compare ch k with
    | Some p => <[chain_find compare ch k := mkPair (pkey p) v]> ch
    | None => ch ++ [mkPair k v]
    end]> (buckets hm).
Proof.
  intros E Hn Hh Hc Hch. pose proof (aget_lt _ _ _ Hch) as Hlt.
  assert (get_pair_ptr hm k = Some (bucket_of k, chain_find compare ch k)) as Ep.
  { unfold get_pair_ptr, get_bucket. rewrite Hn, Hh, Hc. change (NUM_BUCKETS =? 0) with false. cbn [mbind option_bind].
    change (myhash k mod NUM_BUCKETS) with (bucket_of k). by rewrite Hch. }
  unfold hashmap_set, Hashmap.deref in E. rewrite Ep in E. cbn [mbind option_bind fst snd] in E. rewrite Hch in E. cbn [mbind option_bind] in E.
  destruct (ch !! chain_find compare ch k) as [p|] eqn:El; simpl in E; rewrite ?El in E; unfold set_chain in E;
    rewrite aset_Some in E by done; simpl in E; by simplify_eq.
Qed.

Lemma bucket_range key : 0 <= bucket_of key < 16.
Proof. unfold bucket_of, NUM_BUCKETS. apply Z.mod_pos_bound. lia. Qed.

(** The key of a call that has not yet changed the map. *)
Definition pc_key (c : pc) : option Z :=
  match c with
  | While key _ _ | CompareKey key _ _ | Advance key _ _ | IfNull key _ _ | Create key _ _ | Assign key _ _ | SetValue key _ _ => Some key
  | Idle | Size | SizePlus _ => None
  end.

Definition pending (t : thread) : list Z := option_list (pc_key (th_pc t)) ++ (fst <$> th_rounds t).

Section Interleaving.
Context (vo : rangevo) (v : Z -> list Z) (N : nat).

(** A thread of which the walk is at a position of the chain of its key and which
    has at most [n] steps to the end of the call. *)
Definition pc_ok (L : list (list ploc)) (hm : Hashmap (list Z)) (c : pc) (n : nat) : Prop :=
  let at_ key value p (P : nat -> list (Pair (list Z)) -> Prop) := value = v key /\ exists j ch,
    buckets hm !! Z.to_nat (bucket_of key) = Some ch /\ ptr_at L (bucket_of key) j p /\ P j ch in
  match c with
  | Idle => True
  | While key value p => at_ key value p (fun j ch => (j <= chain_find compare ch key)%nat /\ (3 * (N - j) + 7 <= n)%nat)
  | CompareKey key value p => at_ key value p (fun j ch =>
      (j <= chain_find compare ch key)%nat /\ (j < length ch)%nat /\ (3 * (N - j) + 6 <= n)%nat)
  | Advance key value p => at_ key value p (fun j ch => (j < chain_find compare ch key)%nat /\ (3 * (N - j) + 5 <= n)%nat)
  | IfNull key value p => at_ key value p (fun j ch => j = chain_find compare ch key /\ (5 <= n)%nat)
  | Create key value p => at_ key value p (fun j ch => j = chain_find compare ch key /\ j = length ch /\ (4 <= n)%nat)
  | Assign key value p => at_ key value p (fun j ch => j = chain_find compare ch key /\ (j < length ch)%nat /\ (4 <= n)%nat)
  | SetValue key value l => value = v key /\ (3 <= n)%nat /\ exists j ch ls, buckets hm !! Z.to_nat (bucket_of key) = Some ch /\
      L !! Z.to_nat (bucket_of key) = Some ls /\ ls !! j = Some l /\ j = chain_find compare ch key /\ (j < length ch)%nat
  | Size => (2 <= n)%nat
  | SizePlus _ => (1 <= n)%nat
  end.

(** It depends on the chain of its key only. *)
Lemma pc_ok_frame L L' hm hm' c n : (forall key, pc_key c = Some key ->
    buckets hm' !! Z.to_nat (bucket_of key) = buckets hm !! Z.to_nat (bucket_of key) /\
    L' !! Z.to_nat (bucket_of key) = L !! Z.to_nat (bucket_of key)) ->
  pc_ok L hm c n -> pc_ok L' hm' c n.
Proof.
  intros Hf. destruct c; simpl; try done; destruct (Hf _ eq_refl) as [-> E]; unfold ptr_at; by rewrite E.
Qed.

(** The keys of a thread, and how many steps it has left. *)
Record thread_ok (K : Z -> Prop) (L : list (list ploc)) (hm : Hashmap (list Z)) (t : thread) (n : nat) : Prop := {
  to_keys k : k ∈ pending t -> K k /\ in_s 64 k;
  to_hash r : r ∈ th_rounds t -> rr_hash vo r.2 = Some (v r.1);
  to_pc : exists n', pc_ok L hm (th_pc t) n' /\ (length (th_rounds t) * (3 * N + 8) + n' <= n)%nat;
  to_fresh l : l ∈ concat L -> l.1 = th_id t -> (l.2 < th_next t)%nat
}.

Local Ltac unpack := repeat match goal with
  | Hx : _ /\ _ |- _ => destruct Hx
  | Hx : exists _, _ |- _ => destruct Hx
  end.

Lemma finished_pending t : finished t = true -> pending t = [].
Proof. destruct t as [i [|] [] nx]; by intros. Qed.

Lemma unfinished_steps K L hm t n : thread_ok K L hm t n -> finished t = false -> (0 < n)%nat.
Proof.
  intros [_ _ (n' & Hpc & Hn) _] Hf. destruct t as [i [|r rs] c nx]; simpl in *; [|lia].
  destruct c; simpl in *; try done; try lia; unpack; lia.
Qed.

Context (K1 K2 : Z -> Prop) (Hsep : forall k1 k2, K1 k1 -> K2 k2 -> bucket_of k1 <> bucket_of k2).
Context (M0 : gmap Z (option (list Z))) (ids : list Z).

(** The state of the two threads: the map represents the map before them with the
    hashes of the keys [D] that were set. *)
Record world (t u : thread) (s : shared) (n k : nat) (L : list (list ploc)) (hm : Hashmap (list Z))
    (M : gmap Z (option (list Z))) (D : list Z) : Prop := {
  wd_rep : shared_rep s L hm;
  wd_hm : hm_rep hm M;
  wd_buckets : num_buckets hm = NUM_BUCKETS;
  wd_hash : hash hm = myhash;
  wd_compare : hcompare hm = compare;
  wd_t : thread_ok K1 L hm t n;
  wd_u : thread_ok K2 L hm u k;
  wd_M x : M !! x = if decide (x ∈ D) then Some (Some (v x)) else M0 !! x;
  wd_ids x : x ∈ ids <-> x ∈ D \/ x ∈ pending t \/ x ∈ pending u;
  wd_N b ch : buckets hm !! b = Some ch -> (length ch + length (pending t) + length (pending u) <= N)%nat;
  wd_apart : th_id t <> th_id u
}.

Definition inv (t u : thread) (s : shared) (n k : nat) : Prop := exists L hm M D, world t u s n k L hm M D.

Section Move.
Context (t u : thread) (s : shared) (n k : nat) (L : list (list ploc)) (hm : Hashmap (list Z))
  (M : gmap Z (option (list Z))) (D : list Z) (Hw : world t u s n k L hm M D).

Lemma world_chain key : exists ch, buckets hm !! Z.to_nat (bucket_of key) = Some ch /\ aget (buckets hm) (bucket_of key) = Some ch.
Proof.
  destruct (rep_bucket hm M key (wd_hm _ _ _ _ _ _ _ _ _ Hw)) as (ch & _ & E).
  rewrite (wd_buckets _ _ _ _ _ _ _ _ _ Hw), (wd_hash _ _ _ _ _ _ _ _ _ Hw) in E. exists ch. split; [|exact E].
  by apply aget_Some in E as [_ E].
Qed.

(** A step that changes neither the map nor the key. *)
Lemma world_move c m sz n' : pc_key c = pc_key (th_pc t) -> pc_ok L hm c m -> (length (th_rounds t) * (3 * N + 8) + m <= n')%nat ->
  world (at_pc t c) u (mkShared (sh_buckets s) (sh_pairs s) sz) n' k L hm M D.
Proof.
  intros Hk Hpc Hn. destruct Hw as [Hr Hm H1' H2 H3 [Tk Th _ Tf] Hu HM Hids HN Ha].
  assert (pending (at_pc t c) = pending t) as Ep by (unfold pending; simpl; by rewrite Hk).
  split; rewrite ?Ep; try done.
  - destruct Hr. by split.
  - split; rewrite ?Ep; try done. by exists m.
Qed.

(** A step that sets the key. *)
Lemma world_set key s' L' hm' r t' n' : pc_key (th_pc t) = Some key -> hashmap_set true hm key (Some (v key)) = Some (hm', r) ->
  shared_rep s' L' hm' -> (forall b, b <> Z.to_nat (bucket_of key) -> L' !! b = L !! b) ->
  (forall l, l ∈ concat L' -> l ∈ concat L \/ l = (th_id t, th_next t) /\ th_next t' = S (th_next t)) ->
  th_id t' = th_id t -> th_rounds t' = th_rounds t -> (th_next t <= th_next t')%nat -> pc_key (th_pc t') = None ->
  pc_ok L' hm' (th_pc t') 2 -> (length (th_rounds t) * (3 * N + 8) + 2 <= n')%nat ->
  world t' u s' n' k L' hm' (<[key := Some (v key)]> M) (key :: D).
Proof.
  intros Hk Es Hr' HL Hnew Hid Hrs Hnx Hk' Hpc Hn. destruct Hw as [Hr Hm B1 B2 B3 [Tk Th _ Tf] [Uk Uh Upc Uf] HM Hids HN Ha].
  destruct (Tk key) as [HK Hin]; [unfold pending; rewrite Hk; by left|].
  assert (pending t = key :: pending t') as Ep by (unfold pending; rewrite Hk, Hk', Hrs; done).
  destruct (world_chain key) as (ch & Hch & Ech). destruct (set_as_chain _ _ _ _ _ _ Es B1 B2 B3 Ech) as (B1' & B2' & B3' & Eb).
  destruct (hashmap_set_rep hm M key (Some (v key)) Hm Hin) as (hm2 & Es2 & Hm' & _). rewrite Es in Es2. injection Es2 as <- ->.
  split; try done.
  - split.
    + intros x Hx. apply Tk. rewrite Ep. by right.
    + rewrite Hrs. apply Th.
    + exists 2%nat. by rewrite Hrs.
    + rewrite Hid. intros l [Hl|[-> ->]]%Hnew Hl1; [pose proof (Tf l Hl Hl1); lia|simpl; lia].
  - split; [exact Uk|exact Uh| |].
    + destruct Upc as (m & Hm2 & Hle). exists m. split; [|exact Hle]. eapply pc_ok_frame; [|exact Hm2]. intros key2 Hk2.
      destruct (Uk key2) as [HK2 _]; [unfold pending; rewrite Hk2; by left|].
      assert (Z.to_nat (bucket_of key2) <> Z.to_nat (bucket_of key)) as Hne.
      { pose proof (Hsep _ _ HK HK2). pose proof (bucket_range key). pose proof (bucket_range key2). lia. }
      rewrite Eb, list_lookup_insert_ne by done. split; [done|by apply HL].
    + intros l [Hl|[-> _]]%Hnew Hl1; [by apply Uf|by destruct Ha].
  - intros x. rewrite lookup_insert. destruct (decide (key = x)) as [->|Hne].
    + rewrite decide_True by (by left). done.
    + rewrite HM. apply decide_ext. rewrite elem_of_cons. split; [by right|]. by intros [->|].
  - intros x. rewrite Hids, Ep, !elem_of_cons. tauto.
  - intros b c Hb. rewrite Eb in Hb. destruct (decide (b = Z.to_nat (bucket_of key))) as [->|Hne].
    + rewrite list_lookup_insert_eq in Hb by (by eapply lookup_lt_Some). injection Hb as <-. pose proof (HN _ _ Hch) as HNc.
      rewrite Ep in HNc. simpl in HNc. destruct (ch !! _); rewrite ?length_insert, ?length_app; simpl; lia.
    + rewrite list_lookup_insert_ne in Hb by done. pose proof (HN _ _ Hb) as HNc. rewrite Ep in HNc. simpl in HNc. lia.
  - by rewrite Hid.
Qed.

End Move.

Section Step.
Context (t u : thread) (s : shared) (n k : nat) (L : list (list ploc)) (hm : Hashmap (list Z))
  (M : gmap Z (option (list Z))) (D : list Z) (Hw : world t u s n k L hm M D).
Context (m : nat) (Hpc : pc_ok L hm (th_pc t) m) (Hn : (length (th_rounds t) * (3 * N + 8) + m <= n)%nat).

(** What a step has to leave. *)
Definition goes_on (r : option (thread * shared)) : Prop :=
  exists t' s' n', r = Some (t', s') /\ inv t' u s' n' k /\ (n' < n)%nat.

Lemma step_moves c sz m' : pc_key c = pc_key (th_pc t) -> pc_ok L hm c m' -> (m' < m)%nat ->
  goes_on (Some (at_pc t c, mkShared (sh_buckets s) (sh_pairs s) sz)).
Proof.
  intros Hk Hc Hm'. eexists _, _, (length (th_rounds t) * (3 * N + 8) + m')%nat. split; [reflexivity|]. split; [|lia].
  exists L, hm, M, D. by eapply world_move.
Qed.

Lemma step_reads c m' : pc_key c = pc_key (th_pc t) -> pc_ok L hm c m' -> (m' < m)%nat -> goes_on (Some (at_pc t c, s)).
Proof. intros Hk Hc Hm'. pose proof (step_moves c (sh_size s) m' Hk Hc Hm') as Hg. by destruct s. Qed.

Lemma reads key p j ch : buckets hm !! Z.to_nat (bucket_of key) = Some ch -> ptr_at L (bucket_of key) j p -> exists ls,
  L !! Z.to_nat (bucket_of key) = Some ls /\ length ls = length ch /\ read_ptr s p = Some (ls !! j) /\ (j <= length ch)%nat.
Proof.
  intros Hch Hp. destruct (read_at s L hm (wd_rep _ _ _ _ _ _ _ _ _ Hw) (bucket_of key) j p ch) as (ls & Hls & Hlen & E);
    [apply bucket_range|done|done|].
  destruct Hp as (ls' & Hls' & Hj & _). rewrite Hls in Hls'. injection Hls' as <-. exists ls. split_and!; [done..|lia].
Qed.

Lemma step_idle : th_pc t = Idle -> finished t = false -> goes_on (tstep vo t s).
Proof.
  intros Epc Hf. unfold tstep. rewrite Epc. unfold finished in Hf. rewrite Epc in Hf.
  destruct (th_rounds t) as [|[x y] rs] eqn:Ers; [done|]. pose proof (wd_t _ _ _ _ _ _ _ _ _ Hw) as Ht.
  pose proof (to_hash _ _ _ _ _ Ht (x, y)) as Hh. rewrite Ers in Hh. simpl in Hh. rewrite Hh by (by left). cbn [mbind option_bind].
  eexists _, s, (length rs * (3 * N + 8) + (3 * N + 7))%nat. split; [reflexivity|]. simpl in Hn. split; [|lia].
  exists L, hm, M, D. destruct (world_chain _ _ _ _ _ _ _ _ _ Hw x) as (ch & Hch & _).
  destruct Hw as [Hr Hm B1 B2 B3 [Tk Th _ Tf] Hu HM Hids HN Ha].
  set (t' := mkThread _ _ _ _). assert (pending t' = pending t) as Ep by (unfold pending; rewrite Epc, Ers; done).
  split; rewrite ?Ep; try done. split; rewrite ?Ep; try done.
  - intros r' Hr'. apply Th. rewrite Ers. by right.
  - exists (3 * N + 7)%nat. split; [|simpl; lia]. split; [done|]. exists 0%nat, ch. split_and!; [done| |lia|lia].
    destruct (rep_lookup s L hm Hr _ _ Hch) as (ls & _ & Hls & _). exists ls. split_and!; [done|lia|done|done].
Qed.

Lemma step_walk : match th_pc t with While _ _ _ | CompareKey _ _ _ | Advance _ _ _ => True | _ => False end -> goes_on (tstep vo t s).
Proof.
  intros Hwalk. unfold tstep. destruct (th_pc t) as [|key value p|key value p|key value p|key value p|key value p|key value p|key value l| |sz] eqn:Epc;
    try done; destruct Hpc as (-> & j & ch & Hch & Hp & HP); destruct (reads _ _ _ _ Hch Hp) as (ls & Hls & Hlen & -> & Hle); cbn [mbind option_bind];
    pose proof (chain_find_le compare ch key).
  - destruct HP as [Hj Hm]. destruct (ls !! j) as [l|] eqn:El.
    + apply (step_reads _ (3 * (N - j) + 6)%nat); [by rewrite Epc| |lia]. split; [done|]. exists j, ch. apply lookup_lt_Some in El. split_and!; try done; lia.
    + apply (step_reads _ 5%nat); [by rewrite Epc| |lia]. split; [done|]. exists j, ch. apply lookup_ge_None in El. split_and!; try done; lia.
  - destruct HP as (Hj & Hjl & Hm). destruct (lookup_lt_is_Some_2 ls j) as [l El]; [lia|]. destruct (lookup_lt_is_Some_2 ch j) as [pr Epr]; [lia|]. rewrite El.
    cbn [mbind option_bind]. rewrite (pair_at s L hm (wd_rep _ _ _ _ _ _ _ _ _ Hw) _ _ _ _ _ _ Hls Hch El Epr). cbn [mbind option_bind c_key].
    pose proof (chain_find_cmp compare ch key j pr Hj Epr) as Hc. destruct (compare (pkey pr) key).
    + apply (step_reads _ 5%nat); [by rewrite Epc| |lia]. split; [done|]. exists j, ch. by split_and!.
    + apply (step_reads _ (3 * (N - j) + 5)%nat); [by rewrite Epc| |lia]. split; [done|]. exists j, ch. split_and!; try done; lia.
  - destruct HP as [Hj Hm]. destruct (lookup_lt_is_Some_2 ls j) as [l El]; [lia|]. rewrite El. cbn [mbind option_bind].
    pose proof (wd_N _ _ _ _ _ _ _ _ _ Hw _ _ Hch) as HN.
    apply (step_reads _ (3 * (N - S j) + 7)%nat); [by rewrite Epc| |lia]. split; [done|]. exists (S j), ch. split_and!; [done| |lia|lia].
    exists ls. split_and!; [done|lia|]. by exists j.
Qed.

Lemma step_decides : match th_pc t with IfNull _ _ _ | Assign _ _ _ => True | _ => False end -> goes_on (tstep vo t s).
Proof.
  intros Hif. unfold tstep. destruct (th_pc t) as [|key value p|key value p|key value p|key value p|key value p|key value p|key value l| |sz] eqn:Epc;
    try done; destruct Hpc as (-> & j & ch & Hch & Hp & HP); destruct (reads _ _ _ _ Hch Hp) as (ls & Hls & Hlen & -> & Hle); cbn [mbind option_bind].
  - destruct HP as [Hj Hm]. destruct (ls !! j) as [l|] eqn:El.
    + apply (step_reads _ 4%nat); [by rewrite Epc| |lia]. split; [done|]. exists j, ch. apply lookup_lt_Some in El. split_and!; try done; lia.
    + apply (step_reads _ 4%nat); [by rewrite Epc| |lia]. split; [done|]. exists j, ch. apply lookup_ge_None in El. split_and!; try done; lia.
  - destruct HP as (Hj & Hjl & Hm). destruct (lookup_lt_is_Some_2 ls j) as [l El]; [lia|]. rewrite El. cbn [mbind option_bind].
    apply (step_reads _ 3%nat); [by rewrite Epc| |lia]. split; [done|]. split; [done|]. by exists j, ch, ls.
Qed.

(** The call of [hashmap_set] that the two writes complete. *)
Lemma setting key : pc_key (th_pc t) = Some key -> exists ch hm', buckets hm !! Z.to_nat (bucket_of key) = Some ch /\
  hashmap_set true hm key (Some (v key)) = Some (hm', 1) /\
  buckets hm' = <[Z.to_nat (bucket_of key) := match ch !! chain_find compare ch key with
    | Some p => <[chain_find compare ch key := mkPair (pkey p) (Some (v key))]> ch
    | None => ch ++ [mkPair key (Some (v key))] end]> (buckets hm).
Proof.
  intros Hk. destruct (to_keys _ _ _ _ _ (wd_t _ _ _ _ _ _ _ _ _ Hw) key) as [_ Hin]; [unfold pending; rewrite Hk; by left|].
  destruct (world_chain _ _ _ _ _ _ _ _ _ Hw key) as (ch & Hch & Ech).
  destruct (hashmap_set_rep hm M key (Some (v key)) (wd_hm _ _ _ _ _ _ _ _ _ Hw) Hin) as (hm' & Es & _). exists ch, hm'.
  split_and!; [done|done|]. by eapply set_as_chain; [exact Es|apply Hw..|].
Qed.

Lemma step_create key value p : th_pc t = Create key value p -> goes_on (tstep vo t s).
Proof.
  intros Epc. unfold tstep. rewrite Epc. rewrite Epc in Hpc. destruct Hpc as (-> & j & ch & Hch & Hp & Hj & Hjl & Hm).
  destruct (setting key) as (ch' & hm' & Hch' & Es & Eb); [by rewrite Epc|]. rewrite Hch in Hch'. injection Hch' as <-.
  rewrite <- Hj, Hjl, lookup_ge_None_2 in Eb by lia. destruct (reads _ _ _ _ Hch Hp) as (ls & Hls & _). rewrite Hjl in Hp.
  pose proof (wd_t _ _ _ _ _ _ _ _ _ Hw) as Ht.
  assert (~ (th_id t, th_next t) ∈ concat L) as Hfresh by (intros Hl; pose proof (to_fresh _ _ _ _ _ Ht _ Hl eq_refl); simpl in *; lia).
  destruct (create_rep s L hm (wd_rep _ _ _ _ _ _ _ _ _ Hw) (bucket_of key) p ch ls key (Some (v key)) (th_id t, th_next t) (sh_size s))
    as (s' & Ew & Hr'); [apply bucket_range|done..|].
  cbv zeta. rewrite Ew. cbn [mbind option_bind]. eexists _, s', (length (th_rounds t) * (3 * N + 8) + 2)%nat. split; [reflexivity|]. split; [|lia].
  eexists _, hm', _, (key :: D). eapply (world_set t u s n k L hm M D Hw key);
    [by rewrite Epc|exact Es|by apply Hr'| | |done|done|simpl; lia|done|simpl; lia|lia].
  - intros b Hb. by apply list_lookup_insert_ne.
  - intros l Hl. apply list_elem_of_In, in_concat in Hl as (x & Hx%list_elem_of_In & Hlx%list_elem_of_In).
    apply list_elem_of_lookup in Hx as [b Hb]. destruct (decide (b = Z.to_nat (bucket_of key))) as [->|Hne].
    + rewrite list_lookup_insert_eq in Hb by (by eapply lookup_lt_Some). injection Hb as <-.
      apply elem_of_app in Hlx as [Hlx|Hlx%list_elem_of_singleton]; [left; by eapply in_chains|by right].
    + rewrite list_lookup_insert_ne in Hb by done. left. by eapply in_chains.
Qed.

Lemma step_value key value l : th_pc t = SetValue key value l -> goes_on (tstep vo t s).
Proof.
  intros Epc. unfold tstep. rewrite Epc. rewrite Epc in Hpc. destruct Hpc as (-> & Hm & j & ch & ls & Hch & Hls & Hl & Hj & Hjl).
  destruct (setting key) as (ch' & hm' & Hch' & Es & Eb); [by rewrite Epc|]. rewrite Hch in Hch'. injection Hch' as <-.
  destruct (lookup_lt_is_Some_2 ch j Hjl) as [pr Epr]. rewrite <- Hj, Epr in Eb.
  pose proof (wd_rep _ _ _ _ _ _ _ _ _ Hw) as Hr. rewrite (pair_at s L hm Hr _ _ _ _ _ _ Hls Hch Hl Epr). cbn [mbind option_bind c_key c_next].
  eexists _, _, (length (th_rounds t) * (3 * N + 8) + 2)%nat. split; [reflexivity|]. split; [|lia].
  eexists L, hm', _, (key :: D). eapply (world_set t u s n k L hm M D Hw key);
    [by rewrite Epc|exact Es|by eapply update_rep|done|by left|done|done|simpl; lia|done|done|lia].
Qed.

Lemma step_goes_on : finished t = false -> goes_on (tstep vo t s).
Proof.
  intros Hf. case_eq (th_pc t); [intros Epc|intros key value p Epc..|intros key value l Epc|intros Epc|intros sz Epc].
  - by apply step_idle.
  - apply step_walk. by rewrite Epc.
  - apply step_walk. by rewrite Epc.
  - apply step_walk. by rewrite Epc.
  - apply step_decides. by rewrite Epc.
  - by eapply step_create.
  - apply step_decides. by rewrite Epc.
  - by eapply step_value.
  - unfold tstep. rewrite Epc. pose proof Hpc as Hp. rewrite Epc in Hp. simpl in Hp.
    apply (step_reads _ 1%nat); [by rewrite Epc|simpl; lia|lia].
  - unfold tstep. rewrite Epc. pose proof Hpc as Hp. rewrite Epc in Hp. simpl in Hp.
    apply (step_moves _ _ 0%nat); [by rewrite Epc|done|lia].
Qed.

End Step.

End Interleaving.

Lemma inv_sym vo v N K1 K2 M0 ids t u s n k : inv vo v N K1 K2 M0 ids t u s n k -> inv vo v N K2 K1 M0 ids u t s k n.
Proof.
  intros (L & hm & M & D & []). exists L, hm, M, D. split; try done.
  - intros x. rewrite wd_ids0. tauto.
  - intros b ch Hb. specialize (wd_N0 b ch Hb). lia.
Qed.

Lemma tstep_finished vo t s : finished t = true -> tstep vo t s = Some (t, s).
Proof. destruct t as [i [|] [] nx]; by intros. Qed.

Section Run.
Context (vo : rangevo) (v : Z -> list Z) (N : nat) (K1 K2 : Z -> Prop) (M0 : gmap Z (option (list Z))) (ids : list Z).
Context (Hsep : forall k1 k2, K1 k1 -> K2 k2 -> bucket_of k1 <> bucket_of k2).

Definition running (n k : nat) (st : threads) : Prop := inv vo v N K1 K2 M0 ids (thread1 st) (thread2 st) (memory st) n k.

Lemma rr_step_runs (w : bool) st n k : running n k st -> exists st' n' k', rr_step vo w st = Some st' /\ running n' k' st' /\
  (n' <= n)%nat /\ (k' <= k)%nat /\
  (if w then thread2 st' = thread2 st /\ (finished (thread1 st) = false -> n' < n)%nat
   else thread1 st' = thread1 st /\ (finished (thread2 st) = false -> k' < k)%nat).
Proof.
  intros Hi. destruct st as [t u s]. unfold running, rr_step in *. simpl in *. destruct w.
  - destruct (finished t) eqn:Ef; [rewrite (tstep_finished _ _ _ Ef); exists (mkThreads t u s), n, k; by split_and!|].
    destruct Hi as (L & hm & M & D & Hw). pose proof Hw as [_ _ _ _ _ [_ _ (m & Hpc & Hn) _] _ _ _ _ _].
    destruct (step_goes_on vo v N K1 K2 Hsep M0 ids t u s n k L hm M D Hw m Hpc Hn Ef) as (t' & s' & n' & -> & Hi' & Hlt).
    exists (mkThreads t' u s'), n', k. split_and!; try done; lia.
  - destruct (finished u) eqn:Ef; [rewrite (tstep_finished _ _ _ Ef); exists (mkThreads t u s), n, k; by split_and!|].
    destruct (inv_sym _ _ _ _ _ _ _ _ _ _ _ _ Hi) as (L & hm & M & D & Hw).
    pose proof Hw as [_ _ _ _ _ [_ _ (m & Hpc & Hn) _] _ _ _ _ _].
    assert (forall k1 k2, K2 k1 -> K1 k2 -> bucket_of k1 <> bucket_of k2) as Hsep' by (intros k1 k2 H2 H1' E; by eapply Hsep).
    destruct (step_goes_on vo v N K2 K1 Hsep' M0 ids u t s k n L hm M D Hw m Hpc Hn Ef) as (u' & s' & k' & -> & Hi' & Hlt).
    exists (mkThreads t u' s'), n, k'. split_and!; try done; try lia. by apply inv_sym.
Qed.

Lemma run_schedule_runs schedule : forall st n k, running n k st -> exists st' n' k', run_schedule vo schedule st = Some st' /\
  running n' k' st' /\ (n' <= n)%nat /\ (k' <= k)%nat.
Proof.
  induction schedule as [|w schedule IH]; intros st n k Hi; cbn [run_schedule]; [by exists st, n, k; split_and!|].
  destruct (rr_step_runs w st n k Hi) as (st1 & n1 & k1 & -> & Hi1 & Hn1 & Hk1 & _). cbn [mbind option_bind].
  destruct (IH st1 n1 k1 Hi1) as (st' & n' & k' & E & Hi' & Hn' & Hk'). exists st', n', k'. split_and!; try done; lia.
Qed.

Lemma run_thread_runs (w : bool) fuel : forall st n k, running n k st -> ((if w then n else k) <= fuel)%nat ->
  exists st' n' k', run_thread vo w fuel st = Some st' /\ running n' k' st' /\ (n' <= n)%nat /\ (k' <= k)%nat /\
    finished (if w then thread1 st' else thread2 st') = true /\ (if w then thread2 st' = thread2 st else thread1 st' = thread1 st).
Proof.
  induction fuel as [|fuel IH]; intros st n k Hi Hf; cbn [run_thread];
    (destruct (finished (if w then thread1 st else thread2 st)) eqn:Ef; [exists st, n, k; split_and!; try done; by destruct w|]).
  - exfalso. destruct (rr_step_runs w st n k Hi) as (st1 & n1 & k1 & _ & _ & _ & _ & Hw). destruct w; destruct Hw as [_ Hlt]; specialize (Hlt Ef); lia.
  - destruct (rr_step_runs w st n k Hi) as (st1 & n1 & k1 & -> & Hi1 & Hn1 & Hk1 & Hw). cbn [mbind option_bind].
    destruct (IH st1 n1 k1 Hi1) as (st' & n' & k' & E & Hi' & Hn' & Hk' & Hfin & Hsame).
    { destruct w; destruct Hw as [_ Hlt]; specialize (Hlt Ef); lia. }
    exists st', n', k'. split_and!; try done; try lia. destruct w; destruct Hw as [Hs _]; congruence.
Qed.

End Run.

(** ** The start and the end *)

Definition start_locs (bs : list (list (Pair (list Z)))) : list (list ploc) :=
  imap (fun b c => (fun j => (S (S b), j)) <$> seq 0 (length c)) bs.

Lemma start_locs_from (bs : list (list (Pair (list Z)))) : forall o,
  let L := imap (fun b c => (fun j => (S (S (o + b)), j)) <$> seq 0 (length c)) bs in
  NoDup (concat L) /\ Forall (fun l => (S (S o) <= l.1)%nat) (concat L).
Proof.
  induction bs as [|c bs IH]; intros o L; subst L; [by split; constructor|]. cbn [imap concat]. rewrite Nat.add_0_r.
  destruct (IH (S o)) as [Hnd Hle]. assert (imap ((fun b c0 => (fun j => (S (S (o + b)), j)) <$> seq 0 (length c0)) ∘ S) bs =
    imap (fun b c0 => (fun j => (S (S (S o + b)), j)) <$> seq 0 (length c0)) bs) as ->.
  { apply imap_ext. intros i x _. simpl. by rewrite Nat.add_succ_r. }
  split.
  - apply NoDup_app. split; [apply NoDup_fmap_2; [by intros ? ? [= ->]|apply NoDup_seq]|]. split; [|done].
    intros l (j & -> & _)%list_elem_of_fmap Hl. rewrite Forall_forall in Hle. specialize (Hle _ Hl). simpl in Hle. lia.
  - apply Forall_app. split; [|eapply Forall_impl; [exact Hle|]; simpl; lia]. apply Forall_forall.
    intros l (j & -> & _)%list_elem_of_fmap. simpl. lia.
Qed.

Lemma lseg_size pairs p ls c : NoDup ls -> lseg pairs p ls c -> (length ls <= base.size pairs)%nat.
Proof.
  intros Hnd Hs. rewrite <- (size_list_to_set (C := gset ploc) ls Hnd), <- size_dom. apply subseteq_size. intros l Hl%elem_of_list_to_set.
  clear Hnd. revert p c Hs. induction ls as [|l0 ls IH]; intros p [|pr c]; simpl; try done; [by apply elem_of_nil in Hl|].
  intros (_ & nx & El & Hs). apply elem_of_cons in Hl as [->|Hl]; [apply elem_of_dom; by eexists|by eapply IH].
Qed.

(** The pairs of a chain at consecutive addresses. *)
Lemma lseg_start pairs b (c : list (Pair (list Z))) :
  (forall j pr, c !! j = Some pr -> pairs !! (S (S b), j) = Some (mkCell (pkey pr) (pvalue pr) (if decide (S j < length c)%nat then Some (S (S b), S j) else None))) ->
  lseg pairs (match c with [] => None | _ => Some (S (S b), 0%nat) end) ((fun j => (S (S b), j)) <$> seq 0 (length c)) c.
Proof.
  intros Hp. assert (forall d i, (i + length d = length c)%nat -> (forall j pr, d !! j = Some pr -> c !! (i + j)%nat = Some pr) ->
    lseg pairs (match d with [] => None | _ => Some (S (S b), i) end) ((fun j => (S (S b), j)) <$> seq i (length d)) d) as Hd; [|by apply Hd].
  induction d as [|pr d IH]; intros i Hlen Hin; simpl; [done|]. split; [done|].
  pose proof (Hp i pr) as E. rewrite <- (Nat.add_0_r i) in E at 1. rewrite (E (Hin 0%nat pr eq_refl)). eexists. split; [reflexivity|].
  specialize (IH (S i)). simpl in Hlen. destruct d as [|pr' d].
  - rewrite decide_False by (simpl in Hlen; lia). done.
  - rewrite decide_True by (simpl in Hlen; lia). apply IH; [simpl in *; lia|].
    intros j pr2 Hj. replace (S i + j)%nat with (i + S j)%nat by lia. by apply Hin.
Qed.

Lemma share_rep (hm : Hashmap (list Z)) : shared_rep (share hm) (start_locs (buckets hm)) hm.
Proof.
  pose proof (start_locs_from (buckets hm) 0) as [Hnd _]. simpl in Hnd. fold (start_locs (buckets hm)) in Hnd.
  assert (fst <$> concat (imap bucket_cells (buckets hm)) = concat (start_locs (buckets hm))) as Ef.
  { unfold start_locs. change (map fst (concat (imap bucket_cells (buckets hm))) = concat (start_locs (buckets hm))).
    rewrite concat_map. f_equal. change (map (map fst) ?x) with (fmap (M := list) (map fst) x). unfold start_locs.
    rewrite fmap_imap. apply imap_ext. intros b c _. simpl. unfold bucket_cells. change (map fst ?x) with (fmap (M := list) fst x).
    rewrite fmap_imap, <- imap_seq_0. by apply imap_ext. }
  split; simpl.
  - unfold start_locs. by rewrite length_imap.
  - by rewrite length_imap.
  - intros b ls c p. unfold start_locs. rewrite !list_lookup_imap. intros Hls Hc. rewrite Hc in *. simpl in *. injection Hls as <-. intros [= <-].
    apply lseg_start. intros j pr Hj. apply elem_of_list_to_map_1; [by rewrite Ef|].
    apply list_elem_of_In, in_concat. exists (bucket_cells b c). split; apply list_elem_of_In.
    + apply list_elem_of_lookup. exists b. by rewrite list_lookup_imap, Hc.
    + apply list_elem_of_lookup. exists j. unfold bucket_cells. by rewrite list_lookup_imap, Hj.
  - done.
Qed.

Lemma unshare_rep s L hm0 hm : shared_rep s L hm -> unshare hm0 s = Some (mkHashmap (num_buckets hm0) (buckets hm) (hash hm0) (hcompare hm0) (sh_size s)).
Proof.
  intros Hr. unfold unshare. assert (mapM (follow (sh_pairs s) (base.size (sh_pairs s))) (sh_buckets s) = Some (buckets hm)) as ->; [|done].
  apply mapM_Some, Forall2_same_length_lookup_2; [apply Hr|]. intros b p c Hp Hc.
  destruct (rep_lookup s L hm Hr b c Hc) as (ls & p' & Hls & Hp' & Hseg). rewrite Hp in Hp'. injection Hp' as <-.
  eapply lseg_follow; [exact Hseg|]. eapply lseg_size; [|exact Hseg]. eapply chain_NoDup; [apply Hr|done].
Qed.

Lemma rr_rounds_elem start_id end_id r :
  r ∈ rr_rounds start_id end_id <-> r.1 = r.2 /\ start_id < r.1 < end_id.
Proof.
  unfold rr_rounds. rewrite list_elem_of_fmap. split.
  - intros (i & -> & Hi%elem_of_seq). simpl. destruct (Z.eqb_spec start_id end_id); lia.
  - destruct r as [m c]. simpl. intros [<- Hm]. exists (Z.to_nat (m - (start_id + 1))). rewrite elem_of_seq.
    destruct (Z.eqb_spec start_id end_id); [lia|]. split; [f_equal; lia|lia].
Qed.

Section Agree.
Context (vo : rangevo) (v : Z -> list Z) (rounds1 rounds2 : list (Z * Z)) (hm : Hashmap (list Z)) (M : gmap Z (option (list Z))).
Context (Hm : hm_rep hm M) (B1 : num_buckets hm = NUM_BUCKETS) (B2 : hash hm = myhash) (B3 : hcompare hm = compare).
Context (Hok : forall r, r ∈ rounds1 ++ rounds2 -> in_s 64 r.1 /\ rr_hash vo r.2 = Some (v r.1)).
Context (Hsep : forall r1 r2, r1 ∈ rounds1 -> r2 ∈ rounds2 -> bucket_of r1.1 <> bucket_of r2.1).

Lemma start_inv : let N := all_pairs rounds1 rounds2 (share hm) in
  running vo v N (fun x => x ∈ rounds1.*1) (fun x => x ∈ rounds2.*1) M (rounds1.*1 ++ rounds2.*1)
    (length rounds1 * (3 * N + 8)) (length rounds2 * (3 * N + 8))
    (mkThreads (mkThread 0 rounds1 Idle 0) (mkThread 1 rounds2 Idle 0) (share hm)).
Proof.
  intros N. pose proof (start_locs_from (buckets hm) 0) as [_ Hle]. simpl in Hle. fold (start_locs (buckets hm)) in Hle.
  exists (start_locs (buckets hm)), hm, M, []. split; simpl; try done.
  - apply share_rep.
  - split; simpl.
    + intros x Hx. split; [done|]. apply list_elem_of_fmap in Hx as (r & -> & Hr). apply Hok. apply elem_of_app. by left.
    + intros r Hr. apply Hok. apply elem_of_app. by left.
    + exists 0%nat. split; [done|lia].
    + intros l Hl El. rewrite Forall_forall in Hle. specialize (Hle l Hl). lia.
  - split; simpl.
    + intros x Hx. split; [done|]. apply list_elem_of_fmap in Hx as (r & -> & Hr). apply Hok. apply elem_of_app. by right.
    + intros r Hr. apply Hok. apply elem_of_app. by right.
    + exists 0%nat. split; [done|lia].
    + intros l Hl El. rewrite Forall_forall in Hle. specialize (Hle l Hl). lia.
  - intros x. rewrite elem_of_app. pose proof (not_elem_of_nil x). unfold pending. simpl. tauto.
  - intros b ch Hch. unfold pending. simpl. rewrite !length_fmap. unfold N, all_pairs.
    destruct (rep_lookup _ _ _ (share_rep hm) b ch Hch) as (ls & p & Hls & Hp & Hseg).
    pose proof (lseg_size _ _ _ _ (chain_NoDup _ _ _ (sr_nodup _ _ _ (share_rep hm)) Hls) Hseg). rewrite (lseg_length _ _ _ _ Hseg) in *. lia.
Qed.

Lemma run_threads_agree schedule : exists s hm' M', run_threads vo schedule rounds1 rounds2 (share hm) = Some s /\
  unshare hm s = Some hm' /\ hm_rep hm' M' /\
  forall x, M' !! x = if decide (x ∈ rounds1.*1 ++ rounds2.*1) then Some (Some (v x)) else M !! x.
Proof.
  unfold run_threads. set (N := all_pairs rounds1 rounds2 (share hm)).
  assert (forall k1 k2, k1 ∈ rounds1.*1 -> k2 ∈ rounds2.*1 -> bucket_of k1 <> bucket_of k2) as Hsep'.
  { intros k1 k2 (r1 & -> & H1')%list_elem_of_fmap (r2 & -> & H2')%list_elem_of_fmap. by apply Hsep. }
  assert (join_fuel rounds1 rounds2 (share hm) = S (length rounds1 + length rounds2) * (3 * N + 8))%nat as -> by done.
  destruct (run_schedule_runs vo v N _ _ M (rounds1.*1 ++ rounds2.*1) Hsep' schedule _ _ _ start_inv) as (st1 & n1 & k1 & -> & I1 & Ln1 & Lk1). cbn [mbind option_bind].
  destruct (run_thread_runs vo v N _ _ M (rounds1.*1 ++ rounds2.*1) Hsep' true (S (length rounds1 + length rounds2) * (3 * N + 8)) st1 n1 k1 I1) as (st2 & n2 & k2 & -> & I2 & Ln2 & Lk2 & F2 & _);
    [lia|]. cbn [mbind option_bind].
  destruct (run_thread_runs vo v N _ _ M (rounds1.*1 ++ rounds2.*1) Hsep' false (S (length rounds1 + length rounds2) * (3 * N + 8)) st2 n2 k2 I2) as (st3 & n3 & k3 & -> & I3 & _ & _ & F3 & S3);
    [lia|]. cbn [mbind option_bind]. simpl in F2, F3, S3.
  destruct I3 as (L & hm' & M' & D & [Hr Hm' C1 C2 C3 _ _ HM Hids _ _]). rewrite <- S3 in F2.
  eexists _, _, M'. split; [reflexivity|]. split; [by apply (unshare_rep _ L _ hm')|]. split.
  - rewrite B1, B2, B3, <- C1, <- C2, <- C3. apply hm_rep_size. by destruct hm'.
  - intros x. rewrite HM. apply decide_ext. rewrite Hids, (finished_pending _ F2), (finished_pending _ F3).
    pose proof (not_elem_of_nil x). tauto.
Qed.

End Agree.


End Threads.

(** Sixteen leaves or fewer between the boundary leaves are in sixteen buckets. *)
Lemma near_leaves_apart start_id end_id m1 m2 : 0 <= start_id -> end_id <= 10000000 -> end_id - start_id <= 17 ->
  start_id < m1 < m2 -> m2 < end_id -> bucket_of m1 <> bucket_of m2.
Proof.
  intros H0 Hmax H17 H1 H2. unfold bucket_of, NUM_BUCKETS. rewrite !myhash_value, !Z.rem_mod_nonneg, !(Z.mod_small _ 10000000) by lia.
  unfold u64, wrapu. rewrite !(Z.mod_small _ (2 ^ 64)) by lia. intros E. pose proof (Z.div_mod m1 16). pose proof (Z.div_mod m2 16). lia.
Qed.

(** ** Concrete answers *)

(** Leaves with one string each. *)
Definition demo_leaves (n : nat) : rangevo :=
  mkRangevo 0 (replicate 10 (mkNodevo 0 1 [])) (replicate 10 (mkNodevo (Z.of_nat n - 1) 1 []))
    ((fun i => [demo_word (Z.of_nat i) ++ [0]]) <$> seq 97 n) [] [] 1.

Definition demo_rr_hash (n : nat) (m : Z) : list Z := default [] (@rr_hash demo_checksum demo_malloc id (demo_leaves n) m).


(** With 17 leaves in between, leaves 1 and 17 share a bucket.  The first thread finds
    it empty and is stopped; the second runs to its end; then the first writes its
    pair over the pointer to the pair of leaf 17, whose hash is lost. *)
Definition lost_schedule : list bool := replicate 3 true ++ replicate 48 false.

Example client_threads_lose_a_hash :
  let final schedule := @rr_threads demo_checksum demo_malloc id (demo_leaves 19) schedule 0 18 empty_map in
  (final [] ≫= fun hm => hashmap_get hm 17) = Some (Some (demo_rr_hash 19 17)) /\
  (final lost_schedule ≫= fun hm => hashmap_get hm 1) = Some (Some (demo_rr_hash 19 1)) /\
  (final lost_schedule ≫= fun hm => hashmap_get hm 17) = Some None.
Proof. vm_compute. split_and!; reflexivity. Qed.
