(* ===== verification/Client.v ===== *)
(** * The client's reconstruction of the root hash (reconstruct_root in
    src/src/interfaces/libpq/clientmbtree.c, and case ['U'] of pqParseInput3 in
    src/src/interfaces/libpq/fe-protocol3.c)

    The client's copy of [reconstruct_root] hashes the leaves between the two
    boundary leaves in two threads (Threads.v), in the order of a schedule.  Its
    other loops and blocks differ from those of the server, too.  How many bytes of
    a block of [malloc] can be used is the argument [usable], as in Ledger.v.

    No string is freed here, so that the maps hold the strings themselves.  The
    other functions of the file are copies of those of the server; [None] is
    undefined behaviour. *)

From S2P Require Import Prelude CMem Codec Hashmap Node NodeCodec Heap Insert Store LeafSpec Merkle Vo HmCodec Reconstruct.
From S2P Require Import ReconstructSpec ReconstructRoot IndexAm Scan Wire Threads.

(** [Hashmap* tmp_hashes[BPLUS_MAX_LEVEL]]. *)
Abbreviation level_hashes := (list (Hashmap (list Z))).

Section Client.
Context `{HashFn} `{Malloc} (usable : Z -> Z).

(** [hashmap_set(tmp_hashes[lvl], id, s)]. *)
Definition set_hash (hms : level_hashes) (lvl id : Z) (s : list Z) : option level_hashes :=
  do hm <- aget hms lvl;
  do ' (hm, _) <- hashmap_set true hm id (Some s);
  aset hms lvl hm.

(** ** The leaf level *)

Definition client_leaf_level (schedule : list bool) (vo : rangevo) (hms : level_hashes) : option level_hashes :=
  do lv <- aget (leftvo vo) (traverse_height vo);
  do rv <- aget (rightvo vo) (traverse_height vo);
  let start_id := vo_node_id lv in
  let end_id := vo_node_id rv in
  let node_count := 0 in
  do hashca <- zeroed usable 33 33;
  do hashca <- cat_all (nhash lv) hashca;
  do myvector1 <- aget (vdata vo) node_count;
  do hashca <- client_cat_hashed usable myvector1 hashca;
  do hashca <- hash_into hashca hashca;
  do hms <- set_hash hms 0 start_id hashca;
  do hm <- aget hms 0;
  do hm <- rr_threads usable vo schedule start_id end_id hm;
  do hms <- aset hms 0 hm;
  do ehash <- zeroed usable BUF BUF;
  do myvector2 <-
    aget (vdata vo)
      (if negb (start_id =? 0) && negb (end_id =? 0) && (start_id =? end_id) && negb (zlen (nhash rv) =? 0)
       then node_count - 1 else node_count);
  do ehash <- client_cat_hashed usable myvector2 ehash;
  do ehash <- cat_all (nhash rv) ehash;
  do ehash <- hash_into ehash ehash;
  set_hash hms 0 end_id ehash.

(** ** The levels above *)

(** The hashes of the children; a child without hash is NULL, which only the
    loops of the boundary nodes test. *)
Definition client_cat_children (tested : bool) (lvl : Z) (ids : list Z) (hms : level_hashes) (buf : list Z)
  : option (list Z) :=
  for_range 0 (zlen ids) (fun j buf =>
    do child_id <- aget ids j;
    do hm <- aget hms lvl;
    do ss_temp <- hashmap_get hm child_id;
    match ss_temp with
    | Some s => strcat buf s
    | None => if tested then Some buf else None
    end) buf.

(** A level when the two paths pass through different nodes; the block [phash] of
    a node between them has 32 bytes. *)
Definition client_level_apart (hashp : hashmaps) (lv rv : nodevo) (k level_count : Z) (hms : level_hashes)
  : option level_hashes :=
  let start_id := vo_node_id lv in
  let end_id := vo_node_id rv in
  do hashca <- zeroed usable BUF BUF;
  do hashca <- cat_all (nhash lv) hashca;
  do pv <- node_children hashp k start_id;
  do hashca <- client_cat_children true level_count pv hms hashca;
  do tmp_hashca <- zeroed usable 33 33;
  do tmp_hashca <- hash_into hashca tmp_hashca;
  do hms <- set_hash hms (level_count + 1) start_id tmp_hashca;
  do hms <- for_range (start_id + 1) end_id (fun p hms =>
    do phash <- zeroed usable 32 32;
    do childs <- node_children hashp k p;
    do phash <- client_cat_children false level_count childs hms phash;
    do tmp_phash <- zeroed usable 33 33;
    do tmp_phash <- hash_into phash tmp_phash;
    set_hash hms (level_count + 1) p tmp_phash) hms;
  do ehash2 <- zeroed usable BUF BUF;
  do pv1 <- node_children hashp k end_id;
  do ehash2 <- client_cat_children true level_count pv1 hms ehash2;
  do ehash2 <- cat_all (nhash rv) ehash2;
  do ehash2 <- hash_into ehash2 ehash2;
  set_hash hms (level_count + 1) end_id ehash2.

(** A level when the two paths pass through the same node. *)
Definition client_level_joined (hashp : hashmaps) (lv rv : nodevo) (k level_count : Z) (hms : level_hashes)
  : option level_hashes :=
  do hashca <- zeroed usable BUF BUF;
  do hashca <- cat_all (nhash lv) hashca;
  do pv2 <- node_children hashp k (vo_node_id lv);
  do hashca <- client_cat_children true level_count pv2 hms hashca;
  do hashca <- cat_all (nhash rv) hashca;
  do tmp_hashca <- zeroed usable 33 33;
  do tmp_hashca <- hash_into hashca tmp_hashca;
  set_hash hms (level_count + 1) (vo_node_id rv) tmp_hashca.

Definition client_upper_levels (hashp : hashmaps) (vo : rangevo) (hms : level_hashes) : option level_hashes :=
  for_range 1 (traverse_height vo + 1) (fun k hms =>
    let i := traverse_height vo - k in
    do lv <- aget (leftvo vo) i;
    do rv <- aget (rightvo vo) i;
    if negb (vo_node_id lv =? vo_node_id rv) then client_level_apart hashp lv rv k (k - 1) hms
    else client_level_joined hashp lv rv k (k - 1) hms) hms.

Definition client_reconstruct_root (schedule : list bool) (hashp : hashmaps) (vo : rangevo) (root : list Z)
  : option (list Z) :=
  do root <- memset root 0 0 33;
  do hms <- level_maps;
  do hms <- client_leaf_level schedule vo hms;
  do hms <- client_upper_levels hashp vo hms;
  do hm <- aget hms (traverse_height vo);
  do ss_temp <- hashmap_get hm 0;
  do ss_temp <- ss_temp;
  strcpy root ss_temp.

(** ** The verdict *)

(** What [pqParseInput3] puts into the result: the reconstructed root, the root
    it knows and whether they agree in 32 bytes. *)
Record verdict := mkVerdict { str0 : list Z; str1 : list Z; str2 : bool }.

(** The complete answer: [object] is the [rangevo] as [malloc] returns it. *)
Definition check_answer (schedule : list bool) (object : rangevo) (count : Z) (st : libpq) : option verdict :=
  do hashp <- level_maps;
  do o0 <- aget (vo_object st) 0;
  do o0 <- o0;
  do hashp <- hashmap_deserialize hashp o0;
  do o1 <- aget (vo_object st) 1;
  do o1 <- o1;
  do size <- int_mul count DEFAULTSIZE;
  do vo <- vo_deserialize (rangevo_init object size) o1;
  do root <- client_reconstruct_root schedule hashp vo (block usable 32);
  do known <- mbroot st;
  do name <- strncpy (block usable 32) known 32;
  do flag <- for_range 0 32 (fun i flag =>
    do a <- aget root i;
    do b <- aget known i;
    Some (if negb (a =? b) then false else flag)) true;
  Some (mkVerdict root name flag).

(** A message of type ['U']: what it brings is collected, and after the last one
    the answer is checked and its buffers are freed. *)
Definition receive_U (schedule : list bool) (object : rangevo) (body : list Z) (st : libpq) : option (libpq * option verdict) :=
  do ' (st, last) <- collect_U body st;
  match last with
  | None => Some (st, None)
  | Some count =>
      do v <- check_answer schedule object count st;
      do ' (nfields, _) <- pqGetInt 2 body 4;
      do objs <- for_range 0 nfields (fun i objs => aset objs i None) (vo_object st);
      Some (mkLibpq (mbt_count st) objs (mbroot st), Some v)
  end.

(** The messages of an answer. *)
Fixpoint receive_answer (schedule : list bool) (object : rangevo) (msgs : list (list Z)) (st : libpq)
  : option (libpq * option verdict) :=
  match msgs with
  | [] => Some (st, None)
  | msg :: msgs' =>
      do ' (st, v) <- receive_U schedule object msg st;
      match v with
      | Some v => Some (st, Some v)
      | None => receive_answer schedule object msgs' st
      end
  end.

(** What arrives is checked: a check that is undefined makes the answer so. *)
Lemma receive_undefined schedule object msgs : forall st st' count rest, collect_all msgs st = Some (st', Some count, rest) ->
  check_answer schedule object count st' = None -> receive_answer schedule object msgs st = None.
Proof.
  induction msgs as [|msg msgs IH]; intros st st' count rest E Hc; [done|]. cbn [collect_all receive_answer] in *. unfold receive_U.
  destruct (collect_U msg st) as [[st1 [c|]]|]; [| |done]; cbn [mbind option_bind] in *.
  - injection E as -> -> _. by rewrite Hc.
  - by eapply IH.
Qed.

(** ** The small buffers *)

(** A string of 32 characters. *)
Definition piece (h : list Z) : Prop := exists p, cstr h = Some p /\ length p = 32%nat.

(** A string that can be hashed. *)
Definition hashable (b : list Z) : Prop := exists s, cstr b = Some s /\ Forall byteb s /\ zlen s < hash_limit.

Lemma strcat_grows dst src dst' d : strcat dst src = Some dst' -> piece src -> cstr dst = Some d ->
  exists d', cstr dst' = Some d' /\ length d' = (length d + 32)%nat /\ zlen dst' = zlen dst.
Proof.
  intros E (s & Hs & Ls) Hd. pose proof E as E'. unfold strcat in E'. rewrite Hd, Hs in E'. cbn [mbind option_bind] in E'.
  apply write_bytes_inv in E' as (_ & Hfit & _). rewrite zlen_app in Hfit. unfold zlen at 3 in Hfit. simpl in Hfit.
  destruct (strcat_cstr dst src d s Hd Hs) as (d' & E1 & C1 & L1); [lia|]. rewrite E in E1. injection E1 as ->.
  exists (d ++ s). split_and!; [done|rewrite length_app; lia|done].
Qed.

(** A loop that appends a piece per round. *)
Lemma appends_grow n body buf buf' d :
  (forall i b b', 0 <= i < Z.of_nat n -> body i b = Some b' -> exists h, piece h /\ strcat b h = Some b') ->
  for_range 0 (Z.of_nat n) body buf = Some buf' -> cstr buf = Some d ->
  exists d', cstr buf' = Some d' /\ length d' = (length d + 32 * n)%nat /\ zlen buf' = zlen buf.
Proof.
  intros Hb E Hd. apply (for_range_inv (fun i b => exists d', cstr b = Some d' /\
    length d' = (length d + 32 * Z.to_nat i)%nat /\ zlen b = zlen buf)) in E; [by rewrite Nat2Z.id in E|lia| |].
  - exists d. split_and!; [done|simpl; lia|done].
  - intros i b b' Hi (d1 & C1 & L1 & Z1) Eb. destruct (Hb i b b' Hi Eb) as (h & Hh & Ec).
    destruct (strcat_grows _ _ _ _ Ec Hh C1) as (d2 & C2 & L2 & Z2). exists d2. split_and!; [done|lia|congruence].
Qed.

Lemma cat_all_grows hs buf buf' d : Forall piece hs -> cat_all hs buf = Some buf' -> cstr buf = Some d ->
  exists d', cstr buf' = Some d' /\ length d' = (length d + 32 * length hs)%nat /\ zlen buf' = zlen buf.
Proof.
  intros Hp. apply appends_grow. intros i b b' Hi E. destruct (aget hs i) as [h|] eqn:Eh; [|done].
  exists h. split; [|exact E]. apply aget_Some in Eh as [_ Eh]. by eapply Forall_lookup_1.
Qed.

Lemma client_cat_hashed_grows ds buf buf' d : 33 <= zlen (block usable 33) -> Forall hashable ds -> client_cat_hashed usable ds buf = Some buf' -> cstr buf = Some d ->
  exists d', cstr buf' = Some d' /\ length d' = (length d + 32 * length ds)%nat /\ zlen buf' = zlen buf.
Proof.
  intros H33 Hp. apply appends_grow. intros i b b' Hi E. destruct (aget ds i) as [t|] eqn:Et; [|done]. cbn [mbind option_bind] in E.
  apply aget_Some in Et as [_ Et]. destruct (Forall_lookup_1 _ _ _ _ Hp Et) as (msg & Hc & Hby & Hlim).
  rewrite (hash_into_spec t _ msg Hby Hc Hlim) in E by exact H33. cbn [mbind option_bind] in E.
  eexists. split; [|exact E]. exists (H msg). split; [apply cstr_app, H_chars|apply H_length].
Qed.

Lemma block_size n : 0 <= usable n -> zlen (block usable n) = usable n.
Proof. intros Hn. unfold block, zlen. rewrite fresh_bytes_length. lia. Qed.

(** The client's buffer for the left boundary leaf holds one hash: a block of 33
    bytes with less than 65 that can be used overflows, and the reconstruction is
    undefined, as soon as the hashes to the left of the range in this leaf and its
    strings in the range are two or more together, that is whenever the left
    boundary leaf has two entries. *)
Theorem client_left_leaf_overflows (schedule : list bool) (hashp : hashmaps) (vo : rangevo) (root : list Z)
    (lv : nodevo) (ds : list (list Z)) :
  33 <= usable 33 <= 64 ->
  aget (leftvo vo) (traverse_height vo) = Some lv -> aget (vdata vo) 0 = Some ds ->
  Forall piece (nhash lv) -> Forall hashable ds -> (2 <= length (nhash lv) + length ds)%nat ->
  client_reconstruct_root schedule hashp vo root = None.
Proof.
  intros Hu Elv Eds Hp Hh H2. unfold client_reconstruct_root. destruct (memset root 0 0 33); [|done]. cbn [mbind option_bind].
  destruct level_maps as [hms|]; [|done]. cbn [mbind option_bind].
  assert (client_leaf_level schedule vo hms = None) as ->; [|done].
  unfold client_leaf_level. rewrite Elv. cbn [mbind option_bind]. destruct (aget (rightvo vo) _) as [rv|]; [|done]. cbn [mbind option_bind].
  assert (exists b0, zeroed usable 33 33 = Some b0 /\ zlen b0 = usable 33 /\ cstr b0 = Some []) as (b0 & -> & Z0 & C0).
  { unfold zeroed, memset. change (0 <=? 33) with true. rewrite write_bytes_head by (rewrite block_size, zlen_replicate by lia; lia).
    eexists. split; [reflexivity|]. split; [|done]. rewrite zlen_app, zlen_replicate. unfold zlen. rewrite length_drop, length_replicate.
    pose proof (block_size 33 ltac:(lia)) as E. unfold zlen in E. lia. }
  cbn [mbind option_bind]. destruct (cat_all (nhash lv) b0) as [b1|] eqn:E1; [|done]. cbn [mbind option_bind].
  rewrite Eds. cbn [mbind option_bind]. destruct (client_cat_hashed usable ds b1) as [b2|] eqn:E2; [|done]. exfalso.
  destruct (cat_all_grows _ _ _ [] Hp E1 C0) as (d1 & C1 & L1 & Z1).
  destruct (client_cat_hashed_grows _ _ _ _ ltac:(rewrite block_size; lia) Hh E2 C1) as (d2 & C2 & L2 & Z2). simpl in L1.
  apply cstr_inv in C2 as [rest ->]. rewrite Z1, Z0 in Z2. rewrite zlen_app in Z2. unfold zlen in Z2. simpl in Z2. lia.
Qed.

(** ** The right boundary leaf *)

Lemma rr_rounds_none start_id end_id : end_id <= start_id + 1 -> rr_rounds start_id end_id = [].
Proof. intros Hle. unfold rr_rounds. by replace (Z.to_nat (end_id - (start_id + 1))) with 0%nat by lia. Qed.

(** Without leaves in between the threads have nothing to do. *)
Lemma rr_threads_none vo vo' schedule start_id end_id hm : 0 <= start_id <= end_id -> end_id <= start_id + 1 ->
  rr_threads usable vo' schedule start_id end_id hm = rr_threads usable vo schedule start_id end_id hm.
Proof.
  intros Hid Hnext. unfold rr_threads, run_threads.
  assert (start_id <= Z.quot (start_id + end_id) 2 <= end_id) as Hmid by (rewrite Z.quot_div_nonneg by lia; dlia).
  rewrite !rr_rounds_none by lia.
  assert (forall v sch s, run_schedule usable v sch (mkThreads (mkThread 0 [] Idle 0) (mkThread 1 [] Idle 0) s)
    = Some (mkThreads (mkThread 0 [] Idle 0) (mkThread 1 [] Idle 0) s)) as Hs.
  { intros v sch s. induction sch as [|[] sch IH]; [done|exact IH|exact IH]. }
  rewrite !Hs. cbn [mbind option_bind]. by destruct (join_fuel [] [] (share hm)).
Qed.

(** C34. The client does not look at the strings of the right boundary leaf: it
    hashes those of the left one in their place.  When the range covers two
    neighbouring leaves, or one, the result depends on the first group of strings
    only, whatever else the server puts into the answer. *)
Theorem client_ignores_right_leaf (schedule : list bool) (hashp : hashmaps) (vo vo' : rangevo) (root : list Z)
    (lv rv : nodevo) :
  traverse_height vo' = traverse_height vo -> leftvo vo' = leftvo vo -> rightvo vo' = rightvo vo ->
  head (vdata vo') = head (vdata vo) ->
  aget (leftvo vo) (traverse_height vo) = Some lv -> aget (rightvo vo) (traverse_height vo) = Some rv ->
  0 <= vo_node_id lv <= vo_node_id rv -> vo_node_id rv <= vo_node_id lv + 1 ->
  client_reconstruct_root schedule hashp vo' root = client_reconstruct_root schedule hashp vo root.
Proof.
  intros Eh El Er Ed Elv Erv Hid Hnext. unfold client_reconstruct_root, client_upper_levels. rewrite Eh, El, Er.
  destruct (memset root 0 0 33); [|done]. cbn [mbind option_bind]. destruct level_maps as [hms|]; [|done]. cbn [mbind option_bind].
  assert (client_leaf_level schedule vo' hms = client_leaf_level schedule vo hms) as ->; [|done].
  unfold client_leaf_level. rewrite Eh, El, Er, Elv, Erv. cbn [mbind option_bind].
  assert (aget (vdata vo') 0 = aget (vdata vo) 0) as E0 by (by destruct (vdata vo), (vdata vo')). rewrite E0.
  do 7 (apply option_bind_ext_fun; intros ?; cbv zeta). rewrite (rr_threads_none vo vo') by done.
  do 3 (apply option_bind_ext_fun; intros ?).
  destruct (_ && _); [done|by rewrite E0].
Qed.

(** [pqParseInput3] gives [reconstruct_root] a block of 32 bytes, of which it
    clears 33: without a spare byte behind it no check of an answer is defined. *)
Lemma check_answer_overflows schedule object count st : 0 <= usable 32 <= 32 -> check_answer schedule object count st = None.
Proof.
  intros Hu. unfold check_answer. destruct level_maps as [hashp|]; [|done]. cbn [mbind option_bind].
  destruct (aget (vo_object st) 0) as [[o0|]|]; [|done..]. cbn [mbind option_bind].
  destruct (hashmap_deserialize hashp o0); [|done]. cbn [mbind option_bind].
  destruct (aget (vo_object st) 1) as [[o1|]|]; [|done..]. cbn [mbind option_bind].
  destruct (int_mul count DEFAULTSIZE); [|done]. cbn [mbind option_bind].
  destruct (vo_deserialize _ o1); [|done]. cbn [mbind option_bind]. unfold client_reconstruct_root.
  assert (memset (block usable 32) 0 0 33 = None) as ->; [|done]. unfold memset, write_bytes. change (0 <=? 33) with true. cbv iota.
  rewrite block_size, zlen_replicate by lia. destruct (Z.leb_spec (0 + Z.of_nat (Z.to_nat 33)) (usable 32)); [lia|done].
Qed.

End Client.

(** ** Concrete answers *)

(** A left boundary leaf with one hash outside the range and one string in it. *)
Definition demo_left : rangevo :=
  mkRangevo 0 (replicate 10 (mkNodevo 0 2 [replicate 32 97 ++ [0]])) (replicate 10 (mkNodevo 0 2 []))
    [[demo_word 98 ++ [0]]] [] [] 1.

Lemma client_left_leaf_overflows_witness :
  @client_reconstruct_root demo_checksum demo_malloc id [] (replicate 10 empty_map) demo_left (zeros 33) = None.
Proof.
  apply (@client_left_leaf_overflows demo_checksum demo_malloc id [] _ demo_left _ (mkNodevo 0 2 [replicate 32 97 ++ [0]]) [demo_word 98 ++ [0]]);
    [unfold id; lia|reflexivity|reflexivity| | |simpl; lia].
  - constructor; [|constructor]. exists (replicate 32 97). split; reflexivity.
  - constructor; [|constructor]. exists (demo_word 98). split; [reflexivity|]. split; [eval_dec|reflexivity].
Defined.

(** Two leaves with one string each, and both strings in the range. *)
Definition demo_pair (d2 : list Z) : rangevo :=
  mkRangevo 1 (replicate 10 (mkNodevo 0 1 []))
    (mkNodevo 0 2 [] :: mkNodevo 1 1 [] :: replicate 8 (mkNodevo 0 0 []))
    [[demo_word 97 ++ [0]]; [d2 ++ [0]]] [] [] 1.

Lemma client_ignores_right_leaf_witness :
  @client_reconstruct_root demo_checksum demo_malloc id [] demo_children (demo_pair [33]) (zeros 33)
  = @client_reconstruct_root demo_checksum demo_malloc id [] demo_children (demo_pair (demo_word 98)) (zeros 33).
Proof.
  apply (@client_ignores_right_leaf demo_checksum demo_malloc id [] demo_children (demo_pair (demo_word 98)) (demo_pair [33]) (zeros 33)
    (mkNodevo 0 1 []) (mkNodevo 1 1 [])); try reflexivity; simpl; lia.
Defined.

(** The server's reconstruction gives the hash of the tree, the client's that of
    the tree with the left leaf twice. *)
Example client_two_leaves_wrong :
  let tree d := @mhash demo_checksum (MNode 0 [MLeaf 1 [demo_word 97]; MLeaf 2 [d]]) in
  mbind cstr (@reconstruct_root demo_checksum demo_children (demo_pair (demo_word 98)) (zeros 33) (mkStrs ∅ 0))
    = Some (tree (demo_word 98)) /\
  mbind cstr (@client_reconstruct_root demo_checksum demo_malloc id [] demo_children (demo_pair (demo_word 98)) (zeros 33))
    = Some (tree (demo_word 97)) /\
  tree (demo_word 97) <> tree (demo_word 98).
Proof. vm_compute. split_and!; [reflexivity|reflexivity|discriminate]. Qed.
