(* ===== verification/System.v ===== *)
(** * The whole system: from the statement to the client

    The executor, the access method, the messages and the client put together: what
    the client holds after it has received the answer to an authenticated range
    query, and what its own check makes of it. *)

From stdpp Require Import strings.
From S2P Require Import Prelude CMem Codec Hashmap Node NodeCodec Heap Ring Insert LeafSpec Store Merkle Vo HmCodec.
From S2P Require Import RangeQuery Reconstruct ReconstructSpec ReconstructRoot QuerySpec RangeSpec Pipeline Numbering.
From S2P Require Import IndexAm Scan Wire Threads Client.

Section System.
Context `{HashFn} `{Malloc}.

(** An index of the access method: its tree is hashed and numbered, and the
    maps and marks are those of the tree. *)
Record am_indexed (st : am) (oid : Z) (m : mem) (t : mtree) (h : nat) (K : list Z) (T : list ItemPointerData) : Prop := {
  ai_tree : exists p, tree_of oid st = Some (Some p) /\ am_trees st !! p = Some m;
  ai_indexed : indexed m t h K T;
  ai_hashp : zlen (am_hashp st) = BPLUS_MAX_LEVEL;
  ai_temp : zlen (am_temp_node_id st) = BPLUS_MAX_LEVEL;
  ai_levels i hp marks M : am_hashp st !! i = Some hp -> am_temp_node_id st !! i = Some marks ->
    child_maps t h !! i = Some M -> level_ok hp marks M /\ in_s 32 (size hp)
}.

Context (st : am) (oid : Z) (m : mem) (t : mtree) (h : nat) (K : list Z) (T : list ItemPointerData).
Context (Hai : am_indexed st oid m t h K T).
Context (lo hi : nat) (key1 key2 len : Z) (n : nat).
Context (Hlh : (lo <= hi)%nat) (Hhi : (S hi < length (strings t))%nat).
Context (Hh : (0 < h)%nat) (Hpl : 25 <= past_local) (Hpb : 24 <= past_block).
Context (HK1 : K !! lo = Some key1) (HK2 : K !! hi = Some key2).
Context (Hsize : hashmap_size key1 key2 = Some len) (Hn : len = Z.of_nat n * DEFAULTSIZE).
Context (Hmaps : zlen (mjoin (map_bytes <$> child_maps t h)) <= len).

(** The maps in the buffer of the object. *)
Lemma maps_buffer (hashp0 : list (Hashmap (list Z))) : zlen hashp0 = BPLUS_MAX_LEVEL -> Forall (fun hp => hm_rep hp ∅) hashp0 ->
  exists buf hashp', hashmap_serialize (am_hashp st) (am_temp_node_id st) (replicate (Z.to_nat len) 0) = Some buf /\
    zlen buf = len /\ hashmap_deserialize hashp0 buf = Some hashp' /\ fits_maps t h hashp'.
Proof.
  intros L0 H0maps. destruct Hai as [_ Hix Z1 Z2 Hlev].
  assert (0 <= len) by (rewrite Hn; unfold DEFAULTSIZE; lia).
  destruct (maps_sent (am_hashp st) hashp0 (am_temp_node_id st) (child_maps t h) (replicate (Z.to_nat len) 0)
    Z1 Z2 eq_refl L0 Hlev H0maps) as (buf & hp' & E1 & E2 & Hr); [rewrite zlen_replicate; lia|].
  exists buf, hp'. split_and!; [done| |done|by apply child_maps_fit; [apply Hix|]].
  assert (zlen (mjoin (map_bytes <$> child_maps t h)) <= zlen (replicate (Z.to_nat len) 0)) as Hfit by (rewrite zlen_replicate; lia).
  rewrite (emits_zlen _ _ _ _ (maps_writer_emits (am_hashp st) hashp0 (am_temp_node_id st) (child_maps t h)
    Z1 Z2 eq_refl L0 Hlev H0maps) Hfit E1). rewrite zlen_replicate. lia.
Qed.

(** What the access method returns. *)
Lemma gettuple_answers (block : rangevo) (hashp0 : list (Hashmap (list Z))) :
  fresh_vo (rangevo_init block len) -> zlen hashp0 = BPLUS_MAX_LEVEL -> Forall (fun hp => hm_rep hp ∅) hashp0 ->
  exists vo hashp', mbtgettuple block oid key1 key2 st = Some vo /\
    answer t h lo hi vo /\ itemdata vo = kept (slice lo (S hi) T) /\ zlen (vo_hashmap vo) = len /\
    mbtree_size vo = Z.of_nat n /\ hashmap_deserialize hashp0 (vo_hashmap vo) = Some hashp' /\ fits_maps t h hashp'.
Proof.
  intros Hf L0 H0maps. destruct (maps_buffer hashp0 L0 H0maps) as (buf & hp' & E1 & Lb & E2 & Hfm).
  assert (24 <= past_local) as Hpl' by lia. destruct (ai_tree _ _ _ _ _ _ _ Hai) as (p & Ep & Em). pose proof (ai_indexed _ _ _ _ _ _ _ Hai) as Hix.
  destruct (auth_range_runs m t h K T lo hi key1 key2 (set_vo_hashmap buf (rangevo_init block len)) Hpl' Hpb Hix Hh Hlh Hhi HK1 HK2)
    as (vo & m' & E3 & -> & Ha & Hs); [by destruct Hf|].
  exists vo, hp'. unfold mbtgettuple. rewrite Hsize. cbn [mbind option_bind]. rewrite Ep. cbn [mbind option_bind].
  cbn [vo_hashmap rangevo_init]. rewrite E1. cbn [mbind option_bind]. unfold at_tree. cbn [mbind option_bind]. rewrite Em.
  cbn [mbind option_bind]. rewrite E3. cbn [mbind option_bind]. injection Hs as Hi Hb Hsz.
  split_and!; try done.
  - by rewrite Hb.
  - rewrite Hsz, Hn. cbn [mbtree_size rangevo_init set_vo_hashmap]. unfold DEFAULTSIZE. apply Z.quot_mul. lia.
  - by rewrite Hb.
Qed.

Lemma cats_slice_Forall (P : list Z -> Prop) bs a b l : cats bs (slice a b l) -> Forall P l ->
  Forall (fun x => exists p, cstr x = Some p /\ P p) bs.
Proof.
  intros Hc Hl. assert (Forall P (slice a b l)) as Hs by (by apply Forall_take, Forall_drop).
  revert Hs. induction Hc as [|x p bs ps Hx _ IH]; intros Hs; constructor; apply Forall_cons in Hs as [? ?]; [by exists p|by apply IH].
Qed.

(** The hashes to the left of the range in the left boundary leaf and its strings in
    the range are the entries of the leaf. *)
Lemma left_leaf_total hashp vo ds : fits t h lo hi hashp vo -> fits_left t h lo vo 0 ->
  (at_level t h 0 lo < at_level t h 0 hi)%nat -> leaf_strings t h !! at_level t h 0 lo = Some ds ->
  exists lv v, aget (leftvo vo) (traverse_height vo) = Some lv /\ aget (vdata vo) 0 = Some v /\
    Forall piece (nhash lv) /\ Forall hashable v /\ (length (nhash lv) + length v = length ds)%nat.
Proof.
  intros Hfit (lv & Elv & _ & Hlv) Hlt Hds. pose proof (ix_bounded _ _ _ _ _ (ai_indexed _ _ _ _ _ _ _ Hai)) as Hok.
  destruct (ft_data _ _ _ _ _ _ Hfit (at_level t h 0 lo)) as (v & Hv & Cv); [lia|]. rewrite Nat.sub_diag in Hv.
  pose proof (leaf_spec t h Hok lo ltac:(lia)) as [_ Hlo]. pose proof (leaf_spec t h Hok hi ltac:(lia)) as [_ Hhi'].
  pose proof (start_S _ _ _ Hds) as Hst. pose proof (start_mono (leaf_strings t h) (S (at_level t h 0 lo)) (at_level t h 0 hi) ltac:(lia)) as Hmono.
  pose proof (start_le (leaf_strings t h) (S (at_level t h 0 lo))) as Hle.
  rewrite groups_leaves, leaf_groups_start, leaf_groups_concat in Hlv by apply Hok. cbn [below] in Hlv. unfold in_range in Cv.
  pose proof (layer_strings t h h (bd_bal _ _ Hok) (Nat.le_refl _)) as Estr. change (concat (leaf_strings t h) = strings t) in Estr.
  exists lv, v. split; [rewrite (ft_height _ _ _ _ _ _ Hfit), <- Elv; do 2 f_equal; lia|]. split; [unfold aget; simpl; exact Hv|].
  split; [|split].
  - eapply cats_slice_Forall; [exact Hlv|]. apply Forall_forall. intros p Hp. apply list_elem_of_In, in_map_iff in Hp as (x & <- & _).
    apply H_length.
  - rewrite Estr in Cv. eapply cats_slice_Forall; [exact Cv|]. apply Hok.
  - rewrite (Forall2_length _ _ _ Hlv), (Forall2_length _ _ _ Cv), !slice_length; rewrite ?length_map; lia.
Qed.


End System.

(** ** The tree with two leaves as index 7 *)

Definition demo_am : am :=
  mkAm (fst <$> hashmap_set true (init_buckets (mkHashmap NUM_BUCKETS [] myhash compare 0)) 7 (Some 0%nat))
    {[ 0%nat := two_mem ]} 1 demo_maps demo_marks 0 998.

Lemma demo_am_indexed : @am_indexed demo_checksum demo_am 7 two_mem demo_two 1 [10; 20; 30; 40] two_T.
Proof.
  split; try reflexivity.
  - exists 0%nat. split; reflexivity.
  - exact two_indexed.
  - intros i hp marks M H1 H2 H3. apply (demo_levels i); [exact H1|exact H2|]. rewrite <- H3. reflexivity.
Qed.

Lemma demo_vo_fits : (fun vo => bool_decide (zlen (vo_bytes vo) <= 8192)) <$>
  @mbtgettuple demo_malloc two_vo 7 20 30 demo_am = Some true.
Proof. vm_compute. reflexivity. Qed.

