(* ===== verification/Refresh.v ===== *)
(** * From an insertion to the index that queries use

    [mbtinsert] inserts the entry and, once the access method has counted 998
    insertions, hashes, numbers and stores the tree.  What it leaves is what the
    range queries of System.v start from. *)

From S2P Require Import Prelude CMem Codec Hashmap Node NodeCodec Heap Ring Insert Delete LeafSpec Store Merkle Vo HmCodec.
From S2P Require Import Reconstruct ReconstructSpec ReconstructRoot QuerySpec RangeSpec Pipeline Numbering StoreSpec.
From S2P Require Import IndexAm System.

Lemma at_tree_eq {A} (p : nat) (e : M A) (st : am) (m : mem) (x : A) (m' : mem) :
  am_trees st !! p = Some m -> e m = Some (x, m') ->
  at_tree (Some p) e st = Some (x, mkAm (key_hashp st) (<[p := m']> (am_trees st)) (am_next st) (am_hashp st)
    (am_temp_node_id st) (am_root_offset st) (mbt_entries_count st)).
Proof. intros Em Ee. unfold at_tree. cbn [mbind option_bind]. rewrite Em. cbn [mbind option_bind]. by rewrite Ee. Qed.

(** Reduces the binds and the fields of the state. *)
Local Ltac step_am := cbn [mbind option_bind set_entries_count set_maps key_hashp am_trees am_next am_hashp am_temp_node_id
  am_root_offset mbt_entries_count fst snd].

Section Refresh.
Context `{HashFn} `{Malloc}.

(** [StoreBtree] keeps the index and rewinds the offset. *)
Lemma store_btree_runs (t : mtree) (h : nat) (m : mem) (K : list Z) (T : list ItemPointerData) :
  storable t h m -> indexed m t h K T -> 0 <= offset (tree m) -> page_at t h m (S h) 0 < 2 ^ 63 ->
  runs StoreBtree m (fun r m' => r = page_at t h m h 0 /\ indexed m' t h K T /\ offset (tree m') = 0 /\
    (0 <= fd (tree m) -> (forall o, (4096 <= pwritten o)%nat) ->
     forall j q c, (j <= h)%nat -> layer (h - j) t !! q = Some c ->
       exists pg, disk m' !! page_at t h m j q = Some pg /\ page_of m' c pg)).
Proof.
  intros Hst Hix Hoff Hmax. unfold StoreBtree. apply runs_bind.
  destruct (store_runs t h m Hst Hoff Hmax) as (r & m1 & E & -> & _ & [So _ Sp _]). exists (page_at t h m h 0), m1. split; [exact E|].
  apply runs_bind. eexists tt, _. split; [reflexivity|]. apply runs_ret. split_and!; try done.
  - eapply indexed_offsets_only; [|exact Hix]. eapply offsets_only_trans; [exact So|]. split; try done.
    intros l. simpl. destruct (nodes m1 !! l); constructor. apply reoffset_refl.
  - intros Hfd Hw j q c Hj Hc. destruct (Sp j q c ltac:(done) ltac:(left; lia) Hj Hc) as (pg & Ed & Hpg). exists pg. split; [exact Ed|].
    by eapply page_of_same; [..|exact Hpg].
Qed.

(** The maps of an index can be numbered again for a tree none of whose levels has fewer nodes. *)
Lemma am_indexed_reusable st oid m0 t0 h0 K0 T0 (t : mtree) (h : nat) : am_indexed st oid m0 t0 h0 K0 T0 ->
  (forall i, (level_nodes t0 h0 i <= level_nodes t h i)%nat) ->
  forall i hp marks, am_hashp st !! i = Some hp -> am_temp_node_id st !! i = Some marks ->
    reusable_level (level_nodes t h i) hp marks.
Proof.
  intros Hai Hle i hp marks Hi Hm. eapply reusable_level_mono; [apply Hle|].
  assert (i < 10)%nat as Hlt by (pose proof (ai_hashp _ _ _ _ _ _ _ Hai) as L; apply lookup_lt_Some in Hi;
    unfold zlen, BPLUS_MAX_LEVEL in L; lia).
  assert (child_maps t0 h0 !! i = Some (child_map t0 h0 i)) as HM.
  { unfold child_maps. change (map (child_map t0 h0) ?l) with (child_map t0 h0 <$> l).
    by rewrite list_lookup_fmap, lookup_seq_lt by lia. }
  destruct (ai_levels _ _ _ _ _ _ _ Hai i hp marks _ Hi Hm HM) as [Hlo _]. eapply level_ok_reusable; [exact Hlo|].
  intros k v Hk. unfold child_map, level_nodes in *. destruct i as [|i]; [done|]. case_decide; [|done].
  rewrite decide_True by lia. rewrite lookup_map_seqZ in Hk. apply bind_Some in Hk as (Hk0 & _ & Hk).
  apply lookup_lt_Some in Hk. unfold child_entries, groups in Hk. rewrite length_imap, length_map in Hk. lia.
Qed.


End Refresh.

(** ** A later refresh: the fourth entry of the tree with two leaves *)

(** The tree with two leaves before its last key; the maps and marks are those of the refresh before. *)
Definition two_before : mem :=
  mkMem (tree two_mem)
    (<[2%nat := Leaf (mkLeaf (mkNode 0 0 (Some 0%nat) (mkLink (LNode 1) (LHead 0)) 1 (Some 2%nat :: Some 3%nat :: replicate 48 None))
        (30 :: zeros 49) (pad 50 [demo_word 99]) (pad 50 [checksum (demo_word 99); checksum (demo_word 100)])
        (checksum (checksum (demo_word 99) ++ checksum (demo_word 100)) ++ [0]) 1 0)]> (nodes two_mem))
    3 (mkTidMem (<[3%nat := mkTid 0 0 0]> (cells (tmem two_mem))) 4) ∅.

Definition two_am : am := mkAm (key_hashp demo_am) {[ 0%nat := two_before ]} 1 demo_maps demo_marks 0 998.

Lemma two_put : @bplus_tree_put demo_malloc 40 (demo_word 100 ++ [0]) (mkTid 0 2 2) two_before = Some (0, two_mem).
Proof. vm_compute. reflexivity. Qed.

