(* ===== verification/SearchTree.v ===== *)
(** * The tree as a finite map

    A search tree with keys and strings: the entries of the leaves from left to
    right, separated by the keys of the non-leaves.  A search for a key takes one
    route from the root to a leaf, which is the leaf the key belongs to; on it
    [bplus_tree_insert] and [bplus_tree_delete], as long as they neither split nor
    merge nodes, are the insertion into and the deletion from the finite map of
    the entries. *)

From S2P Require Import Prelude CMem Node Codec NodeCodec Heap Insert Delete LeafSpec Merkle Store Vo RangeQuery.
From S2P Require Import Reconstruct ReconstructSpec ReconstructRoot QuerySpec.

(** ** What a value gives *)

(** [gives P o]: the value of [o], when it is defined, has [P]. *)
Record gives {A} (P : A -> Prop) (o : option A) : Prop := mkGives {
  gives_run x : o = Some x -> P x
}.

Definition any {A} (_ : A) : Prop := True.

Lemma gives_any {A} (o : option A) : gives any o.
Proof. by split. Qed.

Lemma gives_some {A} (P : A -> Prop) x : P x -> gives P (Some x).
Proof. intros Hx. split. by intros ? [= <-]. Qed.

Lemma gives_bind {A B} (P : A -> Prop) (Q : B -> Prop) (o : option A) (f : A -> option B) :
  gives P o -> (forall x, P x -> gives Q (f x)) -> gives Q (o ≫= f).
Proof. intros [Ho] Hf. split. intros y E. destruct o as [x|]; [|done]. by apply (Hf x (Ho x eq_refl)). Qed.

Lemma gives_for_n {S} (P : S -> Prop) n body : (forall i s, P s -> gives P (body i s)) ->
  forall i s, P s -> gives P (for_n n i body s).
Proof.
  intros Hb. induction n as [|n IH]; intros i s Hs; simpl; [by apply gives_some|].
  eapply gives_bind; [by apply Hb|]. intros s' Hs'. by apply IH.
Qed.

Lemma gives_for_range {S} (P : S -> Prop) lo hi body s : P s -> (forall i s, P s -> gives P (body i s)) ->
  gives P (for_range lo hi body s).
Proof. intros Hs Hb. by apply gives_for_n. Qed.

Lemma gives_for_down {S} (P : S -> Prop) hi lo body s : P s -> (forall i s, P s -> gives P (body i s)) ->
  gives P (for_down hi lo body s).
Proof. intros Hs Hb. apply gives_for_n; [|done]. intros i. apply Hb. Qed.

Lemma gives_while {S} (P : S -> Prop) fuel cond body s : P s -> (forall s, P s -> gives P (body s)) ->
  gives P (while_some fuel cond body s).
Proof.
  intros Hs Hb. revert s Hs. induction fuel as [|fuel IH]; intros s Hs; simpl; (destruct (cond s); [|by apply gives_some]); [by split|].
  eapply gives_bind; [by apply Hb|]. intros s' Hs'. by apply IH.
Qed.

(** ** Trees *)

Inductive btree := BLeaf (l : loc) (es : list (Z * list Z)) | BNode (l : loc) (ks : list Z) (ts : list btree).

Definition bloc (t : btree) : loc := match t with BLeaf l _ => l | BNode l _ _ => l end.

Fixpoint blocs (t : btree) : list loc :=
  match t with BLeaf l _ => [l] | BNode l _ ts => l :: concat (map blocs ts) end.

Fixpoint height (t : btree) : nat :=
  match t with BLeaf _ _ => O | BNode _ _ ts => S (list_max (map height ts)) end.

Fixpoint entries_of (t : btree) : list (Z * list Z) :=
  match t with BLeaf _ es => es | BNode _ _ ts => concat (map entries_of ts) end.

(** The finite map of a tree. *)
Definition to_map (t : btree) : gmap Z (list Z) := list_to_map (entries_of t).

(** Keys are increasing, and the separators of a non-leaf lead each key of child
    [c] to child [c]. *)
Fixpoint ordered (t : btree) : Prop :=
  match t with
  | BLeaf _ es => increasing es.*1
  | BNode _ ks ts => increasing ks /\ length ts = S (length ks) /\ all (map ordered ts) /\
      forall c t', ts !! c = Some t' -> Forall (fun x => child_of ks x c) (entries_of t').*1
  end.

(** The memory holds the tree. *)
Definition leaf_holds (m : mem) (n : bplus_leaf) (es : list (Z * list Z)) : Prop :=
  type (lf_node n) = BPLUS_TREE_LEAF /\ holds_entries n es.*1 es.*2 /\ tids_alloc (tmem m) n.

Definition node_holds (n : bplus_non_leaf) (ks : list Z) (ps : list loc) : Prop :=
  type (nl_node n) <> BPLUS_TREE_LEAF /\ non_leaf_wf n /\ children n = zlen ps /\
  take (length ks) (nl_key n) = ks /\ take (length ps) (sub_ptr n) = Some <$> ps.

Fixpoint brep (m : mem) (t : btree) : Prop :=
  match t with
  | BLeaf l es => exists n, nodes m !! l = Some (Leaf n) /\ leaf_holds m n es
  | BNode l ks ts => (exists n, nodes m !! l = Some (NonLeaf n) /\ node_holds n ks (map bloc ts)) /\ all (map (brep m) ts)
  end.

Record represents (m : mem) (t : btree) : Prop := {
  bt_root : root (tree m) = Some (bloc t);
  bt_rep : brep m t;
  bt_ordered : ordered t;
  bt_nodup : NoDup (blocs t);
  bt_height : (height t <= depth_fuel)%nat;
  bt_room : t_entries (tree m) <= BPLUS_MAX_ENTRIES
}.

(** The route of a search: the leaf it ends in, and the tree with other entries
    in this leaf. *)
Inductive route (x : Z) : btree -> loc -> list (Z * list Z) -> (list (Z * list Z) -> btree) -> Prop :=
  | route_leaf l es : route x (BLeaf l es) l es (BLeaf l)
  | route_node l ks ts c t' l' es f : child_of ks x c -> ts !! c = Some t' -> route x t' l' es f ->
      route x (BNode l ks ts) l' es (fun es' => BNode l ks (<[c := f es']> ts)).

Lemma btree_ind' (P : btree -> Prop) :
  (forall l es, P (BLeaf l es)) -> (forall l ks ts, Forall P ts -> P (BNode l ks ts)) -> forall t, P t.
Proof.
  intros HL HN. fix IH 1. intros [l es|l ks ts]; [apply HL|apply HN].
  induction ts as [|t ts IHts]; constructor; [apply IH|exact IHts].
Qed.

(** ** Separators *)

Lemma child_of_exists ks x : increasing ks -> exists c, child_of ks x c.
Proof.
  intros Hinc. destruct (search_child ks ks [] x) as (i & c & _ & Hc & _); [by rewrite app_nil_r|done|]. by exists c.
Qed.

Lemma child_of_unique ks x c c' : child_of ks x c -> child_of ks x c' -> c = c'.
Proof.
  intros [Hc H1] [Hc' H2]. destruct (decide (c < c')%nat).
  - destruct (lookup_lt_is_Some_2 ks c) as [k Hk]; [lia|]. pose proof (H1 c k Hk). pose proof (H2 c k Hk). lia.
  - destruct (decide (c' < c)%nat); [|lia]. destruct (lookup_lt_is_Some_2 ks c') as [k Hk]; [lia|].
    pose proof (H1 c' k Hk). pose proof (H2 c' k Hk). lia.
Qed.

(** Keys of children to the left are smaller, of children to the right larger. *)
Lemma child_of_lt ks x y c c' : child_of ks x c -> child_of ks y c' -> (c' < c)%nat -> y < x.
Proof.
  intros [Hc H1] [Hc' H2] Hlt. destruct (lookup_lt_is_Some_2 ks c') as [k Hk]; [lia|].
  pose proof (H1 c' k Hk). pose proof (H2 c' k Hk). lia.
Qed.

(** ** Routes *)

Lemma route_exists x t : ordered t -> exists l es f, route x t l es f.
Proof.
  induction t as [l es|l ks ts IH] using btree_ind'; simpl.
  - intros _. exists l, es, (BLeaf l). constructor.
  - intros (Hinc & Hlen & Hts%all_Forall & _). destruct (child_of_exists ks x Hinc) as [c Hc].
    destruct (lookup_lt_is_Some_2 ts c) as [t' Ht']; [destruct Hc; lia|].
    destruct (Forall_lookup_1 _ _ _ _ IH Ht' (Forall_lookup_1 _ _ _ _ Hts Ht')) as (l' & es & f & Hr).
    exists l', es, (fun es' => BNode l ks (<[c := f es']> ts)). by econstructor.
Qed.

Lemma route_self x t l es f : route x t l es f -> f es = t.
Proof.
  induction 1 as [|l ks ts c t' l' es f Hc Ht' _ IH]; [done|]. rewrite IH. f_equal. by apply list_insert_id.
Qed.

Lemma route_bloc x t l es f es' : route x t l es f -> bloc (f es') = bloc t.
Proof. by destruct 1. Qed.

Lemma concat_insert_split {A} (gs : list (list A)) c g g' : gs !! c = Some g ->
  concat gs = concat (take c gs) ++ g ++ concat (drop (S c) gs) /\
  concat (<[c := g']> gs) = concat (take c gs) ++ g' ++ concat (drop (S c) gs).
Proof.
  intros Hg. pose proof (lookup_lt_Some _ _ _ Hg). split.
  - rewrite <- (take_drop_middle _ _ _ Hg) at 1. by rewrite concat_app.
  - rewrite insert_take_drop by done. by rewrite concat_app.
Qed.

(** The entries of the leaf among those of the tree: those before are smaller
    than the key, those behind are larger. *)
Lemma route_entries x t l es f : ordered t -> route x t l es f ->
  exists pre post, (forall es', entries_of (f es') = pre ++ es' ++ post) /\
    Forall (fun y => y < x) pre.*1 /\ Forall (fun y => x < y) post.*1.
Proof.
  intros Ho Hr. induction Hr as [l es|l ks ts c t' l' es f Hc Ht' _ IH].
  - exists [], []. split; [intros es'; by rewrite app_nil_r|]. split; constructor.
  - destruct Ho as (Hinc & Hlen & Hts%all_Forall & Hsep).
    destruct (IH (Forall_lookup_1 _ _ _ _ Hts Ht')) as (pre & post & He & Hpre & Hpost).
    exists (concat (take c (map entries_of ts)) ++ pre), (post ++ concat (drop (S c) (map entries_of ts))).
    assert (map entries_of ts !! c = Some (entries_of t')) as Hg
      by (change (map entries_of ts) with (entries_of <$> ts); by rewrite list_lookup_fmap, Ht').
    split_and!.
    + intros es'. simpl. change (map entries_of ?l) with (entries_of <$> l). rewrite list_fmap_insert.
      change (entries_of <$> ts) with (map entries_of ts). rewrite (proj2 (concat_insert_split _ c _ (entries_of (f es')) Hg)), He.
      by rewrite <- !app_assoc.
    + rewrite fmap_app. apply Forall_app. split; [|done]. apply Forall_fmap, Forall_forall. intros e He'.
      apply list_elem_of_In, in_concat in He' as (g & Hg1 & Hg2). apply list_elem_of_In, list_elem_of_lookup in Hg1 as [j Hj].
      apply lookup_take_Some in Hj as [Hj Hlt]. change (map entries_of ts) with (entries_of <$> ts) in Hj.
      rewrite list_lookup_fmap in Hj. destruct (ts !! j) as [tj|] eqn:Etj; [|done]. injection Hj as <-.
      apply (child_of_lt ks x (e.1) c j Hc); [|done]. pose proof (Hsep j tj Etj) as Hf. rewrite Forall_fmap, Forall_forall in Hf.
      by apply Hf, list_elem_of_In.
    + rewrite fmap_app. apply Forall_app. split; [done|]. apply Forall_fmap, Forall_forall. intros e He'.
      apply list_elem_of_In, in_concat in He' as (g & Hg1 & Hg2). apply list_elem_of_In, list_elem_of_lookup in Hg1 as [j Hj].
      rewrite lookup_drop in Hj. change (map entries_of ts) with (entries_of <$> ts) in Hj.
      rewrite list_lookup_fmap in Hj. destruct (ts !! (S c + j)%nat) as [tj|] eqn:Etj; [|done]. injection Hj as <-.
      apply (child_of_lt ks (e.1) x (S c + j) c); [|done|lia]. pose proof (Hsep _ tj Etj) as Hf. rewrite Forall_fmap, Forall_forall in Hf.
      by apply Hf, list_elem_of_In.
Qed.

(** ** Replacing the entries of the leaf *)

Lemma route_ordered x t l es f es' : ordered t -> route x t l es f -> increasing es'.*1 ->
  (forall y, y ∈ es'.*1 -> y = x \/ y ∈ es.*1) -> ordered (f es').
Proof.
  intros Ho Hr Hinc' Hsub. induction Hr as [l es|l ks ts c t' l' es f Hc Ht' Hr IH]; [done|].
  destruct Ho as (Hinc & Hlen & Hts%all_Forall & Hsep). pose proof (Forall_lookup_1 _ _ _ _ Hts Ht') as Ho'.
  simpl. split_and!; [done|by rewrite length_insert|apply all_Forall, Forall_insert; [done|by apply IH]|].
  intros j t'' Hj. apply list_lookup_insert_Some in Hj as [(-> & <- & _)|[Hne Hj]]; [|by apply (Hsep j)].
  destruct (route_entries x t' l' es f Ho' Hr) as (pre & post & He & _).
  pose proof (Hsep j t' Ht') as Hs. rewrite <- (route_self _ _ _ _ _ Hr), He in Hs. rewrite He.
  rewrite !fmap_app, !Forall_app in Hs |- *. destruct Hs as (H1 & H2 & H3). split_and!; [done| |done].
  apply Forall_forall. intros y Hy. destruct (Hsub y Hy) as [->|Hy']; [done|]. rewrite Forall_forall in H2. by apply H2.
Qed.

Lemma route_blocs x t l es f es' : route x t l es f -> blocs (f es') = blocs t.
Proof.
  induction 1 as [|l ks ts c t' l' es f Hc Ht' _ IH]; [done|]. simpl. do 2 f_equal. change (map blocs ?l) with (blocs <$> l).
  rewrite list_fmap_insert, IH. apply list_insert_id. by rewrite list_lookup_fmap, Ht'.
Qed.

Lemma route_height x t l es f es' : route x t l es f -> height (f es') = height t.
Proof.
  induction 1 as [|l ks ts c t' l' es f Hc Ht' _ IH]; [done|]. simpl. do 2 f_equal. change (map height ?l) with (height <$> l).
  rewrite list_fmap_insert, IH. apply list_insert_id. by rewrite list_lookup_fmap, Ht'.
Qed.

Lemma route_in x t l es f : route x t l es f -> l ∈ blocs t.
Proof.
  induction 1 as [l es|l ks ts c t' l' es f Hc Ht' _ IH]; simpl; [set_solver|]. apply list_elem_of_further.
  eapply concat_map_elem; [by eapply list_elem_of_lookup_2|done].
Qed.

(** The header of a node that stays where it is. *)
Definition same_place (h h' : bplus_node) : Prop := type h' = type h /\ parent h' = parent h /\ link h' = link h.

(** The item pointers and the place of a leaf an entry is inserted into. *)
Lemma leaf_simple_insert_frame (P : option tidloc -> Prop) n tm key data tid i : Forall P (tids (lf_node n)) ->
  gives (fun r => Forall P (tids (lf_node r.1)) /\ same_place (lf_node n) (lf_node r.1))
    (leaf_simple_insert n tm key data tid i).
Proof.
  intros Hn. set (I := fun n' => Forall P (tids (lf_node n')) /\ same_place (lf_node n) (lf_node n')).
  assert (forall n' j k, I n' -> gives I (put_lkey n' j k)) as Hk
    by (intros n' j k Hi; split; intros ? E; unfold put_lkey in E; by inv_some).
  assert (forall n' j k, I n' -> gives I (put_data n' j k)) as Hd
    by (intros n' j k Hi; split; intros ? E; unfold put_data in E; by inv_some).
  eapply gives_bind; [apply (gives_for_down I); [by split|]|].
  - intros j n' Hi. eapply gives_bind; [apply gives_any|]. intros k _. eapply gives_bind; [by apply Hk|].
    intros n1 [Ht1 Hty1]. eapply (gives_bind P); [split; intros p [_ Hp]%aget_Some; exact (Forall_lookup_1 _ _ _ _ Ht1 Hp)|].
    intros p Hp. eapply (gives_bind I).
    { split. intros n2 E. unfold put_tid_ptr in E. inv_some. apply aset_inv in E0 as [_ ->].
      split; [by apply Forall_insert|done]. }
    intros n2 Hi2. eapply gives_bind; [apply gives_any|]. intros d _. by apply Hd.
  - intros n1 Hi1. eapply gives_bind; [by apply Hk|]. intros n2 Hi2. eapply gives_bind; [apply gives_any|]. intros tm' _.
    eapply gives_bind; [by apply Hd|]. intros n3 Hi3. by apply gives_some.
Qed.

(** Outside the node [l] the memories agree, and the cells of the first are cells
    of the second. *)
Record only_node (l : loc) (m m' : mem) : Prop := {
  on_nodes l' : l' <> l -> nodes m' !! l' = nodes m !! l';
  on_cells p : is_Some (cells (tmem m) !! p) -> is_Some (cells (tmem m') !! p);
  on_root : root (tree m') = root (tree m);
  on_entries : t_entries (tree m') = t_entries (tree m)
}.

Lemma leaf_holds_cells l m m' n es : only_node l m m' -> leaf_holds m n es -> leaf_holds m' n es.
Proof.
  intros [_ Hc _ _] (Hty & Hh & Ha). split_and!; [done|done|]. eapply Forall_impl; [exact Ha|].
  intros o (p & -> & Hp). exists p. auto.
Qed.

Lemma brep_frame l m m' t : only_node l m m' -> ~ l ∈ blocs t -> brep m t -> brep m' t.
Proof.
  intros Ho. induction t as [l' es|l' ks ts IH] using btree_ind'; simpl; intros Hl.
  - intros (n & En & Hn). exists n. split; [rewrite (on_nodes _ _ _ Ho); [done|set_solver]|by eapply leaf_holds_cells].
  - apply not_elem_of_cons in Hl as [Hne Hl]. intros [(n & En & Hn) Hts%all_Forall]. split.
    + exists n. by rewrite (on_nodes _ _ _ Ho).
    + apply all_Forall, Forall_forall. intros t' Ht'. rewrite Forall_forall in IH, Hts. apply IH; [done| |by apply Hts].
      intros Hin. by apply Hl, (concat_map_elem _ t').
Qed.

Lemma route_rep x t l es f m m' n' es' : route x t l es f -> NoDup (blocs t) -> brep m t -> only_node l m m' ->
  nodes m' !! l = Some (Leaf n') -> leaf_holds m' n' es' -> brep m' (f es').
Proof.
  intros Hr Hnd Hrep Ho El Hn'. induction Hr as [l es|l0 ks ts c t' l es f Hc Ht' Hr IH]; simpl in *; [by exists n'|].
  apply NoDup_cons in Hnd as [Hl0 Hnd]. destruct Hrep as [(n & En & Hn) Hts%all_Forall].
  pose proof (route_in _ _ _ _ _ Hr) as Hin. split.
  - exists n. split.
    + rewrite (on_nodes _ _ _ Ho); [done|]. intros ->. apply Hl0, (concat_map_elem _ t'); [by eapply list_elem_of_lookup_2|done].
    + replace (map bloc (<[c := f es']> ts)) with (map bloc ts); [done|]. change (map bloc ?l) with (bloc <$> l).
      rewrite list_fmap_insert, (route_bloc _ _ _ _ _ _ Hr), list_insert_id; [done|]. by rewrite list_lookup_fmap, Ht'.
  - apply all_Forall, Forall_lookup. intros j tj Hj. apply list_lookup_insert_Some in Hj as [(-> & <- & _)|[Hne Hj]].
    + apply IH; try done; [by eapply concat_map_NoDup|by eapply Forall_lookup_1].
    + apply (brep_frame l m); [done| |by eapply Forall_lookup_1]. intros Hl. by destruct Hne; eapply (concat_map_disjoint blocs).
Qed.

Lemma route_leaf_at x t l es f m : route x t l es f -> brep m t ->
  exists n, nodes m !! l = Some (Leaf n) /\ leaf_holds m n es.
Proof.
  induction 1 as [|l ks ts c t' l' es f Hc Ht' _ IH]; [done|]. intros [_ Hts%all_Forall]. apply IH. by eapply Forall_lookup_1.
Qed.

Lemma route_represents x t l es f m m' n' es' : represents m t -> route x t l es f -> only_node l m m' ->
  nodes m' !! l = Some (Leaf n') -> leaf_holds m' n' es' -> increasing es'.*1 ->
  (forall y, y ∈ es'.*1 -> y = x \/ y ∈ es.*1) -> represents m' (f es').
Proof.
  intros [Hroot Hrep Hord Hnd Hh He] Hr Ho El Hn' Hinc Hsub. split.
  - by rewrite (on_root _ _ _ Ho), (route_bloc _ _ _ _ _ _ Hr).
  - by eapply route_rep.
  - by eapply route_ordered.
  - by rewrite (route_blocs _ _ _ _ _ _ Hr).
  - by rewrite (route_height _ _ _ _ _ _ Hr).
  - by rewrite (on_entries _ _ _ Ho).
Qed.

(** ** The walk *)

Lemma find_leaf_runs x t l es f m fuel : route x t l es f -> ordered t -> brep m t -> (height t <= fuel)%nat ->
  runs (find_leaf fuel (Some (bloc t)) x) m (fun r m' => r = Some l /\ m' = m).
Proof.
  intros Hr. revert fuel. induction Hr as [l es|l0 ks ts c t' l es f Hc Ht' Hr IH]; intros fuel Ho Hrep Hh.
  - destruct Hrep as (n & En & Hty & _).
    destruct fuel; simpl; (eapply runs_bind, runs_load_hdr; [exact En|]); unfold is_leaf; simpl; rewrite Hty; by apply runs_ret.
  - destruct Hrep as [(n & En & Hty & Hwf & Hch & Hk & Hs) Hts%all_Forall]. destruct Ho as (Hinc & Hlen & Hos%all_Forall & _).
    destruct fuel as [|fuel]; [simpl in Hh; lia|]. simpl. eapply runs_bind, runs_load_hdr; [exact En|].
    unfold is_leaf. simpl. apply Z.eqb_neq in Hty. rewrite Hty. eapply runs_bind, runs_load_nl; [exact En|].
    destruct (search_child (nl_key n) ks (drop (length ks) (nl_key n)) x) as (i & c' & Ei & Hc' & Hci);
      [by rewrite <- Hk at 1; rewrite take_drop|done|].
    rewrite (child_of_unique _ _ _ _ Hc' Hc) in Hci.
    assert (sub_ptr n !! c = Some (Some (bloc t'))) as Hsub.
    { rewrite <- (lookup_take_lt _ (length (map bloc ts))), Hs by (rewrite length_map; by eapply lookup_lt_Some).
      change (map bloc ts) with (bloc <$> ts). by rewrite !list_lookup_fmap, Ht'. }
    unfold next_child. eapply runs_bind, runs_bind, runs_lift.
    { rewrite Hch. unfold zlen. rewrite length_map, Hlen. replace (Z.of_nat (S (length ks)) - 1) with (zlen ks) by (unfold zlen; lia). exact Ei. }
    enough (runs (find_leaf fuel (Some (bloc t')) x) m (fun r m' => r = Some l /\ m' = m)) as Hgo.
    { destruct Hci as [[Hi Hci]|[Hi Hci]]; [replace (0 <=? i) with true by lia|replace (0 <=? i) with false by lia];
        rewrite <- Hci; (eapply runs_lift; [rewrite aget_nat; exact Hsub|exact Hgo]). }
    apply IH; [by eapply Forall_lookup_1|by eapply Forall_lookup_1|].
    assert (map height ts !! c = Some (height t')) as Hm by (change (map height ts) with (height <$> ts); by rewrite list_lookup_fmap, Ht').
    pose proof (Forall_lookup_1 _ _ _ _ (proj1 (list_max_le _ _) (le_n _)) Hm) as Hle. simpl in Hle, Hh. lia.
Qed.

(** ** The finite map *)

Lemma increasing_app ks ks' :
  increasing ks -> increasing ks' -> (forall x y, x ∈ ks -> y ∈ ks' -> x < y) -> increasing (ks ++ ks').
Proof. intros H1 H2 Hc. apply StronglySorted_app. by split_and!. Qed.

(** Lists whose elements the separators lead to child after child. *)
Lemma increasing_concat ks gs : forall c0, Forall increasing gs ->
  (forall c g, gs !! c = Some g -> Forall (fun x => child_of ks x (c0 + c)) g) -> increasing (concat gs).
Proof.
  induction gs as [|g gs IH]; intros c0 Hg Hsep; [constructor|]. apply Forall_cons in Hg as [Hg Hgs].
  apply increasing_app; [done| |].
  - apply (IH (S c0) Hgs). intros c g' Hc. replace (S c0 + c)%nat with (c0 + S c)%nat by lia. by apply Hsep.
  - intros x y Hx (g' & Hg' & Hy)%list_elem_of_In%in_concat. apply list_elem_of_In in Hg', Hy.
    apply list_elem_of_lookup in Hg' as [j Hj].
    pose proof (Hsep 0%nat g eq_refl) as H1. pose proof (Hsep (S j) g' Hj) as H2. rewrite Forall_forall in H1, H2.
    apply (child_of_lt ks y x _ _ (H2 y Hy) (H1 x Hx)). lia.
Qed.

Lemma ordered_increasing t : ordered t -> increasing (entries_of t).*1.
Proof.
  induction t as [l es|l ks ts IH] using btree_ind'; [done|]. intros (Hinc & Hlen & Hts%all_Forall & Hsep). simpl.
  replace (concat (map entries_of ts)).*1 with (concat (map (fun t => (entries_of t).*1) ts))
    by (clear; induction ts as [|t ts IH]; simpl; [done|by rewrite fmap_app, IH]).
  apply (increasing_concat ks _ 0).
  - apply Forall_forall. intros g (t' & <- & Ht')%list_elem_of_In%in_map_iff. apply list_elem_of_In in Ht'.
    rewrite Forall_forall in IH, Hts. by apply IH, Hts.
  - intros c g Hg. change (map (fun t => (entries_of t).*1) ts) with ((fun t => (entries_of t).*1) <$> ts) in Hg.
    rewrite list_lookup_fmap in Hg. destruct (ts !! c) as [t'|] eqn:Et; [|done]. injection Hg as <-. by apply Hsep.
Qed.

Lemma ordered_NoDup t : ordered t -> NoDup (entries_of t).*1.
Proof.
  intros Ho%ordered_increasing. induction Ho as [|x ks _ IH Hx]; constructor; [|done].
  intros Hin. rewrite Forall_forall in Hx. specialize (Hx x Hin). lia.
Qed.

(** A key of the tree is a key of the leaf its search ends in. *)
Lemma route_member x t l es f : ordered t -> route x t l es f -> is_Some (to_map t !! x) <-> x ∈ es.*1.
Proof.
  intros Ho Hr. destruct (route_entries x t l es f Ho Hr) as (pre & post & He & Hpre & Hpost).
  specialize (He es). rewrite (route_self _ _ _ _ _ Hr) in He. rewrite Forall_forall in Hpre, Hpost.
  transitivity (x ∈ (entries_of t).*1).
  - unfold to_map. rewrite <- (not_eq_None_Some (list_to_map _ !! x)). rewrite <- not_elem_of_list_to_map. split; [|tauto].
    intros Hn. destruct (decide (x ∈ (entries_of t).*1)); [done|]. by destruct Hn.
  - rewrite He, !fmap_app, !elem_of_app. split; [|tauto]. intros [Hx|[Hx|Hx]]; [|done|]; [specialize (Hpre x Hx)|specialize (Hpost x Hx)]; lia.
Qed.

Lemma route_insert x d t l es f r : ordered t -> route x t l es f -> ordered (f (insert_at r (x, d) es)) ->
  to_map (f (insert_at r (x, d) es)) = <[x := d]> (to_map t).
Proof.
  intros Ho Hr Ho'. destruct (route_entries x t l es f Ho Hr) as (pre & post & He & _).
  unfold to_map. rewrite <- list_to_map_cons. apply list_to_map_proper; [by apply ordered_NoDup|].
  rewrite He, <- (route_self _ _ _ _ _ Hr), He. unfold insert_at.
  rewrite <- (take_drop r es) at 3. rewrite <- !app_assoc. simpl. rewrite !Permutation_middle. solve_Permutation.
Qed.

Lemma route_delete x d t l es f r : ordered t -> route x t l es f -> es !! r = Some (x, d) -> ordered (f (delete r es)) ->
  to_map (f (delete r es)) = delete x (to_map t).
Proof.
  intros Ho Hr Hes Ho'. destruct (route_entries x t l es f Ho Hr) as (pre & post & He & _).
  assert (to_map t = <[x := d]> (to_map (f (delete r es)))) as Hto.
  { unfold to_map. rewrite <- list_to_map_cons. apply list_to_map_proper; [by apply ordered_NoDup|].
    rewrite <- (route_self _ _ _ _ _ Hr), !He. rewrite (delete_Permutation _ _ _ Hes) at 1. solve_Permutation. }
  rewrite Hto, delete_insert_id; [done|]. apply not_elem_of_list_to_map.
  pose proof (ordered_NoDup t Ho) as Hnd. rewrite <- (route_self _ _ _ _ _ Hr), He in Hnd. rewrite He.
  rewrite (delete_Permutation _ _ _ Hes), !fmap_app, fmap_cons in Hnd.
  rewrite <- app_comm_cons, <- Permutation_middle, NoDup_cons in Hnd.
  rewrite !fmap_app. exact (proj1 Hnd).
Qed.

Lemma elem_of_insert_at {A} r (x y : A) xs : y ∈ insert_at r x xs -> y = x \/ y ∈ xs.
Proof. unfold insert_at. rewrite <- (take_drop r xs) at 3. rewrite !elem_of_app, elem_of_cons. tauto. Qed.

Lemma delete_increasing r ks : increasing ks -> increasing (delete r ks).
Proof.
  intros Hinc. revert r. induction Hinc as [|x ks Hs IH Hx]; intros [|r]; try constructor; [exact Hs|apply IH|].
  apply Forall_forall. intros y Hy%list_elem_of_delete_inv. rewrite Forall_forall in Hx. by apply Hx.
Qed.

(** ** Insertion *)

Section Operations.
Context `{Malloc} (m : mem) (t : btree) (key : Z) (l : loc) (es : list (Z * list Z)) (f : list (Z * list Z) -> btree).
Context (Hm : represents m t) (Hr : route key t l es f).

(** The operation on the leaf, behind the walk. *)
Lemma behind_walk {A} (op : option loc -> M A) r :
  op (Some l) m = r -> (do t <- get_tree; do leaf <- find_leaf depth_fuel (root t) key; op leaf) m = r.
Proof.
  intros E. destruct Hm as [Hroot Hrep Hord _ Hh _].
  destruct (find_leaf_runs key t l es f m depth_fuel Hr Hord Hrep Hh) as (x & m' & Ef & -> & ->).
  cbv [mbind M_bind get_tree]. by rewrite Hroot, Ef.
Qed.

Lemma leaf_here : exists n, nodes m !! l = Some (Leaf n) /\ leaf_holds m n es /\ increasing es.*1.
Proof.
  destruct (route_leaf_at _ _ _ _ _ m Hr (bt_rep _ _ Hm)) as (n & En & Hn). exists n. split_and!; [done|done|].
  pose proof (ordered_increasing _ (bt_ordered _ _ Hm)) as Hinc.
  destruct (route_entries key t l es f (bt_ordered _ _ Hm) Hr) as (pre & post & He & _).
  rewrite <- (route_self _ _ _ _ _ Hr), He, !fmap_app in Hinc.
  apply StronglySorted_app in Hinc as (_ & _ & Hinc). by apply StronglySorted_app in Hinc as (_ & Hinc & _).
Qed.

Lemma insert_present data tid : is_Some (to_map t !! key) -> bplus_tree_insert key data tid m = Some (-1, m).
Proof.
  rewrite (route_member _ _ _ _ _ (bt_ordered _ _ Hm) Hr). intros Hin. destruct leaf_here as (n & En & (_ & Hh & _) & Hinc).
  apply (behind_walk (fun leaf => match leaf with Some l => leaf_insert l key data tid | None => _ end)).
  by eapply leaf_insert_present.
Qed.

Lemma insert_absent data d tid : to_map t !! key = None -> zlen es < t_entries (tree m) ->
  cstr data = Some d -> zlen d <= DATA_SIZE ->
  exists m' t', bplus_tree_insert key data tid m = Some (0, m') /\ represents m' t' /\ to_map t' = <[key := d]> (to_map t) /\
    (exists r, t' = f (insert_at r (key, d) es)) /\
    exists n n' tm', nodes m !! l = Some (Leaf n) /\ same_place (lf_node n) (lf_node n') /\
      m' = set_tmem tm' (set_nodes (<[l := Leaf n']> (nodes m)) m).
Proof.
  intros Hnone Hroom Hs Hd. destruct leaf_here as (n & En & (Hty & Hh & Ha) & Hinc). pose proof (bt_room _ _ Hm) as Hmax.
  assert (~ key ∈ es.*1) as Hnin.
  { intros [? Hx]%(route_member _ _ _ _ _ (bt_ordered _ _ Hm) Hr). congruence. }
  destruct (leaf_insert_absent m l n es.*1 es.*2 key data d tid En Hh Hinc) as (n' & p & E & Es & Hp & Hh');
    [unfold zlen in *; rewrite length_fmap; lia|done|done|done|done|].
  set (r := Z.to_nat (rank es.*1 key)) in *. set (m' := set_tmem _ _) in *.
  destruct (leaf_simple_insert_frame _ n (tmem m) key data tid (Z.of_nat r) Ha) as [Hf]. destruct (Hf _ Es) as [Ha' Hpl].
  assert (represents m' (f (insert_at r (key, d) es))) as Hrep'.
  { destruct Hpl as [Hty' _]. assert (only_node l m m') as Ho.
    { split; [intros; by apply lookup_insert_ne| |done|done]. intros q Hq. simpl. apply lookup_insert_is_Some'. by right. }
    eapply (route_represents key t l es f m m' n'); try done.
    - apply lookup_insert_eq.
    - split_and!; [by rewrite <- Hty| |].
      + rewrite !insert_at_fmap. exact Hh'.
      + eapply Forall_impl; [exact Ha'|]. intros o (q & -> & Hq). exists q. split; [done|]. by apply (on_cells _ _ _ Ho).
    - rewrite insert_at_fmap. by apply insert_at_increasing.
    - intros y. rewrite insert_at_fmap. apply elem_of_insert_at. }
  exists m', (f (insert_at r (key, d) es)). split_and!; [|done| |by exists r|by eexists n, n', _].
  - by apply (behind_walk (fun leaf => match leaf with Some l => leaf_insert l key data tid | None => _ end)).
  - eapply route_insert; [apply Hm|exact Hr|apply Hrep'].
Qed.

(** ** Deletion *)

Lemma delete_absent : to_map t !! key = None -> bplus_tree_delete key m = Some (-1, m).
Proof.
  intros Hnone. destruct leaf_here as (n & En & (_ & Hh & _) & Hinc).
  apply (behind_walk (fun leaf => match leaf with Some l => leaf_remove l key | None => _ end)).
  enough (runs (leaf_remove l key) m (fun x m' => x = -1 /\ m' = m)) as (? & ? & E & -> & ->) by exact E.
  eapply runs_bind, runs_load_lf; [exact En|]. eapply runs_bind, runs_lift; [by eapply leaf_key_search|].
  rewrite decide_False.
  - pose proof (rank_range es.*1 key). replace (- rank es.*1 key - 1 <? 0) with true by lia. by apply runs_ret.
  - intros [? Hx]%(route_member _ _ _ _ _ (bt_ordered _ _ Hm) Hr). congruence.
Qed.

Lemma delete_present : is_Some (to_map t !! key) -> Z.quot (t_entries (tree m) + 1) 2 < zlen es ->
  exists m' t', bplus_tree_delete key m = Some (0, m') /\ represents m' t' /\ to_map t' = delete key (to_map t).
Proof.
  intros Hin%(route_member _ _ _ _ _ (bt_ordered _ _ Hm) Hr) Hhalf. destruct leaf_here as (n & En & (Hty & Hh & Ha) & Hinc).
  pose proof (lookup_rank _ _ Hinc Hin) as Hlk. pose proof (rank_range es.*1 key) as Hrk.
  set (r := Z.to_nat (rank es.*1 key)) in *. pose proof Hh as [Hwf Hc _ Hk _].
  pose proof (leaf_arrays n Hwf) as [Lk _ _ _].
  assert (length es.*1 <= 50)%nat as Hle by (rewrite <- Hk, length_take; lia).
  destruct (leaf_simple_remove_yields n es.*1 es.*2 r Hh) as (n' & Er & Hh' & Ht'); [apply lookup_lt_Some in Hlk; lia|].
  rewrite list_lookup_fmap in Hlk. destruct (es !! r) as [[k d]|] eqn:Ees; [|done]. injection Hlk as ->.
  assert (gives (fun n' => type (lf_node n') = type (lf_node n)) (leaf_simple_remove n (Z.of_nat r))) as [Hg].
  { unfold leaf_simple_remove. eapply (gives_bind (fun n' => type (lf_node n') = type (lf_node n))).
    - apply gives_for_range; [done|]. intros i s Hs. unfold put_lkey, put_data. split. intros s' E. by inv_some.
    - intros s Hs. by apply gives_some. }
  set (m' := set_nodes (<[l := Leaf n']> (nodes m)) m).
  assert (represents m' (f (delete r es))) as Hrep'.
  { eapply (route_represents key t l es f m m' n'); try done.
    - split; try done. intros. by apply lookup_insert_ne.
    - apply lookup_insert_eq.
    - split_and!; [by rewrite (Hg _ Er)|by rewrite !fmap_delete_list|]. unfold tids_alloc. by rewrite Ht'.
    - rewrite fmap_delete_list. by apply delete_increasing.
    - intros y. rewrite fmap_delete_list. intros Hy. right. by eapply list_elem_of_delete_inv. }
  exists m', (f (delete r es)). split_and!; [|done|].
  - apply (behind_walk (fun leaf => match leaf with Some l => leaf_remove l key | None => _ end)).
    enough (runs (leaf_remove l key) m (fun x m0 => x = 0 /\ m0 = m')) as (? & ? & E & -> & ->) by exact E.
    eapply runs_bind, runs_load_lf; [exact En|]. eapply runs_bind, runs_lift; [by eapply leaf_key_search|].
    rewrite decide_True by done. replace (rank es.*1 key <? 0) with false by lia.
    apply runs_bind, runs_get_tree. rewrite Hc. unfold zlen in *. rewrite length_fmap.
    replace (Z.of_nat (length es) <=? Z.quot (t_entries (tree m) + 1) 2) with false by lia.
    eapply runs_bind, runs_lift; [replace (rank es.*1 key) with (Z.of_nat r) by lia; exact Er|].
    eapply runs_bind, runs_store; [exact En|]. by apply runs_ret.
  - eapply route_delete; [apply Hm|exact Hr|exact Ees|apply Hrep'].
Qed.

End Operations.

(** ** The contract *)

(** What a put promises: the result, and the finite map behind it; the string
    "0" asks for a deletion. *)
Definition put_spec (mp : gmap Z (list Z)) (key : Z) (d : list Z) : Z * gmap Z (list Z) :=
  if decide (d = [48]) then match mp !! key with Some _ => (0, delete key mp) | None => (-1, mp) end
  else match mp !! key with Some _ => (-1, mp) | None => (0, <[key := d]> mp) end.

(** The put keeps the shape of the tree: the leaf of the key has room for one more
    entry, or is more than half full before it loses one. *)
Definition in_place (m : mem) (t : btree) (key : Z) (d : list Z) : Prop :=
  forall l es f, route key t l es f ->
    if decide (d = [48]) then Z.quot (t_entries (tree m) + 1) 2 < zlen es else zlen es < t_entries (tree m).

Lemma put_cases `{Malloc} m key data d tid : cstr data = Some d ->
  bplus_tree_put key data tid m = (if decide (d = [48]) then bplus_tree_delete key m else bplus_tree_insert key data tid m).
Proof.
  intros Hs. unfold bplus_tree_put, streq. rewrite Hs. change (cstr str_zero) with (Some [48]). cbn. case_bool_decide; case_decide; done.
Qed.

Lemma put_runs `{Malloc} (m : mem) (t : btree) (key : Z) (data d : list Z) (tid : ItemPointerData) :
  represents m t -> cstr data = Some d -> zlen d <= DATA_SIZE -> in_place m t key d ->
  exists m' t', bplus_tree_put key data tid m = Some ((put_spec (to_map t) key d).1, m') /\
    represents m' t' /\ to_map t' = (put_spec (to_map t) key d).2.
Proof.
  intros Hm Hs Hd Hin. destruct (route_exists key t (bt_ordered _ _ Hm)) as (l & es & f & Hr). specialize (Hin l es f Hr).
  rewrite (put_cases m key data d tid Hs).
  unfold put_spec. case_decide as Hz; destruct (to_map t !! key) as [d0|] eqn:El.
  - destruct (delete_present m t key l es f Hm Hr) as (m' & t' & E & Hm' & Ht'); [by rewrite El|done|]. by exists m', t'.
  - exists m, t. split_and!; [by eapply delete_absent|done|done].
  - exists m, t. split_and!; [by eapply insert_present|done|done].
  - destruct (insert_absent m t key l es f Hm Hr data d tid El Hin Hs Hd) as (m' & t' & E & Hm' & Ht' & _). by exists m', t'.
Qed.

(** C5. On a search tree of any depth [bplus_tree_put] implements the finite map of
    the entries as long as it neither splits nor merges nodes: it returns what the
    contract returns, and the memory behind it represents a search tree whose
    finite map is the one the contract gives: a new key is inserted with its
    string, a present one is refused with -1, and the string "0" deletes. *)
Theorem put_refines_map `{Malloc} (m : mem) (t : btree) (key : Z) (data d : list Z) (tid : ItemPointerData) :
  represents m t -> cstr data = Some d -> zlen d <= DATA_SIZE -> in_place m t key d ->
  exists m' t', bplus_tree_put key data tid m = Some ((put_spec (to_map t) key d).1, m') /\
    represents m' t' /\ to_map t' = (put_spec (to_map t) key d).2.
Proof. apply put_runs. Qed.

(** A root with the separator 5 and two leaves. *)
Definition pair_tree : btree := BNode 0 [5] [BLeaf 1 [(1, s1)]; BLeaf 2 [(7, s2); (9, s3)]].

Definition pair_mem : mem :=
  mkMem (mkTree 5 5 1 (Some 0%nat) [] 0 0)
    (<[0%nat := NonLeaf (set_nl_key (5 :: zeros 48) wipe_root)]> (<[1%nat := Leaf (leaf_of 0 [1] [s1])]>
      (<[2%nat := Leaf (leaf_of 50 [7; 9] [s2; s3])]> ∅))) 3 tm_of ∅.

Lemma pair_represents : represents pair_mem pair_tree.
Proof.
  split.
  - reflexivity.
  - simpl. split_and!; [| | |done].
    + eexists. split; [reflexivity|]. split_and!; [done|split; reflexivity || eval_dec|reflexivity|reflexivity|reflexivity].
    + eexists. split; [reflexivity|]. split_and!; [reflexivity|leaf_holds|apply tids_allocb_ok; vm_compute; reflexivity].
    + eexists. split; [reflexivity|]. split_and!; [reflexivity|leaf_holds|apply tids_allocb_ok; vm_compute; reflexivity].
  - simpl. split_and!; [repeat constructor|reflexivity|repeat constructor|repeat constructor|done|].
    assert (forall x c, (c <= 1)%nat -> (5 <= x <-> (0 < c)%nat) -> child_of [5] x c) as Hc
      by (intros x c Hc Hx; split; [done|]; intros [|j] k; [by intros [= <-]|done]).
    intros [|[|c]] t' [= <-]; simpl; repeat (apply Forall_cons; split; [apply Hc; lia|]); constructor.
  - simpl. eval_dec.
  - simpl. unfold depth_fuel. lia.
  - simpl. unfold BPLUS_MAX_ENTRIES. lia.
Qed.

#[local] Existing Instance demo_malloc.

Lemma put_refines_map_witness :
  exists m' t', bplus_tree_put 8 (s3 ++ [0]) (mkTid 1 2 3) pair_mem = Some (0, m') /\
    represents m' t' /\ to_map t' = <[8 := s3]> (to_map pair_tree).
Proof.
  apply (put_refines_map pair_mem pair_tree 8 (s3 ++ [0]) s3 (mkTid 1 2 3) pair_represents eq_refl);
    [vm_compute; congruence|].
  intros l es f Hr. inversion Hr as [|? ? ? c t' ? ? ? Hc Ht' Hr']; subst.
  destruct c as [|[|c]]; simplify_eq/=; inversion Hr'; subst; simpl; unfold zlen; simpl; lia.
Defined.
