(* ===== verification/Grow.v ===== *)
(** * How a tree grows: the first entry, and the split of the root leaf

    SearchTree.v shows that [bplus_tree_put] implements a finite map as long as the
    shape of the tree stays the same.  Here the shape changes: the first insertion
    makes a leaf the root, and the insertion behind the middle of a full root leaf
    splits it and puts a non-leaf above the two halves.  Together they take a tree
    from its initialisation to two levels. *)

From S2P Require Import Prelude CMem Node Codec NodeCodec Heap Insert Delete LeafSpec Merkle Store Vo RangeQuery.
From S2P Require Import Reconstruct ReconstructSpec ReconstructRoot QuerySpec SearchTree.

(** ** Changes of links *)

(** A header with the same contents, and one that also has the same parent. *)
Definition hdr_same (h h' : bplus_node) : Prop := type h' = type h /\ count h' = count h /\ tids h' = tids h.

Definition hdr_kept (h h' : bplus_node) : Prop := hdr_same h h' /\ parent h' = parent h.

Definition node_kept (n n' : node) : Prop :=
  match n, n' with
  | Leaf a, Leaf b => exists h, b = on_lf_node (fun _ => h) a /\ hdr_kept (lf_node a) h
  | NonLeaf a, NonLeaf b => exists h, b = on_nl_node (fun _ => h) a /\ hdr_kept (nl_node a) h
  | _, _ => False
  end.

Definition onode_kept (o o' : option node) : Prop :=
  match o, o' with Some n, Some n' => node_kept n n' | None, None => True | _, _ => False end.

(** Two memories that differ in links only. *)
Record relinked (m m' : mem) : Prop := {
  rl_nodes l : onode_kept (nodes m !! l) (nodes m' !! l);
  rl_tree : exists hs, tree m' = set_tlist hs (tree m) /\ zlen hs = zlen (tlist (tree m));
  rl_next : next_loc m' = next_loc m;
  rl_tmem : tmem m' = tmem m
}.

Lemma node_kept_refl n : node_kept n n.
Proof. destruct n as [n|n]; eexists; (split; [|by split_and!]); by destruct n. Qed.

Lemma onode_kept_refl o : onode_kept o o.
Proof. destruct o; [apply node_kept_refl|done]. Qed.

Lemma onode_kept_trans o1 o2 o3 : onode_kept o1 o2 -> onode_kept o2 o3 -> onode_kept o1 o3.
Proof.
  destruct o1 as [[a|a]|], o2 as [[b|b]|], o3 as [[c|c]|]; try done; simpl; intros (h & -> & H1) (h' & -> & H2);
    exists h'; (split; [done|]); unfold hdr_kept, hdr_same in *; simpl in *; destruct_and!; split_and!; congruence.
Qed.

#[export] Instance relinked_preorder : PreOrder relinked.
Proof.
  split.
  - intros m. split; [intros; apply onode_kept_refl| |done|done]. exists (tlist (tree m)). split; [by destruct (tree m)|done].
  - intros m1 m2 m3 [H1 (hs & E1 & L1) N1 T1] [H2 (hs' & E2 & L2) N2 T2]. split; [|exists hs'|congruence|congruence].
    + intros l. by eapply onode_kept_trans.
    + rewrite E2, E1 in *. simpl in *. split; [done|congruence].
Qed.

(** A link that can be read and written. *)
Definition link_valid (m : mem) (r : linkref) : Prop :=
  match r with LHead lv => 0 <= lv < zlen (tlist (tree m)) | LNode l => is_Some (nodes m !! l) end.

Lemma relinked_valid m m' r : relinked m m' -> link_valid m r -> link_valid m' r.
Proof.
  intros [Hn (hs & Et & Hl) _ _]. destruct r as [lv|l]; simpl.
  - rewrite Et. simpl. by rewrite Hl.
  - intros [n Hl']. pose proof (Hn l) as Hk. rewrite Hl' in Hk. by destruct (nodes m' !! l).
Qed.

(** Every link leads to one that can be read and written. *)
Definition links_ok (m : mem) : Prop :=
  (forall lv k, aget (tlist (tree m)) lv = Some k -> link_valid m (next k)) /\
  (forall l n, nodes m !! l = Some n -> link_valid m (next (link (node_hdr n)))).

Definition relinked_ok (m m' : mem) : Prop := relinked m m' /\ links_ok m'.

Lemma set_link_relinked m l n k : nodes m !! l = Some n -> links_ok m -> link_valid m (next k) ->
  relinked_ok m (set_nodes (<[l := map_hdr (set_link k) n]> (nodes m)) m).
Proof.
  intros Hl [Hh Hn] Hk. assert (relinked m (set_nodes (<[l := map_hdr (set_link k) n]> (nodes m)) m)) as Hr.
  { split; simpl; [|exists (tlist (tree m)); split; [by destruct (tree m)|done]|done|done].
    intros l'. destruct (decide (l = l')) as [<-|Hne]; [|rewrite lookup_insert_ne by done; apply onode_kept_refl].
    rewrite lookup_insert_eq, Hl. simpl. destruct n as [n|n]; eexists; (split; [reflexivity|by split_and!]). }
  split; [done|]. split; simpl.
  - intros lv k' E. eapply relinked_valid; [done|]. by eapply Hh.
  - intros l' n' E. eapply relinked_valid; [done|]. apply lookup_insert_Some in E as [[<- <-]|[_ E]]; [|by eapply Hn].
    by destruct n.
Qed.

(** Writing a link. *)
Lemma store_link_relinked m r k : link_valid m r -> links_ok m -> link_valid m (next k) ->
  runs (store_link r k) m (fun _ m' => relinked_ok m m').
Proof.
  destruct r as [lv|l]; simpl.
  - intros Hlv [Hh Hn] Hk. apply runs_bind, runs_get_tree. eapply runs_bind, runs_lift; [by apply aset_Some|].
    apply runs_on_tree. set (m' := set_tree _ m). assert (relinked m m') as Hr.
    { split; simpl; [intros; apply onode_kept_refl|eexists; split; [done|]|done|done]. unfold zlen. by rewrite length_insert. }
    split; [done|]. split; simpl.
    + intros lv' k' [Hl E]%aget_Some. eapply relinked_valid; [done|].
      apply list_lookup_insert_Some in E as [(E & <- & _)|[_ E]]; [done|]. apply (Hh lv'), aget_Some. done.
    + intros l n E. eapply relinked_valid; [done|]. by eapply Hn.
  - intros [n Hn] Hok Hk. eapply runs_on_hdr; [done|]. by apply set_link_relinked.
Qed.

Lemma load_link_valid m r (Q : node_list_head -> mem -> Prop) : link_valid m r -> links_ok m ->
  (forall k, link_valid m (next k) -> Q k m) -> runs (load_link r) m Q.
Proof.
  destruct r as [lv|l]; simpl; intros Hv [Hh Hn] HQ.
  - apply runs_bind, runs_get_tree. destruct (aget_is_Some (tlist (tree m)) lv Hv) as [k Hk]. eapply runs_lift; [done|].
    by eapply HQ, Hh.
  - destruct Hv as [n Hl]. eapply runs_bind, runs_load_hdr; [done|]. apply runs_ret. by eapply HQ, Hn.
Qed.

Lemma put_next_relinked m r x : link_valid m r -> links_ok m -> link_valid m x ->
  runs (put_next r x) m (fun _ m' => relinked_ok m m').
Proof. intros Hv Hok Hx. apply runs_bind, load_link_valid; [done..|]. intros k _. by apply store_link_relinked. Qed.

Lemma put_prev_relinked m r x : link_valid m r -> links_ok m -> runs (put_prev r x) m (fun _ m' => relinked_ok m m').
Proof. intros Hv Hok. apply runs_bind, load_link_valid; [done..|]. intros k Hk. by apply store_link_relinked. Qed.

(** [list_add] puts a link behind another one. *)
Lemma list_add_relinked m r p : link_valid m r -> link_valid m p -> links_ok m ->
  runs (list_add r p) m (fun _ m' => relinked_ok m m').
Proof.
  intros Hr Hp Hok. apply runs_bind, load_link_valid; [done..|]. intros k Hk. unfold __list_add.
  eapply runs_bind, runs_wand; [by apply put_next_relinked|]. intros [] m1 [H1 O1].
  eapply runs_bind, runs_wand; [apply put_prev_relinked; [by eapply relinked_valid|done]|]. intros [] m2 [H2 O2].
  assert (relinked m m2) as H12 by by transitivity m1.
  eapply runs_bind, runs_wand; [apply put_prev_relinked; [by eapply relinked_valid|done]|]. intros [] m3 [H3 O3].
  assert (relinked m m3) as H13 by by transitivity m2.
  eapply runs_wand; [apply put_next_relinked; [by eapply relinked_valid|done|by eapply relinked_valid]|]. intros [] m4 [H4 O4].
  split; [by transitivity m3|done].
Qed.

(** ** Trees in relinked memory *)

Lemma holds_entries_hdr n h ks ds : holds_entries n ks ds -> hdr_same (lf_node n) h -> holds_entries (on_lf_node (fun _ => h) n) ks ds.
Proof.
  intros [[] Hc Hs Hk Ht] (Hty & Hco & Hti). split; try done; [|unfold entries in *; simpl; congruence].
  split; simpl; congruence || done.
Qed.

Lemma leaf_holds_hdr m m' n h es : leaf_holds m n es -> hdr_same (lf_node n) h -> tmem m' = tmem m ->
  leaf_holds m' (on_lf_node (fun _ => h) n) es.
Proof.
  intros (Hty & Hh & Ha) Hk Ht. pose proof Hk as (Hty' & _ & Hti). split_and!; [simpl; congruence|by apply holds_entries_hdr|].
  unfold tids_alloc. simpl. by rewrite Hti, Ht.
Qed.

Lemma node_holds_hdr n h ks ps : node_holds n ks ps -> hdr_same (nl_node n) h -> node_holds (on_nl_node (fun _ => h) n) ks ps.
Proof.
  intros (Hty & [] & Hc & Hk & Hs) (Hty' & Hco & Hti). split_and!; try done; [simpl; congruence| |unfold children in *; simpl; congruence].
  split; simpl; congruence || done.
Qed.

Lemma brep_relinked m m' t : relinked m m' -> brep m t -> brep m' t.
Proof.
  intros Hr. induction t as [l es|l ks ts IH] using btree_ind'; simpl.
  - intros (n & En & Hn). pose proof (rl_nodes _ _ Hr l) as Hk. rewrite En in Hk. destruct (nodes m' !! l) as [[b|b]|]; [done| |done].
    destruct Hk as (h & -> & Hh & _). eexists. split; [done|]. by eapply leaf_holds_hdr; [..|apply Hr].
  - intros [(n & En & Hn) Hts%all_Forall]. split.
    + pose proof (rl_nodes _ _ Hr l) as Hk. rewrite En in Hk. destruct (nodes m' !! l) as [[b|b]|]; [|done|done].
      destruct Hk as (h & -> & Hh & _). eexists. split; [done|]. by apply node_holds_hdr.
    + apply all_Forall, Forall_forall. intros t' Ht'. rewrite Forall_forall in IH, Hts. by apply IH, Hts.
Qed.

Lemma represents_relinked m m' t : relinked m m' -> represents m t -> represents m' t.
Proof.
  intros Hr [Hroot Hrep Hord Hnd Hh He]. destruct (rl_tree _ _ Hr) as (hs & Et & _).
  split; try done; [by rewrite Et|by eapply brep_relinked|by rewrite Et].
Qed.

(** ** Allocation of a leaf *)

Section Grow.
Context `{Malloc}.

(** What a new leaf is: links apart, nothing else of the memory has changed. *)
Record new_leaf (m m' : mem) (l : loc) (n : bplus_leaf) : Prop := {
  nw_loc : l = next_loc m;
  nw_next : next_loc m' = S (next_loc m);
  nw_nodes : nodes m' = <[l := Leaf n]> (nodes m);
  nw_tree : tree m' = tree m;
  nw_wf : leaf_wf n;
  nw_type : type (lf_node n) = BPLUS_TREE_LEAF;
  nw_parent : parent (lf_node n) = None;
  nw_link : next (link (lf_node n)) = LNode l;
  nw_tids : tids_alloc (tmem m') n;
  nw_cells p : is_Some (cells (tmem m) !! p) -> is_Some (cells (tmem m') !! p)
}.

(** The item pointers below [i] have cells. *)
Definition tids_below (tm : tidmem) (n : bplus_leaf) (i : Z) : Prop :=
  Forall (fun o => exists p, o = Some p /\ is_Some (cells tm !! p)) (take (Z.to_nat i) (tids (lf_node n))).

Lemma leaf_new_tids m l n : nodes m !! l = Some (Leaf n) -> leaf_wf n ->
  runs (mfor_up 0 BPLUS_MAX_ENTRIES (fun i _ =>
    do t <- malloc_tid; do h <- load_hdr l; do ts <- lift (aset (tids h) i (Some t)); on_hdr l (set_tids ts)) tt) m
  (fun _ m' => exists ts tm', m' = set_tmem tm' (set_nodes (<[l := Leaf (on_lf_node (set_tids ts) n)]> (nodes m)) m) /\
    zlen ts = BPLUS_MAX_ENTRIES /\ tids_alloc tm' (on_lf_node (set_tids ts) n) /\
    forall p, is_Some (cells (tmem m) !! p) -> is_Some (cells tm' !! p)).
Proof.
  intros Hl Hwf. eapply runs_wand.
  { apply (mfor_up_rule (fun i _ m' => exists ts tm', m' = set_tmem tm' (set_nodes (<[l := Leaf (on_lf_node (set_tids ts) n)]> (nodes m)) m) /\
      zlen ts = BPLUS_MAX_ENTRIES /\ tids_below tm' (on_lf_node (set_tids ts) n) i /\
      forall p, is_Some (cells (tmem m) !! p) -> is_Some (cells tm' !! p))).
    - done.
    - exists (tids (lf_node n)), (tmem m). split_and!; [|apply Hwf|constructor|done].
      replace (on_lf_node (set_tids (tids (lf_node n))) n) with n by (by destruct n as [[]]). rewrite insert_id by done. by destruct m.
    - intros i [] m' Hi (ts & tm' & -> & Hts & Hb & Hc).
      exists tt. eexists. split; [|exists (<[Z.to_nat i := Some (next_tid tm')]> ts), (mkTidMem (<[next_tid tm' := fresh_tid (next_tid tm')]> (cells tm')) (S (next_tid tm')))].
      + unfold mbind, M_bind, malloc_tid, load_hdr, load, mret, M_ret, lift, on_hdr, store, mbind, M_bind. simpl. rewrite lookup_insert_eq. simpl.
        rewrite aset_Some by lia. unfold load. simpl. rewrite lookup_insert_eq. simpl. rewrite lookup_insert_eq. reflexivity.
      + split_and!.
        * unfold set_nodes, set_tmem. simpl. by rewrite insert_insert_eq.
        * unfold zlen. by rewrite length_insert.
        * unfold tids_below in *. simpl in *. replace (Z.to_nat (i + 1)) with (S (Z.to_nat i)) by lia.
          rewrite (take_S_r _ _ (Some (next_tid tm'))) by (apply list_lookup_insert_eq; unfold zlen in *; lia).
          rewrite take_insert_ge by lia. apply Forall_app. split.
          -- eapply Forall_impl; [exact Hb|]. intros o (p & -> & Hp). exists p. split; [done|]. apply lookup_insert_is_Some'. by right.
          -- constructor; [|done]. eexists. split; [done|]. rewrite lookup_insert_eq. eauto.
        * intros p Hp. apply lookup_insert_is_Some'. right. by apply Hc. }
  intros [] m' (ts & tm' & E & Hts & Hb & Hc). exists ts, tm'. split_and!; try done. unfold tids_below in Hb.
  rewrite take_ge in Hb by (simpl; unfold zlen in *; lia). exact Hb.
Qed.

Lemma list_init_node m l n : nodes m !! l = Some n ->
  runs (list_init (LNode l)) m (fun _ m' => m' = set_nodes (<[l := map_hdr (set_link (mkLink (LNode l) (LNode l))) n]> (nodes m)) m).
Proof.
  intros Hl. unfold list_init, put_prev, put_next, load_link, store_link.
  apply runs_bind, runs_bind, runs_bind. eapply runs_load_hdr; [exact Hl|]. apply runs_ret. eapply runs_on_hdr; [exact Hl|].
  apply runs_bind, runs_bind. eapply runs_load_hdr; [apply lookup_insert_eq|]. apply runs_ret.
  eapply runs_on_hdr; [apply lookup_insert_eq|]. unfold set_nodes. simpl. rewrite insert_insert_eq. by destruct n as [[]|[]].
Qed.

Lemma leaf_new_runs m : runs leaf_new m (fun l m' => exists n, new_leaf m m' l n).
Proof.
  unfold leaf_new. apply runs_bind. eexists _, _. split; [reflexivity|]. set (l := next_loc m).
  eapply runs_bind, runs_load_lf; [apply lookup_insert_eq|]. eapply runs_bind, runs_store; [apply lookup_insert_eq|].
  eapply runs_bind, runs_wand; [eapply list_init_node, lookup_insert_eq|]. intros [] m1 ->.
  eapply runs_bind, runs_on_hdr; [apply lookup_insert_eq|]. eapply runs_bind, runs_on_hdr; [apply lookup_insert_eq|].
  pose proof (fresh_leaf_wf l) as Hwf. eapply runs_bind, runs_wand.
  { eapply leaf_new_tids; [apply lookup_insert_eq|]. destruct Hwf. by split. }
  intros [] m2 (ts & tm' & -> & Hts & Ha & Hc). apply runs_ret.
  exists (on_lf_node (fun h => set_tids ts (set_parent_key_idx (-1) (set_type BPLUS_TREE_LEAF
    (set_link (mkLink (LNode l) (LNode l)) h)))) (bplus_leaf_init (fresh_leaf l))). split; simpl; try done.
  - by rewrite !insert_insert_eq.
  - destruct Hwf. by split.
Qed.

(** ** The first entry *)

(** What holds besides the entries: free locations, valid links, heads for the
    levels. *)
Record sound (m : mem) : Prop := {
  so_fresh l : (next_loc m <= l)%nat -> nodes m !! l = None;
  so_links : links_ok m;
  so_heads : zlen (tlist (tree m)) = BPLUS_MAX_LEVEL;
  so_level : level (tree m) = 0;
  so_room : 0 < t_entries (tree m) <= BPLUS_MAX_ENTRIES
}.

Lemma first_entry n tm key data d tid : leaf_wf n -> tids_alloc tm n -> cstr data = Some d -> zlen d <= DATA_SIZE ->
  exists kk dd p, put_lkey n 0 key = Some (set_lf_key kk n) /\
    put_tid tm (set_lf_key kk n) 0 tid = Some (mkTidMem (<[p := tid]> (cells tm)) (next_tid tm)) /\
    put_data (set_lf_key kk n) 0 data = Some (set_lf_data dd (set_lf_key kk n)) /\
    holds_entries (put_entries (set_lf_data dd (set_lf_key kk n)) 1) [key] [d].
Proof.
  intros Hwf Ha Hs Hd. pose proof (leaf_arrays n Hwf) as [Lk Ld Ld' Lt]. destruct (tids_alloc_lookup tm n 0 Hwf Ha) as (p & Hp & [c Hc]); [lia|].
  set (kk := <[0%nat := key]> (lf_key n)). assert (arrays_ok kk (lf_data n) (tids (lf_node n))) as Hok
    by (split; try done; unfold kk; by rewrite length_insert).
  assert (upd kk (lf_data n) (tids (lf_node n)) n = set_lf_key kk n) as Eu by (by destruct n as [[]]).
  destruct (put_data_upd kk (lf_data n) (tids (lf_node n)) n Hok 0 data d (fun n' => exists b, cstr b = Some d /\ zlen b = 33 /\
    n' = upd kk (<[0%nat := b]> (lf_data n)) (tids (lf_node n)) n)) as (n' & E & b & Hb & Hlb & ->); [lia|done|done|eauto|].
  rewrite Eu in E. assert (upd kk (<[0%nat := b]> (lf_data n)) (tids (lf_node n)) n = set_lf_data (<[0%nat := b]> (lf_data n)) (set_lf_key kk n)) as Eu'
    by (by destruct n as [[]]).
  exists kk, (<[0%nat := b]> (lf_data n)), p. split_and!.
  - unfold put_lkey. rewrite aset_Some by (unfold zlen; lia). done.
  - unfold put_tid. simpl. rewrite (aget_nat _ 0), Hp. simpl. by rewrite Hc.
  - by rewrite E, Eu'.
  - rewrite <- Eu'. apply holds_entries_upd; try done.
    + split; try done; unfold kk; rewrite ?length_insert; try done. by apply Forall_insert.
    + unfold kk. destruct (lf_key n); [simpl in Lk; lia|done].
    + rewrite (texts_insert _ _ _ d) by done. destruct (lf_data n); [simpl in Ld; lia|done].
Qed.

Lemma link_valid_mono m m' r : (forall l, is_Some (nodes m !! l) -> is_Some (nodes m' !! l)) ->
  zlen (tlist (tree m')) = zlen (tlist (tree m)) -> link_valid m r -> link_valid m' r.
Proof. intros Hn Ht. destruct r; simpl; [by rewrite Ht|apply Hn]. Qed.

Lemma new_leaf_links m m' l n : new_leaf m m' l n -> links_ok m -> links_ok m'.
Proof.
  intros Hw [Hh Hn]. assert (forall r, link_valid m r -> link_valid m' r) as Hmono.
  { intros r. apply link_valid_mono; [|by rewrite (nw_tree _ _ _ _ Hw)]. intros l' Hl. rewrite (nw_nodes _ _ _ _ Hw).
    apply lookup_insert_is_Some'. by right. }
  split.
  - rewrite (nw_tree _ _ _ _ Hw). intros lv k E. by eapply Hmono, Hh.
  - rewrite (nw_nodes _ _ _ _ Hw). intros l' n' [[<- <-]|[_ E]]%lookup_insert_Some; [|by eapply Hmono, Hn].
    simpl. rewrite (nw_link _ _ _ _ Hw). simpl. rewrite (nw_nodes _ _ _ _ Hw), lookup_insert_eq. eauto.
Qed.

Lemma same_links m m' : nodes m' = nodes m -> tlist (tree m') = tlist (tree m) -> links_ok m -> links_ok m'.
Proof.
  intros En Et [Hh Hn]. assert (forall r, link_valid m r -> link_valid m' r) as Hmono
    by (intros r; apply link_valid_mono; [by rewrite En|by rewrite Et]).
  split; rewrite ?En, ?Et; intros; eapply Hmono; eauto.
Qed.

(** A node with another contents and the same link. *)
Lemma store_links m l n n' : nodes m !! l = Some n -> link (node_hdr n') = link (node_hdr n) -> links_ok m ->
  links_ok (set_nodes (<[l := n']> (nodes m)) m).
Proof.
  intros Hl E [Hh Hn]. assert (forall r, link_valid m r -> link_valid (set_nodes (<[l := n']> (nodes m)) m) r) as Hmono.
  { intros r. apply link_valid_mono; [|done]. intros l' Hl'. simpl. apply lookup_insert_is_Some'. by right. }
  split; simpl.
  - intros lv k Ek. by eapply Hmono, Hh.
  - intros l' n2 [[<- <-]|[_ E2]]%lookup_insert_Some; [rewrite E|]; by eapply Hmono, Hn.
Qed.

Lemma relinked_sound m m' : relinked_ok m m' -> sound m -> sound m'.
Proof.
  intros [[Hn (hs & Et & Hl) Hx _] Hok] [Hf _ Hh Hlv Hr]. split; rewrite ?Et; simpl; try done; [|by rewrite Hl].
  intros l Hle. rewrite Hx in Hle. pose proof (Hn l) as Hk. rewrite (Hf l Hle) in Hk. by destruct (nodes m' !! l).
Qed.

(** A tree of one leaf. *)
Record one_leaf (m : mem) (l : loc) (es : list (Z * list Z)) : Prop := {
  ol_sound : sound m;
  ol_rep : represents m (BLeaf l es);
  ol_parent n : nodes m !! l = Some (Leaf n) -> parent (lf_node n) = None
}.

Lemma one_leaf_relinked m m' l es : relinked_ok m m' -> one_leaf m l es -> one_leaf m' l es.
Proof.
  intros Hr [Hs Hrep Hp]. split; [by eapply relinked_sound|eapply represents_relinked; [apply Hr|done]|].
  intros n' En'. pose proof (rl_nodes _ _ (proj1 Hr) l) as Hk. rewrite En' in Hk. destruct (nodes m !! l) as [[n|n]|] eqn:En; try done.
  destruct Hk as (h & -> & _ & Hpa). simpl. rewrite Hpa. by apply Hp.
Qed.

(** The first entry: a new leaf becomes the root. *)
Lemma insert_first m key data d tid : sound m -> root (tree m) = None -> cstr data = Some d -> zlen d <= DATA_SIZE ->
  runs (bplus_tree_insert key data tid) m (fun x m' => x = 0 /\ one_leaf m' (next_loc m) [(key, d)] /\
    t_entries (tree m') = t_entries (tree m)).
Proof.
  intros Hs Hroot Hd Hlen. unfold bplus_tree_insert. apply runs_bind, runs_get_tree. rewrite Hroot.
  apply runs_bind. apply runs_ret. eapply runs_bind, runs_wand; [apply leaf_new_runs|]. intros l m1 (n & Hw).
  assert (nodes m1 !! l = Some (Leaf n)) as Hl by (rewrite (nw_nodes _ _ _ _ Hw); apply lookup_insert_eq).
  eapply runs_bind, runs_load_lf; [exact Hl|]. apply runs_bind, runs_get_tm.
  destruct (first_entry n (tmem m1) key data d tid (nw_wf _ _ _ _ Hw) (nw_tids _ _ _ _ Hw) Hd Hlen) as (kk & dd & p & E1 & E2 & E3 & Hh).
  eapply runs_bind, runs_lift; [exact E1|]. eapply runs_bind, runs_lift; [exact E2|]. eapply runs_bind, runs_lift; [exact E3|].
  eapply runs_bind, runs_store; [exact Hl|]. apply runs_bind, runs_put_tm. apply runs_bind, runs_on_tree. apply runs_bind, runs_get_tree.
  simpl. rewrite (nw_tree _ _ _ _ Hw). simpl. set (m2 := set_tree _ _). pose proof (nw_loc _ _ _ _ Hw) as ->.
  assert (one_leaf m2 (next_loc m) [(key, d)]) as Hone.
  { destruct Hs as [Hf Hlk Hhd Hlv Hrm]. split.
    - split; simpl; rewrite ?(nw_tree _ _ _ _ Hw); try done.
      + rewrite (nw_next _ _ _ _ Hw). intros l' Hl'. rewrite lookup_insert_ne by lia. rewrite (nw_nodes _ _ _ _ Hw), lookup_insert_ne by lia.
        apply Hf. lia.
      + eapply (same_links (set_nodes (<[next_loc m := Leaf (put_entries (set_lf_data dd (set_lf_key kk n)) 1)]> (nodes m1)) m1));
          [done|simpl; by rewrite (nw_tree _ _ _ _ Hw)|].
        eapply store_links; [exact Hl|done|by eapply new_leaf_links].
    - split; simpl; rewrite ?(nw_tree _ _ _ _ Hw); try done; [|repeat constructor|apply NoDup_singleton|unfold depth_fuel; lia|apply Hrm].
      eexists. split; [apply lookup_insert_eq|]. split_and!; [apply (nw_type _ _ _ _ Hw)|exact Hh|].
      eapply Forall_impl; [exact (nw_tids _ _ _ _ Hw)|]. intros o (q & -> & Hq). exists q. split; [done|]. apply lookup_insert_is_Some'. by right.
    - simpl. intros n'. rewrite lookup_insert_eq. intros [= <-]. simpl. apply (nw_parent _ _ _ _ Hw). }
  pose proof (ol_sound _ _ _ Hone) as [_ Hlk _ _ _]. eapply runs_bind, runs_wand.
  { apply list_add_relinked; [| |exact Hlk]; simpl.
    - rewrite lookup_insert_eq. eauto.
    - by rewrite (so_heads _ Hs), (so_level _ Hs). }
  intros [] m3 Hr. apply runs_ret. split_and!; [done|by eapply one_leaf_relinked|].
  destruct (rl_tree _ _ (proj1 Hr)) as (hs & -> & _). done.
Qed.

(** ** Insertion into the one leaf *)

Lemma one_leaf_insert m l es key data d tid : one_leaf m l es -> ~ key ∈ es.*1 -> zlen es < t_entries (tree m) ->
  cstr data = Some d -> zlen d <= DATA_SIZE ->
  exists m' r, bplus_tree_insert key data tid m = Some (0, m') /\ one_leaf m' l (insert_at r (key, d) es) /\
    t_entries (tree m') = t_entries (tree m) /\
    to_map (BLeaf l (insert_at r (key, d) es)) = <[key := d]> (to_map (BLeaf l es)).
Proof.
  intros [Hs Hrep Hp] Hnin Hroom Hd Hlen. pose proof (route_leaf key l es) as Hr.
  destruct (insert_absent m _ key l es _ Hrep Hr data d tid) as (m' & t' & E & Hrep' & Hto & (r & ->) & n & n' & tm' & Hn & (Hty & Hpa & Hli) & ->);
    [|done..|]. { by apply not_elem_of_list_to_map. }
  eexists _, r. split; [exact E|]. split_and!; [|done|done]. destruct Hs as [Hf Hlk Hhd Hlv Hrm]. split; [split; try done|done|].
  - intros l' Hl'. simpl. rewrite lookup_insert_ne; [by apply Hf|]. intros <-. rewrite Hf in Hn; done.
  - eapply (same_links (set_nodes (<[l := Leaf n']> (nodes m)) m)); [done..|]. by eapply store_links.
  - simpl. intros n2. rewrite lookup_insert_eq. intros [= <-]. rewrite Hpa. by apply Hp.
Qed.

(** ** The two halves of a full leaf *)

Lemma insert_at_halves {A} (c r : nat) (x : A) xs : (c <= r <= length xs)%nat ->
  take c xs ++ insert_at (r - c) x (drop c xs) = insert_at r x xs.
Proof.
  intros Hr. unfold insert_at. rewrite drop_drop. replace (c + (r - c))%nat with r by lia.
  rewrite (assoc_L (++)). f_equal. rewrite take_drop_commute. replace (c + (r - c))%nat with r by lia.
  rewrite <- (take_drop c (take r xs)) at 2. by rewrite take_take, Nat.min_l by lia.
Qed.

Lemma ordered_halves p l s es1 es2 k v : increasing (es1 ++ (k, v) :: es2).*1 ->
  ordered (BNode p [k] [BLeaf l es1; BLeaf s ((k, v) :: es2)]).
Proof.
  intros Hinc. rewrite fmap_app in Hinc. apply StronglySorted_app in Hinc as (Hx & H1 & H2).
  simpl. split_and!; [repeat constructor|done|done|done|done|]. apply StronglySorted_inv in H2 as [_ H2].
  assert (forall x c, (c <= 1)%nat -> (k <= x <-> (0 < c)%nat) -> child_of [k] x c) as Hc
    by (intros x c Hc Hk; split; [done|]; intros [|j] k'; [by intros [= <-]|done]).
  intros [|[|c]] t' [= <-]; simpl.
  - apply Forall_forall. intros x Hin. apply Hc; [lia|]. assert (x < k) by (apply Hx; [done|by left]). lia.
  - constructor; [apply Hc; lia|]. eapply Forall_impl; [exact H2|]. intros x Hk. simpl in Hk. apply Hc; lia.
Qed.

(** The item pointers and the place of the new leaf. *)
Lemma leaf_split_right_frame (P : option tidloc -> Prop) n sn tm key data tid i :
  Forall P (tids (lf_node n)) -> Forall P (tids (lf_node sn)) ->
  gives (fun r => Forall P (tids (lf_node r.1.2)) /\ same_place (lf_node sn) (lf_node r.1.2)) (leaf_split_right n sn tm key data tid i).
Proof.
  intros Hn Hsn. set (I := fun n' => Forall P (tids (lf_node n')) /\ same_place (lf_node sn) (lf_node n')).
  assert (forall n' j k, I n' -> gives I (put_lkey n' j k)) as Hk by (intros n' j k Hi; split; intros ? E; unfold put_lkey in E; by inv_some).
  assert (forall n' j k, I n' -> gives I (put_data n' j k)) as Hd by (intros n' j k Hi; split; intros ? E; unfold put_data in E; by inv_some).
  unfold leaf_split_right. eapply (gives_bind (fun s => I s.2)).
  - apply (gives_while (fun s => I s.2)); [by split|]. intros [[a b] n1] Hi. simpl in *.
    destruct (negb _); [|by apply gives_some]. eapply gives_bind; [apply gives_any|]. intros k _. eapply gives_bind; [by apply Hk|].
    intros n2 Hi2. eapply (gives_bind P); [split; intros q [_ Hq]%aget_Some; exact (Forall_lookup_1 _ _ _ _ Hn Hq)|].
    intros q Hq. eapply (gives_bind I).
    { split. intros n3 E. unfold put_tid_ptr in E. inv_some. apply aset_inv in E0 as [_ ->]. destruct Hi2. split; [by apply Forall_insert|done]. }
    intros n3 Hi3. eapply gives_bind; [apply gives_any|]. intros d _. eapply gives_bind; [by apply Hd|]. intros n4 Hi4. by apply gives_some.
  - intros [[a b] n1] Hi. simpl in *. eapply (gives_bind I); [destruct (_ <? b); [by apply gives_some|]; eapply gives_bind; [apply gives_any|]; intros _ _; by apply gives_some|].
    intros n2 Hi2. eapply gives_bind; [by apply Hk|]. intros n3 Hi3. eapply gives_bind; [apply gives_any|]. intros tm' _.
    eapply gives_bind; [by apply Hd|]. intros n4 Hi4. by apply gives_some.
Qed.

(** ** A new root above two leaves *)

Record new_non_leaf (m m' : mem) (p : loc) (a : bplus_non_leaf) : Prop := {
  nn_loc : p = next_loc m;
  nn_next : next_loc m' = S (next_loc m);
  nn_nodes : nodes m' = <[p := NonLeaf a]> (nodes m);
  nn_tree : tree m' = tree m;
  nn_tmem : tmem m' = tmem m;
  nn_wf : non_leaf_wf a;
  nn_type : type (nl_node a) = BPLUS_TREE_NON_LEAF;
  nn_link : next (link (nl_node a)) = LNode p
}.

Lemma non_leaf_new_runs m : runs non_leaf_new m (fun p m' => exists a, new_non_leaf m m' p a).
Proof.
  unfold non_leaf_new. apply runs_bind. eexists _, _. split; [reflexivity|]. set (p := next_loc m).
  eapply runs_bind, runs_bind, runs_load_nl; [apply lookup_insert_eq|]. eapply runs_store; [apply lookup_insert_eq|].
  eapply runs_bind, runs_wand; [eapply list_init_node, lookup_insert_eq|]. intros [] m1 ->.
  eapply runs_bind, runs_on_hdr; [apply lookup_insert_eq|]. eapply runs_bind, runs_on_hdr; [apply lookup_insert_eq|].
  apply runs_ret. exists (on_nl_node (fun h => set_parent_key_idx (-1) (set_type BPLUS_TREE_NON_LEAF (set_link (mkLink (LNode p) (LNode p)) h)))
    (bplus_non_leaf_init (fresh_non_leaf p))). split; simpl; try done.
  - by rewrite !insert_insert_eq.
  - destruct (fresh_non_leaf_wf p). by split.
Qed.

(** While the root [p] above the leaves [l] and [s] is built: the leaves keep their
    contents, and the rest of the memory stays. *)
Section Build.
Context (p l s : loc) (ln sn : bplus_leaf) (T : bplus_tree) (tm : tidmem).
Context (Hpl : p <> l) (Hps : p <> s) (Hls : l <> s).

Record building (m : mem) (a : bplus_non_leaf) : Prop := {
  bu_root : nodes m !! p = Some (NonLeaf a);
  bu_left : exists h, nodes m !! l = Some (Leaf (on_lf_node (fun _ => h) ln)) /\ hdr_same (lf_node ln) h;
  bu_right : exists h, nodes m !! s = Some (Leaf (on_lf_node (fun _ => h) sn)) /\ hdr_same (lf_node sn) h;
  bu_links : links_ok m;
  bu_tree : tree m = T;
  bu_tmem : tmem m = tm
}.

(** An assignment to a field of the new root. *)
Lemma building_root m a a' : building m a -> link (nl_node a') = link (nl_node a) ->
  building (set_nodes (<[p := NonLeaf a']> (nodes m)) m) a'.
Proof.
  intros [Hp (h & Hl & Hh) (h' & Hs & Hh') Hlk Ht Htm] El. split; simpl; try done.
  - apply lookup_insert_eq.
  - exists h. by rewrite lookup_insert_ne.
  - exists h'. by rewrite lookup_insert_ne.
  - by eapply store_links.
Qed.

(** An assignment to the header of a leaf below it. *)
Lemma building_leaf m a c f : building m a -> c = l \/ c = s ->
  (forall h, hdr_same h (f h) /\ link (f h) = link h) ->
  runs (on_hdr c f) m (fun _ m' => building m' a).
Proof.
  intros [Hp (h & Hl & Hh) (h' & Hs & Hh') Hlk Ht Htm] Hc Hf.
  assert (forall x y z, hdr_same x y -> hdr_same y z -> hdr_same x z) as Htr by (unfold hdr_same; intros; destruct_and!; split_and!; congruence).
  destruct Hc as [-> | ->].
  - eapply runs_on_hdr; [exact Hl|]. destruct (Hf h) as [Hf1 Hf2]. split; simpl; try done.
    + by rewrite lookup_insert_ne.
    + exists (f h). rewrite lookup_insert_eq. split; [done|by eapply Htr].
    + exists h'. by rewrite lookup_insert_ne.
    + by eapply store_links.
  - eapply runs_on_hdr; [exact Hs|]. destruct (Hf h') as [Hf1 Hf2]. split; simpl; try done.
    + by rewrite lookup_insert_ne.
    + exists h. by rewrite lookup_insert_ne.
    + exists (f h'). rewrite lookup_insert_eq. split; [done|by eapply Htr].
    + by eapply store_links.
Qed.

Lemma building_put_key m a i k : building m a -> 0 <= i < zlen (nl_key a) ->
  runs (put_key p i k) m (fun _ m' => building m' (set_nl_key (<[Z.to_nat i := k]> (nl_key a)) a)).
Proof.
  intros Hb Hi. eapply runs_bind, runs_load_nl; [apply Hb|]. eapply runs_bind, runs_lift; [by apply aset_Some|].
  eapply runs_store; [apply Hb|]. by eapply building_root.
Qed.

Lemma building_put_sub m a i c : building m a -> 0 <= i < zlen (sub_ptr a) ->
  runs (put_sub p i c) m (fun _ m' => building m' (set_sub_ptr (<[Z.to_nat i := c]> (sub_ptr a)) a)).
Proof.
  intros Hb Hi. eapply runs_bind, runs_load_nl; [apply Hb|]. eapply runs_bind, runs_lift; [by apply aset_Some|].
  eapply runs_store; [apply Hb|]. by eapply building_root.
Qed.

(** [p->sub_ptr[i]->parent] and [p->sub_ptr[i]->parent_key_idx]. *)
Lemma building_sub m a i c f : building m a -> aget (sub_ptr a) i = Some (Some c) -> c = l \/ c = s ->
  (forall h, hdr_same h (f h) /\ link (f h) = link h) ->
  runs (do c <- get_sub p i; do c <- deref c; on_hdr c f) m (fun _ m' => building m' a).
Proof.
  intros Hb Hi Hc Hf. eapply runs_bind, runs_get_sub; [apply Hb|exact Hi|]. eapply runs_bind, runs_lift; [done|]. by apply building_leaf.
Qed.

End Build.

Lemma new_non_leaf_links m m' p a : new_non_leaf m m' p a -> links_ok m -> links_ok m'.
Proof.
  intros Hw [Hh Hn]. assert (forall r, link_valid m r -> link_valid m' r) as Hmono.
  { intros r. apply link_valid_mono; [|by rewrite (nn_tree _ _ _ _ Hw)]. intros l' Hl. rewrite (nn_nodes _ _ _ _ Hw).
    apply lookup_insert_is_Some'. by right. }
  split.
  - rewrite (nn_tree _ _ _ _ Hw). intros lv k E. by eapply Hmono, Hh.
  - rewrite (nn_nodes _ _ _ _ Hw). intros l' n' [[<- <-]|[_ E]]%lookup_insert_Some; [|by eapply Hmono, Hn].
    simpl. rewrite (nn_link _ _ _ _ Hw). simpl. rewrite (nn_nodes _ _ _ _ Hw), lookup_insert_eq. eauto.
Qed.

(** [parent_node_build] on two leaves without parent. *)
Lemma root_build above m l s ln sn k : sound m -> l <> s ->
  nodes m !! l = Some (Leaf ln) -> nodes m !! s = Some (Leaf sn) -> parent (lf_node ln) = None -> parent (lf_node sn) = None ->
  runs (parent_node_build above l s k 0) m (fun x m' => x = 0 /\ exists m1 a T,
    building (next_loc m) l s ln sn T (tmem m) m1 a /\ node_holds a [k] [l; s] /\
    root T = Some (next_loc m) /\ t_entries T = t_entries (tree m) /\ relinked m1 m').
Proof.
  intros Hs Hls Hl Hsn Hpl Hps. unfold parent_node_build.
  eapply runs_bind, runs_load_hdr; [exact Hl|]. eapply runs_bind, runs_load_hdr; [exact Hsn|]. simpl. rewrite Hpl, Hps.
  eapply runs_bind, runs_wand; [apply non_leaf_new_runs|]. intros p m0 (a & Hw). pose proof (nn_loc _ _ _ _ Hw) as ->. set (p := next_loc m) in *.
  assert (nodes m !! p = None) as Hnp by (by apply (so_fresh _ Hs)).
  assert (p <> l) as Npl by (intros E; rewrite E, Hl in Hnp; done). assert (p <> s) as Nps by (intros E; rewrite E, Hsn in Hnp; done).
  assert (building p l s ln sn (tree m) (tmem m) m0 a) as Hb.
  { split; rewrite ?(nn_nodes _ _ _ _ Hw), ?(nn_tree _ _ _ _ Hw), ?(nn_tmem _ _ _ _ Hw); try done.
    - apply lookup_insert_eq.
    - exists (lf_node ln). rewrite lookup_insert_ne by done. split; [rewrite Hl; by destruct ln|done].
    - exists (lf_node sn). rewrite lookup_insert_ne by done. split; [rewrite Hsn; by destruct sn|done].
    - eapply new_non_leaf_links; [exact Hw|apply Hs]. }
  destruct (nn_wf _ _ _ _ Hw) as [Wt Wk Ws Wc Wh Wn Wo]. unfold BPLUS_MAX_ORDER in *.
  destruct (nl_key a) as [|k0 ks] eqn:Ek; [done|]. destruct (sub_ptr a) as [|c0 [|c1 cs]] eqn:Ec; [done|done|].
  eapply runs_bind, runs_wand; [eapply building_put_key; [exact Npl|exact Nps|exact Hb|rewrite Ek; lia]|]. clear Hb. intros [] m1 Hb.
  eapply runs_bind, runs_wand; [eapply building_put_sub; [exact Npl|exact Nps|exact Hb|simpl; rewrite Ec; lia]|]. clear Hb. intros [] m2 Hb.
  simpl in Hb. rewrite Ek, Ec in Hb. simpl in Hb.
  eapply runs_bind, runs_wand; [eapply building_sub; [exact Npl|exact Nps|exact Hls|exact Hb|reflexivity|by left|done]|]. clear Hb. intros [] m3 Hb.
  eapply runs_bind, runs_wand; [eapply building_sub; [exact Npl|exact Nps|exact Hls|exact Hb|reflexivity|by left|done]|]. clear Hb. intros [] m4 Hb.
  eapply runs_bind, runs_wand; [eapply building_put_sub; [exact Npl|exact Nps|exact Hb|simpl; unfold zlen in *; simpl in *; lia]|]. clear Hb. intros [] m5 Hb.
  simpl in Hb.
  eapply runs_bind, runs_wand; [eapply building_sub; [exact Npl|exact Nps|exact Hls|exact Hb|reflexivity|by right|done]|]. clear Hb. intros [] m6 Hb.
  eapply runs_bind, runs_wand; [eapply building_sub; [exact Npl|exact Nps|exact Hls|exact Hb|reflexivity|by right|done]|]. clear Hb. intros [] m7 Hb.
  set (a' := set_sub_ptr _ _) in Hb.
  eapply runs_bind, runs_bind, runs_load_nl; [apply Hb|]. eapply runs_store; [apply Hb|].
  apply (building_root p l s ln sn _ _ Npl Nps m7 a' (on_nl_node (set_count 2) a') ) in Hb as Hb'; [|done]. set (m8 := set_nodes _ m7) in *.
  apply runs_bind, runs_on_tree. apply runs_bind, runs_get_tree. apply runs_bind, runs_on_tree.
  match goal with |- runs _ ?M _ => set (m9 := M) end. assert (tree m9 = set_level (level (tree m) + 1) (set_root (Some p) (tree m))) as Et
    by (unfold m9, m8; simpl; by rewrite (bu_tree _ _ _ _ _ _ _ _ _ Hb)).
  assert (building p l s ln sn (tree m9) (tmem m) m9 (on_nl_node (set_count 2) a')) as Hb9.
  { destruct Hb' as [B1 B2 B3 B4 B5 B6]. by split. }
  eapply runs_bind, runs_wand.
  { apply list_add_relinked; [| |apply Hb9].
    - simpl. rewrite lookup_insert_eq. eauto.
    - change (0 <= level (tree m8) + 1 < zlen (tlist (tree m9))). rewrite Et, (bu_tree _ _ _ _ _ _ _ _ _ Hb'). simpl.
      by rewrite (so_heads _ Hs), (so_level _ Hs). }
  intros [] m10 [Hr _]. apply runs_ret. split; [done|]. eexists m9, _, _. split; [exact Hb9|]. rewrite Et. split_and!; try done.
  split_and!; try done. simpl. by rewrite (nn_type _ _ _ _ Hw).
Qed.

(** ** The split of the root leaf *)

Lemma new_leaf_sound m m' l n : new_leaf m m' l n -> sound m -> sound m'.
Proof.
  intros Hw [Hf Hlk Hh Hlv Hr]. split; rewrite ?(nw_tree _ _ _ _ Hw); try done; [|by eapply new_leaf_links].
  rewrite (nw_next _ _ _ _ Hw), (nw_nodes _ _ _ _ Hw), (nw_loc _ _ _ _ Hw). intros l' Hl'. rewrite lookup_insert_ne by lia. apply Hf. lia.
Qed.

Lemma relinked_leaf m m' l n : relinked m m' -> nodes m !! l = Some (Leaf n) ->
  exists h, nodes m' !! l = Some (Leaf (on_lf_node (fun _ => h) n)) /\ hdr_kept (lf_node n) h.
Proof.
  intros Hr Hl. pose proof (rl_nodes _ _ Hr l) as Hk. rewrite Hl in Hk. destruct (nodes m' !! l) as [[b|b]|]; try done.
  destruct Hk as (h & -> & Hh). by exists h.
Qed.

(** Two leaves that hold the halves, and the root built above them. *)
Lemma halves_represented m m1 m' l s ln sn es1 es2 k v a T : l <> s -> sound m ->
  nodes m !! l = Some (Leaf ln) -> nodes m !! s = Some (Leaf sn) ->
  leaf_holds m ln es1 -> leaf_holds m sn ((k, v) :: es2) -> increasing (es1 ++ (k, v) :: es2).*1 ->
  building (next_loc m) l s ln sn T (tmem m) m1 a -> node_holds a [k] [l; s] -> root T = Some (next_loc m) ->
  t_entries T = t_entries (tree m) -> relinked m1 m' ->
  represents m' (BNode (next_loc m) [k] [BLeaf l es1; BLeaf s ((k, v) :: es2)]).
Proof.
  intros Hls Hs Hl Hsn H1 H2 Hinc [B1 (h & B2 & Hh) (h' & B3 & Hh') B4 B5 B6] Ha Hroot Hent Hr. eapply represents_relinked; [exact Hr|].
  assert (next_loc m <> l /\ next_loc m <> s) as [N1 N2].
  { split; intros E; pose proof (so_fresh _ Hs _ (le_n _)) as Hn; rewrite E in Hn; congruence. }
  split.
  - by rewrite B5.
  - simpl. split_and!; [by exists a| | |done].
    + eexists. split; [exact B2|]. by eapply leaf_holds_hdr.
    + eexists. split; [exact B3|]. by eapply leaf_holds_hdr.
  - by apply ordered_halves.
  - simpl. apply NoDup_cons. split; [set_solver|]. apply NoDup_cons. split; [set_solver|apply NoDup_singleton].
  - simpl. unfold depth_fuel. lia.
  - rewrite B5, Hent. apply (so_room _ Hs).
Qed.

(** The new leaf after the split. *)
Lemma split_leaf m n2 sn2 es key data d tid r : leaf_holds m n2 es -> leaf_wf sn2 -> type (lf_node sn2) = BPLUS_TREE_LEAF ->
  tids_alloc (tmem m) sn2 -> (0 < length es <= 50)%nat -> ((length es + 1) / 2 <= r <= length es)%nat ->
  cstr data = Some d -> zlen d <= DATA_SIZE ->
  let split := ((length es + 1) / 2)%nat in
  exists sn' tm', leaf_split_right n2 sn2 (tmem m) key data tid (Z.of_nat r) = Some (put_entries n2 (Z.of_nat split), sn', tm') /\
    same_place (lf_node sn2) (lf_node sn') /\
    (forall m', tmem m' = tm' -> leaf_holds m' (put_entries n2 (Z.of_nat split)) (take split es) /\
      leaf_holds m' sn' (insert_at (r - split) (key, d) (drop split es))).
Proof.
  intros (Hty & Hh & Ha) Hwf Hty2 Ha2 Hlen Hr Hd Hld split. assert (length es.*1 = length es) as Lk by apply length_fmap.
  destruct (tids_alloc_lookup (tmem m) sn2 (r - split) Hwf Ha2 ltac:(unfold split; lia)) as (p & Hp & Hcell).
  destruct (leaf_split_right_yields n2 sn2 (tmem m) es.*1 es.*2 key data d tid r p) as ([[n' sn'] tm'] & E & -> & Hn & Hs & _ & ->);
    rewrite ?Lk; try done.
  rewrite Lk in Hn, Hs, E. destruct (leaf_split_right_frame _ n2 sn2 (tmem m) key data tid (Z.of_nat r) Ha Ha2) as [Hf].
  destruct (Hf _ E) as [Hta Hpl]. simpl in Hta, Hpl. exists sn', (mkTidMem (<[p := tid]> (cells (tmem m))) (next_tid (tmem m))).
  split_and!; [done|done|]. intros m' Et. unfold leaf_holds, tids_alloc. rewrite Et.
  assert (forall P, Forall (fun o => exists q, o = Some q /\ is_Some (cells (tmem m) !! q)) P ->
    Forall (fun o => exists q, o = Some q /\ is_Some (<[p := tid]> (cells (tmem m)) !! q)) P) as Hmono.
  { intros P HP. eapply Forall_impl; [exact HP|]. intros o (q & -> & Hq). exists q. split; [done|]. apply lookup_insert_is_Some'. by right. }
  split; split_and!; [done|by rewrite !fmap_take|by apply Hmono|by rewrite (proj1 Hpl)| |by apply Hmono].
  rewrite !insert_at_fmap, !fmap_drop. exact Hs.
Qed.

(** From the linked new leaf on: the entries are distributed and the root is built. *)
Lemma split_tail m l s n sn es key data d tid above : sound m -> l <> s ->
  nodes m !! l = Some (Leaf n) -> nodes m !! s = Some (Leaf sn) -> parent (lf_node n) = None -> parent (lf_node sn) = None ->
  leaf_holds m n es -> leaf_wf sn -> type (lf_node sn) = BPLUS_TREE_LEAF -> tids_alloc (tmem m) sn ->
  increasing es.*1 -> ~ key ∈ es.*1 -> (0 < length es <= 50)%nat -> cstr data = Some d -> zlen d <= DATA_SIZE ->
  let r := Z.to_nat (rank es.*1 key) in ((length es + 1) / 2 <= r)%nat ->
  runs (do n <- load_lf l; do sn <- load_lf s; do tm <- get_tm;
    do ' (n, sn, tm) <- lift (leaf_split_right n sn tm key data tid (Z.of_nat r));
    do _ <- store_lf l n; do _ <- store_lf s sn; do _ <- put_tm tm; do k <- lift (aget (lf_key sn) 0);
    parent_node_build above l s k 0) m
  (fun x m' => x = 0 /\ exists t', represents m' t' /\ height t' = 1%nat /\ entries_of t' = insert_at r (key, d) es).
Proof.
  intros Hs Hls En Es Hpn Hps Hn Hwf Hty Ha Hinc Hnin Hlen Hd Hld r Hr. pose proof (rank_range es.*1 key) as Hrr. unfold zlen in Hrr.
  rewrite length_fmap in Hrr. destruct (split_leaf m n sn es key data d tid r) as (sn' & tm' & E & Hpl & Hh); [done..|unfold r in *; lia|done|done|].
  set (split := ((length es + 1) / 2)%nat) in *. eapply runs_bind, runs_load_lf; [exact En|]. eapply runs_bind, runs_load_lf; [exact Es|].
  apply runs_bind, runs_get_tm. eapply runs_bind, runs_lift; [exact E|]. eapply runs_bind, runs_store; [exact En|].
  eapply runs_bind, runs_store; [simpl; rewrite lookup_insert_ne by done; exact Es|]. apply runs_bind, runs_put_tm.
  match goal with |- runs _ ?M _ => set (m3 := M) end. destruct (Hh m3 eq_refl) as [H1 H2].
  destruct (insert_at (r - split) (key, d) (drop split es)) as [|[k v] es2] eqn:Ei;
    [unfold insert_at in Ei; by apply app_nil in Ei as [_ ?]|].
  assert (take split es ++ (k, v) :: es2 = insert_at r (key, d) es) as Ees
    by (rewrite <- Ei; apply insert_at_halves; unfold r, split in *; lia).
  eapply runs_bind, runs_lift.
  { destruct H2 as (_ & [_ _ _ Hk _] & _). apply aget_Some. split; [done|]. rewrite <- (lookup_take_lt _ (length (k :: es2.*1))) by (simpl; lia).
    rewrite fmap_cons in Hk. cbn [fst] in Hk. rewrite Hk. reflexivity. }
  assert (sound m3) as Hs3.
  { destruct Hs as [Hf Hlk Hhd Hlv Hrm]. split; try done.
    - simpl. intros l' Hl'. rewrite !lookup_insert_ne; [by apply Hf| |]; intros <-; (rewrite (Hf _ Hl') in En || rewrite (Hf _ Hl') in Es); done.
    - set (m1 := set_nodes (<[l := Leaf (put_entries n (Z.of_nat split))]> (nodes m)) m).
      apply (same_links (set_nodes (<[s := Leaf sn']> (nodes m1)) m1)); [done|done|]. apply (store_links m1 s (Leaf sn)).
      + simpl. by rewrite lookup_insert_ne.
      + apply Hpl.
      + by eapply store_links. }
  assert (nodes m3 !! l = Some (Leaf (put_entries n (Z.of_nat split)))) as E1 by (simpl; rewrite lookup_insert_ne by done; apply lookup_insert_eq).
  assert (nodes m3 !! s = Some (Leaf sn')) as E2 by apply lookup_insert_eq.
  eapply runs_wand; [eapply (root_build above m3 l s _ _ k Hs3 Hls E1 E2); [done|]; destruct Hpl as (_ & -> & _); done|].
  intros x m4 [-> (m' & a & T & Hb & Hno & Hro & Hen & Hrl)]. split; [done|].
  exists (BNode (next_loc m3) [k] [BLeaf l (take split es); BLeaf s ((k, v) :: es2)]). split_and!; [|done|by rewrite <- Ees; simpl; rewrite app_nil_r].
  eapply halves_represented; try done. rewrite Ees, insert_at_fmap. by apply insert_at_increasing.
Qed.

(** A key that belongs behind the middle of the full leaf. *)
Lemma leaf_insert_splits m l es key data d tid : one_leaf m l es -> ~ key ∈ es.*1 -> zlen es = t_entries (tree m) ->
  Z.quot (t_entries (tree m) + 1) 2 <= rank es.*1 key -> cstr data = Some d -> zlen d <= DATA_SIZE ->
  runs (leaf_insert l key data tid) m (fun x m' => x = 0 /\ exists t', represents m' t' /\ height t' = 1%nat /\
    entries_of t' = insert_at (Z.to_nat (rank es.*1 key)) (key, d) es).
Proof.
  intros [Hs Hrep Hpa] Hnin Hfull Hrk Hd Hld. destruct (bt_rep _ _ Hrep) as (n & En & Hn).
  pose proof Hn as (Hty & Hh & Ha). pose proof (bt_ordered _ _ Hrep : increasing es.*1) as Hinc. pose proof (so_room _ Hs) as Hroom.
  pose proof (rank_range es.*1 key) as Hrr. unfold BPLUS_MAX_ENTRIES, zlen in *. rewrite length_fmap in Hrr.
  set (r := Z.to_nat (rank es.*1 key)). set (split := ((length es + 1) / 2)%nat).
  assert (Z.quot (t_entries (tree m) + 1) 2 = Z.of_nat split) as Hsplit by (unfold split; rewrite <- Hfull; rewrite Z.quot_div_nonneg by lia; dlia).
  unfold leaf_insert. eapply runs_bind, runs_load_lf; [exact En|]. eapply runs_bind, runs_lift; [by eapply leaf_key_search|].
  rewrite decide_False by done. assert (0 <=? - rank es.*1 key - 1 = false) as -> by lia. apply runs_bind, runs_get_tree.
  assert (entries n =? t_entries (tree m) = true) as -> by (rewrite (he_count _ _ _ Hh); unfold zlen; rewrite length_fmap; lia).
  eapply runs_bind, runs_wand; [apply leaf_new_runs|]. intros s m1 (sn & Hw). pose proof (new_leaf_sound _ _ _ _ Hw Hs) as Hs1.
  assert (l <> s) as Hls. { rewrite (nw_loc _ _ _ _ Hw). intros ->. by rewrite (so_fresh _ Hs) in En. }
  assert (nodes m1 !! l = Some (Leaf n)) as En1 by (rewrite (nw_nodes _ _ _ _ Hw); by rewrite lookup_insert_ne).
  assert (nodes m1 !! s = Some (Leaf sn)) as Es1 by (rewrite (nw_nodes _ _ _ _ Hw); apply lookup_insert_eq).
  eapply runs_bind, runs_load_lf; [exact En1|]. replace (- (- rank es.*1 key - 1) - 1) with (rank es.*1 key) by lia.
  assert (rank es.*1 key <? Z.quot (t_entries (tree m) + 1) 2 = false) as -> by lia.
  eapply runs_bind, runs_wand; [apply list_add_relinked; [simpl; eauto|simpl; eauto|apply Hs1]|]. intros [] m2 Hr2.
  pose proof (relinked_sound _ _ Hr2 Hs1) as Hs2. destruct Hr2 as [Hr2 _].
  destruct (relinked_leaf _ _ _ _ Hr2 En1) as (h1 & En2 & Hk1 & Hp1), (relinked_leaf _ _ _ _ Hr2 Es1) as (h2 & Es2 & Hk2 & Hp2).
  replace (rank es.*1 key) with (Z.of_nat r) by (unfold r; lia).
  eapply (split_tail m2 l s (on_lf_node (fun _ => h1) n) (on_lf_node (fun _ => h2) sn) es); try done; simpl.
  - rewrite Hp1. by apply Hpa.
  - rewrite Hp2. apply (nw_parent _ _ _ _ Hw).
  - eapply (leaf_holds_hdr m1); [|done|apply Hr2]. split_and!; [done|done|]. eapply Forall_impl; [exact Ha|].
    intros o (q & -> & Hq). exists q. split; [done|]. by apply (nw_cells _ _ _ _ Hw).
  - destruct (nw_wf _ _ _ _ Hw), Hk2 as (_ & _ & Et). split; simpl; congruence || done.
  - destruct Hk2 as (-> & _). apply (nw_type _ _ _ _ Hw).
  - unfold tids_alloc. simpl. destruct Hk2 as (_ & _ & ->). rewrite (rl_tmem _ _ Hr2). apply (nw_tids _ _ _ _ Hw).
  - lia.
  - change (split <= r)%nat. unfold r. lia.
Qed.

(** ** Sequences of insertions *)

(** One call of [bplus_tree_put] after the other, with their results. *)
Fixpoint run_puts (ps : list (Z * list Z * ItemPointerData)) : M (list Z) :=
  match ps with
  | [] => mret []
  | (key, data, tid) :: ps' => do r <- bplus_tree_put key data tid; do rs <- run_puts ps'; mret (r :: rs)
  end.

(** The same on the finite map. *)
Fixpoint puts_spec (mp : gmap Z (list Z)) (qs : list (Z * list Z)) : list Z * gmap Z (list Z) :=
  match qs with
  | [] => ([], mp)
  | (key, d) :: qs' =>
      let q := put_spec mp key d in
      let rest := puts_spec q.2 qs' in
      (q.1 :: rest.1, rest.2)
  end.

(** The key and the string of a call that inserts. *)
Definition insertion (p : Z * list Z * ItemPointerData) (q : Z * list Z) : Prop :=
  p.1.1 = q.1 /\ cstr p.1.2 = Some q.2 /\ zlen q.2 <= DATA_SIZE /\ q.2 <> [48].

Lemma puts_spec_grows mp ps qs : Forall2 insertion ps qs -> (size mp <= size (puts_spec mp qs).2)%nat.
Proof.
  intros Hf. revert mp. induction Hf as [|p [key d] ps qs (_ & _ & _ & Hd) _ IH]; intros mp; simpl; [done|].
  etrans; [|apply IH]. unfold put_spec. simpl in Hd. rewrite decide_False by done. destruct (mp !! key) eqn:E; simpl; [done|].
  rewrite map_size_insert_None by done. lia.
Qed.

Lemma leaf_size l es : increasing es.*1 -> size (to_map (BLeaf l es)) = length es.
Proof. intros Hinc. apply map_size_list_to_map. by apply (ordered_NoDup (BLeaf l es)). Qed.

Lemma one_leaf_put m l es key data d tid : one_leaf m l es -> insertion (key, data, tid) (key, d) ->
  Z.of_nat (size (put_spec (to_map (BLeaf l es)) key d).2) <= t_entries (tree m) ->
  exists m' es', bplus_tree_put key data tid m = Some ((put_spec (to_map (BLeaf l es)) key d).1, m') /\ one_leaf m' l es' /\
    t_entries (tree m') = t_entries (tree m) /\ to_map (BLeaf l es') = (put_spec (to_map (BLeaf l es)) key d).2.
Proof.
  intros Ho (_ & Hd & Hld & Hz) Hsize. simpl in *. rewrite (put_cases m key data d tid Hd).
  revert Hsize. unfold put_spec. rewrite !decide_False by done. intros Hsize. pose proof (ol_rep _ _ _ Ho) as Hrep.
  pose proof (bt_ordered _ _ Hrep : increasing es.*1) as Hinc. pose proof (route_leaf key l es) as Hr.
  destruct (to_map (BLeaf l es) !! key) as [d0|] eqn:E.
  - exists m, es. split_and!; try done. by apply (insert_present m _ key l es _ Hrep Hr).
  - cbn [snd] in Hsize. rewrite map_size_insert_None, (leaf_size l es Hinc) in Hsize by done.
    destruct (one_leaf_insert m l es key data d tid Ho) as (m' & r & Ei & Ho' & Ht & Hto); [|unfold zlen; lia|done|done|].
    + by apply not_elem_of_list_to_map.
    + by eexists m', _.
Qed.

Lemma one_leaf_puts ps qs : Forall2 insertion ps qs -> forall m l es, one_leaf m l es ->
  Z.of_nat (size (puts_spec (to_map (BLeaf l es)) qs).2) <= t_entries (tree m) ->
  exists m' es', run_puts ps m = Some ((puts_spec (to_map (BLeaf l es)) qs).1, m') /\ one_leaf m' l es' /\
    t_entries (tree m') = t_entries (tree m) /\ to_map (BLeaf l es') = (puts_spec (to_map (BLeaf l es)) qs).2.
Proof.
  induction 1 as [|[[k data] tid] [key d] ps qs Hp Hps IH]; intros m l es Ho Hsize; [by exists m, es|].
  pose proof Hp as (Ek & _). simpl in Ek. subst k. cbn [puts_spec fst snd] in *.
  pose proof (puts_spec_grows (put_spec (to_map (BLeaf l es)) key d).2 ps qs Hps) as Hg.
  destruct (one_leaf_put m l es key data d tid Ho Hp) as (m1 & es1 & E & Ho1 & Ht1 & Hto1); [lia|].
  destruct (IH m1 l es1 Ho1) as (m2 & es2 & E2 & Ho2 & Ht2 & Hto2); [by rewrite Hto1, Ht1|].
  exists m2, es2. rewrite Hto1 in *. split_and!; [|done|congruence|done].
  unfold run_puts; fold run_puts. unfold mbind, M_bind. by rewrite E, E2.
Qed.

(** An initialised tree. *)
Lemma init_sound order entries fresh opened t tm : bplus_tree_init true fresh order entries = Some (Some t) -> 0 < entries ->
  let m := mkMem (mybplus_tree_init opened t) ∅ 0 tm ∅ in sound m /\ root (tree m) = None /\ t_entries (tree m) = entries.
Proof.
  intros E He. unfold bplus_tree_init in E. inv_some. simpl in *. inv_some. apply andb_true_iff in E1 as [_ E1].
  split; [|done]. split; simpl; try done; [|unfold BPLUS_MAX_ENTRIES in *; lia]. split; [|done]. simpl.
  intros lv k [_ Hk%list_elem_of_lookup_2]%aget_Some.
  repeat (apply elem_of_cons in Hk as [->|Hk]; [simpl; unfold zlen; simpl; lia|]). by apply not_elem_of_nil in Hk.
Qed.

(** C6. How a tree grows from its initialisation: any sequence of insertions whose
    keys fit into one leaf gives the results and the finite map of the contract,
    refused keys included; when the leaf is full, a new key that belongs behind its
    middle splits it, and the tree of two levels that the memory represents then
    has the finite map with the new entry. *)
Theorem tree_grows (order entries opened : Z) (fresh t : bplus_tree) (tm : tidmem)
    (ps : list (Z * list Z * ItemPointerData)) (qs : list (Z * list Z)) :
  bplus_tree_init true fresh order entries = Some (Some t) -> 0 < entries ->
  ps <> [] -> Forall2 insertion ps qs -> Z.of_nat (size (puts_spec ∅ qs).2) <= entries ->
  exists m l es, run_puts ps (mkMem (mybplus_tree_init opened t) ∅ 0 tm ∅) = Some ((puts_spec ∅ qs).1, m) /\
    represents m (BLeaf l es) /\ to_map (BLeaf l es) = (puts_spec ∅ qs).2 /\
    forall key data d tid, insertion (key, data, tid) (key, d) -> (puts_spec ∅ qs).2 !! key = None ->
      zlen es = entries -> Z.quot (entries + 1) 2 <= rank es.*1 key ->
      exists m' t', bplus_tree_put key data tid m = Some (0, m') /\ represents m' t' /\ height t' = 1%nat /\
        to_map t' = <[key := d]> (puts_spec ∅ qs).2.
Proof.
  intros Ei He Hne Hps Hsize. destruct (init_sound order entries fresh opened t tm Ei He) as (Hs & Hroot & Hent).
  set (m0 := mkMem _ _ _ _ _) in *. destruct Hps as [|[[k data] tid] [key d] ps qs Hp Hps]; [done|]. pose proof Hp as (Ek & Hd & Hld & Hz).
  simpl in Ek, Hd, Hld, Hz. subst k. cbn [puts_spec fst snd] in *.
  assert (put_spec ∅ key d = (0, to_map (BLeaf (next_loc m0) [(key, d)]))) as Eq
    by (unfold put_spec; rewrite decide_False by done; by rewrite lookup_empty).
  rewrite Eq in *. cbn [fst snd] in *.
  destruct (insert_first m0 key data d tid Hs Hroot Hd Hld) as (x & m1 & E1 & -> & Ho1 & Ht1).
  destruct (one_leaf_puts ps qs Hps m1 _ _ Ho1) as (m & es & E & Ho & Ht & Hto); [lia|].
  exists m, (next_loc m0), es. split_and!; [|apply Ho|done|].
  { unfold run_puts; fold run_puts. unfold mbind, M_bind. rewrite (put_cases _ _ _ _ _ Hd), decide_False by done. by rewrite E1, E. }
  intros key' data' d' tid' (_ & Hd' & Hld' & Hz') Hnone Hfull Hrk. simpl in Hd', Hld', Hz'.
  assert (~ key' ∈ es.*1) as Hnin by (by apply not_elem_of_list_to_map; rewrite <- Hto in Hnone).
  destruct (leaf_insert_splits m _ es key' data' d' tid' Ho Hnin) as (x & m' & E' & -> & t' & Hrep' & Hh & Hen); [congruence|congruence|done|done|].
  exists m', t'. split_and!; [|done|done|].
  - rewrite (put_cases _ _ _ _ _ Hd'), decide_False by done.
    by apply (behind_walk m _ key' _ es _ (ol_rep _ _ _ Ho) (route_leaf key' _ es) (fun leaf => match leaf with Some l => leaf_insert l key' data' tid' | None => _ end)).
  - rewrite <- Hto. unfold to_map. rewrite Hen. simpl. rewrite <- list_to_map_cons. symmetry. apply list_to_map_proper.
    + simpl. constructor; [done|]. apply (ordered_NoDup (BLeaf (next_loc m0) es)), Ho.
    + unfold insert_at. rewrite <- (take_drop (Z.to_nat (rank es.*1 key')) es) at 1. by rewrite Permutation_middle.
Qed.

End Grow.

(** ** A tree to evaluate the property on *)

Lemma increasing_pairs (es : list (Z * list Z)) : increasing es.*1 -> StronglySorted (fun p q => p.1 < q.1) es.
Proof.
  induction es as [|e es IH]; [constructor|]. rewrite fmap_cons. intros [Hinc Hf]%StronglySorted_inv. constructor; [by apply IH|].
  rewrite Forall_fmap in Hf. exact Hf.
Qed.

(** The entries of a leaf are determined by their finite map. *)
Lemma leaf_entries_unique l (es es' : list (Z * list Z)) : increasing es.*1 -> increasing es'.*1 ->
  to_map (BLeaf l es) = to_map (BLeaf l es') -> es = es'.
Proof.
  intros H1 H2 E. apply list_to_map_inj in E; [|by apply (ordered_NoDup (BLeaf l es))|by apply (ordered_NoDup (BLeaf l es'))].
  apply (StronglySorted_unique_strong (fun p q : Z * list Z => p.1 < q.1)); [lia|by apply increasing_pairs..|exact E].
Qed.

#[local] Existing Instance demo_malloc.

Definition demo_puts : list (Z * list Z * ItemPointerData) :=
  [(7, s2 ++ [0], mkTid 0 1 1); (9, s3 ++ [0], mkTid 0 1 2); (7, s1 ++ [0], mkTid 0 1 3); (5, s1 ++ [0], mkTid 0 1 4)].
Definition demo_contents : list (Z * list Z) := [(7, s2); (9, s3); (7, s1); (5, s1)].

Lemma demo_insertions : Forall2 insertion demo_puts demo_contents.
Proof. repeat constructor; vm_compute; congruence. Qed.

Definition demo_init : bplus_tree := default (mkTree 0 0 0 None [] 0 0) (default None (bplus_tree_init true (mkTree 0 0 0 None [] 0 0) 5 3)).

Lemma tree_grows_witness :
  exists m l es m' t', run_puts demo_puts (mkMem (mybplus_tree_init 3 demo_init) ∅ 0 tm_of ∅) = Some ([0; 0; -1; 0], m) /\
    represents m (BLeaf l es) /\ bplus_tree_put 8 (s3 ++ [0]) (mkTid 1 2 3) m = Some (0, m') /\ represents m' t' /\ height t' = 1%nat /\
    to_map t' !! 8 = Some s3.
Proof.
  destruct (tree_grows 5 3 3 (mkTree 0 0 0 None [] 0 0) demo_init tm_of demo_puts demo_contents eq_refl eq_refl ltac:(discriminate) demo_insertions)
    as (m & l & es & E & Hrep & Hto & Hsplit); [vm_compute; discriminate|].
  assert (es = [(5, s1); (7, s2); (9, s3)]) as ->.
  { apply (leaf_entries_unique l); [apply (bt_ordered _ _ Hrep)|repeat constructor|]. rewrite Hto. vm_compute. reflexivity. }
  destruct (Hsplit 8 (s3 ++ [0]) s3 (mkTid 1 2 3)) as (m' & t' & E' & Hrep' & Hh & Hto'); [..|].
  - repeat constructor; vm_compute; congruence.
  - vm_compute. reflexivity.
  - reflexivity.
  - vm_compute. discriminate.
  - exists m, l, [(5, s1); (7, s2); (9, s3)], m', t'. split_and!; [exact E|exact Hrep|exact E'|exact Hrep'|exact Hh|].
    rewrite Hto'. apply lookup_insert_eq.
Defined.
