(* ===== verification/CStr.v ===== *)
(** * More of the C library: <string.h>, <stdlib.h> and <stdio.h> on statements

    What the history of statements uses beyond CMem.v: [strtok] with the bytes it
    overwrites, [strstr], [atoi], and the conversions [%d], [%u] and [%s] of
    [sprintf] and [snprintf].  Each loop over [strtok] is related to the list of
    words of a string. *)

From stdpp Require Import strings.
From S2P Require Import Prelude CMem.

(** A string literal: its characters, and its array with the terminator. *)
Definition text (s : string) : list Z := (fun c => Z.of_nat (Ascii.nat_of_ascii c)) <$> String.list_ascii_of_string s.
Definition lit (s : string) : list Z := text s ++ [0].

(** ** strtok *)

Fixpoint skip (d : Z) (s : list Z) : list Z :=
  match s with c :: s' => if c =? d then skip d s' else s | [] => [] end.

Fixpoint word (d : Z) (s : list Z) : list Z :=
  match s with c :: s' => if c =? d then [] else c :: word d s' | [] => [] end.

(** A call with one delimiter on the buffer at the saved position [pos]: the
    buffer, in which the delimiter behind the word is overwritten, the position to
    save and the position of the word. *)
Definition strtok (d : Z) (buf : list Z) (pos : nat) : option (list Z * nat * option nat) :=
  do s <- cstr (drop pos buf);
  let w := skip d s in
  let start := (pos + (length s - length w))%nat in
  let stop := (start + length (word d w))%nat in
  match w with
  | [] => Some (buf, start, None)
  | _ =>
      if (length (word d w) <? length w)%nat then
        do buf <- aset buf (Z.of_nat stop) 0; Some (buf, S stop, Some start)
      else Some (buf, stop, Some start)
  end.

(** [for (t = strtok(buf, d); t != NULL; t = strtok(NULL, d)) body]; the body
    reads the string at [t] and says whether to [break]. *)
Fixpoint strtok_loop {S} (fuel : nat) (d : Z) (body : list Z -> S -> option (S * bool)) (buf : list Z) (pos : nat) (s : S)
    : option (list Z * S) :=
  do ' (buf, pos, tok) <- strtok d buf pos;
  match tok with
  | None => Some (buf, s)
  | Some start =>
      match fuel with
      | O => None
      | Datatypes.S fuel' =>
          do t <- cstr (drop start buf);
          do ' (s, brk) <- body t s;
          if brk : bool then Some (buf, s) else strtok_loop fuel' d body buf pos s
      end
  end.

(** ** strstr, strcmp, atoi, sprintf *)

Fixpoint prefixb (p s : list Z) : bool :=
  match p, s with
  | [], _ => true
  | a :: p', b :: s' => (a =? b) && prefixb p' s'
  | _ :: _, [] => false
  end.

(** [strstr(s, p) != NULL]. *)
Fixpoint strstr (s p : list Z) : bool :=
  prefixb p s || match s with [] => false | _ :: s' => strstr s' p end.

Definition is_digit (c : Z) : bool := (48 <=? c) && (c <=? 57).
Definition is_space (c : Z) : bool := (c =? 32) || (9 <=? c) && (c <=? 13).

Fixpoint skip_space (s : list Z) : list Z :=
  match s with c :: s' => if is_space c then skip_space s' else s | [] => [] end.

Fixpoint atoi_digits (s : list Z) (acc : Z) : Z :=
  match s with c :: s' => if is_digit c then atoi_digits s' (acc * 10 + (c - 48)) else acc | [] => acc end.

(** [atoi]; a value that is no [int] is undefined. *)
Definition atoi (s : list Z) : option Z :=
  let v := match skip_space s with
           | 45 :: s' => - atoi_digits s' 0
           | 43 :: s' => atoi_digits s' 0
           | s' => atoi_digits s' 0
           end in
  if (- 2 ^ 31 <=? v) && (v <? 2 ^ 31) then Some v else None.

(** [n++] on an [int]. *)
Definition int_incr (n : Z) : option Z := if n <? 2 ^ 31 - 1 then Some (n + 1) else None.

Fixpoint digits (fuel : nat) (n : Z) (acc : list Z) : list Z :=
  match fuel with
  | O => acc
  | S fuel' => let acc := (48 + n mod 10) :: acc in if n / 10 =? 0 then acc else digits fuel' (n / 10) acc
  end.

(** The conversions [%u] and [%d]. *)
Definition fmt_u (n : Z) : list Z := digits 20 n [].
Definition fmt_d (n : Z) : list Z := if n <? 0 then 45 :: digits 20 (- n) [] else digits 20 n [].

(** [sprintf(buf, ..)] with the converted arguments, written from left to right. *)
Definition sprintf (buf : list Z) (parts : list (list Z)) : option (list Z) := write_bytes buf 0 (concat parts ++ [0]).

(** [snprintf(buf, n, ..)]. *)
Definition snprintf (buf : list Z) (n : Z) (parts : list (list Z)) : option (list Z) :=
  write_bytes buf 0 (take (Z.to_nat (n - 1)) (concat parts) ++ [0]).

(** ** Words *)

(** The words of a string: its longest parts without the delimiter. *)
Fixpoint words_from (d : Z) (cur s : list Z) : list (list Z) :=
  match s with
  | [] => match cur with [] => [] | _ => [cur] end
  | c :: s' =>
      if c =? d then match cur with [] => words_from d [] s' | _ => cur :: words_from d [] s' end
      else words_from d (cur ++ [c]) s'
  end.

Definition words (d : Z) (s : list Z) : list (list Z) := words_from d [] s.

(** The body for every word up to a [break]. *)
Fixpoint each {S} (body : list Z -> S -> option (S * bool)) (ts : list (list Z)) (s : S) : option S :=
  match ts with
  | [] => Some s
  | t :: ts' => do ' (s, brk) <- body t s; if brk : bool then Some s else each body ts' s
  end.

Lemma skip_split d s : exists k, s = replicate k d ++ skip d s /\ (skip d s = [] \/ exists c w, skip d s = c :: w /\ c <> d).
Proof.
  induction s as [|c s [k [E Hw]]]; [exists O; split; [done|by left]|]. simpl. destruct (Z.eqb_spec c d) as [->|Hne].
  - exists (S k). split; [simpl; by f_equal|done].
  - exists O. split; [done|right]. by exists c, s.
Qed.

Lemma word_split d w : word d w = w /\ Forall (fun c => c <> d) w \/
  exists s, w = word d w ++ d :: s /\ Forall (fun c => c <> d) (word d w).
Proof.
  induction w as [|c w IH]; simpl; [by left|]. destruct (Z.eqb_spec c d) as [->|Hne].
  - right. by exists w.
  - destruct IH as [[E F]|(s & E & F)]; [left|right].
    + by rewrite E at 1; split; [|constructor].
    + exists s. split; [simpl; by f_equal|by constructor].
Qed.

Lemma words_skip d k s : words d (replicate k d ++ s) = words d s.
Proof. induction k as [|k IH]; [done|]. unfold words in *. simpl. by rewrite Z.eqb_refl. Qed.

Lemma words_from_word d cur t s : Forall (fun c => c <> d) t -> words_from d cur (t ++ s) = words_from d (cur ++ t) s.
Proof.
  intros Ht. revert cur. induction Ht as [|c t Hc _ IH]; intros cur; simpl; [by rewrite app_nil_r|].
  apply Z.eqb_neq in Hc. rewrite Hc, IH. by rewrite <- app_assoc.
Qed.

Lemma words_last d t : t <> [] -> Forall (fun c => c <> d) t -> words d t = [t].
Proof.
  intros Hne Ht. unfold words. rewrite <- (app_nil_r t) at 1. rewrite words_from_word by done. simpl. by destruct t.
Qed.

Lemma words_cons d t s : t <> [] -> Forall (fun c => c <> d) t -> words d (t ++ d :: s) = t :: words d s.
Proof.
  intros Hne Ht. unfold words. rewrite words_from_word by done. simpl. rewrite Z.eqb_refl. by destruct t.
Qed.

(** Concatenations, nested to the right. *)
Ltac apps := repeat first [rewrite <- app_assoc | rewrite <- app_comm_cons | rewrite app_nil_l].


Section Strtok.
Context (d : Z) (Hd : d <> 0).

Lemma delims_chars k : chars (replicate k d).
Proof. by apply Forall_replicate. Qed.

Lemma strtok_none pre k rest :
  strtok d (pre ++ replicate k d ++ 0 :: rest) (length pre) = Some (pre ++ replicate k d ++ 0 :: rest, (length pre + k)%nat, None).
Proof.
  unfold strtok. rewrite drop_app_length, cstr_app by apply delims_chars. cbn [mbind option_bind].
  assert (skip d (replicate k d) = []) as -> by (induction k; simpl; [done|by rewrite Z.eqb_refl]).
  rewrite length_replicate. simpl. by rewrite Nat.sub_0_r.
Qed.

Lemma skip_delims k t : t <> [] -> Forall (fun c => c <> d) t -> forall s, skip d (replicate k d ++ t ++ s) = t ++ s.
Proof.
  intros Hne Ht s. induction k as [|k IH]; simpl; [|by rewrite Z.eqb_refl].
  destruct Ht as [|c t Hc]; [done|]. simpl. apply Z.eqb_neq in Hc. by rewrite Hc.
Qed.

Lemma word_last t : Forall (fun c => c <> d) t -> word d t = t.
Proof. induction 1 as [|c t Hc _ IH]; simpl; [done|]. apply Z.eqb_neq in Hc. by rewrite Hc, IH. Qed.

Lemma word_delim t s : Forall (fun c => c <> d) t -> word d (t ++ d :: s) = t.
Proof. induction 1 as [|c t Hc _ IH]; simpl; [by rewrite Z.eqb_refl|]. apply Z.eqb_neq in Hc. by rewrite Hc, IH. Qed.

Lemma strtok_last pre k t rest : t <> [] -> Forall (fun c => c <> d) t -> chars t ->
  strtok d (pre ++ (replicate k d ++ t) ++ 0 :: rest) (length pre)
  = Some (pre ++ (replicate k d ++ t) ++ 0 :: rest, (length pre + k + length t)%nat, Some (length pre + k)%nat).
Proof.
  intros Hne Ht Hc. unfold strtok. rewrite drop_app_length, cstr_app by (apply Forall_app; split; [apply delims_chars|done]).
  cbn [mbind option_bind]. pose proof (skip_delims k t Hne Ht []) as Es. rewrite app_nil_r in Es. rewrite Es, (word_last t Ht).
  rewrite Nat.ltb_irrefl, length_app, length_replicate, Nat.add_sub. by destruct t.
Qed.

Lemma strtok_word pre k t s rest : t <> [] -> Forall (fun c => c <> d) t -> chars t -> chars s ->
  strtok d (pre ++ (replicate k d ++ t ++ d :: s) ++ 0 :: rest) (length pre)
  = Some (pre ++ (replicate k d ++ t ++ 0 :: s) ++ 0 :: rest, (length pre + k + length t + 1)%nat, Some (length pre + k)%nat).
Proof.
  intros Hne Ht Hc Hs. unfold strtok. rewrite drop_app_length, cstr_app
    by (apply Forall_app; split; [apply delims_chars|apply Forall_app; split; [done|by constructor]]).
  cbn [mbind option_bind]. rewrite (skip_delims k t Hne Ht), (word_delim t s Ht).
  rewrite !length_app, length_replicate. simpl length.
  replace (length t <? length t + S (length s))%nat with true by (symmetry; apply Nat.ltb_lt; lia).
  destruct (t ++ d :: s) as [|c' w'] eqn:Ew; [by destruct t|]. cbn match. rewrite <- Ew, Nat.add_sub.
  rewrite aset_Some by (unfold zlen; rewrite !length_app, length_replicate; simpl; lia). cbn [mbind option_bind].
  replace (Z.to_nat (Z.of_nat (length pre + k + length t)))
    with (length (pre ++ replicate k d ++ t) + 0)%nat by (rewrite !length_app, length_replicate; lia).
  replace (pre ++ (replicate k d ++ t ++ d :: s) ++ 0 :: rest) with ((pre ++ replicate k d ++ t) ++ d :: (s ++ 0 :: rest))
    by (apps; reflexivity).
  rewrite insert_app_r. apps. simpl. by rewrite Nat.add_1_r.
Qed.

(** The round of the loop for the last word, which ends it. *)
Lemma strtok_loop_last {S} (body : list Z -> S -> option (S * bool)) fuel pre k t rest st st' :
  t <> [] -> Forall (fun c => c <> d) t -> chars t -> (0 < fuel)%nat -> each body [t] st = Some st' ->
  strtok_loop (Datatypes.S fuel) d body (pre ++ (replicate k d ++ t) ++ 0 :: rest) (length pre) st
  = Some (pre ++ (replicate k d ++ t) ++ 0 :: rest, st').
Proof.
  intros Hne Ht Hc Hf He. cbn [strtok_loop]. rewrite strtok_last by done. cbn [mbind option_bind].
  replace (pre ++ (replicate k d ++ t) ++ 0 :: rest) with ((pre ++ replicate k d) ++ t ++ 0 :: rest) at 1 by by apps.
  replace (length pre + k)%nat with (length (pre ++ replicate k d)) at 1 by (rewrite length_app, length_replicate; lia).
  rewrite drop_app_length, cstr_app by done. cbn [mbind option_bind]. cbn [each] in He.
  destruct (body t st) as [[st1 brk]|]; [|done]. cbn [mbind option_bind] in He |- *.
  destruct brk; injection He as <-; [done|]. destruct fuel as [|fuel']; [lia|].
  cbn [strtok_loop]. pose proof (strtok_none (pre ++ replicate k d ++ t) 0 rest) as En. simpl in En.
  replace (pre ++ (replicate k d ++ t) ++ 0 :: rest) with ((pre ++ replicate k d ++ t) ++ 0 :: rest) by by apps.
  replace (length pre + k + length t)%nat with (length (pre ++ replicate k d ++ t))
    by (rewrite !length_app, length_replicate; lia). by rewrite En.
Qed.

(** The round for a word with a delimiter behind it. *)
Lemma strtok_loop_word {S} (body : list Z -> S -> option (S * bool)) fuel pre k t s rest st st1 (brk : bool) :
  t <> [] -> Forall (fun c => c <> d) t -> chars t -> chars s -> body t st = Some (st1, brk) ->
  strtok_loop (Datatypes.S fuel) d body (pre ++ (replicate k d ++ t ++ d :: s) ++ 0 :: rest) (length pre) st
  = if brk then Some (pre ++ (replicate k d ++ t ++ 0 :: s) ++ 0 :: rest, st1)
    else strtok_loop fuel d body ((pre ++ replicate k d ++ t ++ [0]) ++ s ++ 0 :: rest) (length (pre ++ replicate k d ++ t ++ [0])) st1.
Proof.
  intros Hne Ht Hct Hcs Eb. cbn [strtok_loop]. rewrite strtok_word by done. cbn [mbind option_bind].
  replace (pre ++ (replicate k d ++ t ++ 0 :: s) ++ 0 :: rest) with ((pre ++ replicate k d) ++ t ++ 0 :: (s ++ 0 :: rest)) at 1
    by (apps; reflexivity).
  replace (length pre + k)%nat with (length (pre ++ replicate k d)) by (rewrite length_app, length_replicate; lia).
  rewrite drop_app_length, cstr_app by done. cbn [mbind option_bind]. rewrite Eb. cbn [mbind option_bind]. destruct brk; [done|].
  f_equal; [|rewrite !length_app, length_replicate; simpl; lia]. by apps.
Qed.

(** A loop over [strtok] is a loop over the words; the bytes it leaves start with
    the first word when the string does. *)
Lemma strtok_loop_words {S} (body : list Z -> S -> option (S * bool)) fuel : forall pre s rest st st',
  chars s -> (length s < fuel)%nat -> each body (words d s) st = Some st' ->
  exists x, strtok_loop fuel d body (pre ++ s ++ 0 :: rest) (length pre) st = Some (pre ++ x ++ 0 :: rest, st') /\
    length x = length s /\
    forall c s', s = c :: s' -> c <> d -> exists y, x ++ [0] = word d s ++ 0 :: y.
Proof.
  induction fuel as [|fuel IH]; intros pre s rest st st' Hc Hl He; [lia|].
  destruct (skip_split d s) as (k & Es & Hw). set (w := skip d s) in *. rewrite Es in He, Hc. rewrite words_skip in He.
  destruct Hw as [Hw|(c & w' & Hw & Hcd)].
  { rewrite Hw in *. rewrite app_nil_r in Es. exists s. injection He as <-. split_and!; [|done|].
    - cbn [strtok_loop]. rewrite Es. by rewrite strtok_none.
    - intros c s' -> Hne. destruct k; simplify_eq/=. }
  apply Forall_app in Hc as [_ Hc]. destruct (word_split d w) as [[E Ht]|(s2 & E & Ht)].
  - exists s. rewrite words_last in He by (done || by rewrite Hw). split_and!; [|done|].
    + rewrite Es. apply strtok_loop_last; [by rewrite Hw|done|done| |done]. rewrite Es, length_app, Hw in Hl. simpl in Hl. lia.
    + intros c0 s' Es0 Hne. destruct k; [|rewrite Es in Es0; simplify_eq/=]. simpl in Es. rewrite Es, E. by exists [].
  - assert (word d w <> []) as Hne by (rewrite Hw; simpl; apply Z.eqb_neq in Hcd; by rewrite Hcd).
    set (t := word d w) in *. rewrite E in Hc, He. apply Forall_app in Hc as [Hct Hcs]. apply Forall_cons in Hcs as [_ Hcs].
    rewrite words_cons in He by done. cbn [each] in He. destruct (body t st) as [[st1 brk]|] eqn:Eb; [|done]. cbn [mbind option_bind] in He.
    pose proof (strtok_loop_word body fuel pre k t s2 rest st st1 brk Hne Ht Hct Hcs Eb) as Estep. rewrite <- E, <- Es in Estep.
    assert (forall c0 s', s = c0 :: s' -> c0 <> d -> k = 0%nat) as Hk0.
    { intros c0 s' Es0 Hn0. destruct k; [done|]. rewrite Es in Es0. simplify_eq/=. }
    assert (length s = k + length t + 1 + length s2)%nat as Hls
      by (rewrite Es, E, !length_app, length_replicate; simpl; lia).
    assert (k = 0%nat -> word d s = t) as Hwd by (intros ->; simpl in Es; by rewrite Es).
    destruct brk.
    + injection He as <-. exists (replicate k d ++ t ++ 0 :: s2). split_and!; [exact Estep|rewrite !length_app, length_replicate; simpl; lia|].
      intros c0 s' Es0 Hn0. pose proof (Hk0 c0 s' Es0 Hn0) as ->. rewrite Hwd by done. exists (s2 ++ [0]). simpl. by rewrite <- app_assoc.
    + destruct (IH (pre ++ replicate k d ++ t ++ [0]) s2 rest st1 st' Hcs ltac:(lia) He) as (x & Ex & Hx & _).
      exists (replicate k d ++ t ++ 0 :: x). split_and!.
      * rewrite Estep, Ex. do 2 f_equal. by apps.
      * rewrite !length_app, length_replicate. simpl. lia.
      * intros c0 s' Es0 Hn0. pose proof (Hk0 c0 s' Es0 Hn0) as ->. rewrite Hwd by done. exists (x ++ [0]). simpl. by rewrite <- app_assoc.
Qed.

End Strtok.

(** ** Removing a character *)

Definition without (d : Z) (s : list Z) : list Z := filter (fun c => c <> d) s.

Lemma concat_words d s : concat (words d s) = without d s.
Proof.
  enough (forall cur, concat (words_from d cur s) = cur ++ without d s) as E by apply E.
  unfold without. induction s as [|c s IH]; intros cur; simpl.
  - by destruct cur; simpl; rewrite ?app_nil_r.
  - destruct (Z.eqb_spec c d) as [->|Hne].
    + rewrite filter_cons_False by tauto. destruct cur; simpl; by rewrite IH.
    + rewrite filter_cons_True by done. rewrite IH. by rewrite <- app_assoc.
Qed.

Lemma without_length d s : (length (without d s) <= length s)%nat.
Proof. apply length_filter. Qed.

Lemma without_chars d s : chars s -> chars (without d s).
Proof. intros Hs. apply Forall_forall. intros c [_ Hc]%list_elem_of_filter. unfold chars in Hs. rewrite Forall_forall in Hs. by apply Hs. Qed.

Lemma sprintf_cstr buf parts : Forall chars parts -> zlen (concat parts) < zlen buf ->
  exists buf', sprintf buf parts = Some buf' /\ cstr buf' = Some (concat parts) /\ zlen buf' = zlen buf.
Proof.
  intros Hp Hl. assert (chars (concat parts)) as Hc by (apply Forall_concat; done).
  assert (zlen (concat parts ++ [0]) <= zlen buf) as Hz by (rewrite zlen_app; unfold zlen in *; simpl; lia).
  unfold sprintf. rewrite write_bytes_head by done. eexists. split; [done|]. split.
  - rewrite <- app_assoc. by apply cstr_app.
  - unfold zlen in *. rewrite length_app, length_drop. lia.
Qed.

(** [sprintf(buf, "%s%s", buf, t)] for every word: the words behind each other. *)
Lemma each_append ts : forall buf s, Forall chars ts -> chars s -> cstr buf = Some s ->
  zlen (s ++ concat ts) < zlen buf ->
  exists buf', each (fun t b => do s <- cstr b; do b <- sprintf b [s; t]; Some (b, false)) ts buf = Some buf' /\
    cstr buf' = Some (s ++ concat ts) /\ zlen buf' = zlen buf.
Proof.
  induction ts as [|t ts IH]; intros buf s Ht Hs Hb Hl.
  - exists buf. simpl. by rewrite app_nil_r.
  - apply Forall_cons in Ht as [Ht Hts]. cbn [each]. rewrite Hb. cbn [mbind option_bind].
    assert (concat [s; t] = s ++ t) as Est by (simpl; by rewrite app_nil_r).
    destruct (sprintf_cstr buf [s; t]) as (b1 & E1 & C1 & L1).
    { by repeat constructor. }
    { rewrite Est. unfold zlen in *. simpl in Hl. rewrite !length_app in *. lia. }
    rewrite E1. cbn [mbind option_bind]. rewrite Est in C1.
    destruct (IH b1 (s ++ t) Hts) as (b2 & E2 & C2 & L2); [by apply Forall_app|done|rewrite L1, <- app_assoc; exact Hl|].
    exists b2. split_and!; [done|by rewrite C2, <- app_assoc|by rewrite L2].
Qed.

Lemma words_chars d s : chars s -> Forall chars (words d s).
Proof.
  intros Hs. enough (forall cur, chars cur -> Forall chars (words_from d cur s)) as E by (apply E; constructor).
  induction Hs as [|c s Hc _ IH]; intros cur Hcur; simpl.
  - destruct cur; [constructor|constructor; [done|constructor]].
  - destruct (c =? d); [|apply IH; by apply Forall_app; split; [|constructor]].
    assert (Forall chars (words_from d [] s)) as Hn by (apply IH; constructor). destruct cur; [done|by constructor].
Qed.

(** ** Numbers *)

Lemma atoi_digits_app ds s acc : Forall is_digit ds -> atoi_digits (ds ++ s) acc = atoi_digits s (atoi_digits ds acc).
Proof. intros Hd. revert acc. induction Hd as [|c ds Hc _ IH]; intros acc; simpl; [done|]. destruct (is_digit c); [apply IH|done]. Qed.

Lemma digits_value fuel : forall n acc, 0 <= n < 10 ^ Z.of_nat fuel -> (0 < fuel)%nat ->
  exists ds, digits fuel n acc = ds ++ acc /\ Forall is_digit ds /\ atoi_digits ds 0 = n /\ (0 < length ds <= fuel)%nat.
Proof.
  induction fuel as [|fuel IH]; intros n acc Hn Hf; [lia|]. cbn [digits].
  pose proof (Z.mod_pos_bound n 10 ltac:(lia)) as Hm. pose proof (Z.div_mod n 10 ltac:(lia)) as Hdm.
  assert (is_digit (48 + n mod 10)) as Hdig by (unfold is_digit; apply Is_true_true; lia).
  destruct (Z.eqb_spec (n / 10) 0) as [E|E].
  - exists [48 + n mod 10]. split_and!; [done|by repeat constructor| |simpl; lia|simpl; lia].
    cbn [atoi_digits]. destruct (is_digit _); [lia|done].
  - assert (0 < n / 10) as Hpos by (pose proof (Z.div_pos n 10 ltac:(lia) ltac:(lia)); lia).
    assert (n / 10 < 10 ^ Z.of_nat fuel) as Hlt.
    { apply Z.div_lt_upper_bound; [lia|]. rewrite Nat2Z.inj_succ, Z.pow_succ_r in Hn by lia. lia. }
    assert (0 < fuel)%nat as Hf' by (destruct fuel; [simpl in Hlt; lia|lia]).
    destruct (IH (n / 10) ((48 + n mod 10) :: acc) ltac:(lia) Hf') as (ds & Ed & Hds & Hv & Hl).
    exists (ds ++ [48 + n mod 10]). split_and!; [by rewrite <- app_assoc|apply Forall_app; split; [done|by repeat constructor]| |rewrite length_app; simpl; lia|rewrite length_app; simpl; lia].
    rewrite atoi_digits_app, Hv by done. cbn [atoi_digits]. destruct (is_digit _); [lia|done].
Qed.

Lemma digit_head ds : Forall is_digit ds -> match ds with c :: _ => is_space c = false /\ c <> 45 /\ c <> 43 /\ c <> 0 | [] => True end.
Proof.
  intros Hd. destruct Hd as [|c ds Hc]; [done|]. unfold is_digit in Hc. unfold is_space. apply Is_true_true in Hc. split_and!; lia.
Qed.

(** [atoi] reads back what [%d] prints. *)
Lemma atoi_fmt n : 0 <= n < 2 ^ 31 -> atoi (fmt_d n) = Some n.
Proof.
  intros Hn. unfold fmt_d. destruct (Z.ltb_spec n 0); [lia|].
  destruct (digits_value 20 n []) as (ds & E & Hd & Hv & Hl); [lia|lia|]. rewrite E, app_nil_r. unfold atoi.
  pose proof (digit_head ds Hd) as Hh. destruct ds as [|c ds]; [simpl in Hl; lia|]. destruct Hh as (Hs & H45 & H43 & _).
  cbn [skip_space]. rewrite Hs.
  assert (match c :: ds with 45 :: s' => - atoi_digits s' 0 | 43 :: s' => atoi_digits s' 0 | s' => atoi_digits s' 0 end = n) as ->.
  { rewrite <- Hv. destruct c as [|p|p]; try done. repeat (destruct p as [p|p|]; try done). }
  replace ((- 2 ^ 31 <=? n) && (n <? 2 ^ 31)) with true by lia. done.
Qed.

Lemma fmt_d_chars n : 0 <= n < 2 ^ 31 -> chars (fmt_d n) /\ (0 < length (fmt_d n) <= 20)%nat.
Proof.
  intros Hn. unfold fmt_d. destruct (Z.ltb_spec n 0); [lia|].
  destruct (digits_value 20 n []) as (ds & E & Hd & Hv & Hl); [lia|lia|]. rewrite E, app_nil_r. split; [|lia].
  eapply Forall_impl; [exact Hd|]. intros c Hc%Is_true_true. unfold is_digit in Hc. lia.
Qed.

(** The number of digits. *)
Lemma digits_fuel k : forall fuel n acc, 0 <= n < 10 ^ Z.of_nat k -> (0 < k <= fuel)%nat -> digits fuel n acc = digits k n acc.
Proof.
  induction k as [|k IH]; intros fuel n acc Hn Hk; [lia|]. destruct fuel as [|fuel]; [lia|]. cbn [digits].
  destruct (Z.eqb_spec (n / 10) 0) as [E|E]; [done|].
  assert (0 <= n / 10 < 10 ^ Z.of_nat k) as Hd.
  { split; [apply Z.div_pos; lia|]. apply Z.div_lt_upper_bound; [lia|]. rewrite Nat2Z.inj_succ, Z.pow_succ_r in Hn by lia. lia. }
  apply IH; [done|]. destruct k; [|lia]. change (10 ^ Z.of_nat 0) with 1 in Hd. lia.
Qed.

Lemma fmt_d_length k n : 0 <= n < 10 ^ Z.of_nat k -> (0 < k <= 20)%nat -> (length (fmt_d n) <= k)%nat.
Proof.
  intros Hn Hk. unfold fmt_d. destruct (Z.ltb_spec n 0); [lia|]. rewrite (digits_fuel k) by done.
  destruct (digits_value k n []) as (ds & E & _ & _ & Hl); [done|lia|]. rewrite E, app_nil_r. lia.
Qed.

(** ** strncpy into a cleared block *)
Lemma strncpy_cleared dst src s n : cstr src = Some s -> (length s <= n)%nat -> take (S n) dst = replicate (S n) 0 ->
  strncpy dst src n = Some (s ++ replicate (n - length s) 0 ++ drop n dst) /\
  cstr (s ++ replicate (n - length s) 0 ++ drop n dst) = Some s.
Proof.
  intros Hs Hl Hd. pose proof (cstr_chars _ _ Hs) as Hc. destruct (cstr_inv _ _ Hs) as [rest ->].
  assert (S n <= length dst)%nat as Hn by (pose proof (f_equal length Hd) as E; rewrite length_take, length_replicate in E; lia).
  assert (exists y, drop n dst = 0 :: y) as [y Hy].
  { rewrite <- (take_drop (S n) dst), Hd, drop_app_le by (rewrite length_replicate; lia).
    rewrite drop_replicate. replace (S n - n)%nat with 1%nat by lia. by eexists. }
  split.
  - unfold strncpy. destruct (decide (length s = n)) as [<-|].
    + rewrite strncpy_bytes_full by done. cbn [mbind option_bind]. rewrite write_bytes_head by (unfold zlen; lia).
      by rewrite Nat.sub_diag.
    + rewrite strncpy_bytes_pad by (done || lia). cbn [mbind option_bind].
      assert (length (s ++ replicate (n - length s) 0) = n) as Hln by (rewrite length_app, length_replicate; lia).
      rewrite write_bytes_head by (unfold zlen; lia). by rewrite Hln, <- app_assoc.
  - destruct (n - length s)%nat; simpl; [rewrite Hy|]; by apply cstr_app.
Qed.
