(* ===== verification/Ledger.v ===== *)
(** * The history of statements (parsestring, exec_simple_query and PostgresMain in
    src/src/backend/tcop/postgres.c; ProcessQuery in src/src/backend/tcop/pquery.c;
    getTupleValue and ExecInsertIndexTuples in src/src/backend/executor/execUtils.c)

    Behind an INSERT into an authenticated table the server writes a row into the
    table's history: the values of the statement without quotes and spaces, their
    hash as a signature, the root hash the executor reported, and a hash that links
    the row to the one before.  The hash of the last row and the next number are
    global variables of the backend process.

    The statement is taken apart with [strtok], which overwrites it, and the pieces
    are put together again in blocks from [malloc].  Many of these blocks are
    requested without room for the terminator: what happens depends on how much of
    a block can be used, which is the argument [usable].

    PostgreSQL's parser and executor are the argument [run]: what they report for a
    statement, given the statements executed before. *)

From stdpp Require Import strings.
From S2P Require Import Prelude CMem CStr Heap Merkle.

(** The global variables of the backend. *)
Record ledger := mkLedger { previsou_hash : list Z; tx_id : list Z }.

(** A call of [exec_simple_query]: the statement and the hash for its tag. *)
Record call := mkCall { c_query : list Z; c_hash : option (list Z) }.

Section Server.
Context `{HashFn} `{Malloc} (usable : Z -> Z).

(** [malloc(strlen("'") + strlen(s) + strlen("'"))] and [sprintf(.., "%s%s%s", "'", s, "'")]. *)
Definition quote (src : list Z) : option (list Z) :=
  do s <- cstr src; sprintf (block usable (1 + zlen s + 1)) [text "'"; s; text "'"].

(** The loop over a keyword: every character equals the query's, or is 32 below. *)
Fixpoint same_word (fuel : nat) (query_string str : list Z) (k : Z) (state : bool) : option bool :=
  do n <- strlen str;
  if k <? n then
    match fuel with
    | O => None
    | S fuel' =>
        do c <- aget query_string k;
        do d <- aget str k;
        if (c =? d) || (c =? d + 32) then same_word fuel' query_string str (k + 1) true else Some false
    end
  else Some state.

(** The third word of the query, or the last one; the query is overwritten. *)
Definition third_word (query_string arGet : list Z) : option (list Z * list Z) :=
  do ' (query_string, (_, arGet)) <- strtok_loop (S (length query_string)) 32 (fun t '(count, arGet) =>
    do arGet <- strcpy arGet (t ++ [0]);
    Some ((count + 1, arGet), count + 1 =? 3)) query_string 0 (0, arGet);
  Some (query_string, arGet).

(** [strtok(arGet, "(")]; the result is passed to [strcmp], so NULL is undefined. *)
Definition table_name (arGet : list Z) : option (list Z) :=
  do ' (arGet, _, tok) <- strtok 40 arGet 0;
  do start <- tok;
  cstr (drop start arGet).

(** [strcmp(s, "TABLE") != 0 && strcmp(s, "table") != 0]. *)
Definition not_table (s : list Z) : bool :=
  negb (bool_decide (s = text "TABLE")) && negb (bool_decide (s = text "table")).

Definition lastStr : list Z := text
  "_history(tx_id VARCHAR(20),operation_type VARCHAR(20),operation_content TEXT,signature TEXT,operator VARCHAR(20),state_root VARCHAR(32),previsou_hash TEXT,hash TEXT,date DATE);".

(** CREATE AUTHTABLE: the table for the history. *)
Definition create_history (query_string : list Z) : option (list Z * list call) :=
  do ' (query_string, arGet) <- third_word query_string (block usable 32);
  do szGet <- table_name arGet;
  if not_table szGet && negb (strstr szGet (text "history")) then
    let firstStr := text "CREATE TABLE " in
    do create_string <- sprintf (block usable (zlen firstStr + zlen szGet + zlen lastStr)) [firstStr; szGet; lastStr];
    Some (query_string, [mkCall create_string None])
  else Some (query_string, []).

(** The values of an INSERT: the part behind the last parenthesis after VALUES, up
    to a closing one, without quotes and spaces. *)
Definition values_of (query_string : list Z) : option (list Z * list Z) :=
  do str_query_1 <- zeroed usable 256 256;
  do str_query_2 <- zeroed usable 256 256;
  do str_query_3 <- zeroed usable 256 256;
  do str_query_4 <- zeroed usable 256 256;
  do ' (query_string, (_, str_query_1)) <- strtok_loop (S (length query_string)) 40 (fun t '(count_str, q) =>
    let count_str := if strstr t (text "VALUES") || strstr t (text "values") then count_str + 1 else count_str in
    do q <- (if count_str =? 1 then strcpy q (t ++ [0]) else Some q);
    Some ((count_str, q), false)) query_string 0 (0, str_query_1);
  do ' (_, str_query_2) <- strtok_loop (S (length str_query_1)) 41 (fun t q =>
    do q <- (if bool_decide (t = text ";") || bool_decide (t = text "; ") || bool_decide (t = text " ;") then Some q
             else strcpy q (t ++ [0]));
    Some (q, false)) str_query_1 0 str_query_2;
  do ' (_, str_query_3) <- strtok_loop (S (length str_query_2)) 39 (fun t q =>
    do s <- cstr q; do q <- sprintf q [s; t]; Some (q, false)) str_query_2 0 str_query_3;
  do ' (_, str_query_4) <- strtok_loop (S (length str_query_3)) 32 (fun t q =>
    do s <- cstr q; do q <- sprintf q [s; t]; Some (q, false)) str_query_3 0 str_query_4;
  Some (query_string, str_query_4).

(** The date as [gmtime] gives it: year, month and day. *)
Record date := mkDate { year : Z; month : Z; mday : Z }.

Definition fmt_date (p : date) : list (list Z) := [fmt_d (year p); text "-"; fmt_d (month p); text "-"; fmt_d (mday p)].

(** The columns of the new row. *)
Record columns := mkColumns {
  str_query_5 : list Z;   (* operation_content *)
  str_query_6 : list Z;   (* date *)
  str_query_10 : list Z;  (* operation_type *)
  str_query_11 : list Z;  (* operator *)
  str_query_13 : list Z;  (* state_root *)
  str_query_12 : list Z;  (* signature *)
  str_query_8 : list Z;   (* previsou_hash *)
  str_query_7 : list Z;   (* hash *)
  str_hash : list Z
}.

(** The hash of the row: that of the row before and that of the values, hashed. *)
Definition chain_hash (str_query_5 previsou_hash : list Z) : option (list Z) :=
  do str_half_hash <- zeroed usable 33 33;
  do str_half_hash <- hash_into str_query_5 str_half_hash;
  do tmp_hash <- zeroed usable 64 64;
  do prev <- cstr previsou_hash;
  do half <- cstr str_half_hash;
  do tmp_hash <- sprintf tmp_hash [prev; half];
  do str_hash <- zeroed usable 33 33;
  hash_into tmp_hash str_hash.

Definition columns_of (str_query_4 hashinfo previsou_hash : list Z) (p : date) : option columns :=
  do str_query_5 <- quote str_query_4;
  do str_time <- zeroed usable 32 32;
  do str_time <- sprintf str_time (fmt_date p);
  do str_query_6 <- quote str_time;
  do str_query_10 <- quote (lit "1");
  do str_query_11 <- quote (lit "dsj");
  do str_root <- zeroed usable 33 33;
  do str_root <- strncpy str_root hashinfo 32;
  do str_query_13 <- quote str_root;
  do str_sig <- zeroed usable 33 33;
  do str_sig <- hash_into str_query_5 str_sig;
  do str_query_12 <- quote str_sig;
  do str_phash <- zeroed usable 33 33;
  do str_phash <- strcpy str_phash previsou_hash;
  do str_query_8 <- quote str_phash;
  do str_hash <- chain_hash str_query_5 previsou_hash;
  do str_query_7 <- quote str_hash;
  Some (mkColumns str_query_5 str_query_6 str_query_10 str_query_11 str_query_13 str_query_12 str_query_8 str_query_7 str_hash).

(** A chain of [strcat]. *)
Fixpoint strcats (buf : list Z) (srcs : list (list Z)) : option (list Z) :=
  match srcs with [] => Some buf | s :: srcs' => do buf <- strcat buf s; strcats buf srcs' end.

Definition nextStr : string :=
  "_history(tx_id, operation_type, operation_content, signature, operator, state_root, previsou_hash, hash, date) VALUES(".

(** The row for the history of [szGet1]: the globals move on, then the statement
    is put together. *)
Definition new_row (szGet1 : list Z) (c : columns) (st : ledger) : option (ledger * list Z) :=
  do prev <- strcpy (previsou_hash st) (str_hash c);
  do str_txid <- zeroed usable 33 33;
  do str_txid <- strcpy str_txid (tx_id st);
  do id <- cstr (tx_id st);
  do tmp_id <- atoi id;
  do tmp_id <- int_incr tmp_id;
  do tx <- sprintf (tx_id st) [fmt_d tmp_id];
  do str_query_9 <- quote str_txid;
  do sig <- cstr (str_query_12 c);
  do opter <- cstr (str_query_11 c);
  do nextStr1 <- sprintf (block usable 100) [sig; text ", "; opter; text ", "];
  do insert_string <- strcpy (block usable 1000) (lit "INSERT INTO ");
  do insert_string <- strcats insert_string
    [szGet1 ++ [0]; lit nextStr; str_query_9; lit ", "; str_query_10 c; lit ", "; str_query_5 c; lit ", "; nextStr1;
     str_query_13 c; lit ", "; str_query_8 c; lit ", "; str_query_7 c; lit ", "; str_query_6 c; lit ");"];
  Some (mkLedger prev tx, insert_string).

(** The hash for the completion tag: the root hash, and from byte 32 on the hash of
    the row. *)
Definition tag_hash (hashinfo str_hash : list Z) : option (list Z) :=
  do my_hash <- zeroed usable 65 65;
  do my_hash <- strncpy my_hash hashinfo 32;
  do my_tail <- strncpy (drop 32 my_hash) str_hash 32;
  Some (take 32 my_hash ++ my_tail).

(** INSERT: a row for the history, unless the table is a history or a catalog. *)
Definition insert_history (query_string : list Z) (hashinfo : option (list Z)) (p : date) (st : ledger)
    : option (list Z * ledger * list call) :=
  match hashinfo with
  | None => Some (query_string, st, [])
  | Some hashinfo =>
      do n <- strlen hashinfo;
      if n =? 0 then Some (query_string, st, [])
      else
        do ' (query_string, str_query_4) <- values_of query_string;
        do c <- columns_of str_query_4 hashinfo (previsou_hash st) p;
        do ' (query_string, arGet1) <- third_word query_string (block usable 32);
        do my_hash <- tag_hash hashinfo (str_hash c);
        do szGet1 <- table_name arGet1;
        if not_table szGet1 && negb (strstr szGet1 (text "history")) && negb (strstr szGet1 (text "pg_")) then
          do ' (st, insert_string) <- new_row szGet1 c st;
          Some (query_string, st, [mkCall insert_string (Some my_hash)])
        else Some (query_string, st, [])
  end.

(** [parsestring(query_string, hashinfo)] up to the statement it executes: the
    overwritten query, the globals, and the call. *)
Definition parsestring (query_string : list Z) (hashinfo : option (list Z)) (p : date) (st : ledger)
    : option (list Z * ledger * list call) :=
  do str_create <- zeroed usable 13 13;
  do str_create <- strcpy str_create (lit "CREATE AUTHTABLE");
  do str_insert <- memset (block usable 32) 0 0 6;
  do str_insert <- strcpy str_insert (lit "INSERT");
  do state1 <- same_word (length query_string) query_string str_create 0 false;
  do state2 <- same_word (length query_string) query_string str_insert 0 false;
  if state1 : bool then
    do ' (query_string, calls) <- create_history query_string; Some (query_string, st, calls)
  else if state2 : bool then insert_history query_string hashinfo p st
  else Some (query_string, st, []).

(** What [PostgresMain] initialises. *)
Definition ledger_init : option ledger :=
  do prev <- zeroed usable 32 32;
  do prev <- strcpy prev (lit "11111111111111111111111111111111");
  do tx <- zeroed usable 32 32;
  do tx <- strcpy tx (lit "1");
  Some (mkLedger prev tx).

(** ** Running statements *)

Definition COMPLETION_TAG_BUFSIZE : Z := 64.

(** Case CMD_INSERT of [ProcessQuery]: the root hash the executor reported is
    handed to the plan, and the hash the caller passed goes into the tag. *)
Definition ProcessQuery_insert (lastOid es_processed : Z) (root_hash hashinfo : option (list Z)) (completionTag : list Z)
    : option (option (list Z) * list Z) :=
  do roothash <- match root_hash with
                 | None => Some None
                 | Some r => do b <- strncpy (block usable 65) r 32; Some (Some b)
                 end;
  do completionTag <- match hashinfo with
                      | None => snprintf completionTag COMPLETION_TAG_BUFSIZE [text "INSERT "; fmt_u lastOid; text " "; fmt_u es_processed]
                      | Some h =>
                          do s <- cstr h;
                          snprintf completionTag COMPLETION_TAG_BUFSIZE [text "INSERT "; fmt_u lastOid; text " "; fmt_u es_processed; text " $"; s]
                      end;
  Some (roothash, completionTag).

(** What is left of a statement of the query when its portal has run. *)
Record portal := mkPortal { commandTag : list Z; roothash : option (list Z) }.

(** The variables [hashinfo] and [isAuthinsert] behind one statement. *)
Definition after_portal (q : portal) (s : option (list Z) * bool) : option (option (list Z) * bool) :=
  let '(hashinfo, isAuthinsert) := s in
  let isAuthinsert := if bool_decide (commandTag q = text "CREATE TABLE") then true else isAuthinsert in
  match roothash q with
  | None => Some (hashinfo, isAuthinsert)
  | Some r => do b <- zeroed usable 65 65; do b <- strncpy b r 32; Some (Some b, true)
  end.

Fixpoint after_portals (qs : list portal) (s : option (list Z) * bool) : option (option (list Z) * bool) :=
  match qs with [] => Some s | q :: qs' => do s <- after_portal q s; after_portals qs' s end.

(** How a query ends: it is done, or an error was raised. *)
Inductive outcome := Done | Raised.

(** [run log c]: what parser and executor report for the call [c], given the calls
    executed before; [None] when they raise an error. *)
Context (run : list call -> call -> option (list portal)).

(** [exec_simple_query] and the calls behind it; the log has the calls that were
    executed. *)
Fixpoint exec_simple_query (fuel : nat) (c : call) (p : date) (st : ledger) (log : list call)
    : option (ledger * list call * outcome) :=
  match fuel with
  | O => None
  | S fuel' =>
      match run log c with
      | None => Some (st, log, Raised)
      | Some portals =>
          let log := log ++ [c] in
          do ' (hashinfo, isAuthinsert) <- after_portals portals (None, false);
          if isAuthinsert : bool then
            do ' (_, st, calls) <- parsestring (c_query c) hashinfo p st;
            match calls with
            | [] => Some (st, log, Done)
            | c' :: _ => exec_simple_query fuel' c' p st log
            end
          else Some (st, log, Done)
      end
  end.

(** The queries of a session, one after the other. *)
Fixpoint session (qs : list (list Z * date)) (st : ledger) (log : list call) : option (ledger * list call * list outcome) :=
  match qs with
  | [] => Some (st, log, [])
  | (q, p) :: qs' =>
      do ' (st, log, o) <- exec_simple_query 3 (mkCall q None) p st log;
      do ' (st, log, os) <- session qs' st log;
      Some (st, log, o :: os)
  end.

End Server.
