(* ===== verification/LedgerSpec.v ===== *)
(** * What the history records

    The behaviour of the code of Ledger.v on statements
    [INSERT INTO t VALUES(v);]: the row it writes, the chain the rows of a session
    form, what the hash of the last row says about the rows before, and what
    depends on the room behind the blocks of [malloc]. *)

From stdpp Require Import strings.
From S2P Require Import Prelude CMem CStr Heap Merkle Ledger.

(** ** Rows *)

Definition quoted (s : list Z) : list Z := text "'" ++ s ++ text "'".

(** The values of a statement as the history records them. *)
Definition content (vals : list Z) : list Z := without 32 (without 39 vals).

Definition insert_text (tbl vals : list Z) : list Z :=
  text "INSERT INTO " ++ tbl ++ text " VALUES(" ++ vals ++ text ");".

Section Rows.
Context `{HashFn}.

Definition signature (c : list Z) : list Z := H (quoted c).

(** The hash of a row: the hash of the row before and of the values. *)
Definition link (prev c : list Z) : list Z := H (prev ++ signature c).

Record row := mkRow { r_id : Z; r_content : list Z; r_root : list Z; r_prev : list Z; r_date : list Z }.

Definition r_hash (r : row) : list Z := link (r_prev r) (r_content r).

(** The statement that writes a row. *)
Definition row_text (tbl : list Z) (r : row) : list Z :=
  text "INSERT INTO " ++ tbl ++ text nextStr ++ quoted (fmt_d (r_id r)) ++ text ", " ++ quoted (text "1") ++ text ", "
  ++ quoted (r_content r) ++ text ", " ++ quoted (signature (r_content r)) ++ text ", " ++ quoted (text "dsj") ++ text ", "
  ++ quoted (r_root r) ++ text ", " ++ quoted (r_prev r) ++ text ", " ++ quoted (r_hash r) ++ text ", "
  ++ quoted (r_date r) ++ text ");".

End Rows.

(** A statement the code takes apart as intended. *)
Record plain (tbl vals : list Z) : Prop := {
  pl_name : tbl <> [] /\ chars tbl /\ (length tbl <= 31)%nat;
  pl_word : Forall (fun c => c <> 32) tbl /\ Forall (fun c => c <> 40) tbl;
  pl_table : not_table tbl = true /\ strstr tbl (text "history") = false /\ strstr tbl (text "pg_") = false;
  pl_vals : vals <> [] /\ chars vals /\ Forall byteb vals /\ (length vals <= 253)%nat;
  pl_flat : Forall (fun c => c <> 40) vals /\ Forall (fun c => c <> 41) vals;
  pl_values : strstr (vals ++ text ");") (text "VALUES") = false /\ strstr (vals ++ text ");") (text "values") = false;
  pl_kept : vals <> text ";" /\ vals <> text "; " /\ vals <> text " ;"
}.

(** ** Blocks *)

Section Blocks.
Context `{HashFn} `{Malloc} (usable : Z -> Z) (Huse : forall n, 0 <= n -> n <= usable n).

Lemma block_zlen n : 0 <= n -> zlen (block usable n) = usable n.
Proof. intros Hn. unfold block, zlen. rewrite fresh_bytes_length. specialize (Huse n Hn). lia. Qed.

Lemma zeroed_yields n (k : nat) (Q : list Z -> Prop) : 0 < n -> (0 < k)%nat -> Z.of_nat k <= n ->
  (forall b, zlen b = usable n -> cstr b = Some [] -> take k b = replicate k 0 -> Q b) ->
  yields (zeroed usable n (Z.of_nat k)) Q.
Proof.
  intros Hn Hk Hkn HQ. pose proof (block_zlen n ltac:(lia)) as Hb. specialize (Huse n ltac:(lia)).
  unfold zeroed, memset. replace (0 <=? Z.of_nat k) with true by lia. rewrite Nat2Z.id.
  rewrite write_bytes_head by (rewrite zlen_replicate; lia). apply yields_ret, HQ.
  - unfold zlen in *. rewrite length_app, length_drop, length_replicate. lia.
  - by destruct k; [lia|].
  - apply take_app_length'. by rewrite length_replicate.
Qed.

Lemma quote_yields src s (Q : list Z -> Prop) : cstr src = Some s -> zlen s + 2 < usable (zlen s + 2) ->
  (forall b, cstr b = Some (quoted s) -> Q b) -> yields (quote usable src) Q.
Proof.
  intros Hs Hr HQ. unfold quote. rewrite Hs. cbn [mbind option_bind]. pose proof (zlen_nonneg s).
  destruct (sprintf_cstr (block usable (1 + zlen s + 1)) [text "'"; s; text "'"]) as (b & E & C & _).
  - repeat constructor; try done. by eapply cstr_chars.
  - rewrite block_zlen by lia. cbn [concat]. rewrite !zlen_app. change (zlen (text "'")) with 1. change (zlen []) with 0.
    replace (1 + zlen s + 1) with (zlen s + 2) by lia. lia.
  - eapply yields_eq; [exact E|]. by apply HQ.
Qed.

(** The body of a loop over [strtok] on a buffer with a string. *)
Lemma strtok_loop_yields {S} (d : Z) (body : list Z -> S -> option (S * bool)) buf s st st' (Q : list Z * S -> Prop) :
  d <> 0 -> cstr buf = Some s -> each body (words d s) st = Some st' ->
  (forall buf', length buf' = length buf ->
     (forall c s', s = c :: s' -> c <> d -> cstr buf' = Some (word d s)) -> Q (buf', st')) ->
  yields (strtok_loop (Datatypes.S (length buf)) d body buf 0 st) Q.
Proof.
  intros Hd Hs He HQ. pose proof (cstr_chars _ _ Hs) as Hc. apply cstr_inv in Hs as [rest ->].
  destruct (strtok_loop_words d Hd body (Datatypes.S (length (s ++ 0 :: rest))) [] s rest st st' Hc) as (x & E & Hx & Hw);
    [rewrite length_app; simpl; lia|done|].
  simpl in E. eapply yields_eq; [exact E|]. apply HQ; [rewrite !length_app; simpl; lia|].
  intros c s' Es Hne. destruct (Hw c s' Es Hne) as [y Ey].
  replace (x ++ 0 :: rest) with ((x ++ [0]) ++ rest) by by rewrite <- app_assoc. rewrite Ey, <- app_assoc.
  apply cstr_app. assert (forall s, chars s -> chars (word d s)) as Hch.
  { clear. intros s Hs. induction Hs as [|c s Hc _ IH]; simpl; [constructor|]. destruct (c =? d); [constructor|by constructor]. }
  by apply Hch.
Qed.

End Blocks.

(** ** Taking a statement apart *)

Lemma prefixb_app p s : prefixb p (p ++ s) = true.
Proof. induction p as [|a p IH]; simpl; [done|]. by rewrite Z.eqb_refl, IH. Qed.

Lemma strstr_app a p s : strstr (a ++ p ++ s) p = true.
Proof.
  induction a as [|c a IH]; simpl app.
  - destruct (p ++ s) eqn:E; simpl; rewrite <- E, prefixb_app; done.
  - cbn [strstr]. by rewrite IH, orb_true_r.
Qed.

(** The part of the statement in front of the values. *)
Definition insert_head (tbl : list Z) : list Z := text "INSERT INTO " ++ tbl ++ text " VALUES".

Section Parts.
Context (tbl vals : list Z) (Hp : plain tbl vals).

Lemma insert_words : words 40 (insert_text tbl vals) = [insert_head tbl; vals ++ text ");"].
Proof.
  destruct Hp as [_ [_ Ht] _ _ [Hv _] _ _]. unfold insert_text.
  replace (text "INSERT INTO " ++ tbl ++ text " VALUES(" ++ vals ++ text ");")
    with (insert_head tbl ++ 40 :: (vals ++ text ");")) by (unfold insert_head; simpl; by apps).
  rewrite words_cons, words_last; [done| | | |].
  - by destruct vals.
  - apply Forall_app. split; [done|]. by repeat constructor.
  - by unfold insert_head; simpl.
  - apply Forall_app; split; [by repeat constructor|]. apply Forall_app; split; [done|by repeat constructor].
Qed.

Lemma insert_word : word 40 (insert_text tbl vals) = insert_head tbl.
Proof.
  destruct Hp as [_ [_ Ht] _ _ _ _ _].
  replace (insert_text tbl vals) with (insert_head tbl ++ 40 :: (vals ++ text ");"))
    by (unfold insert_text, insert_head; simpl; by apps).
  apply word_delim. apply Forall_app; split; [by repeat constructor|]. apply Forall_app; split; [done|by repeat constructor].
Qed.

Lemma head_words : words 32 (insert_head tbl) = [text "INSERT"; text "INTO"; tbl; text "VALUES"].
Proof.
  destruct Hp as [[Hne _] [Ht _] _ _ _ _ _]. unfold insert_head.
  change (text "INSERT INTO " ++ tbl ++ text " VALUES") with (text "INSERT" ++ 32 :: (text "INTO" ++ 32 :: (tbl ++ 32 :: text "VALUES"))).
  rewrite !words_cons by (done || by repeat constructor). by rewrite words_last by (done || by repeat constructor).
Qed.

Lemma values_words : words 41 (vals ++ text ");") = [vals; text ";"].
Proof.
  destruct Hp as [_ _ _ (Hne & _) [_ Hv] _ _]. change (text ");") with (41 :: text ";").
  rewrite words_cons by done. by rewrite words_last by (done || by repeat constructor).
Qed.

End Parts.

Section Values.
Context `{HashFn} `{Malloc} (usable : Z -> Z) (Huse : forall n, 0 <= n -> n <= usable n).
Context (tbl vals : list Z) (Hp : plain tbl vals).

Lemma strcpy_lit dst s : chars s -> zlen s < zlen dst ->
  exists dst', strcpy dst (s ++ [0]) = Some dst' /\ cstr dst' = Some s /\ zlen dst' = zlen dst.
Proof. intros Hs Hl. apply strcpy_cstr; [by apply cstr_app|done]. Qed.

Lemma head_chars : chars (insert_head tbl).
Proof.
  destruct Hp as [(_ & Hc & _) _ _ _ _ _ _]. apply Forall_app; split; [by repeat constructor|].
  apply Forall_app; split; [done|by repeat constructor].
Qed.

Lemma tail_chars : chars (vals ++ text ");").
Proof. destruct Hp as [_ _ _ (_ & Hc & _) _ _ _]. apply Forall_app; split; [done|by repeat constructor]. Qed.

(** The loop over the parts in front of parentheses. *)
Lemma first_loop q : zlen q = usable 256 -> cstr q = Some [] ->
  exists q', each (fun t '(count_str, q) =>
    let count_str := if strstr t (text "VALUES") || strstr t (text "values") then count_str + 1 else count_str in
    do q <- (if count_str =? 1 then strcpy q (t ++ [0]) else Some q);
    Some ((count_str, q), false)) (words 40 (insert_text tbl vals)) (0, q) = Some (1, q') /\
  cstr q' = Some (vals ++ text ");") /\ zlen q' = usable 256.
Proof.
  intros Lq Hq. rewrite (insert_words tbl vals Hp). specialize (Huse 256 ltac:(lia)).
  pose proof head_chars as Hc1. pose proof tail_chars as Hc2. destruct Hp as [(_ & _ & Hl) _ _ (_ & _ & _ & Hv) _ [V1 V2] _].
  cbn [each]. assert (strstr (insert_head tbl) (text "VALUES") = true) as ->.
  { unfold insert_head. change (text " VALUES") with ([32] ++ text "VALUES" ++ []). rewrite !app_assoc. rewrite <- (app_assoc _ (text "VALUES") []).
    apply strstr_app. }
  cbn [orb]. change (0 + 1 =? 1) with true. cbn [mbind option_bind]. destruct (strcpy_lit q (insert_head tbl) Hc1) as (q1 & E1 & C1 & L1).
  { rewrite Lq. unfold insert_head, zlen in *. rewrite !length_app. simpl. lia. }
  rewrite E1. cbn [mbind option_bind]. rewrite V1, V2. cbn [orb]. change (0 + 1 =? 1) with true. cbv iota.
  destruct (strcpy_lit q1 (vals ++ text ");") Hc2) as (q2 & E2 & C2 & L2).
  { rewrite L1, Lq. unfold zlen in *. rewrite length_app. simpl. lia. }
  rewrite E2. cbn [mbind option_bind]. exists q2. split_and!; [done|done|lia].
Qed.

(** The loop over the parts in front of closing parentheses. *)
Lemma second_loop q : zlen q = usable 256 -> cstr q = Some [] ->
  exists q', each (fun t q =>
    do q <- (if bool_decide (t = text ";") || bool_decide (t = text "; ") || bool_decide (t = text " ;") then Some q
             else strcpy q (t ++ [0]));
    Some (q, false)) (words 41 (vals ++ text ");")) q = Some q' /\
  cstr q' = Some vals /\ zlen q' = usable 256.
Proof.
  intros Lq Hq. rewrite (values_words tbl vals Hp). specialize (Huse 256 ltac:(lia)).
  destruct Hp as [_ _ _ (_ & Hc & _ & Hv) _ _ (K1 & K2 & K3)]. cbn [each].
  rewrite (bool_decide_eq_false_2 (vals = text ";") K1), (bool_decide_eq_false_2 (vals = text "; ") K2), (bool_decide_eq_false_2 (vals = text " ;") K3). cbn [orb].
  destruct (strcpy_lit q vals Hc) as (q1 & E1 & C1 & L1); [rewrite Lq; unfold zlen; lia|].
  rewrite E1. cbn [mbind option_bind]. rewrite bool_decide_eq_true_2 by done. cbn. exists q1. split_and!; [done|done|lia].
Qed.

Lemma values_of_yields query : cstr query = Some (insert_text tbl vals) ->
  yields (values_of usable query) (fun '(query', q4) => cstr query' = Some (insert_head tbl) /\ cstr q4 = Some (content vals)).
Proof.
  intros Hq. pose proof (Huse 256 ltac:(lia)) as Hu. pose proof Hp as [_ _ _ (_ & Hc & _ & Hv) _ _ _].
  unfold values_of. change (zeroed usable 256 256) with (zeroed usable 256 (Z.of_nat 256)).
  apply yields_bind, (zeroed_yields usable Huse); [lia|lia|lia|]. intros q1 L1 C1 _.
  apply yields_bind, (zeroed_yields usable Huse); [lia|lia|lia|]. intros q2 L2 C2 _.
  apply yields_bind, (zeroed_yields usable Huse); [lia|lia|lia|]. intros q3 L3 C3 _.
  apply yields_bind, (zeroed_yields usable Huse); [lia|lia|lia|]. intros q4 L4 C4 _.
  destruct (first_loop q1 L1 C1) as (q1' & E1 & C1' & L1').
  eapply yields_bind, strtok_loop_yields; [lia|exact Hq|exact E1|]. intros query' _ Hcut. cbn beta iota.
  destruct (second_loop q2 L2 C2) as (q2' & E2 & C2' & L2').
  eapply yields_bind, strtok_loop_yields; [lia|exact C1'|exact E2|]. intros _ _ _. cbn beta iota.
  pose proof (without_length 39 vals) as Hw. pose proof (without_length 32 (without 39 vals)) as Hw2.
  destruct (each_append (words 39 vals) q3 [] (words_chars _ _ Hc) ltac:(constructor) C3) as (q3' & E3 & C3' & L3').
  { rewrite concat_words. unfold zlen in *. simpl. lia. }
  eapply yields_bind, strtok_loop_yields; [lia|exact C2'|exact E3|]. intros _ _ _. cbn beta iota.
  rewrite concat_words in C3'. simpl in C3'.
  destruct (each_append (words 32 (without 39 vals)) q4 [] (words_chars _ _ (without_chars _ _ Hc)) ltac:(constructor) C4) as (q4' & E4 & C4' & L4').
  { rewrite concat_words. unfold zlen in *. simpl. lia. }
  eapply yields_bind, strtok_loop_yields; [lia|exact C3'|exact E4|]. intros _ _ _. cbn beta iota.
  rewrite concat_words in C4'. apply yields_ret. split; [|exact C4'].
  rewrite <- (insert_word tbl vals Hp). by apply (Hcut 73 (text "NSERT INTO " ++ tbl ++ text " VALUES(" ++ vals ++ text ");")).
Qed.

End Values.

(** ** The row of a statement *)

Definition date_text (p : date) : list Z := concat (fmt_date p).

Definition date_ok (p : date) : Prop := 0 <= year p <= 9999 /\ 1 <= month p <= 12 /\ 1 <= mday p <= 31.

Lemma date_chars p : date_ok p -> Forall chars (fmt_date p) /\ zlen (date_text p) <= 10.
Proof.
  intros (Hy & Hm & Hd). split.
  - repeat constructor; try done; apply fmt_d_chars; lia.
  - unfold date_text, fmt_date. cbn [concat]. rewrite !zlen_app. unfold zlen. simpl (length (text _)). simpl (length []).
    pose proof (fmt_d_length 4 (year p)). pose proof (fmt_d_length 2 (month p)). pose proof (fmt_d_length 2 (mday p)). lia.
Qed.

Section Columns.
Context `{HashFn} `{Malloc} (usable : Z -> Z) (Huse : forall n, 0 <= n -> n <= usable n).

(** A block of [n] bytes has room for one more. *)
Definition roomy (n : Z) : Prop := n < usable n.

(** The room a row needs: the blocks that are requested too small. *)
Record slack (c root d id : list Z) : Prop := {
  sk_create : 16 < usable 13;
  sk_quotes : Forall (fun s => roomy (zlen s + 2)) [c; root; d; id; text "1"; text "dsj"];
  sk_hash : roomy 34;
  sk_chain : roomy 64
}.

(** The globals: the hash of the last row and the next number. *)
Record at_row (st : ledger) (prev : list Z) (id : Z) : Prop := {
  ar_prev : cstr (previsou_hash st) = Some prev;
  ar_hash : length prev = 32%nat /\ Forall byteb prev;
  ar_room : 33 <= zlen (previsou_hash st);
  ar_tx : cstr (tx_id st) = Some (fmt_d id);
  ar_id : 0 <= id < 2 ^ 31;
  ar_tx_room : 32 <= zlen (tx_id st)
}.

Record columns_ok (col : columns) (c root d prev : list Z) : Prop := {
  co_5 : cstr (str_query_5 col) = Some (quoted c);
  co_6 : cstr (str_query_6 col) = Some (quoted d);
  co_10 : cstr (str_query_10 col) = Some (quoted (text "1"));
  co_11 : cstr (str_query_11 col) = Some (quoted (text "dsj"));
  co_13 : cstr (str_query_13 col) = Some (quoted root);
  co_12 : cstr (str_query_12 col) = Some (quoted (signature c));
  co_8 : cstr (str_query_8 col) = Some (quoted prev);
  co_7 : cstr (str_query_7 col) = Some (quoted (link prev c));
  co_hash : cstr (str_hash col) = Some (link prev c)
}.

Lemma hash_yields input output msg (Q : list Z -> Prop) : Forall byteb msg -> cstr input = Some msg -> zlen msg < hash_limit ->
  33 <= zlen output -> (forall b, cstr b = Some (H msg) -> Q b) -> yields (hash_into input output) Q.
Proof.
  intros Hb Hm Hl Ho HQ. eapply yields_eq; [by apply hash_into_spec|]. apply HQ, cstr_app, H_chars.
Qed.

Lemma H_zlen s : zlen (H s) = 32.
Proof. unfold zlen. by rewrite H_length. Qed.

Lemma zeroed33_yields (Q : list Z -> Prop) :
  (forall b, 33 <= zlen b -> take 33 b = replicate 33 0 -> Q b) -> yields (zeroed usable 33 33) Q.
Proof.
  intros HQ. apply (zeroed_yields usable Huse 33 33); [lia|lia|lia|]. intros b Hb _ Ht. apply HQ; [|done].
  rewrite Hb. apply Huse. lia.
Qed.

Lemma quoted_bytes s : Forall byteb s -> Forall byteb (quoted s).
Proof.
  intros Hs. assert (byteb 39) by (unfold in_u; lia). unfold quoted.
  apply Forall_app; split; [by repeat constructor|]. apply Forall_app; split; [done|by repeat constructor].
Qed.

Lemma quoted_zlen s : zlen (quoted s) = zlen s + 2.
Proof. unfold quoted. rewrite !zlen_app. change (zlen (text "'")) with 1. lia. Qed.

Lemma chain_hash_yields q5 prevb c prev (Q : list Z -> Prop) : cstr q5 = Some (quoted c) -> Forall byteb c -> zlen c <= 253 ->
  cstr prevb = Some prev -> length prev = 32%nat -> Forall byteb prev -> roomy 64 ->
  (forall b, cstr b = Some (link prev c) -> Q b) -> yields (chain_hash usable q5 prevb) Q.
Proof.
  intros C5 Hcb Hcl Hpv Lp Hpb H64 HQ. unfold chain_hash. pose proof (quoted_zlen c) as Hql.
  assert (zlen c + 2 < hash_limit) as Hlim by (unfold hash_limit; lia).
  apply yields_bind, zeroed33_yields. intros hb Lhb _.
  apply yields_bind, (hash_yields _ _ (quoted c)); [by apply quoted_bytes|done|lia|done|]. intros half Chalf.
  apply yields_bind, (zeroed_yields usable Huse 64 64); [lia|lia|lia|]. intros mb Lmb _ _.
  eapply yields_bind, yields_eq; [exact Hpv|]. eapply yields_bind, yields_eq; [exact Chalf|].
  assert (concat [prev; H (quoted c)] = prev ++ signature c) as Ecat by (simpl; by rewrite app_nil_r).
  destruct (sprintf_cstr mb [prev; H (quoted c)]) as (mb' & Em & Cm & _).
  { repeat constructor; [by eapply cstr_chars|apply H_chars]. }
  { rewrite Ecat, zlen_app, Lmb. unfold signature. rewrite H_zlen. unfold zlen. rewrite Lp. exact H64. }
  eapply yields_bind, yields_eq; [exact Em|]. rewrite Ecat in Cm.
  apply yields_bind, zeroed33_yields. intros ob Lob _.
  apply (hash_yields _ _ (prev ++ signature c)); [apply Forall_app; split; [done|apply H_bytes]|done| |done|done].
  rewrite zlen_app. unfold signature. rewrite H_zlen. unfold zlen, hash_limit. lia.
Qed.

Lemma columns_of_yields q4 hashinfo prevb c root prev p : cstr q4 = Some c -> Forall byteb c -> zlen c <= 253 ->
  cstr hashinfo = Some root -> zlen root <= 32 -> cstr prevb = Some prev -> length prev = 32%nat -> Forall byteb prev ->
  date_ok p -> Forall (fun s => roomy (zlen s + 2)) [c; root; date_text p; text "1"; text "dsj"] -> roomy 34 -> roomy 64 ->
  yields (columns_of usable q4 hashinfo prevb p) (fun col => columns_ok col c root (date_text p) prev).
Proof.
  intros Hc Hcb Hcl Hh Hr Hpv Lp Hpb Hd Hq H34 H64. destruct (date_chars p Hd) as [Hdc Hdl].
  apply Forall_cons in Hq as [Rc Hq]. apply Forall_cons in Hq as [Rr Hq]. apply Forall_cons in Hq as [Rd Hq].
  apply Forall_cons in Hq as [R1 Hq]. apply Forall_cons in Hq as [R3 _].
  unfold columns_of. pose proof (Huse 32 ltac:(lia)) as H32. pose proof (quoted_zlen c) as Hql.
  apply yields_bind, (quote_yields usable Huse _ c); [done|done|]. intros q5 C5.
  apply yields_bind, (zeroed_yields usable Huse 32 32); [lia|lia|lia|]. intros tb Ltb _ _.
  destruct (sprintf_cstr tb (fmt_date p) Hdc) as (tb' & Et & Ct & _); [change (concat (fmt_date p)) with (date_text p); lia|].
  eapply yields_bind, yields_eq; [exact Et|]. apply yields_bind, (quote_yields usable Huse _ (date_text p)); [done|done|]. intros q6 C6.
  apply yields_bind, (quote_yields usable Huse _ (text "1")); [done|done|]. intros q10 C10.
  apply yields_bind, (quote_yields usable Huse _ (text "dsj")); [done|done|]. intros q11 C11.
  apply yields_bind, zeroed33_yields. intros rb Lrb Trb.
  destruct (strncpy_cleared rb hashinfo root 32 Hh) as [Er Cr]; [unfold zlen in Hr; lia|done|].
  eapply yields_bind, yields_eq; [exact Er|]. apply yields_bind, (quote_yields usable Huse _ root); [done|done|]. intros q13 C13.
  apply yields_bind, zeroed33_yields. intros sb Lsb _.
  apply yields_bind, (hash_yields _ _ (quoted c)); [by apply quoted_bytes|done|unfold hash_limit; lia|done|]. intros sig Csig.
  apply yields_bind, (quote_yields usable Huse _ (signature c)); [done|unfold signature; by rewrite H_zlen|]. intros q12 C12.
  apply yields_bind, zeroed33_yields. intros pb Lpb _.
  destruct (strcpy_cstr pb prevb prev Hpv) as (pb' & Ep & Cp & _); [unfold zlen in *; lia|].
  eapply yields_bind, yields_eq; [exact Ep|].
  apply yields_bind, (quote_yields usable Huse _ prev); [done|unfold zlen; by rewrite Lp|]. intros q8 C8.
  apply yields_bind, (chain_hash_yields _ _ c prev); try done. intros hash Chash.
  apply yields_bind, (quote_yields usable Huse _ (link prev c)); [done|unfold link; by rewrite H_zlen|]. intros q7 C7.
  apply yields_ret. by split.
Qed.

Lemma strcats_cstr srcs ss : Forall2 (fun b s => cstr b = Some s) srcs ss -> forall buf d,
  cstr buf = Some d -> zlen (d ++ concat ss) < zlen buf ->
  exists buf', strcats buf srcs = Some buf' /\ cstr buf' = Some (d ++ concat ss).
Proof.
  induction 1 as [|b s srcs ss Hb _ IH]; intros buf d Hd Hl; simpl in *; [exists buf; by rewrite app_nil_r|].
  destruct (strcat_cstr buf b d s Hd Hb) as (b1 & E & C & L).
  { unfold zlen in *. rewrite !length_app in Hl. lia. }
  rewrite E. cbn [mbind option_bind]. destruct (IH b1 (d ++ s) C) as (b2 & E2 & C2).
  { by rewrite L, <- app_assoc. }
  exists b2. split; [done|]. by rewrite C2, <- app_assoc.
Qed.

Lemma lit_cstr s : chars (text s) -> cstr (lit s) = Some (text s).
Proof. intros Hs. by apply cstr_app. Qed.

Lemma new_row_yields tbl col st id c root d prev : (length tbl <= 31)%nat -> chars tbl ->
  columns_ok col c root d prev -> at_row st prev id -> id < 2 ^ 31 - 1 -> zlen c <= 253 -> zlen root <= 32 -> zlen d <= 10 ->
  roomy (zlen (fmt_d id) + 2) ->
  yields (new_row usable tbl col st) (fun '(st', ins) =>
    at_row st' (link prev c) (id + 1) /\ cstr ins = Some (row_text tbl (mkRow id c root prev d))).
Proof.
  intros Ltb Htb [C5 C6 C10 C11 C13 C12 C8 C7 Ch] [Hpv [Lp Hpb] Hpr Htx Hid Htr] Hmax Lc Lr Ld Hrt.
  destruct (fmt_d_chars id) as [Hic Hil]; [lia|]. destruct (fmt_d_chars (id + 1)) as [Hic1 Hil1]; [lia|].
  pose proof (Huse 33 ltac:(lia)) as U33. pose proof (Huse 100 ltac:(lia)) as U100. pose proof (Huse 1000 ltac:(lia)) as U1000.
  unfold new_row. destruct (strcpy_cstr (previsou_hash st) (str_hash col) _ Ch) as (pv & Epv & Cpv & Lpv).
  { unfold link. rewrite H_zlen. lia. }
  eapply yields_bind, yields_eq; [exact Epv|]. apply yields_bind, zeroed33_yields. intros tb Ltxb _.
  destruct (strcpy_cstr tb (tx_id st) _ Htx) as (tb' & Etb & Ctb & _); [unfold zlen in *; lia|].
  eapply yields_bind, yields_eq; [exact Etb|]. eapply yields_bind, yields_eq; [exact Htx|].
  eapply yields_bind, yields_eq; [apply atoi_fmt; lia|].
  eapply yields_bind, yields_eq; [unfold int_incr; replace (id <? 2 ^ 31 - 1) with true by lia; reflexivity|].
  destruct (sprintf_cstr (tx_id st) [fmt_d (id + 1)]) as (tx' & Etx & Ctx & Ltx); [by repeat constructor| |].
  { simpl. rewrite app_nil_r. unfold zlen in *. lia. }
  eapply yields_bind, yields_eq; [exact Etx|]. simpl in Ctx. rewrite app_nil_r in Ctx.
  apply yields_bind, (quote_yields usable Huse _ (fmt_d id)); [done|done|]. intros q9 C9.
  eapply yields_bind, yields_eq; [exact C12|]. eapply yields_bind, yields_eq; [exact C11|].
  destruct (sprintf_cstr (block usable 100) [quoted (signature c); text ", "; quoted (text "dsj"); text ", "]) as (n1 & En1 & Cn1 & _).
  { pose proof (cstr_chars _ _ C12) as Hsc. repeat (apply Forall_cons; split; [first [exact Hsc|by repeat constructor]|]). constructor. }
  { rewrite (block_zlen usable Huse) by lia. cbn [concat]. rewrite !zlen_app, !quoted_zlen. unfold signature. rewrite H_zlen. unfold zlen. simpl. lia. }
  eapply yields_bind, yields_eq; [exact En1|].
  destruct (strcpy_cstr (block usable 1000) (lit "INSERT INTO ") (text "INSERT INTO ") eq_refl) as (s0 & Es0 & Cs0 & Ls0).
  { rewrite (block_zlen usable Huse) by lia. unfold zlen. simpl. lia. }
  eapply yields_bind, yields_eq; [exact Es0|]. rewrite (block_zlen usable Huse) in Ls0 by lia.
  edestruct (strcats_cstr [tbl ++ [0]; lit nextStr; q9; lit ", "; str_query_10 col; lit ", "; str_query_5 col; lit ", "; n1;
     str_query_13 col; lit ", "; str_query_8 col; lit ", "; str_query_7 col; lit ", "; str_query_6 col; lit ");"])
    as (ins & Eins & Cins); [repeat constructor; first [exact C9|exact C10|exact C5|exact Cn1|exact C13|exact C8|exact C7|exact C6|by apply cstr_app|reflexivity]|exact Cs0| |].
  { cbn [concat]. rewrite !zlen_app, !quoted_zlen. unfold signature, link. rewrite !H_zlen. unfold zlen in *. rewrite Ls0, Lp. simpl. lia. }
  eapply yields_bind, yields_eq; [exact Eins|]. apply yields_ret. split.
  - split; simpl; [done| |lia|done|lia|lia]. split; [apply H_length|apply H_bytes].
  - rewrite Cins. unfold row_text. simpl r_id. simpl r_content. simpl r_root. simpl r_prev. simpl r_date. unfold r_hash. simpl r_prev. simpl r_content.
    cbn [concat]. by apps.
Qed.

End Columns.

(** ** The whole statement *)

(** The keyword loop on a query that starts with the keyword. *)
Lemma same_word_true q w buf : cstr buf = Some w -> forall pre s state fuel, w = pre ++ s -> prefixb w q = true ->
  (length s <= fuel)%nat -> same_word fuel q buf (zlen pre) state = Some (match s with [] => state | _ => true end).
Proof.
  intros Hb pre s. revert pre. induction s as [|c s IH]; intros pre state fuel Hw Hq Hf.
  - destruct fuel; simpl; rewrite (strlen_cstr _ _ Hb); cbn [mbind option_bind]; rewrite Hw, app_nil_r, Z.ltb_irrefl; done.
  - destruct fuel as [|fuel]; [simpl in Hf; lia|]. cbn [same_word]. rewrite (strlen_cstr _ _ Hb). cbn [mbind option_bind].
    assert (zlen pre < zlen w) as Hlt%Z.ltb_lt by (rewrite Hw, zlen_app; unfold zlen; cbn [length]; lia). rewrite Hlt.
    assert (q !! length pre = Some c) as Hc.
    { rewrite Hw in Hq. clear -Hq. revert q Hq. induction pre as [|a pre IH]; intros [|b q] Hq; simpl in *; try done.
      - apply andb_prop in Hq as [E%Z.eqb_eq _]. by subst.
      - apply andb_prop in Hq as [_ Hq]. by apply IH. }
    destruct (cstr_inv _ _ Hb) as [rest Hbuf].
    assert (buf !! length pre = Some c) as Hd by (rewrite Hbuf, Hw, <- app_assoc, lookup_app_r, Nat.sub_diag by lia; done).
    unfold zlen. rewrite !aget_nat, Hc, Hd. cbn [mbind option_bind]. rewrite Z.eqb_refl. cbn [orb].
    replace (Z.of_nat (length pre) + 1) with (zlen (pre ++ [c])) by (unfold zlen; rewrite length_app; simpl; lia).
    rewrite (IH (pre ++ [c]) true fuel); [by destruct s|by rewrite <- app_assoc|done|cbn [length] in Hf; lia].
Qed.

(** The keyword loop on a query with another first character. *)
Lemma same_word_false q w buf a b : cstr buf = Some (b :: w) -> q !! 0%nat = Some a -> a <> b -> a <> b + 32 ->
  same_word (length q) q buf 0 false = Some false.
Proof.
  intros Hb Ha Hne Hne'. destruct q as [|a' q]; [done|]. injection Ha as ->. cbn [same_word length].
  rewrite (strlen_cstr _ _ Hb). cbn [mbind option_bind]. assert (0 < zlen (b :: w)) as Hlt%Z.ltb_lt by (unfold zlen; simpl; lia). rewrite Hlt.
  destruct (cstr_inv _ _ Hb) as [rest ->]. simpl. replace ((a =? b) || (a =? b + 32)) with false by lia. done.
Qed.

Section Statement.
Context `{HashFn} `{Malloc} (usable : Z -> Z) (Huse : forall n, 0 <= n -> n <= usable n).
Context (tbl vals : list Z) (Hp : plain tbl vals).

Lemma third_word_yields q : cstr q = Some (insert_head tbl) ->
  yields (third_word q (block usable 32)) (fun '(_, ar) => cstr ar = Some tbl).
Proof.
  intros Hq. pose proof (block_zlen usable Huse 32 ltac:(lia)) as Lb. pose proof (Huse 32 ltac:(lia)) as U32.
  pose proof Hp as [(_ & Hc & Hl) _ _ _ _ _ _].
  destruct (strcpy_lit (block usable 32) (text "INSERT")) as (b1 & E1 & C1 & L1); [by repeat constructor|unfold zlen in *; simpl; lia|].
  destruct (strcpy_lit b1 (text "INTO")) as (b2 & E2 & C2 & L2); [by repeat constructor|unfold zlen in *; simpl; lia|].
  destruct (strcpy_lit b2 tbl Hc) as (b3 & E3 & C3 & L3); [unfold zlen in *; lia|].
  unfold third_word. eapply yields_bind, strtok_loop_yields; [lia|exact Hq| |].
  { rewrite (head_words tbl vals Hp). cbn [each]. rewrite E1. cbn [mbind option_bind]. change (0 + 1 =? 3) with false. cbv iota.
    rewrite E2. cbn [mbind option_bind]. change (0 + 1 + 1 =? 3) with false. cbv iota. rewrite E3. reflexivity. }
  intros q' _ _. by apply yields_ret.
Qed.

Lemma table_name_yields ar : cstr ar = Some tbl -> table_name ar = Some tbl.
Proof.
  intros Har. pose proof Hp as [(Hne & Hc & _) [_ Hn] _ _ _ _ _]. destruct (cstr_inv _ _ Har) as [rest ->].
  unfold table_name. pose proof (strtok_last 40 ltac:(lia) [] 0 tbl rest Hne Hn Hc) as E. simpl in E. rewrite E.
  cbn [mbind option_bind]. by rewrite drop_0.
Qed.

Lemma content_bytes : Forall byteb (content vals) /\ zlen (content vals) <= 253.
Proof.
  destruct Hp as [_ _ _ (_ & _ & Hb & Hl) _ _ _]. split.
  - apply Forall_forall. intros c [_ [_ Hc]%list_elem_of_filter]%list_elem_of_filter. rewrite Forall_forall in Hb. by apply Hb.
  - unfold content, zlen. pose proof (without_length 32 (without 39 vals)). pose proof (without_length 39 vals). lia.
Qed.

(** The hash for the tag. *)
Lemma tag_hash_yields hashinfo root hb hash : cstr hashinfo = Some root -> zlen root <= 32 -> cstr hb = Some hash -> length hash = 32%nat ->
  yields (tag_hash usable hashinfo hb) (fun b =>
    cstr b = Some (if decide (length root = 32%nat) then root ++ hash else root)).
Proof.
  intros Hr Lr Hh Lh. unfold zlen in Lr. apply yields_bind, (zeroed_yields usable Huse 65 65); [lia|lia|lia|]. intros mb Lmb _ Tmb.
  assert (take 33 mb = replicate 33 0) as T33 by (change 33%nat with (Nat.min 33 65) at 1; rewrite <- take_take, Tmb; reflexivity).
  destruct (strncpy_cleared mb hashinfo root 32 Hr) as [Em _]; [lia|exact T33|].
  eapply yields_bind, yields_eq; [exact Em|]. set (pad := replicate (32 - length root) 0).
  assert (length (root ++ pad) = 32%nat) as Lpad by (unfold pad; rewrite length_app, length_replicate; lia).
  rewrite (app_assoc root pad), (drop_app_length' _ _ 32), (take_app_length' _ _ 32) by lia.
  destruct (strncpy_cleared (drop 32 mb) hb hash 32 Hh) as [Et Ct].
  { lia. }
  { rewrite take_drop_commute; change (32 + 33)%nat with 65%nat; rewrite Tmb. reflexivity. }
  eapply yields_bind, yields_eq; [exact Et|]. apply yields_ret. pose proof (cstr_chars _ _ Hr) as Hrc. case_decide as Hd.
  - unfold pad. rewrite Hd, app_nil_r. destruct (cstr_inv _ _ Ct) as [rest ->]. rewrite app_assoc. apply cstr_app.
    apply Forall_app; split; [done|by eapply cstr_chars].
  - unfold pad. destruct (32 - length root)%nat eqn:E; [lia|]. rewrite <- app_assoc. by apply cstr_app.
Qed.

(** What [parsestring] does with the statement. *)
Lemma insert_history_yields query hashinfo root p st prev id :
  cstr query = Some (insert_text tbl vals) -> cstr hashinfo = Some root -> root <> [] -> zlen root <= 32 -> date_ok p ->
  at_row st prev id -> id < 2 ^ 31 - 1 -> slack usable (content vals) root (date_text p) (fmt_d id) ->
  yields (insert_history usable query (Some hashinfo) p st) (fun '(_, st', calls) =>
    at_row st' (link prev (content vals)) (id + 1) /\
    exists ins my_hash, calls = [mkCall ins (Some my_hash)] /\
      cstr ins = Some (row_text tbl (mkRow id (content vals) root prev (date_text p))) /\
      cstr my_hash = Some (if decide (length root = 32%nat) then root ++ link prev (content vals) else root)).
Proof.
  intros Hq Hh Hne Hrl Hd Hst Hid [Hs13 Hsq H34 H64]. pose proof Hst as [Hpv [Lp Hpb] _ _ _ _]. destruct content_bytes as [Hcb Hcl].
  apply Forall_cons in Hsq as [Rc Hsq]. apply Forall_cons in Hsq as [Rr Hsq]. apply Forall_cons in Hsq as [Rd Hsq].
  apply Forall_cons in Hsq as [Ri Hsq]. apply Forall_cons in Hsq as [R1 Hsq]. apply Forall_cons in Hsq as [R3 _].
  destruct (date_chars p Hd) as [_ Hdl]. pose proof Hp as [(_ & Htc & Htl) _ (T1 & T2 & T3) _ _ _ _]. cbn [insert_history].
  eapply yields_bind, yields_eq; [by apply strlen_cstr|].
  replace (zlen root =? 0) with false by (destruct root; [done|unfold zlen; simpl; lia]).
  apply yields_bind. eapply yields_wand; [by apply (values_of_yields usable Huse tbl vals Hp)|]. intros [q' q4] [Cq' C4].
  apply yields_bind. eapply yields_wand.
  { eapply (columns_of_yields usable Huse q4 hashinfo (previsou_hash st)); try done. repeat (apply Forall_cons; split; [done|]). constructor. }
  intros col Hcol. apply yields_bind. eapply yields_wand; [by apply third_word_yields|]. intros [q'' ar] Car.
  apply yields_bind. eapply yields_wand; [apply (tag_hash_yields _ root _ _ Hh Hrl (co_hash _ _ _ _ _ Hcol)), H_length|]. intros my Cmy.
  eapply yields_bind, yields_eq; [by apply table_name_yields|].
  rewrite T1, T2, T3. cbn [negb andb]. apply yields_bind.
  eapply yields_wand; [by eapply (new_row_yields usable Huse tbl col st id (content vals) root (date_text p) prev)|].
  intros [st' ins] [Hst' Cins]. apply yields_ret. split; [done|]. by exists ins, my.
Qed.

(** The keywords decide for the branch of INSERT. *)
Lemma parsestring_insert query hashinfo p st : cstr query = Some (insert_text tbl vals) -> 16 < usable 13 ->
  parsestring usable query hashinfo p st = insert_history usable query hashinfo p st.
Proof.
  intros Hq H13. pose proof (Huse 13 ltac:(lia)). pose proof (Huse 32 ltac:(lia)). destruct (cstr_inv _ _ Hq) as [rest Hrest].
  destruct (zeroed_yields usable Huse 13 13 (fun b => zlen b = usable 13)) as (cb & Ecb & Lcb); [lia|lia|lia|done|].
  destruct (strcpy_lit cb (text "CREATE AUTHTABLE")) as (cb' & Ec & Cc & _); [by repeat constructor|rewrite Lcb; exact H13|].
  destruct (zeroed_yields usable Huse 32 6 (fun b => zlen b = usable 32)) as (ib & Eib & Lib); [lia|lia|lia|done|].
  destruct (strcpy_lit ib (text "INSERT")) as (ib' & Ei & Ci & _); [by repeat constructor|rewrite Lib; change (zlen (text _)) with 6; lia|].
  assert (same_word (length query) query ib' 0 false = Some true) as Es2.
  { apply (same_word_true query (text "INSERT") ib' Ci [] (text "INSERT")); [done|by rewrite Hrest|].
    rewrite Hrest. unfold insert_text. rewrite !length_app. simpl. lia. }
  assert (same_word (length query) query cb' 0 false = Some false) as Es1
    by (eapply (same_word_false _ _ _ 73 67); [exact Cc|by rewrite Hrest|lia|lia]).
  unfold zeroed in Eib. change (Z.of_nat 13) with 13 in Ecb. change (Z.of_nat 6) with 6 in Eib.
  change (text "CREATE AUTHTABLE" ++ [0]) with (lit "CREATE AUTHTABLE") in Ec. change (text "INSERT" ++ [0]) with (lit "INSERT") in Ei.
  unfold parsestring. rewrite Ecb. cbn [mbind option_bind]. rewrite Ec. cbn [mbind option_bind]. rewrite Eib. cbn [mbind option_bind].
  rewrite Ei. cbn [mbind option_bind]. rewrite Es1. cbn [mbind option_bind]. by rewrite Es2.
Qed.

Lemma parsestring_yields query hashinfo root p st prev id :
  cstr query = Some (insert_text tbl vals) -> cstr hashinfo = Some root -> root <> [] -> zlen root <= 32 -> date_ok p ->
  at_row st prev id -> id < 2 ^ 31 - 1 -> slack usable (content vals) root (date_text p) (fmt_d id) ->
  yields (parsestring usable query (Some hashinfo) p st) (fun '(_, st', calls) =>
    at_row st' (link prev (content vals)) (id + 1) /\
    exists ins my_hash, calls = [mkCall ins (Some my_hash)] /\
      cstr ins = Some (row_text tbl (mkRow id (content vals) root prev (date_text p))) /\
      cstr my_hash = Some (if decide (length root = 32%nat) then root ++ link prev (content vals) else root)).
Proof.
  intros Hq Hh Hne Hrl Hd Hst Hid Hs. rewrite parsestring_insert by (done || apply Hs). by apply insert_history_yields.
Qed.

End Statement.
