(* ===== verification/Session.v ===== *)
(** * Sessions: the chain of the rows

    The rows a session writes form a chain from the constants of [PostgresMain];
    the hash of the last row determines the values of all rows, up to a collision of
    the hash function.  And what breaks the chain: an error behind the update of
    the globals, a block without room, and what the tag tells the client. *)

From stdpp Require Import strings.
From S2P Require Import Prelude CMem CStr Node NodeCodec Heap LeafSpec Merkle ReconstructRoot Wire Ledger LedgerSpec.

(** ** The chain *)

Section Chain.
Context `{HashFn}.

(** The hash of the last of rows with the given values. *)
Definition chain_head (prev : list Z) (cs : list (list Z)) : list Z := foldl link prev cs.

(** What the hash function is applied to. *)
Fixpoint chain_inputs (prev : list Z) (cs : list (list Z)) : list (list Z) :=
  match cs with [] => [] | c :: cs' => quoted c :: (prev ++ signature c) :: chain_inputs (link prev c) cs' end.

Lemma chain_head_length prev cs : length prev = 32%nat -> length (chain_head prev cs) = 32%nat.
Proof. revert prev. induction cs as [|c cs IH]; intros prev Hp; [done|]. apply IH, H_length. Qed.

Lemma chain_inputs_snoc prev cs c :
  chain_inputs prev (cs ++ [c]) = chain_inputs prev cs ++ [quoted c; chain_head prev cs ++ signature c].
Proof. revert prev. induction cs as [|c' cs IH]; intros prev; simpl; [done|]. by rewrite IH. Qed.

Lemma quoted_inj a b : quoted a = quoted b -> a = b.
Proof. intros E. apply app_inv_head, app_inv_tail in E. done. Qed.

(** One link: equal hashes mean equal predecessors and values, or a collision. *)
Lemma link_inj p p' c c' : length p = 32%nat -> length p' = 32%nat -> link p c = link p' c' ->
  (p = p' /\ c = c') \/ clash [quoted c; p ++ signature c] [quoted c'; p' ++ signature c'].
Proof.
  intros Hp Hp' E. destruct (decide (p ++ signature c = p' ++ signature c')) as [E1|Hne].
  - apply app_inj_1 in E1 as [<- Es]; [|lia]. destruct (decide (quoted c = quoted c')) as [E2|Hne].
    + left. split; [done|]. by apply quoted_inj.
    + right. exists (quoted c), (quoted c'). split_and!; [set_solver|set_solver|done|exact Es].
  - right. exists (p ++ signature c), (p' ++ signature c'). split_and!; [set_solver|set_solver|done|exact E].
Qed.

End Chain.

(** Equal hashes of the last rows mean equal values and equal starts, or a collision. *)
Lemma chain_binds `{HashFn} (prev prev' : list Z) (cs cs' : list (list Z)) :
  length prev = 32%nat -> length prev' = 32%nat -> length cs = length cs' ->
  chain_head prev cs = chain_head prev' cs' ->
  (prev = prev' /\ cs = cs') \/ clash (chain_inputs prev cs) (chain_inputs prev' cs').
Proof.
  intros Hp Hp'. revert cs'. induction cs as [|c cs IH] using rev_ind; intros cs' Hl E.
  - destruct cs'; [|done]. by left.
  - destruct cs' as [|c' cs' _] using rev_ind; [rewrite length_app in Hl; simpl in Hl; lia|].
    rewrite !length_app in Hl. simpl in Hl. unfold chain_head in E. rewrite !foldl_app in E. simpl in E.
    rewrite !chain_inputs_snoc.
    destruct (link_inj _ _ c c' (chain_head_length prev cs Hp) (chain_head_length prev' cs' Hp') E) as [[E1 ->]|Hc].
    + destruct (IH cs' ltac:(lia) E1) as [[-> ->]|Hc]; [by left|right].
      eapply clash_mono; [| |exact Hc]; intros x Hx; apply elem_of_app; by left.
    + right. eapply clash_mono; [| |exact Hc]; intros x Hx; apply elem_of_app; by right.
Qed.

(** ** One statement *)

(** C13. The row of a statement [INSERT INTO t VALUES(v);] of an authenticated table:
    [parsestring] executes exactly one statement, the INSERT into the history of the
    table with the next number, the values without quotes and spaces, their hash as
    signature, the reported root, the hash of the last row, and as hash of the new
    row the hash of the last one and the signature; the globals move on to this hash
    and the next number. *)
Theorem history_row `{HashFn} `{Malloc} (usable : Z -> Z) (tbl vals query hashinfo root : list Z) (p : date)
    (st : ledger) (prev : list Z) (id : Z) :
  (forall n, 0 <= n -> n <= usable n) -> plain tbl vals -> cstr query = Some (insert_text tbl vals) ->
  cstr hashinfo = Some root -> root <> [] -> zlen root <= 32 -> date_ok p -> at_row st prev id -> id < 2 ^ 31 - 1 ->
  slack usable (content vals) root (date_text p) (fmt_d id) ->
  exists query' st' ins my, parsestring usable query (Some hashinfo) p st = Some (query', st', [mkCall ins (Some my)]) /\
    cstr ins = Some (row_text tbl (mkRow id (content vals) root prev (date_text p))) /\
    cstr my = Some (if decide (length root = 32%nat) then root ++ link prev (content vals) else root) /\
    at_row st' (link prev (content vals)) (id + 1).
Proof.
  intros Huse Hp Hq Hh Hne Hrl Hd Hst Hid Hs.
  destruct (parsestring_yields usable Huse tbl vals Hp query hashinfo root p st prev id Hq Hh Hne Hrl Hd Hst Hid Hs)
    as ([[q' st'] calls] & E & Hst' & ins & my & -> & Ci & Cm). by exists q', st', ins, my.
Qed.

(** ** Sessions *)

Record statement := mkStatement { s_table : list Z; s_vals : list Z; s_date : date }.

Definition query_of (s : statement) : list Z := insert_text (s_table s) (s_vals s) ++ [0].

Section Rows.
Context `{HashFn} (root : list Z).

(** The rows of statements: consecutive numbers, and each row with the hash of the
    row before. *)
Fixpoint rows_from (prev : list Z) (id : Z) (ss : list statement) : list row :=
  match ss with
  | [] => []
  | s :: ss' => mkRow id (content (s_vals s)) root prev (date_text (s_date s)) :: rows_from (link prev (content (s_vals s))) (id + 1) ss'
  end.

(** The executed calls and the outcomes: each statement, then, unless it was
    refused, the statement that writes its row. *)
Inductive recorded : list statement -> list row -> list outcome -> list call -> Prop :=
  | recorded_nil : recorded [] [] [] []
  | recorded_cons s ss r rs os c c' cs :
      c_query c = query_of s -> cstr (c_query c') = Some (row_text (s_table s) r) -> recorded ss rs os cs ->
      recorded (s :: ss) (r :: rs) (Done :: os) (c :: c' :: cs)
  | recorded_lost s ss r rs os c cs :
      c_query c = query_of s -> recorded ss rs os cs -> recorded (s :: ss) (r :: rs) (Raised :: os) (c :: cs).

Lemma rows_from_head prev id ss : chain_head prev ((fun s => content (s_vals s)) <$> ss) = foldl link prev (r_content <$> rows_from prev id ss).
Proof. revert prev id. induction ss as [|s ss IH]; intros prev id; simpl; [done|]. apply IH. Qed.

End Rows.

Lemma ledger_init_yields `{Malloc} (usable : Z -> Z) : (forall n, 0 <= n -> n <= usable n) -> roomy usable 32 ->
  yields (ledger_init usable) (fun st => at_row st (text "11111111111111111111111111111111") 1).
Proof.
  intros Huse Hr. unfold ledger_init, roomy in *. pose proof (Huse 32 ltac:(lia)).
  apply yields_bind, (zeroed_yields usable Huse 32 32); [lia|lia|lia|]. intros pb Lpb _ _.
  destruct (strcpy_lit pb (text "11111111111111111111111111111111")) as (pb' & Ep & Cp & Lp);
    [by repeat constructor|change (zlen (text _)) with 32; lia|].
  eapply yields_bind, yields_eq; [exact Ep|].
  apply yields_bind, (zeroed_yields usable Huse 32 32); [lia|lia|lia|]. intros tb Ltb _ _.
  destruct (strcpy_lit tb (text "1")) as (tb' & Et & Ct & Lt); [by repeat constructor|change (zlen (text _)) with 1; lia|].
  eapply yields_bind, yields_eq; [exact Et|]. apply yields_ret. split; simpl; [done| |lia|done|lia|lia].
  split; [done|]. apply Forall_forall. intros c Hc. assert (Forall (fun c => c = 49) (text "11111111111111111111111111111111")) as Hall by by repeat constructor.
  rewrite Forall_forall in Hall. rewrite (Hall c Hc). unfold in_u. lia.
Qed.

Section Sessions.
Context `{HashFn} `{Malloc} (usable : Z -> Z) (Huse : forall n, 0 <= n -> n <= usable n).
Context (run : list call -> call -> option (list portal)) (root : list Z) (Hroot : chars root /\ root <> [] /\ (length root <= 32)%nat).

(** The buffer [b] of 65 bytes starts with the root hash. *)
Definition reports (b : list Z) : Prop := strncpy_bytes b 32 = Some (root ++ replicate (32 - length root) 0).

(** What the executor reports for an INSERT into an authenticated table. *)
Definition reports_root (s : statement) : Prop :=
  forall log, exists b, run log (mkCall (query_of s) None) = Some [mkPortal (text "INSERT") (Some b)] /\ reports b.

(** A statement that is recorded. *)
Record recordable (s : statement) : Prop := {
  rc_plain : plain (s_table s) (s_vals s);
  rc_date : date_ok (s_date s);
  rc_slack id : 0 <= id < 2 ^ 31 -> slack usable (content (s_vals s)) root (date_text (s_date s)) (fmt_d id);
  rc_root : reports_root s
}.

Lemma after_portals_root b : reports b ->
  yields (after_portals usable [mkPortal (text "INSERT") (Some b)] (None, false)) (fun '(h, auth) =>
    auth = true /\ exists hb, h = Some hb /\ cstr hb = Some root).
Proof.
  intros Hb. destruct Hroot as (Hc & _ & Hl). cbn [after_portals after_portal roothash].
  apply yields_bind, yields_bind, (zeroed_yields usable Huse 65 65); [lia|lia|lia|]. intros zb Lz _ Tz.
  pose proof (Huse 65 ltac:(lia)) as U. assert (length (root ++ replicate (32 - length root) 0) = 32%nat) as L32
    by (rewrite length_app, length_replicate; lia).
  eapply yields_bind, yields_eq.
  { unfold strncpy. rewrite Hb. cbn [mbind option_bind]. apply write_bytes_head. unfold zlen in *. lia. }
  apply yields_ret, yields_ret. split; [done|]. eexists. split; [done|]. rewrite L32, <- app_assoc.
  destruct (32 - length root)%nat; simpl replicate; [|by apply cstr_app].
  assert (drop 32 zb = 0 :: drop 33 zb) as ->; [|by apply cstr_app].
  apply drop_S. rewrite <- (lookup_take_lt _ 65), Tz by lia. reflexivity.
Qed.

Lemma exec_insert s p st log prev id fuel : recordable s -> p = s_date s -> at_row st prev id -> id < 2 ^ 31 - 1 ->
  exists st' ins my, at_row st' (link prev (content (s_vals s))) (id + 1) /\
    cstr ins = Some (row_text (s_table s) (mkRow id (content (s_vals s)) root prev (date_text p))) /\
    cstr my = Some (if decide (length root = 32%nat) then root ++ link prev (content (s_vals s)) else root) /\
    exec_simple_query usable run (S fuel) (mkCall (query_of s) None) p st log
    = exec_simple_query usable run fuel (mkCall ins (Some my)) p st' (log ++ [mkCall (query_of s) None]).
Proof.
  intros [Hpl Hd Hsl Hrt] -> Hst Hid. destruct (Hrt log) as (b & Erun & Hb). destruct Hroot as (Hc & Hne & Hl).
  destruct (after_portals_root b Hb) as ([h auth] & Ea & -> & hb & -> & Chb).
  pose proof (ar_id _ _ _ Hst) as Hid0.
  destruct (parsestring_yields usable Huse (s_table s) (s_vals s) Hpl (query_of s) hb root (s_date s) st prev id)
    as ([[q' st'] calls] & Ep & Hst' & ins & my & -> & Cins & Cmy); try done.
  - apply cstr_app. destruct Hpl as [(_ & Ht & _) _ _ (_ & Hv & _) _ _ _].
    repeat (apply Forall_app; split; [first [done|by repeat constructor]|]). by repeat constructor.
  - unfold zlen. lia.
  - apply Hsl. lia.
  - exists st', ins, my. split_and!; [done|done|done|]. cbn [exec_simple_query]. rewrite Erun, Ea. cbn [mbind option_bind].
    cbn [c_query]. rewrite Ep. reflexivity.
Qed.

(** Parser and executor accept the statement of a row or raise an error for it; the
    history is no authenticated table. *)
Definition judges_rows : Prop := forall log ins h tbl r, cstr ins = Some (row_text tbl r) ->
  run log (mkCall ins (Some h)) = Some [mkPortal (text "INSERT") None] \/ run log (mkCall ins (Some h)) = None.

(** No row is refused. *)
Definition accepts_rows : Prop := forall log ins h tbl r, cstr ins = Some (row_text tbl r) ->
  run log (mkCall ins (Some h)) = Some [mkPortal (text "INSERT") None].

Lemma exec_row fuel ins my p st log portals : run log (mkCall ins (Some my)) = portals ->
  (portals = Some [mkPortal (text "INSERT") None] ->
   exec_simple_query usable run (S fuel) (mkCall ins (Some my)) p st log = Some (st, log ++ [mkCall ins (Some my)], Done)) /\
  (portals = None -> exec_simple_query usable run (S fuel) (mkCall ins (Some my)) p st log = Some (st, log, Raised)).
Proof. intros E. split; intros ->; cbn [exec_simple_query]; by rewrite E. Qed.

Lemma session_rows ss : judges_rows -> Forall recordable ss -> forall st log prev id,
  at_row st prev id -> id + zlen ss < 2 ^ 31 ->
  exists st' cs os, session usable run ((fun s => (query_of s, s_date s)) <$> ss) st log = Some (st', log ++ cs, os) /\
    recorded ss (rows_from root prev id ss) os cs /\
    at_row st' (chain_head prev ((fun s => content (s_vals s)) <$> ss)) (id + zlen ss) /\
    (accepts_rows -> os = replicate (length ss) Done).
Proof.
  intros Hj Hss. induction Hss as [|s ss Hs _ IH]; intros st log prev id Hst Hid.
  - exists st, [], []. split_and!; [simpl; by rewrite app_nil_r|constructor| |done]. change (zlen []) with 0. by rewrite Z.add_0_r.
  - replace (zlen (s :: ss)) with (zlen ss + 1) in * by (unfold zlen; cbn [length]; lia).
    pose proof (zlen_nonneg ss) as Hnn. destruct (exec_insert s (s_date s) st log prev id 2 Hs eq_refl Hst ltac:(lia)) as (st1 & ins & my & Hst1 & Cins & _ & E1).
    destruct (exec_row 1 ins my (s_date s) st1 (log ++ [mkCall (query_of s) None]) _ eq_refl) as [Eyes Eno].
    replace (id + (zlen ss + 1)) with (id + 1 + zlen ss) by lia. rewrite fmap_cons. cbn [session]. rewrite E1.
    destruct (Hj (log ++ [mkCall (query_of s) None]) ins my _ _ Cins) as [Er|Er].
    + destruct (IH st1 ((log ++ [mkCall (query_of s) None]) ++ [mkCall ins (Some my)]) _ _ Hst1 ltac:(lia)) as (st' & cs & os & E2 & Hrec & Hst' & Hacc).
      exists st', (mkCall (query_of s) None :: mkCall ins (Some my) :: cs), (Done :: os).
      rewrite (Eyes Er). cbn [mbind option_bind]. rewrite E2. cbn [mbind option_bind].
      split_and!; [by rewrite <- !app_assoc|by constructor|done|]. intros Ha. simpl. by rewrite (Hacc Ha).
    + destruct (IH st1 (log ++ [mkCall (query_of s) None]) _ _ Hst1 ltac:(lia)) as (st' & cs & os & E2 & Hrec & Hst' & Hacc).
      exists st', (mkCall (query_of s) None :: cs), (Raised :: os).
      rewrite (Eno Er). cbn [mbind option_bind]. rewrite E2. cbn [mbind option_bind].
      split_and!; [by rewrite <- !app_assoc|by constructor|done|]. intros Ha. by rewrite (Ha _ _ _ _ _ Cins) in Er.
Qed.

End Sessions.

(** C3. The INSERTs into authenticated tables that a backend process executes, from
    the globals [PostgresMain] sets up.  The statements are those the code takes
    apart as intended ([plain]: one list of at most 253 characters of values
    without parentheses, a table name without the words the code looks for), the
    executor reports a root for each, and the allocator leaves the room the text of
    a row needs.  The process executes them all.  The rows have the numbers 1, 2,
    ..., the first continues the constant hash and each other one the hash of the
    row before; a statement is followed by the INSERT of its row, unless parser or
    executor raise an error for that, which is the outcome the client sees, and then
    this row is missing in the history.  If none is refused, none is missing.  The
    globals end with the hash of the last row, written or not, and the next number. *)
Theorem session_chain `{HashFn} `{Malloc} (usable : Z -> Z) (run : list call -> call -> option (list portal))
    (root : list Z) (ss : list statement) :
  (forall n, 0 <= n -> n <= usable n) -> roomy usable 32 -> chars root /\ root <> [] /\ (length root <= 32)%nat ->
  judges_rows run -> Forall (recordable usable run root) ss -> zlen ss < 2 ^ 31 - 1 ->
  let prev := text "11111111111111111111111111111111" in
  exists st0 st cs os, ledger_init usable = Some st0 /\
    session usable run ((fun s => (query_of s, s_date s)) <$> ss) st0 [] = Some (st, cs, os) /\
    recorded ss (rows_from root prev 1 ss) os cs /\
    at_row st (chain_head prev ((fun s => content (s_vals s)) <$> ss)) (1 + zlen ss) /\
    (accepts_rows run -> os = replicate (length ss) Done).
Proof.
  intros Huse H32 Hroot Hj Hss Hl prev. destruct (ledger_init_yields usable Huse H32) as (st0 & E0 & Hst0).
  destruct (session_rows usable Huse run root Hroot ss Hj Hss st0 [] prev 1 Hst0 ltac:(lia)) as (st & cs & os & E & Hrec & Hst & Hacc).
  by exists st0, st, cs, os.
Qed.

(** C7. The globals bind the statements a process has executed, their order and
    their values up to quotes and spaces: if two processes that execute statements as
    in C3 end with the same hash of the last row and the same next number, then they
    executed statements with the same values in the same order, or hashing them
    finds a collision.  Which of the rows were written, and which of them were
    refused and are missing, the globals do not tell. *)
Theorem history_binds `{HashFn} `{Malloc} (usable : Z -> Z) (run run' : list call -> call -> option (list portal))
    (root : list Z) (ss ss' : list statement) (st0 st st' : ledger) (cs cs' : list call) (os os' : list outcome) :
  (forall n, 0 <= n -> n <= usable n) -> roomy usable 32 -> chars root /\ root <> [] /\ (length root <= 32)%nat ->
  judges_rows run -> judges_rows run' -> Forall (recordable usable run root) ss -> Forall (recordable usable run' root) ss' ->
  zlen ss < 2 ^ 31 - 1 -> zlen ss' < 2 ^ 31 - 1 -> ledger_init usable = Some st0 ->
  session usable run ((fun s => (query_of s, s_date s)) <$> ss) st0 [] = Some (st, cs, os) ->
  session usable run' ((fun s => (query_of s, s_date s)) <$> ss') st0 [] = Some (st', cs', os') ->
  cstr (previsou_hash st) = cstr (previsou_hash st') -> cstr (tx_id st) = cstr (tx_id st') ->
  let contents := fmap (fun s => content (s_vals s)) in
  let prev := text "11111111111111111111111111111111" in
  contents ss = contents ss' \/ clash (chain_inputs prev (contents ss)) (chain_inputs prev (contents ss')).
Proof.
  intros Huse H32 Hroot Hj Hj' Hss Hss' Hl Hl' E0 E E' Hh Ht contents prev.
  destruct (ledger_init_yields usable Huse H32) as (? & E1 & Hst0). rewrite E0 in E1. injection E1 as <-.
  destruct (session_rows usable Huse run root Hroot ss Hj Hss st0 [] prev 1 Hst0 ltac:(lia)) as (? & ? & ? & E1 & _ & Hst & _).
  rewrite E in E1. injection E1 as <- _ _.
  destruct (session_rows usable Huse run' root Hroot ss' Hj' Hss' st0 [] prev 1 Hst0 ltac:(lia)) as (? & ? & ? & E1 & _ & Hst' & _).
  rewrite E' in E1. injection E1 as <- _ _. destruct Hst as [Cp _ _ Ct Hi _], Hst' as [Cp' _ _ Ct' Hi' _].
  rewrite Cp, Cp' in Hh. injection Hh as Hh. rewrite Ct, Ct' in Ht. injection Ht as Ht. apply (f_equal atoi) in Ht.
  rewrite !atoi_fmt in Ht by lia. injection Ht as Ht. unfold zlen in Ht.
  destruct (chain_binds prev prev (contents ss) (contents ss')) as [[_ Heq]|Hc]; [done|done| |exact Hh|by left|by right].
  unfold contents. rewrite !length_fmap. lia.
Qed.

(** C37. The globals move on before the row is written: when parser or executor
    raise an error for the statement of the row, the INSERT has been executed, no
    row is in the history, and the next row will continue a hash that no row has. *)
Theorem history_gap `{HashFn} `{Malloc} (usable : Z -> Z) (run : list call -> call -> option (list portal))
    (root : list Z) (s : statement) (st : ledger) (log : list call) (prev : list Z) (id : Z) :
  (forall n, 0 <= n -> n <= usable n) -> chars root /\ root <> [] /\ (length root <= 32)%nat ->
  recordable usable run root s -> at_row st prev id -> id < 2 ^ 31 - 1 ->
  (forall log ins h tbl r, cstr ins = Some (row_text tbl r) -> run log (mkCall ins (Some h)) = None) ->
  exists st', exec_simple_query usable run 3 (mkCall (query_of s) None) (s_date s) st log
    = Some (st', log ++ [mkCall (query_of s) None], Raised) /\
    at_row st' (link prev (content (s_vals s))) (id + 1).
Proof.
  intros Huse Hroot Hs Hst Hid Hrej.
  destruct (exec_insert usable Huse run root Hroot s (s_date s) st log prev id 2 Hs eq_refl Hst Hid) as (st' & ins & my & Hst' & Cins & _ & E).
  exists st'. split; [|done]. rewrite E. cbn [exec_simple_query]. by rewrite (Hrej _ _ _ _ _ Cins).
Qed.

(** ** Blocks without room *)

Lemma sprintf_none buf parts : zlen buf <= zlen (concat parts) -> sprintf buf parts = None.
Proof.
  intros Hl. unfold sprintf, write_bytes. pose proof (zlen_nonneg buf).
  replace (0 + zlen (concat parts ++ [0]) <=? zlen buf) with false; [by rewrite andb_false_r|].
  symmetry. apply Z.leb_gt. rewrite zlen_app. change (zlen [0]) with 1. lia.
Qed.

Lemma quote_none `{Malloc} usable src s : cstr src = Some s -> usable (zlen s + 2) = zlen s + 2 -> quote usable src = None.
Proof.
  intros Hs Hu. unfold quote. rewrite Hs. cbn [mbind option_bind]. apply sprintf_none.
  unfold block, zlen at 1. rewrite fresh_bytes_length. pose proof (zlen_nonneg s). replace (1 + zlen s + 1) with (zlen s + 2) by lia.
  rewrite Hu. cbn [concat]. rewrite !zlen_app. change (zlen (text "'")) with 1. change (zlen []) with 0. lia.
Qed.

(** C39. The room behind the blocks decides: the keyword CREATE AUTHTABLE does not fit
    its block of 13 bytes, so without three more bytes every call of [parsestring]
    writes behind the block, whatever the statement; and the values with their
    quotes get a block without room for the terminator, so that a statement is
    recorded only when the allocator adds a byte. *)
Theorem history_blocks_overflow `{HashFn} `{Malloc} (usable : Z -> Z) :
  (forall n, 0 <= n -> n <= usable n) ->
  (usable 13 <= 16 -> forall query hashinfo p st, parsestring usable query hashinfo p st = None) /\
  (forall tbl vals query hashinfo root p st, plain tbl vals -> cstr query = Some (insert_text tbl vals) ->
     cstr hashinfo = Some root -> root <> [] -> usable (zlen (content vals) + 2) = zlen (content vals) + 2 ->
     parsestring usable query (Some hashinfo) p st = None).
Proof.
  intros Huse. pose proof (Huse 13 ltac:(lia)) as U13. pose proof (Huse 32 ltac:(lia)) as U32.
  assert (forall b, zlen b <= 16 -> strcpy b (lit "CREATE AUTHTABLE") = None) as Hno.
  { intros b Hb. unfold strcpy. change (cstr (lit "CREATE AUTHTABLE")) with (Some (text "CREATE AUTHTABLE")). cbn [mbind option_bind].
    unfold write_bytes. pose proof (zlen_nonneg b). replace (0 + zlen (text "CREATE AUTHTABLE" ++ [0]) <=? zlen b) with false; [by rewrite andb_false_r|].
    symmetry. apply Z.leb_gt. change (zlen (text "CREATE AUTHTABLE" ++ [0])) with 17. lia. }
  destruct (zeroed_yields usable Huse 13 13 (fun b => zlen b = usable 13)) as (cb & Ecb & Lcb); [lia|lia|lia|done|].
  change (Z.of_nat 13) with 13 in Ecb. split.
  - intros Hs query hashinfo p st. unfold parsestring. rewrite Ecb. cbn [mbind option_bind]. rewrite Hno by lia. done.
  - intros tbl vals query hashinfo root p st Hp Hq Hh Hne Hu. destruct (decide (usable 13 <= 16)) as [Hs|Hs].
    { unfold parsestring. rewrite Ecb. cbn [mbind option_bind]. by rewrite Hno by lia. }
    rewrite (parsestring_insert usable Huse tbl vals) by (done || lia). cbn [insert_history].
    rewrite (strlen_cstr _ _ Hh). cbn [mbind option_bind]. assert (0 < zlen root) as Hrl by (destruct root; [done|unfold zlen; simpl; lia]).
    replace (zlen root =? 0) with false by lia. destruct (values_of_yields usable Huse tbl vals Hp query Hq) as ([q' q4] & Ev & _ & C4).
    rewrite Ev. cbn [mbind option_bind]. unfold columns_of. by rewrite (quote_none usable q4 _ C4 Hu).
Qed.

(** ** What the client is told *)

(** Case ['C'] on a tag with a dollar sign: up to 33 characters behind it. *)
Lemma receive_C_dollar pre t cmdStatus fresh st : chars pre -> no_dollar pre -> chars t -> (length pre + length t <= 62)%nat ->
  length cmdStatus = 64%nat -> length (default fresh (mbroot st)) = 33%nat ->
  receive_C ((pre ++ 36 :: t) ++ [0]) cmdStatus fresh st
  = Some (mkLibpq (mbt_count st) (vo_object st) (Some (take 33 (t ++ replicate 33 0)))).
Proof.
  intros Hpre Hnd Ht Hl Lc Lf. unfold receive_C.
  rewrite cmd_status; [|by apply Forall_app; split; [|constructor]|rewrite length_app; simpl; lia|done].
  cbn [mbind option_bind]. rewrite <- app_assoc, <- app_comm_cons.
  set (tl := t ++ replicate (64 - length (pre ++ 36 :: t)) 0).
  pose proof (find_dollar_at pre tl Hnd (S (Z.to_nat (CMDSTATUS_LEN + 1))) 0) as E.
  change (Z.of_nat 0) with 0 in E. rewrite E by (unfold CMDSTATUS_LEN; lia). cbn [mbind option_bind].
  unfold memset. change (0 <=? 33) with true. rewrite write_bytes_Some; [|lia|rewrite zlen_replicate; unfold zlen; rewrite Lf; lia].
  cbn [mbind option_bind].
  assert (drop (Z.to_nat (zlen pre + 1)) (pre ++ 36 :: tl) = tl) as ->.
  { replace (pre ++ 36 :: tl) with ((pre ++ [36]) ++ tl) by by rewrite <- app_assoc.
    apply drop_app_length'. rewrite length_app. unfold zlen. simpl. lia. }
  assert (strncpy_bytes tl 33 = Some (take 33 (t ++ replicate 33 0))) as Es.
  { unfold tl. destruct (decide (length t <= 33)%nat).
    - destruct (64 - length (pre ++ 36%Z :: t))%nat as [|k] eqn:Ek; [rewrite length_app in Ek; simpl in Ek; lia|].
      change (replicate (S k) 0) with (0 :: replicate k 0). rewrite strncpy_bytes_pad by done. f_equal. rewrite take_app_ge by lia. f_equal.
      rewrite take_replicate. f_equal. lia.
    - rewrite <- (take_drop 33 t), <- !app_assoc. rewrite strncpy_bytes_full; [|by apply Forall_take|rewrite length_take; lia].
      f_equal. symmetry. apply take_app_length'. rewrite length_take. lia. }
  unfold strncpy. rewrite Es. cbn [mbind option_bind].
  rewrite write_bytes_head, drop_ge, app_nil_r; [done| |].
  - rewrite !length_app, !length_take, !length_drop, !length_app, !length_replicate. lia.
  - unfold zlen. rewrite !length_app, !length_take, !length_drop, !length_app, !length_replicate. lia.
Qed.

(** The tag of an INSERT up to the dollar sign. *)
Definition tag_head (lastOid es_processed : Z) : list Z := text "INSERT " ++ fmt_u lastOid ++ text " " ++ fmt_u es_processed ++ text " ".

Lemma fmt_u_digits n : 0 <= n < 10 ^ 10 -> Forall (fun c => 48 <= c <= 57) (fmt_u n) /\ (length (fmt_u n) <= 10)%nat.
Proof.
  intros Hn. unfold fmt_u. rewrite (digits_fuel 10) by lia. destruct (digits_value 10 n []) as (ds & E & Hd & _ & Hl); [lia|lia|].
  rewrite E, app_nil_r. split; [|lia]. eapply Forall_impl; [exact Hd|]. intros c Hc%Is_true_true. unfold is_digit in Hc. lia.
Qed.

Lemma tag_head_ok oid n : 0 <= oid < 2 ^ 32 -> 0 <= n < 2 ^ 32 ->
  chars (tag_head oid n) /\ no_dollar (tag_head oid n) /\ (length (tag_head oid n) <= 29)%nat.
Proof.
  intros Ho Hn. destruct (fmt_u_digits oid) as [D1 L1]; [lia|]. destruct (fmt_u_digits n) as [D2 L2]; [lia|].
  unfold tag_head. split_and!; [| |rewrite !length_app; simpl; lia].
  - repeat (apply Forall_app; split; [first [by repeat constructor|eapply Forall_impl; [eassumption|]; simpl; intros; lia]|]). by repeat constructor.
  - repeat (apply Forall_app; split; [first [by repeat constructor|eapply Forall_impl; [eassumption|]; simpl; intros; lia]|]). by repeat constructor.
Qed.

(** What the client learns from the tag of a recorded INSERT: the block behind the
    dollar sign has the root hash and the hash of the row.  A root string of fewer than
    32 characters, like the "test" the executor reports, ends the string: the client
    stores it and never sees the hash of the row.  A root hash of 32 characters is
    followed by the hash, of which the client takes one more character: its 33 bytes
    have no terminator. *)
Theorem tag_tells_client `{Malloc} (usable : Z -> Z) (oid n : Z) (root hash my tag cmdStatus fresh : list Z) (st : libpq) :
  0 <= oid < 2 ^ 32 -> 0 <= n < 2 ^ 32 -> chars root -> (length root <= 32)%nat -> chars hash -> length hash = 32%nat ->
  cstr my = Some (if decide (length root = 32%nat) then root ++ hash else root) ->
  length tag = 64%nat -> length cmdStatus = 64%nat -> length (default fresh (mbroot st)) = 33%nat ->
  exists tag' s r, ProcessQuery_insert usable oid n None (Some my) tag = Some (None, tag') /\ cstr tag' = Some s /\
    receive_C (s ++ [0]) cmdStatus fresh st = Some (mkLibpq (mbt_count st) (vo_object st) (Some r)) /\
    length r = 33%nat /\
    (if decide (length root = 32%nat) then exists c, r = root ++ [c] /\ cstr r = None else cstr r = Some root).
Proof.
  intros Ho Hn Hrc Lr Hhc Lh Cmy Lt Lc Lf. destruct (tag_head_ok oid n Ho Hn) as (Hc & Hnd & Hl).
  set (P := tag_head oid n) in *. set (body := if decide (length root = 32%nat) then root ++ hash else root) in *.
  assert (chars body) as Hbc by (unfold body; case_decide; [by apply Forall_app|done]).
  set (t := take (62 - length P) body).
  assert (chars t) as Htc by by apply Forall_take.
  assert (length P + length t <= 62)%nat as Hlt by (unfold t; rewrite length_take; lia).
  assert (concat [text "INSERT "; fmt_u oid; text " "; fmt_u n; text " $"; body] = P ++ 36 :: body) as Ecat
    by (unfold P, tag_head; cbn [concat]; rewrite app_nil_r; by apps).
  assert (take (Z.to_nat (COMPLETION_TAG_BUFSIZE - 1)) (P ++ 36 :: body) = P ++ 36 :: t) as Etake.
  { change (Z.to_nat (COMPLETION_TAG_BUFSIZE - 1)) with 63%nat. rewrite take_app_ge by lia. f_equal.
    replace (63 - length P)%nat with (S (62 - length P)) by lia. reflexivity. }
  eexists ((P ++ 36 :: t) ++ 0 :: drop (length ((P ++ 36 :: t) ++ [0])) tag), (P ++ 36 :: t), (take 33 (t ++ replicate 33 0)).
  split_and!.
  - unfold ProcessQuery_insert. cbn [mbind option_bind]. rewrite Cmy. cbn [mbind option_bind]. unfold snprintf. rewrite Ecat, Etake.
    rewrite write_bytes_head by (unfold zlen; rewrite !length_app; cbn [length]; lia). cbn [mbind option_bind].
    by rewrite <- (app_assoc (P ++ 36 :: t) [0]).
  - apply cstr_app, Forall_app. split; [done|by constructor].
  - by apply receive_C_dollar.
  - rewrite length_take, length_app, length_replicate. lia.
  - unfold t, body. case_decide as Hd.
    + destruct hash as [|c hash]; [done|]. simpl in Lh. exists c.
      assert (take 33 (take (62 - length P) (root ++ c :: hash) ++ replicate 33 0) = root ++ [c]) as ->.
      { rewrite take_app_le by (rewrite length_take, length_app; cbn [length]; lia). rewrite take_take, Nat.min_l by lia.
        rewrite take_app_ge by lia. f_equal. by replace (33 - length root)%nat with 1%nat by lia. }
      split; [done|]. apply Forall_cons in Hhc as [Hc0 _].
      assert (chars (root ++ [c])) as Hrc' by (apply Forall_app; split; [done|by constructor]).
      clear -Hrc'. induction Hrc' as [|x s Hx _ IH]; simpl; [done|]. apply Z.eqb_neq in Hx. by rewrite Hx, IH.
    + rewrite (take_ge root) by lia. rewrite take_app_ge by lia. rewrite take_replicate.
      destruct (Nat.min (33 - length root) 33) eqn:Em; [lia|]. simpl. by apply cstr_app.
Qed.

(** ** A session to evaluate the properties on *)

#[local] Existing Instance demo_malloc.
#[local] Existing Instance demo_checksum.

(** Blocks with eight spare bytes. *)
Definition spare (n : Z) : Z := n + 8.

Lemma spare_ge n : 0 <= n -> n <= spare n.
Proof. unfold spare. lia. Qed.

(** An executor that reports "test" for every statement that does not write a row. *)
Definition demo_run (rows : bool) (log : list call) (c : call) : option (list portal) :=
  match cstr (c_query c) with
  | Some s =>
      if strstr s (text "_history(") then if rows then Some [mkPortal (text "INSERT") None] else None
      else Some [mkPortal (text "INSERT") (Some (text "test" ++ zeros 61))]
  | None => None
  end.

Definition demo_statement : statement := mkStatement (text "t") (text "1,'a b'") (mkDate 2024 1 5).

Lemma demo_plain : plain (s_table demo_statement) (s_vals demo_statement).
Proof. split; simpl; split_and!; first [done | eval_dec | simpl; lia]. Qed.

Lemma spare_slack c root d id : slack spare c root d id.
Proof. split; unfold roomy, spare; [lia| |lia|lia]. repeat (apply Forall_cons; split; [lia|]). constructor. Qed.

Lemma row_text_history tbl r : strstr (row_text tbl r) (text "_history(") = true.
Proof.
  unfold row_text. change (text nextStr) with (text "_history(" ++ text
    "tx_id, operation_type, operation_content, signature, operator, state_root, previsou_hash, hash, date) VALUES(").
  rewrite app_assoc. rewrite <- (app_assoc (text "_history(")). apply strstr_app.
Qed.

Lemma demo_recordable rows : recordable spare (demo_run rows) (text "test") demo_statement.
Proof.
  split; [exact demo_plain|unfold date_ok; simpl; lia|intros; apply spare_slack|].
  intros log. eexists. split; [reflexivity|reflexivity].
Qed.

Lemma demo_test : chars (text "test") /\ text "test" <> [] /\ (length (text "test") <= 32)%nat.
Proof. split_and!; [by repeat constructor|done|simpl; lia]. Qed.

Definition demo_ledger : ledger := mkLedger (replicate 32 49 ++ zeros 8) (text "1" ++ zeros 31).

Lemma demo_at_row : at_row demo_ledger (replicate 32 49) 1.
Proof. split; simpl; try done; try lia. split; [done|eval_dec]. Qed.

Lemma history_row_witness :
  exists query' st' ins my, parsestring spare (query_of demo_statement) (Some (lit "test")) (mkDate 2024 1 5) demo_ledger
      = Some (query', st', [mkCall ins (Some my)]) /\
    cstr ins = Some (row_text (text "t") (mkRow 1 (text "1,ab") (text "test") (replicate 32 49) (text "2024-1-5"))) /\
    cstr my = Some (text "test") /\ at_row st' (link (replicate 32 49) (text "1,ab")) 2.
Proof.
  apply (history_row spare (text "t") (text "1,'a b'") (query_of demo_statement) (lit "test") (text "test") (mkDate 2024 1 5)
    demo_ledger (replicate 32 49) 1 spare_ge demo_plain); try reflexivity; try discriminate.
  - unfold date_ok. simpl. lia.
  - exact demo_at_row.
  - apply spare_slack.
Defined.

Lemma demo_judges rows : judges_rows (demo_run rows).
Proof. intros log ins h tbl r Ci. unfold demo_run. cbn [c_query]. rewrite Ci, row_text_history. destruct rows; [by left|by right]. Qed.

(** The spaces of a value are not recorded. *)
Definition demo_other : statement := mkStatement (text "t") (text "1,'ab'") (mkDate 2024 1 5).

Lemma demo_other_recordable rows : recordable spare (demo_run rows) (text "test") demo_other.
Proof.
  split; [split; simpl; split_and!; first [done | eval_dec | simpl; lia]|unfold date_ok; simpl; lia|intros; apply spare_slack|].
  intros log. eexists. split; [reflexivity|reflexivity].
Qed.

(** An executor that refuses the second row. *)
Definition demo_refuse (log : list call) (c : call) : option (list portal) := demo_run (negb (length log =? 3)%nat) log c.

Lemma demo_refuse_judges : judges_rows demo_refuse.
Proof. intros log ins h tbl r. apply demo_judges. Qed.

Lemma demo_refuse_recordable s : (forall rows, recordable spare (demo_run rows) (text "test") s) -> recordable spare demo_refuse (text "test") s.
Proof. intros Hs. split; [apply (Hs true)..|]. intros log. apply (Hs (negb (length log =? 3)%nat)). Qed.

Definition demo_session : list statement := [demo_statement; demo_other; demo_statement].

Lemma demo_session_recordable : Forall (recordable spare demo_refuse (text "test")) demo_session.
Proof.
  constructor; [apply demo_refuse_recordable, demo_recordable|]. constructor; [apply demo_refuse_recordable, demo_other_recordable|].
  constructor; [apply demo_refuse_recordable, demo_recordable|constructor].
Qed.

(** Three statements; the row of the second one is refused. *)
Lemma session_chain_witness :
  exists st0 st cs, ledger_init spare = Some st0 /\
    session spare demo_refuse ((fun s => (query_of s, s_date s)) <$> demo_session) st0 [] = Some (st, cs, [Done; Raised; Done]) /\
    recorded demo_session (rows_from (text "test") (text "11111111111111111111111111111111") 1 demo_session) [Done; Raised; Done] cs /\
    at_row st (link (link (link (text "11111111111111111111111111111111") (text "1,ab")) (text "1,ab")) (text "1,ab")) 4.
Proof.
  destruct (session_chain spare demo_refuse (text "test") demo_session spare_ge) as (st0 & st & cs & os & E0 & E & Hrec & Hst & _).
  - unfold roomy, spare. lia.
  - exact demo_test.
  - exact demo_refuse_judges.
  - exact demo_session_recordable.
  - vm_compute. reflexivity.
  - assert (os = [Done; Raised; Done]) as ->.
    { assert ((do st0 <- ledger_init spare; snd <$> session spare demo_refuse ((fun s => (query_of s, s_date s)) <$> demo_session) st0 [])
        = Some [Done; Raised; Done]) as Ev by (vm_compute; reflexivity).
      rewrite E0 in Ev. cbn [mbind option_bind] in Ev. rewrite E in Ev. by injection Ev. }
    exists st0, st, cs. split; [exact E0|]. split; [exact E|]. split; [exact Hrec|exact Hst].
Defined.

(** Two statements of which the second row is refused, and two whose rows are written. *)
Lemma history_binds_witness :
  let contents := fmap (M := list) (fun s => content (s_vals s)) in
  let prev := text "11111111111111111111111111111111" in
  contents [demo_statement; demo_other] = contents [demo_other; demo_statement] \/
  clash (chain_inputs prev (contents [demo_statement; demo_other])) (chain_inputs prev (contents [demo_other; demo_statement])).
Proof.
  set (init := default demo_ledger (ledger_init spare)).
  set (q := fmap (M := list) (fun s => (query_of s, s_date s))).
  set (r1 := default (demo_ledger, [], []) (session spare demo_refuse (q [demo_statement; demo_other]) init [])).
  set (r2 := default (demo_ledger, [], []) (session spare (demo_run true) (q [demo_other; demo_statement]) init [])).
  apply (history_binds spare demo_refuse (demo_run true) (text "test") [demo_statement; demo_other] [demo_other; demo_statement]
    init r1.1.1 r2.1.1 r1.1.2 r2.1.2 r1.2 r2.2 spare_ge).
  - unfold roomy, spare. lia.
  - exact demo_test.
  - exact demo_refuse_judges.
  - exact (demo_judges true).
  - constructor; [apply demo_refuse_recordable, demo_recordable|]. constructor; [apply demo_refuse_recordable, demo_other_recordable|constructor].
  - constructor; [apply demo_other_recordable|]. constructor; [apply demo_recordable|constructor].
  - vm_compute. reflexivity.
  - vm_compute. reflexivity.
  - vm_compute. reflexivity.
  - vm_compute. reflexivity.
  - vm_compute. reflexivity.
  - vm_compute. reflexivity.
  - vm_compute. reflexivity.
Defined.

Lemma history_gap_witness :
  exists st', exec_simple_query spare (demo_run false) 3 (mkCall (query_of demo_statement) None) (mkDate 2024 1 5) demo_ledger []
    = Some (st', [mkCall (query_of demo_statement) None], Raised) /\
    at_row st' (link (replicate 32 49) (text "1,ab")) 2.
Proof.
  apply (history_gap spare (demo_run false) (text "test") demo_statement demo_ledger [] (replicate 32 49) 1 spare_ge demo_test
    (demo_recordable false) demo_at_row); [lia|].
  intros log ins h tbl r Ci. unfold demo_run. cbn [c_query]. rewrite Ci, row_text_history. reflexivity.
Defined.

Lemma history_blocks_overflow_witness :
  parsestring (fun n => n) (query_of demo_statement) (Some (lit "test")) (mkDate 2024 1 5) demo_ledger = None.
Proof.
  apply (proj1 (history_blocks_overflow (fun n => n) (fun n _ => Z.le_refl n))). lia.
Defined.

(** A tag with "test", and one with a root hash. *)
Lemma tag_tells_client_witness :
  (exists tag' s r, ProcessQuery_insert spare 0 1 None (Some (lit "test")) (zeros 64) = Some (None, tag') /\ cstr tag' = Some s /\
    receive_C (s ++ [0]) (zeros 64) (zeros 33) demo_libpq = Some (mkLibpq 0 [None; None] (Some r)) /\
    length r = 33%nat /\ cstr r = Some (text "test")) /\
  (exists tag' s r, ProcessQuery_insert spare 0 1 None (Some (replicate 64 97 ++ [0])) (zeros 64) = Some (None, tag') /\ cstr tag' = Some s /\
    receive_C (s ++ [0]) (zeros 64) (zeros 33) demo_libpq = Some (mkLibpq 0 [None; None] (Some r)) /\
    length r = 33%nat /\ exists c, r = replicate 32 97 ++ [c] /\ cstr r = None).
Proof.
  split.
  - apply (tag_tells_client spare 0 1 (text "test") (replicate 32 97) (lit "test") (zeros 64) (zeros 64) (zeros 33) demo_libpq);
      first [by repeat constructor | simpl; lia | reflexivity].
  - apply (tag_tells_client spare 0 1 (replicate 32 97) (replicate 32 97) (replicate 64 97 ++ [0]) (zeros 64) (zeros 64) (zeros 33) demo_libpq);
      first [by repeat constructor | simpl; lia | reflexivity].
Defined.
