(* ===== verification/InsertTuple.v ===== *)
(** * Insertion of a tuple into the authenticated indexes (getTupleValue and
    ExecInsertIndexTuples in src/src/backend/executor/execUtils.c)

    The executor prints the columns of the new tuple behind each other, takes one
    column as the key, and passes both to the access method.  What PostgreSQL's
    output functions print for a column is part of the tuple here; the insertion
    into other indexes does not touch the state of this access method. *)

From stdpp Require Import strings.
From S2P Require Import Prelude CMem CStr Codec Node NodeCodec Heap Insert Delete LeafSpec Merkle Store Hashmap Vo RangeQuery.
From S2P Require Import ReconstructRoot IndexAm SearchTree Refresh Ledger LedgerSpec.

(** A column of the tuple: its datum, the format of the result and what its output
    function prints. *)
Record attribute := mkAttribute { a_datum : Z; a_format : Z; a_output : list Z }.

Record pg_index_info := mkInfo { info_str : list Z; info_root_str : option (list Z); info_value : Z }.

Record IndexInfo := mkIndexInfo { ii_oid : Z; isAuthType : bool; ii_NumIndexAttrs : Z }.

Section Executor.
Context `{HashFn} `{Malloc} (usable : Z -> Z).

(** The block of the result keeps its contents except for the string. *)
Definition getTupleValue (fresh : pg_index_info) (attrs : list attribute) (indkey : Z) : option pg_index_info :=
  do str <- zeroed usable 64 64;
  for_range 0 (zlen attrs) (fun i result =>
    do a <- aget attrs i;
    do result <- (if a_format a =? 0 then
        do str <- strcpy (Heap.block usable 12) (a_output a);
        do s <- strcat (info_str result) str;
        Some (mkInfo s (info_root_str result) (info_value result))
      else Some result);
    Some (if indkey =? i then mkInfo (info_str result) (info_root_str result) (s32 (a_datum a)) else result))
  (mkInfo str (info_root_str fresh) (info_value fresh)).

(** The loop over the indexes of the relation: the access method and
    [estate->root_hash]. *)
Fixpoint ExecInsertIndexTuples (fresh : pg_index_info) (attrs : list attribute) (tupleid : ItemPointerData)
    (indexes : list (option IndexInfo)) (st : am) (root_hash : option (list Z)) : option (am * option (list Z)) :=
  match indexes with
  | [] => Some (st, root_hash)
  | Some ix :: indexes' =>
      if isAuthType ix then
        let indkey := ii_NumIndexAttrs ix in
        do rs <- getTupleValue fresh attrs indkey;
        do ' (_, st) <- mbtinsert (ii_oid ix) (info_value rs) (info_str rs) tupleid st;
        do root_hash <- strcpy (Heap.block usable 33) (lit "test");
        ExecInsertIndexTuples fresh attrs tupleid indexes' st (Some root_hash)
      else ExecInsertIndexTuples fresh attrs tupleid indexes' st root_hash
  | None :: indexes' => ExecInsertIndexTuples fresh attrs tupleid indexes' st root_hash
  end.

(** ** What is printed *)

Context (Huse : forall n, 0 <= n -> n <= usable n).

(** Columns printed as text, each in at most 11 characters. *)
Definition prints (a : attribute) (s : list Z) : Prop := a_format a = 0 /\ cstr (a_output a) = Some s /\ zlen s < 12.

(** The datum of the column with the given number among the first [n]; without such
    a column what the block contained. *)
Definition key_of (attrs : list attribute) (n : nat) (indkey fresh : Z) : Z :=
  if (0 <=? indkey) && (indkey <? Z.of_nat n)
  then match attrs !! Z.to_nat indkey with Some a => s32 (a_datum a) | None => fresh end else fresh.

Lemma key_of_next attrs n indkey fresh a : attrs !! n = Some a ->
  key_of attrs (S n) indkey fresh = if indkey =? Z.of_nat n then s32 (a_datum a) else key_of attrs n indkey fresh.
Proof.
  intros Ha. unfold key_of. destruct (Z.eqb_spec indkey (Z.of_nat n)) as [->|Hne].
  - rewrite Nat2Z.id, Ha. destruct (Z.leb_spec 0 (Z.of_nat n)), (Z.ltb_spec (Z.of_nat n) (Z.of_nat (S n))); simpl; done || lia.
  - destruct (Z.ltb_spec indkey (Z.of_nat (S n))), (Z.ltb_spec indkey (Z.of_nat n)); done || lia.
Qed.

Lemma getTupleValue_yields fresh attrs ss indkey : Forall2 prints attrs ss -> zlen (concat ss) < 64 ->
  yields (getTupleValue fresh attrs indkey) (fun r =>
    cstr (info_str r) = Some (concat ss) /\ info_value r = key_of attrs (length attrs) indkey (info_value fresh)).
Proof.
  intros Hp Hl. pose proof (Huse 64 ltac:(lia)) as U64. pose proof (Forall2_length _ _ _ Hp) as Hlen.
  apply yields_bind, (zeroed_yields usable Huse 64 64); [lia|lia|lia|]. intros str Lstr Cstr _.
  apply (yields_for (fun i r => cstr (info_str r) = Some (concat (take (Z.to_nat i) ss)) /\ zlen (info_str r) = usable 64 /\
    info_value r = key_of attrs (Z.to_nat i) indkey (info_value fresh))).
  - apply zlen_nonneg.
  - split_and!; [exact Cstr|exact Lstr|]. unfold key_of. change (Z.of_nat (Z.to_nat 0)) with 0. destruct (Z.leb_spec 0 indkey), (Z.ltb_spec indkey 0); simpl; done || lia.
  - intros i r Hi (Cr & Lr & Vr). unfold zlen in Hi. destruct (lookup_lt_is_Some_2 attrs (Z.to_nat i)) as [a Ha]; [lia|].
    destruct (lookup_lt_is_Some_2 ss (Z.to_nat i)) as [s Hs]; [lia|].
    destruct (Forall2_lookup_lr _ _ _ _ _ _ Hp Ha Hs) as (Hf & Co & Lo).
    assert (concat (take (S (Z.to_nat i)) ss) = concat (take (Z.to_nat i) ss) ++ s) as Esnoc
      by (rewrite (take_S_r _ _ s Hs), concat_app; simpl; by rewrite app_nil_r).
    eapply yields_bind, yields_aget; [lia|exact Ha|]. rewrite Hf. cbn [Z.eqb].
    destruct (strcpy_cstr (Heap.block usable 12) (a_output a) s Co) as (b & Eb & Cb & _).
    { rewrite (block_zlen usable Huse) by lia. pose proof (Huse 12). lia. }
    destruct (strcat_cstr (info_str r) b _ s Cr Cb) as (str' & Es & Cs & Ls).
    { rewrite Lr. rewrite <- (take_drop (S (Z.to_nat i)) ss), concat_app, Esnoc in Hl. rewrite !zlen_app in Hl. pose proof (zlen_nonneg (concat (drop (S (Z.to_nat i)) ss))). lia. }
    eapply yields_bind, yields_bind, yields_eq; [exact Eb|]. eapply yields_bind, yields_eq; [exact Es|]. apply yields_ret, yields_ret.
    replace (Z.to_nat (i + 1)) with (S (Z.to_nat i)) by lia. rewrite Esnoc, (key_of_next _ _ _ _ a Ha), Z2Nat.id by lia.
    destruct (indkey =? i); simpl; split_and!; first [done|lia].
  - intros r (Cr & _ & Vr). unfold zlen in Cr, Vr. rewrite Nat2Z.id in Cr, Vr. rewrite take_ge in Cr by lia. done.
Qed.

(** ** From the tuple to the tree *)

Lemma mbtinsert_put st oid p m key data tid x m' : tree_of oid st = Some (Some p) -> am_trees st !! p = Some m ->
  mbt_entries_count st + 1 < 998 -> bplus_tree_put key data tid m = Some (x, m') ->
  exists st', mbtinsert oid key data tid st = Some (None, st') /\ am_trees st' !! p = Some m' /\
    tree_of oid st' = Some (Some p).
Proof.
  intros Ht Em Hc E. unfold mbtinsert. rewrite Ht. cbn [mbind option_bind]. rewrite (at_tree_eq p _ st m x m' Em E).
  cbn [mbind option_bind set_entries_count mbt_entries_count]. replace (998 <=? mbt_entries_count st + 1) with false by lia.
  eexists. split; [reflexivity|]. cbn [am_trees]. split; [apply lookup_insert_eq|done].
Qed.

(** The loop passes over the other indexes of the table. *)
Lemma ExecInsertIndexTuples_others fresh attrs tid others indexes st rh :
  (forall j, Some j ∈ others -> isAuthType j = false) ->
  ExecInsertIndexTuples fresh attrs tid (others ++ indexes) st rh = ExecInsertIndexTuples fresh attrs tid indexes st rh.
Proof.
  induction others as [|[j|] others IH]; intros Ho; [done| |]; simpl.
  - rewrite (Ho j) by (by left). apply IH. intros k Hk. apply Ho. by right.
  - apply IH. intros k Hk. apply Ho. by right.
Qed.

End Executor.


(** ** A tuple with two columns *)

#[local] Existing Instance demo_malloc.
#[local] Existing Instance demo_checksum.

Definition demo_attrs : list attribute := [mkAttribute 5 0 (lit "5"); mkAttribute 8 0 (lit "8")].

Definition pair_am : am :=
  mkAm (do kh <- hashmap_new true true NUM_BUCKETS myhash compare; do ' (kh, _) <- hashmap_set true kh 7 (Some 0%nat); Some kh)
    (<[0%nat := pair_mem]> ∅) 1 [] [] 0 0.

