(* ===== verification/Dump.v ===== *)
(** * Printing the tree (bplus_tree_dump and key_print64_t in
    src/src/backend/mbt/mbtree.c)

    The dump walks over the tree with a stack of ten entries instead of recursion:
    an entry has the node to come back to and the next child, or NULL behind the
    last child.  The entries of the path also decide which vertical bars are drawn
    in front of a node.  It prints the tree in preorder. *)

From stdpp Require Import strings.
From S2P Require Import Prelude CMem CStr Codec Node NodeCodec Heap Insert Delete LeafSpec Merkle Store Vo RangeQuery.
From S2P Require Import Reconstruct ReconstructSpec ReconstructRoot QuerySpec SearchTree.

Record node_backlog := mkBacklog { nb_node : option loc; next_sub_idx : Z }.

(** [children(node)]: the field of the non-leaf, or what is there in a leaf. *)
Definition children_of (n : node) : Z := count (node_hdr n).

(** The loops of [key_print64_t]; [%d] takes the low 32 bits of a key. *)
Definition print_keys (keys : list Z) (n : Z) (out : list Z) : option (list Z) :=
  for_range 0 n (fun i out => do k <- aget keys i; Some (out ++ text " " ++ fmt_d (s32 k))) out.

Definition key_print64_t (n : node) : option (list Z) :=
  if is_leaf (node_hdr n) then
    match n with
    | Leaf leaf =>
        do out <- print_keys (lf_key leaf) (entries leaf) (text "leaf:");
        do out <- for_range 0 (entries leaf) (fun i out =>
          do h <- aget (lf_childhash leaf) i;
          do s <- cstr h;
          Some (out ++ text " leaf: " ++ fmt_d (s32 i) ++ text ", hash: " ++ s)) (out ++ text " hash:");
        do s <- cstr (lf_node_hash leaf);
        Some (out ++ text " " ++ s ++ [10])
    | NonLeaf _ => None
    end
  else
    match n with
    | NonLeaf non_leaf =>
        do out <- print_keys (nl_key non_leaf) (children non_leaf - 1) (text "node:");
        do s <- cstr (nl_node_hash non_leaf);
        Some (out ++ text " hash:" ++ text " " ++ s ++ [10])
    | Leaf _ => None
    end.

(** The local variables of [bplus_tree_dump] and what was printed; [top] is an
    index into [nbl_stack], and [p_nbl] too. *)
Record dump_state := mkDump {
  d_node : option loc;
  d_level : Z;
  d_p_nbl : option Z;
  d_stack : list node_backlog;
  d_top : Z;
  d_out : list Z
}.

(** The columns in front of a node: bars where a node of the path has more
    children. *)
Definition draw (stack : list node_backlog) (level : Z) (out : list Z) : option (list Z) :=
  for_range 1 level (fun i out =>
    if i =? level - 1 then Some (out ++ text "+-------")
    else
      do e <- aget stack (i - 1);
      Some (out ++ match nb_node e with Some _ => text "|       " | None => text "        " end)) out.

(** The branch for a node. *)
Definition dump_node (m : mem) (l : loc) (s : dump_state) : option dump_state :=
  do sub_idx <- match d_p_nbl s with Some i => do e <- aget (d_stack s) i; Some (next_sub_idx e) | None => Some 0 end;
  do n <- nodes m !! l;
  do stack <- aset (d_stack s) (d_top s)
    (if is_leaf (node_hdr n) || (children_of n <=? sub_idx + 1) then mkBacklog None 0 else mkBacklog (Some l) (sub_idx + 1));
  let level := d_level s + 1 in
  do out <- (if sub_idx =? 0 then do out <- draw stack level (d_out s); do line <- key_print64_t n; Some (out ++ line)
             else Some (d_out s));
  do next <- (if is_leaf (node_hdr n) then Some None
              else match n with NonLeaf non_leaf => aget (sub_ptr non_leaf) sub_idx | Leaf _ => None end);
  Some (mkDump next level None stack (d_top s + 1) out).

Fixpoint dump_loop (fuel : nat) (m : mem) (s : dump_state) : option (list Z) :=
  match fuel with
  | O => None
  | S fuel' =>
      match d_node s with
      | Some l => do s <- dump_node m l s; dump_loop fuel' m s
      | None =>
          if d_top s =? 0 then Some (d_out s)
          else
            let top := d_top s - 1 in
            do e <- aget (d_stack s) top;
            dump_loop fuel' m (mkDump (nb_node e) (d_level s - 1) (Some top) (d_stack s) top (d_out s))
      end
  end.

(** [nbl0]: what the array on the stack happens to contain. *)
Definition bplus_tree_dump (fuel : nat) (nbl0 : list node_backlog) (m : mem) : option (list Z) :=
  dump_loop fuel m (mkDump (root (tree m)) 0 None nbl0 0 []).

(** ** The recursive description *)

(** The columns for the entries of the path from the root: whether each has more
    children. *)
Fixpoint columns_for (bars : list bool) : list Z :=
  match bars with
  | [] => []
  | [_] => text "+-------"
  | b :: bars' => (if b : bool then text "|       " else text "        ") ++ columns_for bars'
  end.

Section Preorder.
Context (line : loc -> list Z).

Fixpoint preorder (bars : list bool) (t : btree) : list Z :=
  columns_for bars ++ line (bloc t) ++
  match t with
  | BLeaf _ _ => []
  | BNode _ _ ts =>
      (fix go ts := match ts with
        | [] => []
        | t' :: ts' => preorder (bars ++ [match ts' with [] => false | _ => true end]) t' ++ go ts'
        end) ts
  end.

(** The children from one on. *)
Fixpoint preorders (bars : list bool) (ts : list btree) : list Z :=
  match ts with
  | [] => []
  | t' :: ts' => preorder (bars ++ [match ts' with [] => false | _ => true end]) t' ++ preorders bars ts'
  end.

Lemma preorder_node bars l ks ts : preorder bars (BNode l ks ts) = columns_for bars ++ line l ++ preorders bars ts.
Proof. simpl. do 2 f_equal. induction ts as [|t ts IH]; simpl; [done|]. by rewrite IH. Qed.

End Preorder.

(** The rounds of the loop for a tree. *)
Fixpoint steps (t : btree) : nat :=
  match t with BLeaf _ _ => 2 | BNode _ _ ts => sum_list (map (fun t' => 2 + steps t')%nat ts) end.

(** ** The columns *)

Definition column (b : bool) : list Z := if b then text "|       " else text "        ".

Lemma columns_for_last bars b : columns_for (bars ++ [b]) = concat (column <$> bars) ++ text "+-------".
Proof.
  induction bars as [|b0 bars IH]; [done|]. rewrite <- app_comm_cons. rewrite fmap_cons. cbn [concat]. rewrite <- app_assoc, <- IH.
  by destruct bars, b0.
Qed.

Definition bars_of (stack : list node_backlog) : list bool := (fun e => match nb_node e with Some _ => true | None => false end) <$> stack.

Lemma draw_columns stack d out : (d <= length stack)%nat ->
  draw stack (Z.of_nat d + 1) out = Some (out ++ columns_for (bars_of (take d stack))).
Proof.
  intros Hd. enough (yields (draw stack (Z.of_nat d + 1) out) (fun o => o = out ++ columns_for (bars_of (take d stack))))
    as (o & -> & ->) by done.
  destruct d as [|d]; [by eexists; split; [reflexivity|rewrite app_nil_r]|].
  destruct (lookup_lt_is_Some_2 stack d) as [e He]; [lia|].
  apply (yields_for (fun i o => o = out ++ (if decide (i <= Z.of_nat (S d)) then concat (column <$> bars_of (take (Z.to_nat (i - 1)) stack))
    else columns_for (bars_of (take (S d) stack))))).
  - lia.
  - rewrite decide_True by lia. change (Z.to_nat (1 - 1)) with 0%nat. cbn. by rewrite app_nil_r.
  - intros i o Hi ->. rewrite decide_True by lia. destruct (Z.eqb_spec i (Z.of_nat (S d) + 1 - 1)) as [->|Hne].
    + apply yields_ret. rewrite decide_False by lia. replace (Z.to_nat (Z.of_nat (S d) + 1 - 1 - 1)) with d by lia.
      rewrite (take_S_r _ _ e He). unfold bars_of at 2. rewrite fmap_app. rewrite <- app_assoc. f_equal. symmetry. apply columns_for_last.
    + destruct (lookup_lt_is_Some_2 stack (Z.to_nat (i - 1))) as [e' He']; [lia|].
      eapply yields_bind, yields_aget; [lia|exact He'|]. apply yields_ret. rewrite decide_True by lia.
      replace (Z.to_nat (i + 1 - 1)) with (S (Z.to_nat (i - 1))) by lia. rewrite (take_S_r _ _ e' He').
      unfold bars_of. rewrite !fmap_app, concat_app, <- app_assoc. do 2 f_equal. simpl. rewrite app_nil_r. by destruct (nb_node e').
  - intros o ->. by rewrite decide_False by lia.
Qed.

(** ** The walk *)

Section Walk.
Context (m : mem) (line : loc -> list Z).

(** Every node of the tree can be printed. *)
Definition printable (t : btree) : Prop :=
  forall l n, l ∈ blocs t -> nodes m !! l = Some n -> key_print64_t n = Some (line l).

(** Every non-leaf has a child. *)
Fixpoint branching (t : btree) : Prop :=
  match t with BLeaf _ _ => True | BNode _ _ ts => ts <> [] /\ all (map branching ts) end.

(** The entry behind child [j] of [k] of the node [l]. *)
Definition entry (l : loc) (j k : nat) : node_backlog :=
  if (S j <? k)%nat then mkBacklog (Some l) (Z.of_nat (S j)) else mkBacklog None 0.

(** A node on its [j]-th visit. *)
Lemma dump_node_step l ks ts j t' p stack d out n : nodes m !! l = Some (NonLeaf n) -> node_holds n ks (map bloc ts) ->
  ts !! j = Some t' -> (d < length stack)%nat ->
  match p with Some i => i = Z.of_nat d /\ stack !! d = Some (mkBacklog (Some l) (Z.of_nat j)) | None => j = 0%nat end ->
  key_print64_t (NonLeaf n) = Some (line l) ->
  dump_node m l (mkDump (Some l) (Z.of_nat d) p stack (Z.of_nat d) out)
  = Some (mkDump (Some (bloc t')) (Z.of_nat d + 1) None (<[d := entry l j (length ts)]> stack) (Z.of_nat d + 1)
      (if (j =? 0)%nat then out ++ columns_for (bars_of (take d stack)) ++ line l else out)).
Proof.
  intros En (Hty & Hwf & Hch & _ & Hs) Hj Hd Hp Hl. unfold dump_node. cbn [d_p_nbl d_stack d_top d_level d_out].
  assert (match p with Some i => do e <- aget stack i; Some (next_sub_idx e) | None => Some 0 end = Some (Z.of_nat j)) as ->.
  { destruct p as [i|]; [|by rewrite Hp]. destruct Hp as [-> He]. by rewrite aget_nat, He. }
  cbn [mbind option_bind]. rewrite En. cbn [mbind option_bind node_hdr]. assert (is_leaf (nl_node n) = false) as Hlf by (by apply Z.eqb_neq).
  rewrite Hlf. cbn [orb]. unfold children_of. cbn [node_hdr].
  assert (count (nl_node n) = zlen ts) as Hcnt by (unfold children in Hch; rewrite Hch; unfold zlen; by rewrite length_map).
  assert ((if count (nl_node n) <=? Z.of_nat j + 1 then mkBacklog None 0 else mkBacklog (Some l) (Z.of_nat j + 1)) = entry l j (length ts)) as ->.
  { unfold entry, zlen in *. rewrite Hcnt. destruct (Nat.ltb_spec (S j) (length ts)), (Z.leb_spec (Z.of_nat (length ts)) (Z.of_nat j + 1)); try lia; [|done].
    f_equal. lia. }
  rewrite aset_Some by (unfold zlen; lia). cbn [mbind option_bind]. rewrite Nat2Z.id.
  assert (aget (sub_ptr n) (Z.of_nat j) = Some (Some (bloc t'))) as Hsub.
  { rewrite aget_nat, <- (lookup_take_lt _ (length (map bloc ts))), Hs by (rewrite length_map; by eapply lookup_lt_Some).
    change (map bloc ts) with (bloc <$> ts). by rewrite !list_lookup_fmap, Hj. }
  rewrite Hsub. destruct j as [|j].
  - change (Z.of_nat 0 =? 0) with true. cbv iota. rewrite draw_columns by (rewrite length_insert; lia). cbn [mbind option_bind].
    rewrite Hl. cbn [mbind option_bind]. rewrite take_insert_ge by lia. by rewrite <- app_assoc.
  - assert ((Z.of_nat (S j) =? 0) = false) as -> by (apply Z.eqb_neq; lia). done.
Qed.

Lemma dump_leaf_step l n stack d out : nodes m !! l = Some (Leaf n) -> type (lf_node n) = BPLUS_TREE_LEAF ->
  (d < length stack)%nat -> key_print64_t (Leaf n) = Some (line l) ->
  dump_node m l (mkDump (Some l) (Z.of_nat d) None stack (Z.of_nat d) out)
  = Some (mkDump None (Z.of_nat d + 1) None (<[d := mkBacklog None 0]> stack) (Z.of_nat d + 1)
      (out ++ columns_for (bars_of (take d stack)) ++ line l)).
Proof.
  intros En Hty Hd Hl. unfold dump_node. cbn [d_p_nbl d_stack d_top d_level d_out mbind option_bind]. rewrite En.
  cbn [mbind option_bind node_hdr]. unfold is_leaf. rewrite Hty. cbn [orb Z.eqb]. change (BPLUS_TREE_LEAF =? BPLUS_TREE_LEAF) with true. cbn [orb].
  rewrite aset_Some by (unfold zlen; lia). cbn [mbind option_bind]. rewrite Nat2Z.id.
  change (0 =? 0) with true. cbv iota. rewrite draw_columns by (rewrite length_insert; lia). cbn [mbind option_bind]. rewrite Hl. cbn [mbind option_bind].
  rewrite take_insert_ge by lia. by rewrite <- app_assoc.
Qed.

(** Behind a tree the machine is back at the top it started from. *)
Definition visited (t : btree) : Prop := forall fuel stack d out, length stack = 10%nat -> (d + height t < 10)%nat ->
  exists stack', dump_loop (steps t + fuel) m (mkDump (Some (bloc t)) (Z.of_nat d) None stack (Z.of_nat d) out)
    = dump_loop fuel m (mkDump None (Z.of_nat d) (Some (Z.of_nat d)) stack' (Z.of_nat d) (out ++ preorder line (bars_of (take d stack)) t)) /\
    length stack' = 10%nat /\ take d stack' = take d stack.

(** The loop goes back from the top. *)
Lemma dump_pop fuel stack d out level p e : stack !! d = Some e ->
  dump_loop (S fuel) m (mkDump None level p stack (Z.of_nat d + 1) out)
  = dump_loop fuel m (mkDump (nb_node e) (level - 1) (Some (Z.of_nat d)) stack (Z.of_nat d) out).
Proof.
  intros He. cbn [dump_loop d_node d_top]. assert ((Z.of_nat d + 1 =? 0) = false) as -> by (apply Z.eqb_neq; lia).
  replace (Z.of_nat d + 1 - 1) with (Z.of_nat d) by lia. cbn [d_stack d_level d_out]. rewrite aget_nat, He. done.
Qed.

(** A child of the node [l], and back to the entry of [l]. *)
Lemma child_visited t' stack d out e fuel : visited t' -> (S d + height t' < 10)%nat -> length stack = 10%nat ->
  stack !! d = Some e ->
  exists stack', dump_loop (steps t' + 1 + fuel) m (mkDump (Some (bloc t')) (Z.of_nat d + 1) None stack (Z.of_nat d + 1) out)
    = dump_loop fuel m (mkDump (nb_node e) (Z.of_nat d) (Some (Z.of_nat d)) stack' (Z.of_nat d)
        (out ++ preorder line (bars_of (take d stack) ++ [match nb_node e with Some _ => true | None => false end]) t')) /\
    length stack' = 10%nat /\ take d stack' = take d stack /\ stack' !! d = Some e.
Proof.
  intros Hv Hh Hst He. destruct (Hv (1 + fuel)%nat stack (S d) out Hst Hh) as (stack1 & E & L1 & T1).
  assert (stack1 !! d = Some e) as He1 by (rewrite <- (lookup_take_lt _ (S d)), T1, lookup_take_lt by lia; done).
  exists stack1. split_and!; [|done| |done].
  - replace (Z.of_nat d + 1) with (Z.of_nat (S d)) by lia. replace (steps t' + 1 + fuel)%nat with (steps t' + (1 + fuel))%nat by lia.
    rewrite E. replace (Z.of_nat (S d)) with (Z.of_nat d + 1) by lia. change (1 + fuel)%nat with (S fuel). rewrite (dump_pop _ _ _ _ _ _ e He1).
    replace (Z.of_nat d + 1 - 1) with (Z.of_nat d) by lia. rewrite (take_S_r _ _ e He). unfold bars_of. by rewrite fmap_app.
  - pose proof (f_equal (take d) T1) as T2. by rewrite !take_take, !Nat.min_l in T2 by lia.
Qed.

Section Children.
Context (l : loc) (ks : list Z) (ts : list btree) (n : bplus_non_leaf) (d : nat).
Context (En : nodes m !! l = Some (NonLeaf n)) (Hn : node_holds n ks (map bloc ts)) (Hl : key_print64_t (NonLeaf n) = Some (line l)).
Context (Hh : (d + height (BNode l ks ts) < 10)%nat) (Hv : Forall visited ts).

Lemma child_ok j t' : ts !! j = Some t' -> visited t' /\ (S d + height t' < 10)%nat.
Proof.
  intros Hj. split; [exact (Forall_lookup_1 _ _ _ _ Hv Hj)|].
  assert (map height ts !! j = Some (height t')) as Hm by (change (map height ts) with (height <$> ts); by rewrite list_lookup_fmap, Hj).
  pose proof (Forall_lookup_1 _ _ _ _ (proj1 (list_max_le _ _) (le_n _)) Hm) as Hle. simpl in Hle, Hh. lia.
Qed.

(** The children from one on, when the machine stands at that child. *)
Lemma children_visited ts2 : forall ts1 t' fuel stack out, ts = ts1 ++ t' :: ts2 -> length stack = 10%nat ->
  stack !! d = Some (entry l (length ts1) (length ts)) ->
  exists stack', dump_loop (steps t' + 1 + (sum_list (map (fun t' => 2 + steps t') ts2) + fuel))%nat m
      (mkDump (Some (bloc t')) (Z.of_nat d + 1) None stack (Z.of_nat d + 1) out)
    = dump_loop fuel m (mkDump None (Z.of_nat d) (Some (Z.of_nat d)) stack' (Z.of_nat d) (out ++ preorders line (bars_of (take d stack)) (t' :: ts2))) /\
    length stack' = 10%nat /\ take d stack' = take d stack.
Proof.
  induction ts2 as [|t2 ts2 IH]; intros ts1 t' fuel stack out Hts Hst He;
    (destruct (child_ok (length ts1) t') as [Hvt Hht]; [subst ts; by apply list_lookup_middle|]).
  - destruct (child_visited t' stack d out _ (0 + fuel) Hvt Hht Hst He) as (stack' & E & L & T & _). exists stack'. split_and!; [|done|done].
    assert (entry l (length ts1) (length ts) = mkBacklog None 0) as Ee.
    { unfold entry. rewrite Hts, length_app. simpl. destruct (Nat.ltb_spec (S (length ts1)) (length ts1 + 1)); [lia|done]. }
    rewrite Ee in E. cbn [map sum_list]. rewrite E. cbn [preorders nb_node]. by rewrite app_nil_r.
  - destruct (child_visited t' stack d out _ (2 + steps t2 + sum_list (map (fun t' => 2 + steps t')%nat ts2) + fuel) Hvt Hht Hst He) as (stack1 & E & L1 & T1 & He1).
    assert (entry l (length ts1) (length ts) = mkBacklog (Some l) (Z.of_nat (S (length ts1)))) as Ee.
    { unfold entry. rewrite Hts, length_app. simpl. destruct (Nat.ltb_spec (S (length ts1)) (length ts1 + S (S (length ts2)))); [done|lia]. }
    rewrite Ee in E, He1. pose proof (lookup_lt_Some _ _ _ He1) as Hdl.
    set (out1 := out ++ preorder line (bars_of (take d stack) ++ [true]) t').
    assert (ts = (ts1 ++ [t']) ++ t2 :: ts2) as Hts' by by rewrite <- app_assoc.
    assert (length (ts1 ++ [t']) = S (length ts1)) as Hlen by (rewrite length_app; simpl; lia).
    destruct (IH (ts1 ++ [t']) t2 fuel (<[d := entry l (S (length ts1)) (length ts)]> stack1) out1 Hts') as (stack' & E2 & L2 & T2);
      [by rewrite length_insert|by rewrite Hlen; apply list_lookup_insert_eq|].
    exists stack'. rewrite take_insert_ge in T2 by lia. split_and!; [|done|by rewrite T2].
    change (sum_list (map (fun t' => 2 + steps t')%nat (t2 :: ts2))) with (2 + steps t2 + sum_list (map (fun t' => 2 + steps t')%nat ts2))%nat.
    rewrite E. cbn [nb_node]. fold out1.
    replace (2 + steps t2 + sum_list (map (fun t' => 2 + steps t')%nat ts2) + fuel)%nat
      with (S (steps t2 + 1 + (sum_list (map (fun t' => 2 + steps t')%nat ts2) + fuel))) by lia.
    cbn [dump_loop d_node]. rewrite (dump_node_step l ks ts (S (length ts1)) t2 (Some (Z.of_nat d)) stack1 d out1 n En Hn);
      [|rewrite Hts'; rewrite <- Hlen; by apply list_lookup_middle|done|done|done].
    cbn [mbind option_bind Nat.eqb]. rewrite E2, take_insert_ge by lia. rewrite T1. unfold out1. cbn [preorders]. by rewrite <- app_assoc.
Qed.

End Children.

Lemma tree_visited t : brep m t -> branching t -> printable t -> visited t.
Proof.
  induction t as [l es|l ks ts IH] using btree_ind'; intros Hrep Hbr Hpr fuel stack d out Hst Hh.
  - destruct Hrep as (n & En & Hty & _). simpl in Hh. cbn [steps bloc]. change (2 + fuel)%nat with (S (S fuel)).
    remember (S fuel) as fuel1 eqn:Hf. cbn [dump_loop d_node].
    rewrite (dump_leaf_step l n stack d out En Hty); [|lia|apply Hpr; [by apply list_elem_of_here|done]]. cbn [mbind option_bind].
    subst fuel1. rewrite (dump_pop _ _ d _ _ _ (mkBacklog None 0)) by (apply list_lookup_insert_eq; lia). cbn [nb_node].
    replace (Z.of_nat d + 1 - 1) with (Z.of_nat d) by lia. exists (<[d := mkBacklog None 0]> stack). split_and!; [|by rewrite length_insert|by rewrite take_insert_ge by lia].
    simpl preorder. by rewrite app_nil_r.
  - destruct Hrep as [(n & En & Hn) Hts%all_Forall]. destruct Hbr as [Hne Hbs%all_Forall]. destruct ts as [|t0 ts]; [done|].
    assert (key_print64_t (NonLeaf n) = Some (line l)) as Hl by (apply Hpr; [by apply list_elem_of_here|done]).
    assert (Forall visited (t0 :: ts)) as Hv.
    { apply Forall_forall. intros t' Ht'. rewrite Forall_forall in IH, Hts, Hbs. apply IH; [done|by apply Hts|by apply Hbs|].
      intros l' n' Hl'. apply Hpr. simpl. apply list_elem_of_further. by apply (concat_map_elem blocs t' (t0 :: ts)). }
    destruct (children_visited l ks (t0 :: ts) n d En Hn Hl Hh Hv ts [] t0 fuel (<[d := entry l 0 (length (t0 :: ts))]> stack)
      (out ++ columns_for (bars_of (take d stack)) ++ line l) eq_refl) as (stack' & E & L & T);
      [by rewrite length_insert|apply list_lookup_insert_eq; simpl in Hh; lia|].
    rewrite take_insert_ge in T by lia. exists stack'. split_and!; [|done|done].
    replace (steps (BNode l ks (t0 :: ts)) + fuel)%nat with (S (steps t0 + 1 + (sum_list (map (fun t' => 2 + steps t')%nat ts) + fuel)))
      by (simpl; lia).
    cbn [dump_loop d_node bloc]. rewrite (dump_node_step l ks (t0 :: ts) 0 t0 None stack d out n En Hn) by (done || simpl in Hh; lia).
    cbn [mbind option_bind Nat.eqb]. rewrite E, take_insert_ge by lia. rewrite preorder_node. by rewrite <- !app_assoc.
Qed.

End Walk.

Lemma ordered_branching t : ordered t -> branching t.
Proof.
  induction t as [l es|l ks ts IH] using btree_ind'; [done|]. intros (_ & Hlen & Hts%all_Forall & _). simpl. split; [by destruct ts|].
  apply all_Forall, Forall_forall. intros t' Ht'. rewrite Forall_forall in IH, Hts. by apply IH, Hts.
Qed.

(** C40. [bplus_tree_dump] ends, and prints the tree in preorder: every node once, in
    front of its children, behind one column for every node above it, with a bar
    where that node has more children to come.  The stack of ten entries is enough
    for ten levels, whatever it contains at first. *)
Theorem bplus_tree_dump_preorder (m : mem) (t : btree) (line : loc -> list Z) (nbl0 : list node_backlog) (fuel : nat) :
  represents m t -> (height t < 10)%nat -> length nbl0 = 10%nat ->
  (forall l n, l ∈ blocs t -> nodes m !! l = Some n -> key_print64_t n = Some (line l)) -> (steps t < fuel)%nat ->
  bplus_tree_dump fuel nbl0 m = Some (preorder line [] t).
Proof.
  intros [Hroot Hrep Hord _ _ _] Hh Hn Hpr Hf. unfold bplus_tree_dump. rewrite Hroot.
  destruct (tree_visited m line t Hrep (ordered_branching t Hord) Hpr (fuel - steps t)%nat nbl0 0%nat [] Hn Hh) as (stack' & E & _).
  replace (steps t + (fuel - steps t))%nat with fuel in E by lia. change (Z.of_nat 0) with 0 in E. rewrite E.
  destruct (fuel - steps t)%nat eqn:Ef; [lia|]. reflexivity.
Qed.

Definition pair_line (l : loc) : list Z := default [] (do n <- nodes pair_mem !! l; key_print64_t n).

Lemma bplus_tree_dump_preorder_witness :
  bplus_tree_dump 10 (replicate 10 (mkBacklog (Some 5%nat) 7)) pair_mem = Some (preorder pair_line [] pair_tree).
Proof.
  apply bplus_tree_dump_preorder; [exact pair_represents|simpl; lia|reflexivity| |simpl; lia].
  intros l n Hl Hn. unfold pair_line. rewrite Hn. cbn [mbind option_bind].
  assert (is_Some (key_print64_t n)) as [s ->]; [|reflexivity].
  apply elem_of_cons in Hl as [->|Hl]; [injection Hn as <-; eexists; reflexivity|].
  apply elem_of_cons in Hl as [->|Hl]; [injection Hn as <-; eexists; reflexivity|].
  apply list_elem_of_singleton in Hl as ->. injection Hn as <-. eexists; reflexivity.
Defined.
