(* ===== verification/Select.v ===== *)
(** * An authenticated SELECT from the parse tree to the scan
    (src/src/backend/parser/analyze.c, parse_clause.c, parse_expr.c,
    src/src/backend/utils/cache/relcache.c, src/src/backend/optimizer)

    [AUTHSELECT] sets a flag in the statement.  Parse analysis turns the WHERE
    clause into nodes of its own, [Auth_Expr] and [Auth_Op_Expr], instead of
    operators with resolved types; the planner makes one path over the indexes of
    the table and the plan takes one index of them; the condition goes through
    unchanged and the scan reads its range from it (Scan.v).

    What these functions share with PostgreSQL and what did not change is an
    argument: the resolution of columns, operators, rows and of the remaining
    kinds of expressions, the coercion to boolean, the constants that are not
    integers, and in the executor the projection and the evaluation of conditions.
    In parse analysis [None] is an error raised for the statement. *)

From stdpp Require Import strings.
From S2P Require Import Prelude CMem Codec Node Vo IndexAm Scan CStr.

(** ** Expressions *)

Inductive Value := T_Integer (ival : Z) | T_Float (str : string) | T_String (str : string) | T_BitString (str : string) | T_Null.

Inductive A_Expr_Kind :=
  | AEXPR_OP | AEXPR_AND | AEXPR_OR | AEXPR_NOT | AEXPR_OP_ANY | AEXPR_OP_ALL
  | AEXPR_DISTINCT | AEXPR_NULLIF | AEXPR_OF | AEXPR_IN.

Inductive BoolExprType := AND_EXPR | OR_EXPR | NOT_EXPR.

(** A pointer to a node: raw nodes as the grammar makes them, nodes of the result,
    and the NULL pointer.  [T_Other] stands for the tags that are not looked at. *)
Inductive Node :=
  | NULL
  | T_ColumnRef (fields : list string)
  | T_A_Const (val : Value)
  | T_A_Expr (kind : A_Expr_Kind) (name : list string) (lexpr rexpr : Node)
  | T_RowExpr (args : list Node)
  | T_SubLink (subLinkType : Z)
  | T_Var (varno varattno : Z)
  | T_Const (constvalue : Z) (constisnull : bool)
  | T_BoolExpr (boolop : BoolExprType) (args : list Node)
  | T_NullTest (arg : Node)
  | T_Auth_Expr (lexpr rexpr : Node) (opName : string)
  | T_Auth_Op_Expr (lexpr rexpr : Node) (authType : Z)
  | T_Other (tag : Z).

Definition EXPR_SUBLINK : Z := 4.

Section Parser.
Context (Transform_null_equals : bool)
  (transformColumnRef : list string -> option Node)
  (other_datum : Value -> option Z)
  (make_op make_row_comparison_op : list string -> Node -> Node -> option Node)
  (coerce_to_boolean : Node -> option Node)
  (transform_other : bool -> Node -> option Node).

(** An integer is stored in the low half of the datum; the values of the other types come from
    input functions, and NULL is the datum 0. *)
Definition make_const (v : Value) : option Node :=
  match v with
  | T_Integer i => Some (T_Const (u32 i) false)
  | T_Null => Some (T_Const 0 true)
  | _ => do d <- other_datum v; Some (T_Const d false)
  end.

Definition exprIsNullConstant (arg : Node) : bool :=
  match arg with T_A_Const T_Null => true | _ => false end.

(** The first branch makes a NullTest and transforms it, which transforms its
    argument. *)
Definition transformAExprOp (isAuthType : bool) (transformExpr : Node -> option Node) (name : list string) (lexpr rexpr : Node)
  : option Node :=
  if Transform_null_equals && bool_decide (name = ["="]) && (exprIsNullConstant lexpr || exprIsNullConstant rexpr) then
    if exprIsNullConstant lexpr then do arg <- transformExpr rexpr; Some (T_NullTest arg)
    else do arg <- transformExpr lexpr; Some (T_NullTest arg)
  else
    let ordinary :=
      do l <- transformExpr lexpr;
      do r <- transformExpr rexpr;
      if isAuthType then do op <- head name; Some (T_Auth_Expr l r op) else make_op name l r in
    match lexpr, rexpr with
    | T_RowExpr _, T_SubLink t =>
        if t =? EXPR_SUBLINK then transform_other isAuthType (T_A_Expr AEXPR_OP name lexpr rexpr) else ordinary
    | T_RowExpr _, T_RowExpr _ =>
        do l <- transformExpr lexpr;
        do r <- transformExpr rexpr;
        make_row_comparison_op name l r
    | _, _ => ordinary
    end.

Definition transformAExprAnd (isAuthType : bool) (transformExpr : Node -> option Node) (lexpr rexpr : Node) : option Node :=
  do l <- transformExpr lexpr;
  do r <- transformExpr rexpr;
  if isAuthType then Some (T_Auth_Op_Expr l r 1)
  else
    do l <- coerce_to_boolean l;
    do r <- coerce_to_boolean r;
    Some (T_BoolExpr AND_EXPR [l; r]).

Definition transformAExprOr (isAuthType : bool) (transformExpr : Node -> option Node) (lexpr rexpr : Node) : option Node :=
  do l <- transformExpr lexpr;
  do r <- transformExpr rexpr;
  if isAuthType then Some (T_Auth_Op_Expr l r 0)
  else
    do l <- coerce_to_boolean l;
    do r <- coerce_to_boolean r;
    Some (T_BoolExpr OR_EXPR [l; r]).

Definition transformAExprNot (transformExpr : Node -> option Node) (rexpr : Node) : option Node :=
  do r <- transformExpr rexpr;
  do r <- coerce_to_boolean r;
  Some (T_BoolExpr NOT_EXPR [r]).

Fixpoint transformExpr (isAuthType : bool) (expr : Node) : option Node :=
  match expr with
  | NULL => Some NULL
  | T_ColumnRef fields => transformColumnRef fields
  | T_A_Const v => make_const v
  | T_A_Expr AEXPR_OP name l r => transformAExprOp isAuthType (transformExpr isAuthType) name l r
  | T_A_Expr AEXPR_AND _ l r => transformAExprAnd isAuthType (transformExpr isAuthType) l r
  | T_A_Expr AEXPR_OR _ l r => transformAExprOr isAuthType (transformExpr isAuthType) l r
  | T_A_Expr AEXPR_NOT _ _ r => transformAExprNot (transformExpr isAuthType) r
  | T_NullTest arg => do a <- transformExpr isAuthType arg; Some (T_NullTest a)
  | _ => transform_other isAuthType expr
  end.

(** ** Statement and query *)

Record SelectStmt := mkSelect { whereClause : Node; havingClause : Node; auth_select : bool }.

Record Query := mkQuery { isAuthtype : bool; authquals : Node; jointree_quals : Node; havingQual : Node }.

(** The result with the flag of the parse state, which stays set. *)
Definition transformAuthWhereClause (isAuthType : bool) (clause : Node) : option (Node * bool) :=
  match clause with
  | NULL => Some (NULL, isAuthType)
  | _ => do qual <- transformExpr true clause; Some (qual, true)
  end.

Definition transformWhereClause (isAuthType : bool) (clause : Node) : option Node :=
  match clause with
  | NULL => Some NULL
  | _ => do qual <- transformExpr isAuthType clause; coerce_to_boolean qual
  end.

(** The conditions of a SELECT; the flag of a new parse state is not set. *)
Definition transformSelectStmt (stmt : SelectStmt) : option Query :=
  if auth_select stmt then
    do '(quals, isAuthType) <- transformAuthWhereClause false (whereClause stmt);
    do having <- transformWhereClause isAuthType (havingClause stmt);
    Some (mkQuery true quals NULL having)
  else
    do qual <- transformWhereClause false (whereClause stmt);
    do having <- transformWhereClause false (havingClause stmt);
    Some (mkQuery false NULL qual having).

End Parser.

(** ** The indexes of a table *)

(** What the planner and the scan read of an index: the row in pg_index, whether
    its transaction is too new for this one, and the access method, name and flag
    in pg_class. *)
Record index_desc := mkIndex {
  relam : access_method;
  indisvalid : bool;
  indcheckxmin : bool;
  xmin_precedes : bool;
  relname : list Z;
  relp_isAuthType : bool
}.

(** An index is authenticated when its row says so or its name contains mbt. *)
Definition RelationBuildDesc_isAuthType (i : index_desc) : bool :=
  relp_isAuthType i || strstr (relname i) (text "mbt").

Fixpoint insert_ordered_oid (l : list Z) (datum : Z) : list Z :=
  match l with
  | [] => [datum]
  | x :: l' => if datum <? x then datum :: l else x :: insert_ordered_oid l' datum
  end.

(** The list of a table with the rows [indexrelids] in pg_index. *)
Definition RelationGetIndexList (indexrelids : list Z) : list Z := foldl insert_ordered_oid [] indexrelids.

Record IndexOptInfo := mkInfo { indexoid : Z; info_isAuthType : bool }.

(** One round of the loop over the indexes: the list and the flag
    [transientPlan]. *)
Definition add_index (descs : Z -> index_desc) (st : list IndexOptInfo * bool) (oid : Z) : list IndexOptInfo * bool :=
  let '(indexinfos, transientPlan) := st in
  let index := descs oid in
  if negb (indisvalid index) then (indexinfos, transientPlan)
  else if indcheckxmin index && negb (xmin_precedes index) then (indexinfos, true)
  else (mkInfo oid (RelationBuildDesc_isAuthType index) :: indexinfos, transientPlan).

Definition get_relation_info (descs : Z -> index_desc) (hasindex : bool) (indexrelids : list Z) : list IndexOptInfo * bool :=
  if hasindex then foldl (add_index descs) ([], false) (RelationGetIndexList indexrelids) else ([], false).

(** ** Path and plan *)

Record RelOptInfo := mkRel { relid : Z; indexlist : list IndexOptInfo }.

Record AuthIndexPath := mkPath { path_parent : RelOptInfo; indexquals : Node; indexoids : list Z; indexscandir : Z }.

Record AuthIndexScan := mkPlan { plan_qual : Node; scanrelid : Z; indexid : Z; indexqual : Node; indexorderdir : Z }.

Definition ForwardScanDirection : Z := 1.

(** The costs are constants and there is no other path. *)
Definition create_auth_index_path (parse : Query) (dir : Z) (rel : RelOptInfo) : AuthIndexPath :=
  mkPath rel (authquals parse) (foldl (fun result index => result ++ [indexoid index]) [] (indexlist rel)) dir.

Definition make_authindexscan (qpqual : Node) (relid dir : Z) : AuthIndexScan := mkPlan qpqual relid 0 NULL dir.

Definition create_authindexscan_plan (best_path : AuthIndexPath) : AuthIndexScan :=
  let p := make_authindexscan (indexquals best_path) (relid (path_parent best_path)) (indexscandir best_path) in
  foldl (fun p oid => mkPlan (plan_qual p) (scanrelid p) oid (indexqual p) (indexorderdir p)) p (indexoids best_path).

(** [fix_expr] is what happens to a node; there is none behind the NULL pointer. *)
Definition fix_scan_list (fix_expr : Node -> Z -> Node) (node : Node) (rtoffset : Z) : Node :=
  match node with NULL => NULL | _ => fix_expr node rtoffset end.

(** The numbers in [indexqual] are adjusted, those in the condition are not. *)
Definition set_plan_refs (fix_expr : Node -> Z -> Node) (p : AuthIndexScan) (rtoffset : Z) : AuthIndexScan :=
  mkPlan (plan_qual p) (scanrelid p + rtoffset) (indexid p) (fix_scan_list fix_expr (indexqual p) rtoffset) (indexorderdir p).

(** The paths of a table for an authenticated query. *)
Definition set_plain_rel_pathlist (other_paths : list AuthIndexPath) (parse : Query) (rel : RelOptInfo) : list AuthIndexPath :=
  if isAuthtype parse then [create_auth_index_path parse ForwardScanDirection rel] else other_paths.

(** ** The condition as the scan reads it *)

(** The casts to [Auth_Expr] and, for its right side, to [Const]: undefined for a
    node of another type. *)
Definition as_comparison (n : Node) : option comparison :=
  match n with
  | T_Auth_Expr _ (T_Const v _) op => Some (mkCmp op v)
  | _ => None
  end.

Definition scan_condition (qual : Node) : option Auth_Expr :=
  match qual with
  | T_Auth_Op_Expr l r _ =>
      do c1 <- as_comparison l;
      do c2 <- as_comparison r;
      Some (Auth_Op_Expr c1 c2)
  | n => do c <- as_comparison n; Some (Auth_Comparison c)
  end.

(** ** The statement as a whole *)

Section Authselect.
Context (transform : SelectStmt -> option Query) (descs : Z -> index_desc) (fix_expr : Node -> Z -> Node)
  (index_open : Z -> bool) {HeapTuple : Type} (fetch : Z -> Z -> HeapTuple)
  (mbtgettuple : Z -> Z -> Z -> option rangevo) (amgettuple : Z -> Z -> Z -> option bool)
  (ExecQual : Node -> HeapTuple -> bool) (projInfo : option (HeapTuple -> HeapTuple)).

(** The plan of an authenticated query over one table. *)
Definition plan_of (qry : Query) (relid : Z) (hasindex : bool) (indexrelids : list Z) : option AuthIndexScan :=
  let rel := mkRel relid (get_relation_info descs hasindex indexrelids).1 in
  do best_path <- head (set_plain_rel_pathlist [] qry rel);
  Some (set_plan_refs fix_expr (create_authindexscan_plan best_path) 0).

(** [ss.ps.qual] of the scan is [indexqual] of the plan. *)
Definition ps_qual (plan : AuthIndexScan) : option (HeapTuple -> bool) :=
  match indexqual plan with NULL => None | q => Some (ExecQual q) end.

(** An error of parse analysis or of [index_open] refuses the statement.  The scan
    gets the condition as it is in the plan and looks at it when it starts. *)
Definition authselect (stmt : SelectStmt) (relid : Z) (hasindex : bool) (indexrelids : list Z) (fuel : nat)
  (st : @scan_state HeapTuple) : outcome (list HeapTuple * list (list Z) * @scan_state HeapTuple) :=
  match transform stmt with
  | None => Refused
  | Some qry =>
      match plan_of qry relid hasindex indexrelids with
      | None => Undefined
      | Some plan =>
          if index_open (indexid plan) then
            ExecutePlan fetch
              (auth_index_getnext (relam (descs (indexid plan))) (mbtgettuple (indexid plan)) (amgettuple (indexid plan)))
              (scan_condition (plan_qual plan)) (ps_qual plan) projInfo fuel st
          else Refused
      end
  end.

End Authselect.

(** ** Which index the plan takes *)

(** An index the planner keeps. *)
Definition usable_index (descs : Z -> index_desc) (oid : Z) : bool :=
  indisvalid (descs oid) && negb (indcheckxmin (descs oid) && negb (xmin_precedes (descs oid))).

Lemma insert_ordered_oid_elem l d x : x ∈ insert_ordered_oid l d <-> x = d \/ x ∈ l.
Proof. induction l as [|y l IH]; simpl; [set_solver|]. destruct (d <? y); set_solver. Qed.

Lemma insert_ordered_oid_sorted l d : StronglySorted Z.le l -> StronglySorted Z.le (insert_ordered_oid l d).
Proof.
  induction 1 as [|y l Hs IH Hy]; simpl; [repeat constructor|]. destruct (Z.ltb_spec d y) as [Hlt|Hge].
  - constructor; [by constructor|]. constructor; [lia|]. eapply Forall_impl; [done|]. simpl. lia.
  - constructor; [done|]. apply Forall_forall. intros x [->|Hx]%insert_ordered_oid_elem; [done|].
    by eapply Forall_forall in Hy.
Qed.

(** The list of a table is sorted and has the numbers of the rows. *)
Lemma index_list_sorted oids :
  StronglySorted Z.le (RelationGetIndexList oids) /\ forall x, x ∈ RelationGetIndexList oids <-> x ∈ oids.
Proof.
  unfold RelationGetIndexList.
  assert (forall l, StronglySorted Z.le l -> StronglySorted Z.le (foldl insert_ordered_oid l oids) /\
    forall x, x ∈ foldl insert_ordered_oid l oids <-> x ∈ l \/ x ∈ oids) as Hind.
  { induction oids as [|d oids IH]; intros l Hl; simpl; [set_solver|].
    destruct (IH _ (insert_ordered_oid_sorted l d Hl)) as [Hs He]. split; [done|].
    intros x. rewrite He, insert_ordered_oid_elem. set_solver. }
  destruct (Hind [] ltac:(constructor)) as [Hs He]. split; [done|]. set_solver.
Qed.

(** The loop over the indexes leaves the usable ones in reverse order. *)
Lemma add_index_oids descs l infos t :
  indexoid <$> (foldl (add_index descs) (infos, t) l).1 =
  reverse (filter (fun o => Is_true (usable_index descs o)) l) ++ (indexoid <$> infos).
Proof.
  revert infos t. induction l as [|o l IH]; intros infos t; [done|]. cbn [foldl]. rewrite filter_cons.
  destruct (decide (usable_index descs o)) as [Hu|Hu]; unfold usable_index in Hu; unfold add_index at 2.
  - destruct (indisvalid (descs o)); [|done]. destruct (indcheckxmin (descs o) && negb (xmin_precedes (descs o))); [done|].
    cbn [negb]. rewrite IH, reverse_cons, <- app_assoc. done.
  - destruct (indisvalid (descs o)); [|apply IH].
    destruct (indcheckxmin (descs o) && negb (xmin_precedes (descs o))); [apply IH|]. by destruct Hu.
Qed.

Lemma path_oids parse dir rel : indexoids (create_auth_index_path parse dir rel) = indexoid <$> indexlist rel.
Proof.
  cbn. assert (forall acc l, foldl (fun r i => r ++ [indexoid i]) acc l = acc ++ (indexoid <$> l)) as Hf.
  { intros acc l. revert acc. induction l as [|i l IH]; intros acc; simpl; [by rewrite app_nil_r|].
    by rewrite IH, <- app_assoc. }
  apply Hf.
Qed.

(** The plan keeps the condition and takes the last of the numbers. *)
Lemma plan_takes_last p :
  plan_qual (create_authindexscan_plan p) = indexquals p /\
  indexid (create_authindexscan_plan p) = default 0 (last (indexoids p)) /\
  indexqual (create_authindexscan_plan p) = NULL.
Proof.
  unfold create_authindexscan_plan. set (f := fun (p : AuthIndexScan) (oid : Z) => _).
  assert (forall l q, plan_qual (foldl f q l) = plan_qual q /\ indexid (foldl f q l) = default (indexid q) (last l) /\
    indexqual (foldl f q l) = indexqual q) as Hf; [|apply (Hf _ (make_authindexscan _ _ _))].
  induction l as [|o l IH]; intros q; [done|]. cbn [foldl]. destruct (IH (f q o)) as (-> & -> & ->). split_and!; [done| |done].
  rewrite last_cons. by destruct (last l).
Qed.

Lemma sorted_filter (P : Z -> Prop) `{!forall x, Decision (P x)} l :
  StronglySorted Z.le l -> StronglySorted Z.le (filter P l).
Proof.
  induction 1 as [|x l Hs IH Hx]; [constructor|]. rewrite filter_cons. destruct (decide (P x)); [|done].
  constructor; [done|]. apply Forall_forall. intros y [_ Hy]%list_elem_of_filter. by eapply Forall_forall in Hx.
Qed.

Lemma last_of_reverse (l : list Z) : last (reverse l) = head l.
Proof. destruct l as [|x l]; [done|]. by rewrite reverse_cons, last_snoc. Qed.

(** The index of the plan: the least number of a usable index, or 0. *)
Lemma plan_index descs fix_expr qry relid oids : isAuthtype qry = true ->
  exists p, plan_of descs fix_expr qry relid true oids = Some p /\ plan_qual p = authquals qry /\ indexqual p = NULL /\
    (forall i, i ∈ oids -> usable_index descs i = true ->
      (forall j, j ∈ oids -> usable_index descs j = true -> i <= j) -> indexid p = i) /\
    ((exists i, i ∈ oids /\ usable_index descs i = true) -> indexid p ∈ oids) /\
    ((forall i, i ∈ oids -> usable_index descs i = false) -> indexid p = 0).
Proof.
  intros Ha. unfold plan_of, set_plain_rel_pathlist. rewrite Ha. cbn [head mbind option_bind]. eexists. split; [done|].
  cbn [set_plan_refs plan_qual indexid indexqual].
  match goal with |- context [create_authindexscan_plan ?p] => destruct (plan_takes_last p) as (-> & -> & ->) end.
  rewrite path_oids. unfold get_relation_info. cbn [indexlist]. rewrite add_index_oids. cbn [fmap list_fmap].
  rewrite app_nil_r, last_of_reverse. destruct (index_list_sorted oids) as [Hs He].
  split; [done|]. split; [done|]. set (us := filter _ _).
  assert (forall x, x ∈ us <-> usable_index descs x = true /\ x ∈ oids) as Hus.
  { intros x. unfold us. rewrite list_elem_of_filter, He, Is_true_true. done. }
  assert (StronglySorted Z.le us) as Hsu by (by apply sorted_filter).
  clearbody us. split_and!.
  - intros i Hi Hu Hmin. destruct us as [|x us]; [by destruct (not_elem_of_nil i); apply Hus|]. cbn [head default].
    apply StronglySorted_inv in Hsu as [_ Hx]. destruct (proj1 (Hus x)) as [Hux Hox]; [by left|].
    assert (i ∈ x :: us) as [->|Hin]%elem_of_cons by (by apply Hus); [done|].
    eapply Forall_forall in Hx; [|done]. pose proof (Hmin x Hox Hux). unfold id. lia.
  - intros (i & Hi & Hu). destruct us as [|x us]; [by destruct (not_elem_of_nil i); apply Hus|]. apply Hus. by left.
  - intros Hno. destruct us as [|x us]; [done|]. destruct (proj1 (Hus x)) as [Hux Hox]; [by left|].
    by rewrite Hno in Hux.
Qed.

(** ** Conditions *)

(** Comparisons of a column with an integer, joined by AND and OR. *)
Inductive condition :=
  | Compare (column : list string) (op : string) (v : Z)
  | Both (c1 c2 : condition)
  | Either (c1 c2 : condition).

Fixpoint where_of (c : condition) : Node :=
  match c with
  | Compare col op v => T_A_Expr AEXPR_OP [op] (T_ColumnRef col) (T_A_Const (T_Integer v))
  | Both c1 c2 => T_A_Expr AEXPR_AND [] (where_of c1) (where_of c2)
  | Either c1 c2 => T_A_Expr AEXPR_OR [] (where_of c1) (where_of c2)
  end.

Fixpoint comparisons (c : condition) : list comparison :=
  match c with
  | Compare _ op v => [mkCmp op (u32 v)]
  | Both c1 c2 | Either c1 c2 => comparisons c1 ++ comparisons c2
  end.

Fixpoint columns_named (c : condition) : list (list string) :=
  match c with
  | Compare col _ _ => [col]
  | Both c1 c2 | Either c1 c2 => columns_named c1 ++ columns_named c2
  end.

(** What the scan can use: one comparison, or two. *)
Definition usable_condition (l : list comparison) : option Auth_Expr :=
  match l with
  | [c] => Some (Auth_Comparison c)
  | [c1; c2] => Some (Auth_Op_Expr c1 c2)
  | _ => None
  end.

Lemma comparisons_nonempty c : exists x l, comparisons c = x :: l.
Proof. induction c as [| |]; simpl; [eauto|..]; destruct IHc1 as (x & l & ->); simpl; eauto. Qed.

Section Conditions.
Context (Transform_null_equals : bool)
  (transformColumnRef : list string -> option Node)
  (other_datum : Value -> option Z)
  (make_op make_row_comparison_op : list string -> Node -> Node -> option Node)
  (coerce_to_boolean : Node -> option Node)
  (transform_other : bool -> Node -> option Node).

Notation transformExpr := (transformExpr Transform_null_equals transformColumnRef other_datum make_op make_row_comparison_op
  coerce_to_boolean transform_other).

(** The node [n] is what parse analysis makes of [c], as far as the scan looks. *)
Definition reads_as (n : Node) (c : condition) : Prop :=
  as_comparison n = (match comparisons c with [x] => Some x | _ => None end) /\
  scan_condition n = usable_condition (comparisons c).

Lemma reads_as_op n1 n2 c1 c2 k : reads_as n1 c1 -> reads_as n2 c2 ->
  as_comparison (T_Auth_Op_Expr n1 n2 k) = (match comparisons c1 ++ comparisons c2 with [x] => Some x | _ => None end) /\
  scan_condition (T_Auth_Op_Expr n1 n2 k) = usable_condition (comparisons c1 ++ comparisons c2).
Proof.
  intros [H1 _] [H2 _]. unfold scan_condition. rewrite H1, H2.
  destruct (comparisons_nonempty c1) as (x & l & ->), (comparisons_nonempty c2) as (y & k' & ->).
  destruct l as [|x' [|? ?]], k' as [|y' [|? ?]]; done.
Qed.

Lemma transform_condition c : (forall col, col ∈ columns_named c -> is_Some (transformColumnRef col)) ->
  exists n, transformExpr true (where_of c) = Some n /\ reads_as n c.
Proof.
  induction c as [col op v|c1 IH1 c2 IH2|c1 IH1 c2 IH2]; intros Hcol; cbn [where_of columns_named] in *.
  - destruct (Hcol col) as [n Hn]; [by left|]. exists (T_Auth_Expr n (T_Const (u32 v) false) op). split; [|done].
    cbn [Select.transformExpr]. unfold transformAExprOp. cbn [exprIsNullConstant orb Select.transformExpr make_const].
    rewrite andb_false_r, Hn. done.
  - destruct IH1 as (n1 & E1 & R1), IH2 as (n2 & E2 & R2); [set_solver..|].
    exists (T_Auth_Op_Expr n1 n2 1). simpl. unfold transformAExprAnd. rewrite E1, E2. split; [done|]. by apply reads_as_op.
  - destruct IH1 as (n1 & E1 & R1), IH2 as (n2 & E2 & R2); [set_solver..|].
    exists (T_Auth_Op_Expr n1 n2 0). simpl. unfold transformAExprOr. rewrite E1, E2. split; [done|]. by apply reads_as_op.
Qed.

Notation transformSelectStmt := (transformSelectStmt Transform_null_equals transformColumnRef other_datum make_op make_row_comparison_op
  coerce_to_boolean transform_other).

(** AUTHSELECT with the condition [c]. *)
Definition authselect_stmt (c : condition) : SelectStmt := mkSelect (where_of c) NULL true.

Lemma transform_authselect c : (forall col, col ∈ columns_named c -> is_Some (transformColumnRef col)) ->
  exists n, transformSelectStmt (authselect_stmt c) = Some (mkQuery true n NULL NULL) /\ reads_as n c.
Proof.
  intros Hcol. destruct (transform_condition c Hcol) as (n & E & Hr). exists n. split; [|done].
  unfold transformSelectStmt, transformAuthWhereClause, authselect_stmt. cbn [auth_select whereClause havingClause].
  rewrite E. by destruct c.
Qed.

Context (descs : Z -> index_desc) (fix_expr : Node -> Z -> Node) (index_open : Z -> bool)
  {HeapTuple : Type} (fetch : Z -> Z -> HeapTuple)
  (mbtgettuple : Z -> Z -> Z -> option rangevo) (amgettuple : Z -> Z -> Z -> option bool)
  (ExecQual : Node -> HeapTuple -> bool) (projInfo : option (HeapTuple -> HeapTuple)).

Notation authselect := (authselect transformSelectStmt descs fix_expr index_open fetch mbtgettuple amgettuple ExecQual projInfo).

(** The executor on the plan of a statement that passes parse analysis. *)
Lemma authselect_runs stmt q relid oids fuel st : transformSelectStmt stmt = Some (mkQuery true q NULL NULL) ->
  exists i, authselect stmt relid true oids fuel st =
      (if index_open i then
         ExecutePlan fetch (auth_index_getnext (relam (descs i)) (mbtgettuple i) (amgettuple i)) (scan_condition q) None projInfo fuel st
       else Refused) /\
    (forall j, j ∈ oids -> usable_index descs j = true -> (forall k, k ∈ oids -> usable_index descs k = true -> j <= k) -> i = j) /\
    ((exists j, j ∈ oids /\ usable_index descs j = true) -> i ∈ oids) /\
    ((forall j, j ∈ oids -> usable_index descs j = false) -> i = 0).
Proof.
  intros E. destruct (plan_index descs fix_expr (mkQuery true q NULL NULL) relid oids eq_refl) as (p & Ep & Hpq & Hiq & Hi).
  exists (indexid p). split; [|exact Hi]. unfold Select.authselect, ps_qual. by rewrite E, Ep, Hpq, Hiq.
Qed.


(** C33. Which authenticated SELECTs are not answered: a condition of more than two
    comparisons and a statement without WHERE clause pass parse analysis and
    planning, but a scan that starts reads nodes of another type or the NULL
    pointer as a comparison; a table without a usable index is refused because
    there is no index with the number 0. *)
Theorem authselect_unsupported (c : condition) (relid : Z) (oids : list Z) (fuel : nat) (st : @scan_state HeapTuple) :
  (forall col, col ∈ columns_named c -> is_Some (transformColumnRef col)) ->
  (ss_flag st = true -> (0 < fuel)%nat -> (forall i, i ∈ oids -> index_open i = true) ->
    (exists i, i ∈ oids /\ usable_index descs i = true) ->
    ((2 < length (comparisons c))%nat -> authselect (authselect_stmt c) relid true oids fuel st = Undefined) /\
    authselect (mkSelect NULL NULL true) relid true oids fuel st = Undefined) /\
  (index_open 0 = false -> (forall i, i ∈ oids -> usable_index descs i = false) ->
    authselect (authselect_stmt c) relid true oids fuel st = Refused).
Proof.
  intros Hcol. destruct (transform_authselect c Hcol) as (q & E & _ & Hq).
  destruct (authselect_runs _ q relid oids fuel st E) as (i & Ex & _ & Hin & Hz). split.
  - intros Hf Hfu Ho Hu. destruct fuel as [|fuel]; [lia|]. split.
    + intros Hlen. rewrite Ex, (Ho _ (Hin Hu)). apply auth_scan_undefined; [done|]. left. rewrite Hq.
      destruct (comparisons c) as [|? [|? [|? ?]]]; simpl in *; [lia..|done].
    + destruct (authselect_runs (mkSelect NULL NULL true) NULL relid oids (S fuel) st eq_refl) as (i' & Ex' & _ & Hin' & _).
      rewrite Ex', (Ho _ (Hin' Hu)). apply auth_scan_undefined; [done|]. by left.
  - intros H0' Hno. by rewrite Ex, (Hz Hno), H0'.
Qed.

End Conditions.

(** ** A table to evaluate the properties on *)

(** The index of the primary key has number 16410; the one of the tree, named
    t_mbt, has number 16400; an older index of the table has number 16390. *)
Definition demo_descs (oid : Z) : index_desc :=
  if oid =? 16400 then mkIndex AM_mbtree true false true (lit "t_mbt") true else mkIndex AM_other true false true (lit "t_pkey") false.

Definition demo_column (col : list string) : option Node :=
  if bool_decide (col = ["a"]) then Some (T_Var 1 1) else if bool_decide (col = ["b"]) then Some (T_Var 1 2) else None.

(** a > 20 OR b < 30. *)
Definition demo_condition : condition := Either (Compare ["a"] ">" 20) (Compare ["b"] "<" 30).

Definition demo_gettuple (oid l r : Z) : option rangevo :=
  if (oid =? 16400) && (l =? 20) && (r =? 30) then Some demo_scan_vo else None.

(** The statement on that table, with rows and columns of numbers. *)
Definition demo_authselect (projInfo : option (Z * Z -> Z * Z)) (stmt : SelectStmt) (oids : list Z) (fuel : nat) :=
  authselect (transformSelectStmt false demo_column (fun _ => None) (fun _ _ _ => None) (fun _ _ _ => None) Some (fun _ _ => None))
    demo_descs (fun q _ => q) (fun oid => negb (oid =? 0)) pair demo_gettuple (fun _ _ _ => Some true) (fun _ _ => true) projInfo
    stmt 1 true oids fuel demo_scan_state.

Lemma demo_columns_known c : columns_named c ⊆ [["a"]; ["b"]] ->
  forall col, col ∈ columns_named c -> is_Some (demo_column col).
Proof. intros Hc col Hin%Hc. set_unfold. destruct Hin as [->|[->|[]]]; eauto. Qed.


(** a > 20 AND a < 30 AND b < 5. *)
Definition demo_three : condition := Both (Both (Compare ["a"] ">" 20) (Compare ["a"] "<" 30)) (Compare ["b"] "<" 5).

Lemma authselect_unsupported_witness :
  demo_authselect None (authselect_stmt demo_three) [16410; 16400] 3 = Undefined /\
  demo_authselect None (mkSelect NULL NULL true) [16410; 16400] 3 = Undefined /\
  demo_authselect None (authselect_stmt demo_three) [] 3 = Refused.
Proof.
  pose proof (fun oids => authselect_unsupported false demo_column (fun _ => None) (fun _ _ _ => None) (fun _ _ _ => None) Some (fun _ _ => None)
    demo_descs (fun q _ => q) (fun oid => negb (oid =? 0)) pair demo_gettuple (fun _ _ _ => Some true) (fun _ _ => true) None demo_three 1 oids 3
    demo_scan_state (demo_columns_known demo_three ltac:(set_solver))) as H.
  destruct (proj1 (H [16410; 16400])) as [H1 H2]; [reflexivity|lia| |exists 16400; split; [set_solver|reflexivity]|].
  - intros i Hi. set_unfold. destruct Hi as [->|[->|[]]]; reflexivity.
  - split; [apply H1; simpl; lia|]. split; [exact H2|]. apply (proj2 (H [])); [reflexivity|]. intros i Hi. set_solver.
Defined.
