(* ===== verification/ThreadPool.v ===== *)
(** * The pool of worker threads (src/src/interfaces/libpq/threadpool.c)

    A pool has a ring of tasks, a mutex and a condition variable.  A client adds
    tasks, workers take them in order and run them, and [threadpool_destroy] ends
    the workers, at once or after the last task, waits for them and frees the pool.
    It is linked into libpq next to the reconstruction of the root.

    The results of malloc and of the calls of pthreads in [threadpool_create] and
    [threadpool_add] are arguments; in the transition system [step] and in
    [threadpool_destroy] these calls succeed.  Everything between
    [pthread_mutex_lock] and [pthread_mutex_unlock] or [pthread_cond_wait] is one
    step: the fields it uses are only used under the mutex until the workers have
    been joined.  The order of the steps of workers and clients is arbitrary, a
    signal wakes an arbitrary worker, and workers may wake without a signal. *)

From stdpp Require Import base list.
From S2P Require Import Prelude.

Definition threadpool_invalid : Z := -1.
Definition threadpool_lock_failure : Z := -2.
Definition threadpool_queue_full : Z := -3.
Definition threadpool_shutdown : Z := -4.
Definition threadpool_graceful : Z := 1.
Definition MAX_THREADS : Z := 64.
Definition MAX_QUEUE : Z := 65536.
Definition immediate_shutdown : Z := 1.
Definition graceful_shutdown : Z := 2.

(** Function pointer and argument; the pointer 0 is NULL. *)
Record threadpool_task_t := mkTask { task_function : Z; task_argument : Z }.

Record threadpool_t := mkPool {
  queue : list threadpool_task_t;
  thread_count : Z;
  queue_size : Z;
  tp_head : Z;
  tp_tail : Z;
  tp_count : Z;
  shutdown : Z;
  started : Z
}.

(** ** Adding a task *)

(** The part under the mutex: the pool, the result, and whether a signal was sent. *)
Definition add_locked (pool : threadpool_t) (f arg : Z) (signal_ok : bool) : option (threadpool_t * Z * bool) :=
  let next := Z.rem (tp_tail pool + 1) (queue_size pool) in
  if tp_count pool =? queue_size pool then Some (pool, threadpool_queue_full, false)
  else if negb (shutdown pool =? 0) then Some (pool, threadpool_shutdown, false)
  else
    do q <- aset (queue pool) (tp_tail pool) (mkTask f arg);
    let pool := mkPool q (thread_count pool) (queue_size pool) (tp_head pool) next (tp_count pool + 1) (shutdown pool) (started pool) in
    Some (pool, if signal_ok then 0 else threadpool_lock_failure, signal_ok).

Definition threadpool_add (pool : option threadpool_t) (f arg : Z) (lock_ok signal_ok unlock_ok : bool)
  : option (option threadpool_t * Z * bool) :=
  match pool with
  | None => Some (None, threadpool_invalid, false)
  | Some p =>
      if f =? 0 then Some (pool, threadpool_invalid, false)
      else if negb lock_ok then Some (pool, threadpool_lock_failure, false)
      else
        do '(p, err, sig) <- add_locked p f arg signal_ok;
        Some (Some p, if unlock_ok then err else threadpool_lock_failure, sig)
  end.

(** ** A worker *)

(** What a worker does after it has got the mutex: wait for a signal, leave the
    loop, or run a task. *)
Inductive turn := Wait | Leave | Take (t : threadpool_task_t).

Definition threadpool_thread (pool : threadpool_t) : option (threadpool_t * turn) :=
  if (tp_count pool =? 0) && (shutdown pool =? 0) then Some (pool, Wait)
  else if (shutdown pool =? immediate_shutdown) || ((shutdown pool =? graceful_shutdown) && (tp_count pool =? 0)) then
    Some (mkPool (queue pool) (thread_count pool) (queue_size pool) (tp_head pool) (tp_tail pool) (tp_count pool)
      (shutdown pool) (started pool - 1), Leave)
  else
    do t <- aget (queue pool) (tp_head pool);
    Some (mkPool (queue pool) (thread_count pool) (queue_size pool) (Z.rem (tp_head pool + 1) (queue_size pool)) (tp_tail pool)
      (tp_count pool - 1) (shutdown pool) (started pool), Take t).

(** ** Creating and destroying *)

(** [threadpool_destroy] up to the joins: [None] when the pool is shut down already,
    which is returned without unlocking the mutex. *)
Definition destroy_locked (pool : threadpool_t) (flags : Z) : option threadpool_t :=
  if negb (shutdown pool =? 0) then None
  else Some (mkPool (queue pool) (thread_count pool) (queue_size pool) (tp_head pool) (tp_tail pool) (tp_count pool)
    (if negb (Z.land flags threadpool_graceful =? 0) then graceful_shutdown else immediate_shutdown) (started pool)).

(** The result of [threadpool_free]. *)
Definition threadpool_free (pool : option threadpool_t) : Z :=
  match pool with
  | None => -1
  | Some p => if 0 <? started p then -1 else 0
  end.

(** [Failed pool] when a thread could not be created: the pool is destroyed with
    flags 0.  [block] is the contents of the queue as allocated, or [None]. *)
Inductive created := NoPool | Created (pool : threadpool_t) | Failed (pool : threadpool_t).

Definition threadpool_create (count size : Z) (pool_ok threads_ok mutex_ok cond_ok : bool)
  (block : option (list threadpool_task_t)) (creates : nat) : created :=
  if (count <=? 0) || (MAX_THREADS <? count) || (size <=? 0) || (MAX_QUEUE <? size) then NoPool
  else if negb pool_ok then NoPool
  else if negb mutex_ok || negb cond_ok || negb threads_ok then NoPool
  else match block with
  | None => NoPool
  | Some q =>
      let n := Z.min (Z.of_nat creates) count in
      let pool := mkPool q n size 0 0 0 0 n in
      if n <? count then Failed pool else Created pool
  end.

(** ** The transition system *)

(** A worker before [pthread_mutex_lock], in [pthread_cond_wait], in a task, or
    ended. *)
Inductive worker := Ready | Waiting | Busy (t : threadpool_task_t) | Ended.

#[export] Instance threadpool_task_eq_dec : EqDecision threadpool_task_t.
Proof. solve_decision. Defined.
#[export] Instance worker_eq_dec : EqDecision worker.
Proof. solve_decision. Defined.

(** [held] says that a client has returned with the mutex locked; [joined] counts
    the workers the client in [threadpool_destroy] has joined.  The last three
    fields record the tasks that were added, taken and run, in order. *)
Record sys := mkSys {
  pool : threadpool_t;
  workers : list worker;
  held : bool;
  joined : option nat;
  freed : bool;
  accepted : list threadpool_task_t;
  taken : list threadpool_task_t;
  finished : list threadpool_task_t
}.

(** [pthread_cond_signal]: one waiting worker goes on, if there is one. *)
Inductive signal (ws : list worker) : list worker -> Prop :=
  | signal_none : ~ Waiting ∈ ws -> signal ws ws
  | signal_one i : ws !! i = Some Waiting -> signal ws (<[i := Ready]> ws).

Definition broadcast (ws : list worker) : list worker :=
  (fun w => match w with Waiting => Ready | _ => w end) <$> ws.

Inductive step : sys -> sys -> Prop :=
  | step_add p ws j acc tak fin f arg p' ws' :
      threadpool_add (Some p) f arg true true true = Some (Some p', 0, true) -> signal ws ws' ->
      step (mkSys p ws false j false acc tak fin) (mkSys p' ws' false j false (acc ++ [mkTask f arg]) tak fin)
  | step_add_refused p ws j acc tak fin f arg err :
      threadpool_add (Some p) f arg true true true = Some (Some p, err, false) ->
      step (mkSys p ws false j false acc tak fin) (mkSys p ws false j false acc tak fin)
  | step_wait p ws j acc tak fin i p' :
      ws !! i = Some Ready -> threadpool_thread p = Some (p', Wait) ->
      step (mkSys p ws false j false acc tak fin) (mkSys p' (<[i := Waiting]> ws) false j false acc tak fin)
  | step_take p ws j acc tak fin i p' t :
      ws !! i = Some Ready -> threadpool_thread p = Some (p', Take t) ->
      step (mkSys p ws false j false acc tak fin) (mkSys p' (<[i := Busy t]> ws) false j false acc (tak ++ [t]) fin)
  | step_leave p ws j acc tak fin i p' :
      ws !! i = Some Ready -> threadpool_thread p = Some (p', Leave) ->
      step (mkSys p ws false j false acc tak fin) (mkSys p' (<[i := Ended]> ws) false j false acc tak fin)
  | step_run p ws h j fr acc tak fin i t :
      ws !! i = Some (Busy t) ->
      step (mkSys p ws h j fr acc tak fin) (mkSys p (<[i := Ready]> ws) h j fr acc tak (fin ++ [t]))
  | step_spurious p ws h j fr acc tak fin i :
      ws !! i = Some Waiting ->
      step (mkSys p ws h j fr acc tak fin) (mkSys p (<[i := Ready]> ws) h j fr acc tak fin)
  | step_destroy p ws acc tak fin flags p' :
      destroy_locked p flags = Some p' ->
      step (mkSys p ws false None false acc tak fin) (mkSys p' (broadcast ws) false (Some 0%nat) false acc tak fin)
  | step_destroy_again p ws j acc tak fin flags :
      destroy_locked p flags = None ->
      step (mkSys p ws false j false acc tak fin) (mkSys p ws true j false acc tak fin)
  | step_join p ws h k fr acc tak fin :
      Z.of_nat k < thread_count p -> ws !! k = Some Ended ->
      step (mkSys p ws h (Some k) fr acc tak fin) (mkSys p ws h (Some (S k)) fr acc tak fin)
  | step_free p ws k acc tak fin :
      thread_count p <= Z.of_nat k -> threadpool_free (Some p) = 0 ->
      step (mkSys p ws false (Some k) false acc tak fin) (mkSys p ws false (Some k) true acc tak fin).

(** The states of a pool that was created, or whose creation failed after some of
    the threads had been started. *)
Inductive reachable_pool : sys -> Prop :=
  | reach_created n size block creates p :
      zlen block = size ->
      (threadpool_create n size true true true true (Some block) creates = Created p \/
       threadpool_create n size true true true true (Some block) creates = Failed p) ->
      reachable_pool (mkSys p (replicate (Z.to_nat (thread_count p)) Ready) false None false [] [] [])
  | reach_step s s' : reachable_pool s -> step s s' -> reachable_pool s'.

(** ** The ring of tasks *)

(** The ring holds the tasks [ts], the oldest at the head. *)
Record ring_holds (p : threadpool_t) (ts : list threadpool_task_t) : Prop := {
  ring_size : zlen (queue p) = queue_size p;
  ring_head : 0 <= tp_head p < queue_size p;
  ring_count : tp_count p = zlen ts;
  ring_room : tp_count p <= queue_size p;
  ring_tail : tp_tail p = (tp_head p + tp_count p) mod queue_size p;
  ring_tasks : forall (k : nat) t, ts !! k = Some t -> aget (queue p) ((tp_head p + Z.of_nat k) mod queue_size p) = Some t
}.

Lemma mod_distinct a j k n : 0 <= j < k -> k < n -> (a + j) mod n <> (a + k) mod n.
Proof.
  intros Hj Hk E. assert (((a + k) - (a + j)) mod n = 0) as E0 by (rewrite Zminus_mod, E, Z.sub_diag, Zmod_0_l; done).
  replace (a + k - (a + j)) with (k - j) in E0 by lia. rewrite Z.mod_small in E0 by lia. lia.
Qed.

(** A task is put behind the others. *)
Lemma add_locked_ring p ts f arg : ring_holds p ts -> shutdown p = 0 -> tp_count p <> queue_size p ->
  exists p', add_locked p f arg true = Some (p', 0, true) /\ ring_holds p' (ts ++ [mkTask f arg]) /\
    shutdown p' = 0 /\ started p' = started p /\ thread_count p' = thread_count p.
Proof.
  intros [Hs Hh Hc Hr Ht Hts] H0 Hne. unfold add_locked. apply Z.eqb_neq in Hne as Hne'. rewrite Hne', H0. cbn [Z.eqb negb].
  assert (0 <= tp_tail p < queue_size p) as Hti by (rewrite Ht; apply Z.mod_pos_bound; lia).
  rewrite aset_Some by lia. cbn [mbind option_bind]. eexists. split_and!; [done| |done..].
  split; cbn [queue queue_size tp_head tp_count tp_tail]; try lia.
  - unfold zlen. by rewrite length_insert.
  - len.
  - rewrite Z.rem_mod_nonneg by lia. rewrite Ht, Zplus_mod_idemp_l. f_equal. lia.
  - intros k t Hk. pose proof (lookup_lt_Some _ _ _ Hk) as Hl. rewrite length_app in Hl. simpl in Hl.
    assert (0 <= (tp_head p + Z.of_nat k) mod queue_size p < queue_size p) as Hp by (apply Z.mod_pos_bound; lia).
    apply aget_Some. split; [lia|]. destruct (decide (k = length ts)) as [->|Hkl].
    + rewrite lookup_app_r, Nat.sub_diag in Hk by lia. injection Hk as <-.
      replace (Z.of_nat (length ts)) with (tp_count p) by (unfold zlen in *; lia). rewrite <- Ht.
      apply list_lookup_insert_eq. unfold zlen in *. lia.
    + rewrite lookup_app_l in Hk by lia. apply Hts, aget_Some in Hk as [_ Hk]. rewrite list_lookup_insert_ne; [done|].
      pose proof (mod_distinct (tp_head p) (Z.of_nat k) (tp_count p) (queue_size p)) as Hd. unfold zlen in *. rewrite Ht in Hti |- *. lia.
Qed.

(** A worker takes the oldest task. *)
Lemma take_ring p t ts : ring_holds p (t :: ts) ->
  exists p', (do x <- aget (queue p) (tp_head p);
      Some (mkPool (queue p) (thread_count p) (queue_size p) (Z.rem (tp_head p + 1) (queue_size p)) (tp_tail p)
        (tp_count p - 1) (shutdown p) (started p), Take x)) = Some (p', Take t) /\
    ring_holds p' ts /\ shutdown p' = shutdown p /\ started p' = started p /\ thread_count p' = thread_count p.
Proof.
  intros [Hs Hh Hc Hr Ht Hts]. pose proof (Hts 0%nat t eq_refl) as E. rewrite Z.add_0_r, Z.mod_small in E by lia.
  rewrite E. cbn [mbind option_bind]. eexists. split_and!; [done| |done..].
  split; cbn [queue queue_size tp_head tp_count tp_tail]; try lia; rewrite ?Z.rem_mod_nonneg by lia.
  - len.
  - rewrite Zplus_mod_idemp_l, Ht. f_equal. lia.
  - intros k x Hk. rewrite Zplus_mod_idemp_l. rewrite <- (Hts (S k) x Hk). f_equal. f_equal. lia.
Qed.

(** ** The workers *)

Definition task_of (w : worker) : option threadpool_task_t := match w with Busy t => Some t | _ => None end.

(** The tasks that are being run, and the number of workers that have not ended. *)
Definition running (ws : list worker) : list threadpool_task_t := omap task_of ws.
Definition alive (ws : list worker) : Z := zlen (filter (fun w => w <> Ended) ws).

#[export] Instance running_proper : Proper ((≡ₚ) ==> (≡ₚ)) running.
Proof. intros ws ws' E. unfold running. by rewrite E. Qed.

#[export] Instance alive_proper : Proper ((≡ₚ) ==> eq) alive.
Proof. intros ws ws' E. unfold alive, zlen. by rewrite E. Qed.

(** One worker changes its state and the others stay. *)
Lemma worker_set (ws : list worker) (i : nat) (w w' : worker) : ws !! i = Some w ->
  exists rest, ws ≡ₚ w :: rest /\ <[i := w']> ws ≡ₚ w' :: rest.
Proof.
  intros Hi. exists (take i ws ++ drop (S i) ws). rewrite insert_take_drop by (by eapply lookup_lt_Some).
  split; [|by rewrite <- Permutation_middle]. rewrite <- (take_drop_middle ws i w) at 1 by done. by rewrite <- Permutation_middle.
Qed.

Lemma running_cons w ws : running (w :: ws) = option_list (task_of w) ++ running ws.
Proof. unfold running. simpl. by destruct (task_of w). Qed.

Lemma alive_cons w ws : alive (w :: ws) = (if decide (w = Ended) then 0 else 1) + alive ws.
Proof.
  unfold alive. rewrite filter_cons. destruct (decide (w = Ended)) as [->|Hw]; [by rewrite decide_False by (by intros [])|].
  rewrite decide_True by done. unfold zlen. cbn [length]. lia.
Qed.

(** ** The invariant *)

Record pool_inv (s : sys) : Prop := {
  inv_ring : exists ts, ring_holds (pool s) ts /\ accepted s = taken s ++ ts;
  inv_taken : taken s ≡ₚ finished s ++ running (workers s);
  inv_threads : thread_count (pool s) = zlen (workers s);
  inv_started : started (pool s) = alive (workers s);
  inv_shutdown : shutdown (pool s) = 0 \/ shutdown (pool s) = immediate_shutdown \/ shutdown (pool s) = graceful_shutdown;
  inv_waiting : Waiting ∈ workers s -> shutdown (pool s) = 0;
  inv_ended : Ended ∈ workers s -> shutdown (pool s) <> 0 /\ (shutdown (pool s) = graceful_shutdown -> tp_count (pool s) = 0);
  inv_wake : 0 < tp_count (pool s) -> shutdown (pool s) = 0 -> workers s <> [] ->
    exists w, w ∈ workers s /\ w <> Waiting /\ w <> Ended;
  inv_joined : forall k, joined s = Some k -> shutdown (pool s) <> 0 /\ forall i, (i < k)%nat -> workers s !! i = Some Ended;
  inv_freed : freed s = true -> exists k, joined s = Some k /\ (length (workers s) <= k)%nat
}.

(** A worker that has not ended changes its state: what does not depend on the
    pool. *)
Lemma joined_set (ws : list worker) (i : nat) (w w' : worker) (k : nat) : ws !! i = Some w -> w <> Ended ->
  (forall j, (j < k)%nat -> ws !! j = Some Ended) -> forall j, (j < k)%nat -> (<[i := w']> ws) !! j = Some Ended.
Proof.
  intros Hi Hw Hk j Hj. destruct (decide (i = j)) as [->|Hne]; [by rewrite (Hk j Hj) in Hi; simplify_eq|].
  rewrite list_lookup_insert_ne by done. by apply Hk.
Qed.

Lemma freed_all_ended s : pool_inv s -> freed s = true -> forall w, w ∈ workers s -> w = Ended.
Proof.
  intros Hi Hf w Hw. destruct (inv_freed s Hi Hf) as (k & Hj & Hk). destruct (inv_joined s Hi k Hj) as [_ He].
  apply list_elem_of_lookup in Hw as [i Hw]. pose proof (lookup_lt_Some _ _ _ Hw). rewrite He in Hw by lia. by simplify_eq.
Qed.

(** Steps that change one worker [w] to [w'] and leave the ring alone. *)
Lemma inv_worker_step p p' ws h j fr acc tak fin fin' i w w' :
  pool_inv (mkSys p ws h j fr acc tak fin) -> ws !! i = Some w -> w <> Ended ->
  p' = mkPool (queue p) (thread_count p) (queue_size p) (tp_head p) (tp_tail p) (tp_count p) (shutdown p)
    (if decide (w' = Ended) then started p - 1 else started p) ->
  fin ++ option_list (task_of w) ≡ₚ fin' ++ option_list (task_of w') ->
  (w' = Waiting -> shutdown p = 0 /\ tp_count p = 0) ->
  (w' = Ended -> shutdown p <> 0 /\ (shutdown p = graceful_shutdown -> tp_count p = 0)) ->
  pool_inv (mkSys p' (<[i := w']> ws) h j fr acc tak fin').
Proof.
  intros [Hr Ht Hth Hst Hs Hwa Hen Hwk Hj Hfr] Hi Hne -> Hfin Hwt Hend. simpl in *.
  destruct (worker_set ws i w w' Hi) as (rest & E & E'). split; simpl.
  - destruct Hr as (ts & [] & Hacc). exists ts. by split; [split|].
  - rewrite E', running_cons. rewrite Ht, E, running_cons. rewrite !(assoc_L (++)). by rewrite Hfin.
  - rewrite Hth. unfold zlen. by rewrite length_insert.
  - assert (alive ws = 1 + alive rest) as Ha by (rewrite E, alive_cons, decide_False; done).
    rewrite E', alive_cons. destruct (decide (w' = Ended)); lia.
  - done.
  - rewrite E'. rewrite E in Hwa. intros [Hw|Hw]%elem_of_cons; [by apply Hwt|]. apply Hwa. by right.
  - rewrite E'. rewrite E in Hen. intros [Hw|Hw]%elem_of_cons; [by apply Hend|]. apply Hen. by right.
  - intros Hc H0' _. exists w'. rewrite E'. split_and!; [by left|..]; intros ->; [destruct (Hwt eq_refl); lia|by destruct (Hend eq_refl)].
  - intros k Hk. destruct (Hj k Hk) as [Hsh He]. split; [done|]. by apply (joined_set ws i w).
  - intros Hf. rewrite length_insert. by apply Hfr.
Qed.

(** A task is added and a waiting worker, if there is one, is woken. *)
Lemma inv_add p p' ws ws' j acc tak fin f arg :
  pool_inv (mkSys p ws false j false acc tak fin) -> signal ws ws' ->
  threadpool_add (Some p) f arg true true true = Some (Some p', 0, true) ->
  pool_inv (mkSys p' ws' false j false (acc ++ [mkTask f arg]) tak fin).
Proof.
  intros Hi Hsig E. assert (pool_inv (mkSys p ws' false j false acc tak fin) /\
    (ws' <> [] -> shutdown p = 0 -> exists w, w ∈ ws' /\ w <> Waiting /\ w <> Ended)) as [[Hr Ht Hth Hst Hs Hwa Hen Hwk Hj Hfr] Hw'].
  { destruct Hsig as [Hno|i Hw].
    - split; [done|]. intros Hne H0'. destruct ws as [|w ws]; [done|]. exists w. split_and!; [by left|..]; intros ->; [by destruct Hno; left|].
      destruct (inv_ended _ Hi) as [Hsh _]; [by left|]. done.
    - split.
      + apply (inv_worker_step p p ws false j false acc tak fin fin i Waiting Ready); [done..| |done|done|done].
        rewrite decide_False by done. by destruct p.
      + intros _ _. exists Ready. split_and!; [|done..]. apply list_elem_of_lookup. exists i.
        apply list_lookup_insert_eq. by eapply lookup_lt_Some. }
  simpl in *. destruct Hr as (ts & Hring & Hacc). unfold threadpool_add in E. destruct (f =? 0); [done|]. cbn [negb] in E.
  destruct (decide (tp_count p = queue_size p)) as [Hfull|Hfull].
  { unfold add_locked in E. rewrite Hfull, Z.eqb_refl in E. done. }
  destruct (decide (shutdown p = 0)) as [H0'|H0'].
  2: { unfold add_locked in E. apply Z.eqb_neq in Hfull, H0'. by rewrite Hfull, H0' in E. }
  destruct (add_locked_ring p ts f arg Hring H0' Hfull) as (q & Eq & Hring' & Hq0 & Hqs & Hqt). rewrite Eq in E.
  cbn [mbind option_bind] in E. injection E as <-. split; simpl; rewrite ?Hq0, ?Hqs, ?Hqt; try done.
  - exists (ts ++ [mkTask f arg]). split; [done|]. by rewrite Hacc, (assoc_L (++)).
  - by left.
  - intros He. by destruct (Hen He).
  - intros _ _ Hne. by apply Hw'.
  - intros k Hk. by destruct (Hj k Hk).
Qed.

(** A worker takes a task. *)
Lemma inv_take p p' ws j acc tak fin i t :
  pool_inv (mkSys p ws false j false acc tak fin) -> ws !! i = Some Ready -> threadpool_thread p = Some (p', Take t) ->
  pool_inv (mkSys p' (<[i := Busy t]> ws) false j false acc (tak ++ [t]) fin).
Proof.
  intros [Hr Ht Hth Hst Hs Hwa Hen Hwk Hj Hfr] Hi E. simpl in *. destruct Hr as (ts & Hring & Hacc).
  unfold threadpool_thread in E. destruct ((tp_count p =? 0) && _) eqn:E1; [done|].
  destruct ((shutdown p =? _) || _) eqn:E2; [done|]. destruct ts as [|t' ts].
  { pose proof (ring_count _ _ Hring) as Hc. unfold zlen in Hc. simpl in Hc. rewrite Hc in *. simpl in E1, E2.
    rewrite andb_true_r in E2. unfold immediate_shutdown, graceful_shutdown in *. lia. }
  destruct (take_ring p t' ts Hring) as (q & Eq & Hring' & Hq0 & Hqs & Hqt). rewrite Eq in E. injection E as <- <-.
  destruct (worker_set ws i Ready (Busy t') Hi) as (rest & Er & Er'). split; simpl; rewrite ?Hq0, ?Hqs, ?Hqt; try done.
  - exists ts. split; [done|]. by rewrite Hacc, <- (assoc_L (++)).
  - rewrite Er', running_cons. rewrite Ht, Er, running_cons. simpl. by rewrite <- Permutation_cons_append, Permutation_middle.
  - rewrite Hth. unfold zlen. by rewrite length_insert.
  - assert (alive ws = 1 + alive rest) as Ha by (rewrite Er, alive_cons, decide_False; done).
    rewrite Er', alive_cons, decide_False by done. lia.
  - rewrite Er'. rewrite Er in Hwa. intros [Hw|Hw]%elem_of_cons; [done|]. apply Hwa. by right.
  - rewrite Er'. rewrite Er in Hen. intros [Hw|Hw]%elem_of_cons; [done|]. destruct Hen as [Hsh Hg]; [by right|]. split; [done|].
    intros Hgr. exfalso. rewrite Hgr, Hg in E2 by done. done.
  - intros _ _ _. exists (Busy t'). split_and!; [|done..]. rewrite Er'. by left.
  - intros k Hk. destruct (Hj k Hk) as [Hsh He]. split; [done|]. by apply (joined_set ws i Ready).
Qed.

Lemma broadcast_lookup ws i : broadcast ws !! i = (fun w => match w with Waiting => Ready | _ => w end) <$> ws !! i.
Proof. apply list_lookup_fmap. Qed.

Lemma broadcast_spec ws :
  running (broadcast ws) = running ws /\ alive (broadcast ws) = alive ws /\ ~ Waiting ∈ broadcast ws /\
  (Ended ∈ broadcast ws -> Ended ∈ ws).
Proof.
  unfold broadcast. split_and!.
  - induction ws as [|w ws IH]; [done|]. rewrite fmap_cons, !running_cons, IH. by destruct w.
  - induction ws as [|w ws IH]; [done|]. rewrite fmap_cons, !alive_cons, IH. by destruct w.
  - intros ([] & ? & ?)%list_elem_of_fmap; done.
  - intros (w & E & Hw)%list_elem_of_fmap. destruct w; done.
Qed.

(** The first call of [threadpool_destroy]. *)
Lemma inv_destroy p p' ws acc tak fin flags :
  pool_inv (mkSys p ws false None false acc tak fin) -> destroy_locked p flags = Some p' ->
  pool_inv (mkSys p' (broadcast ws) false (Some 0%nat) false acc tak fin).
Proof.
  intros [Hr Ht Hth Hst Hs Hwa Hen Hwk Hj Hfr] E. simpl in *. unfold destroy_locked in E.
  destruct (Z.eqb_spec (shutdown p) 0) as [H0'|]; [|done]. cbn [negb] in E. injection E as <-.
  destruct (broadcast_spec ws) as (Hrun & Hal & Hnw & Hne). split; simpl.
  - destruct Hr as (ts & [] & Hacc). exists ts. by split; [split|].
  - by rewrite Hrun.
  - rewrite Hth. unfold zlen, broadcast. by rewrite length_fmap.
  - by rewrite Hal.
  - destruct (negb _); auto.
  - done.
  - intros He. by destruct (Hen (Hne He)).
  - destruct (negb _); done.
  - intros k [= <-]. split; [by destruct (negb _)|lia].
  - done.
Qed.

Lemma pool_inv_step s s' : pool_inv s -> step s s' -> pool_inv s'.
Proof.
  intros Hi Hstep. destruct Hstep as [p ws j acc tak fin f arg p' ws' E Hsig|p ws j acc tak fin f arg err E|p ws j acc tak fin i p' Hw E
    |p ws j acc tak fin i p' t Hw E|p ws j acc tak fin i p' Hw E|p ws h j fr acc tak fin i t Hw|p ws h j fr acc tak fin i Hw
    |p ws acc tak fin flags p' E|p ws j acc tak fin flags E|p ws h k fr acc tak fin Hk Hw|p ws k acc tak fin Hk E].
  - by eapply inv_add.
  - done.
  - unfold threadpool_thread in E. destruct ((tp_count p =? 0) && _) eqn:E1; [|by repeat case_match; simplify_option_eq].
    injection E as <-. eapply (inv_worker_step p p ws); try done; [|lia].
    rewrite decide_False by done. by destruct p.
  - by eapply inv_take.
  - unfold threadpool_thread in E. destruct ((tp_count p =? 0) && _) eqn:E1; [done|].
    destruct ((shutdown p =? _) || _) eqn:E2; [|by simplify_option_eq]. injection E as <-.
    eapply (inv_worker_step p _ ws); try done. unfold immediate_shutdown, graceful_shutdown in *. lia.
  - eapply (inv_worker_step p p ws); try done; [rewrite decide_False by done; by destruct p|]. simpl. by rewrite app_nil_r.
  - eapply (inv_worker_step p p ws); try done. rewrite decide_False by done. by destruct p.
  - by eapply inv_destroy.
  - by destruct Hi.
  - destruct Hi as [Hr Ht Hth Hst Hs Hwa Hen Hwk Hj Hfr]. simpl in *. split; try done; simpl.
    + intros k' [= <-]. destruct (Hj k eq_refl) as [Hsh He]. split; [done|]. intros i Hi.
      destruct (decide (i = k)) as [->|]; [done|]. apply He. lia.
    + intros Hf. destruct (Hfr Hf) as (k' & [= <-] & Hl). exists (S k). split; [done|lia].
  - destruct Hi as [Hr Ht Hth Hst Hs Hwa Hen Hwk Hj Hfr]. simpl in *. split; try done; simpl.
    intros _. exists k. split; [done|]. unfold zlen in *. lia.
Qed.

Lemma pool_inv_created n size block creates p : zlen block = size ->
  threadpool_create n size true true true true (Some block) creates = Created p \/
  threadpool_create n size true true true true (Some block) creates = Failed p ->
  pool_inv (mkSys p (replicate (Z.to_nat (thread_count p)) Ready) false None false [] [] []).
Proof.
  intros Hb E. unfold threadpool_create in E. cbn [negb orb] in E. destruct (_ || (MAX_QUEUE <? size)) eqn:Ev; [by destruct E|].
  set (m := Z.min (Z.of_nat creates) n) in E. assert (p = mkPool block m size 0 0 0 0 m) as ->.
  { destruct (m <? n), E as [E|E]; by simplify_eq. }
  assert (0 <= m) as Hm by lia. assert (forall w, w ∈ replicate (Z.to_nat m) Ready -> w = Ready) as Hw
    by (intros w [? ?]%elem_of_replicate; done).
  split; simpl; try done; try lia.
  - exists []. split; [|done]. split; simpl; try done; try lia; try len.
  - clear. induction (Z.to_nat m); [done|]. done.
  - rewrite zlen_replicate. lia.
  - transitivity (Z.of_nat (Z.to_nat m)); [lia|]. clear. induction (Z.to_nat m) as [|k IH]; [done|].
    cbn [replicate]. rewrite alive_cons, decide_False, <- IH by done. lia.
  - intros H%Hw. done.
Qed.

Lemma reachable_pool_inv s : reachable_pool s -> pool_inv s.
Proof. induction 1 as [n size block creates p Hb E|s s' _ IH Hs]; [by eapply pool_inv_created|by eapply pool_inv_step]. Qed.

(** ** A worker that has the mutex *)

(** It is never out of range: it waits, leaves, or takes the oldest task. *)
Lemma thread_turn p ts : ring_holds p ts ->
  shutdown p = 0 \/ shutdown p = immediate_shutdown \/ shutdown p = graceful_shutdown ->
  exists p' a, threadpool_thread p = Some (p', a) /\
    (a = Wait <-> ts = [] /\ shutdown p = 0) /\
    (ts <> [] -> shutdown p <> immediate_shutdown -> exists t, a = Take t) /\
    tp_count p' = (match a with Take _ => tp_count p - 1 | _ => tp_count p end).
Proof.
  intros Hr Hs. pose proof (ring_count _ _ Hr) as Hc. unfold threadpool_thread.
  assert (tp_count p = 0 <-> ts = []) as Hc0 by (rewrite Hc; destruct ts; [done|]; split; [unfold zlen; simpl; lia|done]).
  destruct (decide (ts = [])) as [He|He].
  - apply Hc0 in He as Hz. rewrite Hz, Z.eqb_refl, andb_true_r. cbn [andb].
    destruct (Z.eqb_spec (shutdown p) 0) as [H0'|H0']; [by do 2 eexists; split_and!; [done|..]; try done; naive_solver|].
    assert ((shutdown p =? immediate_shutdown) || (shutdown p =? graceful_shutdown) = true) as -> by lia.
    do 2 eexists. split_and!; [done| |done|done]. split; [done|by intros []].
  - apply not_iff_compat in Hc0 as Hz. apply Hz in He as Hn. apply Z.eqb_neq in Hn. rewrite Hn. cbn [andb]. rewrite andb_false_r, orb_false_r.
    destruct (Z.eqb_spec (shutdown p) immediate_shutdown) as [Hi|Hi].
    + do 2 eexists. split_and!; [done| |done|done]. split; [done|by intros []].
    + destruct ts as [|t ts]; [done|]. destruct (take_ring p t ts Hr) as (p' & E & Hr' & _). rewrite E.
      exists p', (Take t). split_and!; [done|by split; [|intros []]|eauto|].
      rewrite (ring_count _ _ Hr'), Hc. unfold zlen. simpl. lia.
Qed.

(** ** Termination of the destruction *)

Definition weight (w : worker) : nat := match w with Ended => 0 | Busy _ => 2 | _ => 1 end.

(** Tasks in the queue, workers to end, threads to join, and the pool to free. *)
Definition work_left (s : sys) : nat :=
  2 * Z.to_nat (tp_count (pool s)) + sum_list_with weight (workers s)
  + (length (workers s) - default 0%nat (joined s)) + (if freed s then 0 else 1).

Lemma weight_set (ws : list worker) (i : nat) (w w' : worker) : ws !! i = Some w ->
  (sum_list_with weight (<[i := w']> ws) + weight w = sum_list_with weight ws + weight w')%nat.
Proof.
  intros Hi. destruct (worker_set ws i w w' Hi) as (rest & E & E'). rewrite E', E. simpl. lia.
Qed.

(** While the pool is being destroyed something is left to do, and can be done. *)
Lemma destroy_step s k : pool_inv s -> held s = false -> freed s = false -> joined s = Some k ->
  exists s', step s s' /\ (work_left s' < work_left s)%nat /\ held s' = false /\ joined s' <> None.
Proof.
  destruct s as [p ws h j fr acc tak fin]. intros Hi Hh Hf Hj. simpl in *. subst h fr j.
  destruct (inv_joined _ Hi k eq_refl) as [Hsh He]. destruct (inv_ring _ Hi) as (ts & Hr & _).
  pose proof (inv_shutdown _ Hi) as Hs. pose proof (inv_threads _ Hi) as Hth. pose proof (inv_started _ Hi) as Hst. simpl in *.
  destruct (decide (Forall (fun w => w = Ended) ws)) as [Hall|Hall].
  - destruct (Nat.lt_ge_cases k (length ws)) as [Hk|Hk].
    + destruct (lookup_lt_is_Some_2 ws k Hk) as [w Hw]. pose proof (Forall_lookup_1 _ _ _ _ Hall Hw) as ->.
      exists (mkSys p ws false (Some (S k)) false acc tak fin). split_and!; [|unfold work_left; simpl; lia|done..].
      constructor; [|done]. rewrite Hth. unfold zlen. lia.
    + exists (mkSys p ws false (Some k) true acc tak fin). split_and!; [|unfold work_left; simpl; lia|done..].
      constructor; [rewrite Hth; unfold zlen; lia|]. unfold threadpool_free.
      assert (started p = 0) as ->; [|done]. rewrite Hst. clear -Hall.
      induction Hall as [|w ws -> _ IH]; [done|]. rewrite alive_cons, IH, decide_True by done. done.
  - apply not_Forall_Exists, Exists_exists in Hall as (w & (i & Hw)%list_elem_of_lookup & Hne); [|apply _].
    destruct w as [| |t|]; [| | |by destruct Hne].
    + destruct (thread_turn p ts Hr Hs) as (p' & a & E & Hwait & _ & Hc). pose proof (ring_count _ _ Hr) as Hc0.
      destruct a as [| |t].
      * by destruct (proj1 Hwait eq_refl).
      * eexists. split_and!; [by eapply step_leave| |done..]. pose proof (weight_set ws i Ready Ended Hw) as Hws.
        unfold work_left. simpl in *. rewrite length_insert, Hc. lia.
      * eexists. split_and!; [by eapply step_take| |done..]. pose proof (weight_set ws i Ready (Busy t) Hw) as Hws.
        unfold work_left. simpl in *. rewrite length_insert, Hc. unfold threadpool_thread in E.
        assert (0 < tp_count p); [|lia]. destruct ts as [|? ?]; [|unfold zlen in Hc0; simpl in Hc0; lia].
        unfold zlen in Hc0. simpl in Hc0. rewrite Hc0 in E. repeat case_match; simplify_option_eq; unfold immediate_shutdown, graceful_shutdown in *; lia.
    + destruct Hsh. apply (inv_waiting _ Hi). simpl. apply list_elem_of_lookup. by exists i.
    + eexists. split_and!; [by eapply step_run| |done..]. pose proof (weight_set ws i (Busy t) Ready Hw) as Hws.
      unfold work_left. simpl in *. rewrite length_insert. lia.
Qed.

Lemma destroy_ends s : reachable_pool s -> held s = false -> joined s <> None ->
  exists s', rtc step s s' /\ freed s' = true.
Proof.
  remember (work_left s) as n eqn:En. revert s En. induction n as [n IH] using lt_wf_ind. intros s -> Hr Hh Hj.
  destruct (freed s) eqn:Hf; [by exists s|]. destruct (joined s) as [k|] eqn:Ek; [|done].
  destruct (destroy_step s k (reachable_pool_inv s Hr) Hh Hf Ek) as (s1 & Hs & Hw & Hh1 & Hj1).
  destruct (IH (work_left s1) Hw s1 eq_refl) as (s2 & Hs2 & Hf2); [by eapply reach_step|done|done|].
  exists s2. split; [by eapply rtc_l|done].
Qed.

(** C30. What the pool promises: in every state that workers and clients can reach,
    whatever their order, the tasks that were taken are the oldest of those that
    were added, in order, and the others are in the ring; the tasks that were
    taken are the ones that have been run and the ones being run, so each is run
    once.  When the pool is freed every worker has ended, and after a graceful
    shutdown all tasks that were added have been run. *)
Theorem pool_runs_tasks (s : sys) : reachable_pool s ->
  (exists ts, ring_holds (pool s) ts /\ accepted s = taken s ++ ts) /\
  taken s ≡ₚ finished s ++ running (workers s) /\
  (freed s = true -> workers s <> [] ->
    Forall (fun w => w = Ended) (workers s) /\
    (shutdown (pool s) = graceful_shutdown -> finished s ≡ₚ accepted s)).
Proof.
  intros Hr%reachable_pool_inv. destruct (inv_ring s Hr) as (ts & Hring & Hacc). split_and!; [eauto|by apply inv_taken|].
  intros Hf Hne. pose proof (freed_all_ended s Hr Hf) as Hend. split; [by apply Forall_forall|]. intros Hg.
  destruct (inv_ended s Hr) as [_ Hc].
  { destruct (workers s) as [|w ws]; [done|]. rewrite (Hend w); by left. }
  pose proof (ring_count _ _ Hring) as Hl. rewrite (Hc Hg) in Hl. destruct ts as [|? ?]; [|unfold zlen in Hl; simpl in Hl; lia].
  rewrite Hacc, app_nil_r, (inv_taken s Hr). assert (running (workers s) = []) as ->; [|by rewrite app_nil_r].
  clear -Hend. induction (workers s) as [|w ws IH]; [done|]. rewrite running_cons, (Hend w) by (by left).
  apply IH. intros w' Hw'. apply Hend. by right.
Qed.

(** C38. The pool does not get stuck: as long as no client has left the mutex locked, a
    task in the ring lets some worker take or finish a task unless the pool is
    being shut down at once, so no wake-up is lost; and once the pool is being
    destroyed the workers can always end, be joined, and the pool be freed. *)
Theorem pool_progress (s : sys) : reachable_pool s -> held s = false ->
  (freed s = false -> workers s <> [] -> 0 < tp_count (pool s) -> shutdown (pool s) <> immediate_shutdown ->
    exists s', step s s' /\ (length (taken s') + length (finished s') = length (taken s) + length (finished s) + 1)%nat) /\
  (joined s <> None -> exists s', rtc step s s' /\ freed s' = true).
Proof.
  intros Hr Hh. split; [|by apply destroy_ends]. intros Hf Hne Hc Hs. apply reachable_pool_inv in Hr as Hi.
  assert (exists w, w ∈ workers s /\ w <> Waiting /\ w <> Ended) as (w & (i & Hw)%list_elem_of_lookup & Hw1 & Hw2).
  { destruct (inv_shutdown s Hi) as [H0'|[H0'|H0']]; [by apply (inv_wake s Hi)|done|].
    destruct (workers s) as [|w ws] eqn:Ews; [done|]. exists w. split; [by left|]. split; intros ->.
    - assert (shutdown (pool s) = 0) as E by (apply (inv_waiting s Hi); rewrite Ews; by left). rewrite E in H0'. done.
    - destruct (inv_ended s Hi) as [_ Hz]; [rewrite Ews; by left|]. rewrite (Hz H0') in Hc. lia. }
  destruct (inv_ring s Hi) as (ts & Hring & _). pose proof (inv_shutdown s Hi) as Hsd.
  destruct (thread_turn _ ts Hring Hsd) as (p' & a & E & _ & Ht & _). destruct s as [p ws h j fr acc tak fin]. simpl in *. subst h fr.
  destruct w as [| |t|]; [|done| |done].
  - destruct Ht as [t ->]; [|done|].
    { intros ->. rewrite (ring_count _ _ Hring) in Hc. unfold zlen in Hc. simpl in Hc. lia. }
    eexists. split; [by eapply step_take|]. simpl. rewrite length_app. simpl. lia.
  - eexists. split; [by eapply step_run|]. simpl. rewrite length_app. simpl. lia.
Qed.

(** ** A second call of threadpool_destroy *)

(** It returns with the mutex locked: from then on no task is added or taken and no
    worker ends, whatever else happens. *)
Lemma held_forever s s' : rtc step s s' -> held s = true ->
  held s' = true /\ accepted s' = accepted s /\ taken s' = taken s /\ freed s' = freed s /\ alive (workers s') = alive (workers s).
Proof.
  induction 1 as [s|s s1 s2 Hs _ IH]; intros Hh; [done|].
  assert (held s1 = true /\ accepted s1 = accepted s /\ taken s1 = taken s /\ freed s1 = freed s /\ alive (workers s1) = alive (workers s))
    as (Hh1 & Ha & Ht & Hf & Hal).
  { destruct Hs as [| | | | |p ws h j fr acc tak fin i t Hw|p ws h j fr acc tak fin i Hw| | | |]; simpl in *; try done; split_and!; try done.
    - destruct (worker_set ws i (Busy t) Ready Hw) as (rest & E & E'). by rewrite E', E, !alive_cons.
    - destruct (worker_set ws i Waiting Ready Hw) as (rest & E & E'). by rewrite E', E, !alive_cons. }
  destruct (IH Hh1) as (? & ? & ? & ? & ?). split_and!; congruence.
Qed.

(** ** A pool to evaluate the properties on *)

(** One worker and room for two tasks, as created, and after two tasks and a
    graceful shutdown. *)
Definition demo_task (n : Z) : threadpool_task_t := mkTask 7 n.
Definition demo_pool : threadpool_t := mkPool [demo_task 0; demo_task 0] 1 2 0 0 0 0 1.
Definition demo_queued : sys :=
  mkSys (mkPool [demo_task 1; demo_task 2] 1 2 0 0 2 0 1) [Ready] false None false [demo_task 1; demo_task 2] [] [].
Definition demo_freed : sys :=
  mkSys (mkPool [demo_task 1; demo_task 2] 1 2 0 0 0 2 0) [Ended] false (Some 1%nat) true
    [demo_task 1; demo_task 2] [demo_task 1; demo_task 2] [demo_task 1; demo_task 2].

Lemma demo_queued_reachable : reachable_pool demo_queued.
Proof.
  apply (reach_step (mkSys (mkPool [demo_task 1; demo_task 0] 1 2 0 1 1 0 1) [Ready] false None false [demo_task 1] [] [])).
  - apply (reach_step (mkSys demo_pool [Ready] false None false [] [] [])).
    + apply (reach_created 1 2 [demo_task 0; demo_task 0] 1 demo_pool); [done|left; reflexivity].
    + apply (step_add demo_pool [Ready] None [] [] [] 7 1); [reflexivity|apply signal_none; set_solver].
  - apply (step_add _ [Ready] None [demo_task 1] [] [] 7 2); [reflexivity|apply signal_none; set_solver].
Qed.

Lemma demo_freed_reachable : reachable_pool demo_freed.
Proof.
  set (P h c sh st := mkPool [demo_task 1; demo_task 2] 1 2 h 0 c sh st).
  pose proof (reach_step _ _ demo_queued_reachable (step_destroy (P 0 2 0 1) [Ready] _ [] [] 1 (P 0 2 2 1) eq_refl)) as R1.
  pose proof (reach_step _ _ R1 (step_take (P 0 2 2 1) [Ready] _ _ [] [] 0%nat (P 1 1 2 1) (demo_task 1) eq_refl eq_refl)) as R2.
  pose proof (reach_step _ _ R2 (step_run (P 1 1 2 1) [Busy (demo_task 1)] _ _ _ _ _ [] 0%nat (demo_task 1) eq_refl)) as R3.
  pose proof (reach_step _ _ R3 (step_take (P 1 1 2 1) [Ready] _ _ _ _ 0%nat (P 0 0 2 1) (demo_task 2) eq_refl eq_refl)) as R4.
  pose proof (reach_step _ _ R4 (step_run (P 0 0 2 1) [Busy (demo_task 2)] _ _ _ _ _ _ 0%nat (demo_task 2) eq_refl)) as R5.
  pose proof (reach_step _ _ R5 (step_leave (P 0 0 2 1) [Ready] _ _ _ _ 0%nat (P 0 0 2 0) eq_refl eq_refl)) as R6.
  pose proof (reach_step _ _ R6 (step_join (P 0 0 2 0) [Ended] _ 0%nat _ _ _ _ eq_refl eq_refl)) as R7.
  refine (reach_step _ _ R7 (step_free (P 0 0 2 0) [Ended] 1%nat _ _ _ _ eq_refl)). simpl. lia.
Qed.

Lemma pool_runs_tasks_witness : Forall (fun w => w = Ended) (workers demo_freed) /\ finished demo_freed ≡ₚ accepted demo_freed.
Proof.
  destruct (pool_runs_tasks demo_freed demo_freed_reachable) as (_ & _ & Hf).
  destruct (Hf eq_refl ltac:(discriminate)) as [Hw Hg]. split; [exact Hw|exact (Hg eq_refl)].
Defined.

Lemma pool_progress_witness :
  exists s', step demo_queued s' /\ (length (taken s') + length (finished s') = 1)%nat.
Proof.
  destruct (pool_progress demo_queued demo_queued_reachable eq_refl) as [Hp _].
  exact (Hp eq_refl ltac:(discriminate) ltac:(reflexivity) ltac:(discriminate)).
Defined.
